(* ===== verification/_CoqProject ===== *)
-Q . S2P
Prelude.v
Stm.v
SigSet.v
Bitmap.v
ListHead.v
Kernel.v
Sched.v
Ipc.v
IpcInv.v
Rendezvous.v
Receive.v
IpcProps.v
System.v
SystemProps.v
Grant.v
GrantProps.v
Timer.v
Clock.v
ClockEvent.v
Irq.v
IrqProps.v
KernelErrors.v
HoleAlloc.v
Coro.v
CoroProps.v
FileLock.v
PmProc.v
Futex.v
Pm.v
PmCalls.v
PmInv.v
PmProps.v
PmSignals.v
PmLife.v
PmErrors.v
FutexProps.v
WaitQueue.v
Pipe.v
PipeProps.v
EventFd.v
PageCache.v
FsCache.v
FsCacheProps.v
Avl.v
AvlTree.v
AvlProps.v
AvlIter.v
AvlRefine.v
Idr.v
Region.v
RegionProps.v
RegionPages.v
RegionUnmap.v
RegionRange.v
RegionSpace.v
TreeErrors.v
FdTable.v
FdProps.v
FileErrors.v
