(* ===== verification/Prelude.v ===== *)
(** * Lyos: a verification development of the Lyos microkernel

    Lyos is an operating system of a small kernel and servers that talk to each
    other by messages. The kernel (kernel/) schedules processes, passes messages
    between them, checks memory grants, keeps time and carries out kernel calls
    for privileged processes; servers (servers/) manage memory, processes and
    files, and run their work on coroutines (lib/libcoro). The development
    models the kernel's core, the libraries it shares with the servers
    (lib/liblyos bitmaps, timers, grants, identifiers), the page allocators, the
    page cache and the address spaces of the memory manager, the process manager,
    the locks of the coroutine library, the block cache of the file systems
    (lib/libfsdriver), and of the file server the record locks, wait queues, pipes,
    event counters and descriptor tables; it proves what makes each of them
    correct.

    ** Files and what they model

    - [Prelude]: record update for assignments to members of structs, the
      outcome monad [res], machine integers and flags, shared lemmas, tactics.
    - [Stm]: programs with state that may fail, for the servers: weakest
      preconditions, invariants kept by a program, loops.
    - [SigSet]: signal numbers and sets of signals (the C library's signal.h).
    - [Bitmap]: include/lyos/bitmap.h and lib/liblyos/bitmap.c, words of 64 bits.
    - [ListHead]: include/lyos/list.h on a heap of [next] and [prev] pointers.
    - [Kernel]: the state of the kernel: process and privilege tables, run
      queues, messages (include/kernel/proc.h, include/uapi/lyos/ipc.h), and
      endpoints (include/lyos/endpoint.h). The memory of the processes is an
      abstract type with reads and writes that may fail (class [UserMemory]).
    - [Sched]: kernel/sched.c, the macros that block and unblock a process, and
      the process table at boot ([init_proc] of kernel/proc.c).
    - [Ipc]: kernel/proc.c: [msg_send], [msg_receive], [msg_notify],
      asynchronous messages, deadlock detection, [sys_sendrec].
    - [IpcInv], [Rendezvous], [Receive], [IpcProps]: the invariant of the
      sending queues and of the wait-for relation, its preservation by each
      operation, the refinement to mailboxes, and the claims.
    - [System], [SystemProps]: kernel/system.c and kernel/system/: dispatch,
      signals, fork and clear, privileges, tracing, requests to the memory
      manager, information; and the claims about them.
    - [Grant], [GrantProps]: [verify_grant] and the safe copies
      (kernel/system/sys_safecopy.c, sys_umap.c) and the library that makes
      grants (lib/liblyos/mgrant.c).
    - [Timer]: lib/liblyos/timer.c, with callbacks as arguments.
    - [Clock]: the clock interrupt and the kernel timers of kernel/clock.c, and
      sys_alarm, sys_times, sys_stime.
    - [ClockEvent]: conversion factors, clock sources and clock event devices
      (kernel/clocksource.c, kernel/clockevent.c).
    - [Irq], [IrqProps]: interrupt lines, their handlers and masks, interrupt
      numbers and domains (kernel/interrupt.c) and the call on interrupts
      (kernel/system/sys_irqctl.c).
    - [KernelErrors]: runs of kernel calls and interrupts that go wrong.
    - [HoleAlloc]: physical and virtual memory of the memory manager
      (servers/mm/alloc.c, servers/mm/vmalloc.c).
    - [Coro], [CoroProps]: queues, scheduler, mutexes, condition variables and
      read-write locks of lib/libcoro.
    - [FileLock]: record locks (servers/vfs/lock.c).
    - [PmProc]: the process table of the process manager and its lookups
      (servers/pm/pmproc.h, utils.c), and what leaves the server: a log of the
      calls it makes, answered by the rest of the system (class [World]).
    - [Futex]: servers/pm/futex.c, on the lists of [ListHead].
    - [Pm], [PmCalls]: processes and signals (servers/pm/forkexit.c, signal.c),
      tracing, exec, identities, profiling, and the dispatch and start of
      servers/pm/main.c.
    - [PmInv], [PmProps], [PmSignals], [PmLife], [FutexProps], [PmErrors]: the
      invariant of the table and its preservation by the end of a process; fork
      and the other requests; signals; the reachable states, exit and wait;
      futexes; and runs that go wrong.
    - [WaitQueue]: servers/vfs/wait_queue.c and wait_queue.h, and the flags of
      open and poll.
    - [Pipe], [PipeProps]: servers/vfs/pipe.c, with any number of workers that
      read, write and wait.
    - [EventFd]: servers/vfs/eventfd.c, in the same way.
    - [PageCache]: servers/mm/cache.c, pages by device and by inode, and the order
      in which they are given back.
    - [FsCache], [FsCacheProps]: lib/libfsdriver/cache.c, buffers over block
      devices, with the page cache behind them.
    - [Avl]: include/lyos/avl.h on a heap of nodes; [AvlTree], [AvlProps],
      [AvlIter], [AvlRefine]: trees without pointers, insertion and removal,
      iterators, and the claim about them.
    - [Idr]: lib/liblyos/idr.c.
    - [Region]: servers/mm/region.c, region_avl.c, and the mapping calls of mmap.c;
      [RegionProps], [RegionPages], [RegionUnmap], [RegionRange], [RegionSpace]:
      free ranges, the pages of a region, cutting and splitting, ranges of
      addresses, and the claims about address spaces.
    - [TreeErrors]: runs of trees, identifiers and address spaces that go wrong.
    - [FdTable], [FdProps]: servers/vfs/file.c and the calls on descriptors of
      misc.c, open.c, anon_inodes.c and exec.c.
    - [FileErrors]: paths on which the calls on files go wrong.

    A C function is a Rocq function of the same name; its state is passed
    explicitly, and a loop or a piece of a function that is a definition of its
    own is named after what it does. Tables indexed by process number are
    functions on integers. Integers are [Z], with the conversions to 32 and 64
    bits written out ([wrapu], [wraps]) where the code relies on them. A call of
    [panic], a failed assertion, a dereference of NULL and a use of a pointer
    to nothing are values of [res], so that theorems say that they do not
    happen. The architecture is 64-bit x86 where it matters.

    ** What the theorems show

    - Message passing: every sequence of calls keeps the queues, the wait-for
      relation and the scheduler consistent, from the state at boot on; send
      and receive implement first-in first-out mailboxes with every error case;
      deadlock detection is exact; what is sent is received; notifications are
      not lost.
    - Scheduling: changes of process states keep run queues and their bitmap
      consistent; [pick_proc] chooses what it promises.
    - Kernel calls: signals reach their manager and are collected once; the
      mask of kernel calls is enforced; suspended calls reach the memory
      manager in order.
    - Grants: an access is accepted exactly when a bounded chain of grants
      justifies it, stays in the region offered, and a grant is never accepted
      again once revoked.
    - Time: alarms are delivered when due, a clock interrupt fires exactly the
      timers that are due, timer expiry ends; conversions do not overflow and
      devices are programmed within their limits.
    - Interrupts: a line is masked exactly while one of its handlers has work
      to do, whatever is installed, removed, enabled or disabled; an interrupt
      runs each handler once.
    - Memory: every address is free or in exactly one block after any sequence
      of allocations and frees; freeing undoes allocating.
    - Address spaces: in every state that mapping and unmapping reach, whatever
      the allocators answer, regions are apart and aligned, and the region of an
      address is found; unmapping takes away exactly the pages of its range and
      mapping adds exactly a free one, as seen from what each address shows.
    - Locks: a writer of a read-write lock excludes everybody and no waiting
      thread is forgotten; a record lock is refused exactly for a conflict.
    - Processes: in every state the process manager reaches the process table
      is well formed, and SIGKILL can be neither blocked nor caught; fork, kill
      and the delivery of blocked signals do what they promise on every branch;
      exit and wait commute; futexes refine queues of waiting processes.
    - Pipes and event counters: for any interleaving of workers a pipe is a
      first-in first-out queue of bytes, and a write of at most PIPE_BUF bytes is
      atomic; an event counter stays in range and loses no count.
    - Caches: without the page cache the buffers and the devices together
      implement a store of blocks, whatever is evicted in between, and a flush
      brings every block that is not held to its device.
    - Descriptors: for any sequence of calls no assertion fails and the counts of
      files and of tables are exact; dup2 and close do what they promise.
    - Data structures: bit searches; list operations on pointers refine sequences,
      balanced trees refine sorted sequences, and identifiers refine finite maps;
      endpoints pack and unpack.
    - The claims at the end of the list are about paths on which the code does
      not do what it means to; each has a concrete run or a family of runs.

    ** Fuel and bounds

    Loops that follow pointers or search tables take fuel. [CHAIN_FUEL] (the
    sending queues and the chains of deadlock detection) is the number of
    processes, and the invariants say that a queue has no repetitions, so the
    loops end; [OutOfFuel] is excluded by the theorems, except where a claim is
    that a loop does not end. Loops over tables recurse on the number of
    entries. [verify_grant] follows at most [MAX_INDIRECT_DEPTH] links as the
    code does; the chains of hooks ([HOOK_FUEL]) and [broadcast_loop] of the
    coroutines have one step more than there are hooks or threads. In the process
    manager, [FORK_FUEL] and [PID_FUEL] bound the searches of [do_fork], which
    the theorem on fork shows to end; [QUEUE_FUEL] is one more than the length a
    futex queue can have; [SIG_FUEL] bounds the recursion of [sig_proc] through
    the end of a process and the signal to its parent, and the theorems on the
    end of a process show that it does not run out when the kernel delivers
    SIGCHLD. In the block cache [scatter_loop] has as many steps as there are
    buffers. Tables of descriptors grow up to 2^30 entries: the theorem on
    descriptors takes as legal the calls that do not go beyond. The recursions on
    trees take a fuel above the number of nodes, which bounds their depth. The
    iterators have [ITER_FUEL], 34 steps, for the 32 levels their path has room
    for; the theorems that use them ask for trees of at most 32 levels, those on
    mapping and unmapping for at most 29 before the call, since a call adds three
    at most. They take as legal the calls whose ranges do not wrap around, at
    addresses that are multiples of the page size and, with MAP_FIXED, not 0.

    ** Not modelled

    Processor state, traps, page table formats and everything under kernel/arch
    are below the model: memory is a parameter, and the copy between processes
    is one operation that may fail. Locks between processors are left out: an
    operation of the kernel is atomic, and its processor is an argument.
    Interrupt controllers, the hypervisor, profiling and SMP start-up work on
    devices; a controller is the list of operations it has and a log of calls.
    In the memory manager the page tables, the contents and the counts of pages,
    page faults and the types of regions are left out: what the operations of a
    region type answer and the pages a region is filled with are parameters, and a
    range that leaves the page tables is recorded. Of the servers, the rest of the
    file server (paths, mounts, sockets, polling, reading and writing through file
    systems) is not modelled: most of its operations are exchanges of messages
    with programs outside the model. In what is modelled of the file server, the
    locks of files and inodes, what releasing an inode does, the mount of the
    pipes and the queue entries of polls are left out; calls on descriptors run
    one after the other. That the block cache implements a store of blocks is
    shown for a cache without the page cache: with it a stale block can be
    served, as one of the last claims shows. What other programs answer, what
    devices answer, whether allocations succeed and the value of PIPE_BUF are
    parameters.
    Drivers, file systems, the network, libraries of drivers and the tool chain
    are input and output or third-party code. In the coroutine library, creating
    and joining threads and their stacks are left out. *)

From Stdlib Require Export ZArith Lia.
From stdpp Require Export base tactics numbers list functions option sets gmap relations.

#[global] Open Scope Z_scope.

(** ** Record update

    [r <| f := v |>] is the record [r] with the field [f] replaced, the model
    of an assignment [r->f = v] to one member of a struct. A record type
    declares how it is put together from its fields ([Rebuild]); the update of
    each field is then derived. *)

Class Rebuild (R : Type) := rebuild : R -> R.
Class FieldUpdate {R T : Type} (proj : R -> T) :=
  field_update : (T -> T) -> R -> R.

Ltac derive_update :=
  match goal with
  | |- @FieldUpdate ?R ?T ?proj =>
      let body := eval hnf in (@rebuild R _) in
      lazymatch eval pattern proj in body with
      | (fun _ => ?k) _ => fail "not a field of the record"
      | ?k _ =>
          let t := eval cbv beta in (fun u : T -> T => k (fun r => u (proj r)))
          in exact t
      end
  end.
#[export] Hint Extern 0 (FieldUpdate _) => derive_update : typeclass_instances.

Declare Scope lyos_scope.
Delimit Scope lyos_scope with lyos.
#[global] Open Scope lyos_scope.

Notation "r <| p := v |>" := (field_update (proj := p) (fun _ => v) r)
  (at level 1, left associativity, format "r  <| p  :=  v |>") : lyos_scope.
Notation "r <| p ::= f |>" := (field_update (proj := p) f r)
  (at level 1, left associativity, format "r  <| p  ::=  f |>") : lyos_scope.

(** ** Error numbers (the C library's errno.h) *)

Definition EPERM : Z := 1.
Definition ENOENT : Z := 2.
Definition ESRCH : Z := 3.
Definition EINTR : Z := 4.
Definition EIO : Z := 5.
Definition E2BIG : Z := 7.
Definition EBADF : Z := 9.
Definition ECHILD : Z := 10.
Definition EAGAIN : Z := 11.
Definition ENOMEM : Z := 12.
Definition EFAULT : Z := 14.
Definition EBUSY : Z := 16.
Definition EEXIST : Z := 17.
Definition EINVAL : Z := 22.
Definition ENOSPC : Z := 28.
Definition EDEADLK : Z := 45.
Definition ENOLCK : Z := 46.
Definition ENOSYS : Z := 88.
Definition ELOOP : Z := 92.

(** The size of a page, for the machines with pages of 4 KiB. *)
Definition ARCH_PG_SIZE : Z := 4096.

(** ** Outcomes of kernel code

    A routine either returns, or stops the machine: a failed [assert] or a call
    of [panic], a dereference of a null pointer, a loop that outlives the fuel
    its model gives it, or a use of a pointer to nothing that exists. *)

Inductive crash :=
| Panic
| NullDeref
| OutOfFuel
| BadPtr.

Inductive res (A : Type) :=
| Ret (a : A)
| Crash (c : crash).
Arguments Ret {A} a.
Arguments Crash {A} c.

#[export] Instance res_mret : MRet res := fun A a => Ret a.
#[export] Instance res_mbind : MBind res := fun A B f m =>
  match m with
  | Ret a => f a
  | Crash c => Crash c
  end.

(** Dereference of a pointer that may be null. *)
Definition deref {A} (o : option A) : res A :=
  match o with
  | Some a => Ret a
  | None => Crash NullDeref
  end.

Definition returns {A} (m : res A) : Prop := exists a, m = Ret a.

Lemma res_ret_bind {A B} (a : A) (f : A -> res B) : (Ret a ≫= f) = f a.
Proof. done. Qed.

Lemma res_bind_Ret {A B} (m : res A) (f : A -> res B) b :
  (m ≫= f) = Ret b -> exists a, m = Ret a /\ f a = Ret b.
Proof. destruct m as [a|c]; cbn; [eauto | discriminate]. Qed.

(** ** Flag words

    [x & f] used as a condition, [x |= f] and [x &= ~f] of C on an [int]: the
    two's complement of a C [int] is the infinite one of [Z.lnot]. *)

Definition has_flag (x f : Z) : bool := negb (Z.land x f =? 0).
Definition set_flag (x f : Z) : Z := Z.lor x f.
Definition clear_flag (x f : Z) : Z := Z.land x (Z.lnot f).

Create Rewrite HintDb flags.
Create HintDb lyos.

Lemma land_lor_absorb x f : Z.land (Z.lor x f) f = f.
Proof.
  apply Z.bits_inj'. intros n Hn. rewrite Z.land_spec, Z.lor_spec.
  destruct (Z.testbit x n), (Z.testbit f n); reflexivity.
Qed.

Lemma land_lnot_self x f : Z.land (Z.land x (Z.lnot f)) f = 0.
Proof.
  apply Z.bits_inj'. intros n Hn.
  rewrite !Z.land_spec, Z.lnot_spec, Z.bits_0 by done.
  destruct (Z.testbit x n), (Z.testbit f n); reflexivity.
Qed.

Lemma has_flag_set_same x f : f <> 0 -> has_flag (set_flag x f) f = true.
Proof.
  intros Hf. unfold has_flag, set_flag. rewrite land_lor_absorb.
  apply negb_true_iff, Z.eqb_neq. done.
Qed.

Lemma has_flag_set_both x f g :
  f <> 0 -> g <> 0 ->
  has_flag (set_flag x (Z.lor f g)) f = true /\ has_flag (set_flag x (Z.lor f g)) g = true.
Proof.
  unfold set_flag. intros. split; [rewrite (Z.lor_comm f)|];
    rewrite Z.lor_assoc; by apply has_flag_set_same.
Qed.

Lemma has_flag_set_other x g f :
  Z.land g f = 0 -> has_flag (set_flag x g) f = has_flag x f.
Proof.
  intros Hgf. unfold has_flag, set_flag.
  rewrite Z.land_lor_distr_l, Hgf, Z.lor_0_r. done.
Qed.

Lemma has_flag_clear_same x f : has_flag (clear_flag x f) f = false.
Proof. unfold has_flag, clear_flag. by rewrite land_lnot_self. Qed.

Lemma has_flag_clear_other x g f :
  Z.land g f = 0 -> has_flag (clear_flag x g) f = has_flag x f.
Proof.
  intros Hgf. unfold has_flag, clear_flag. do 2 f_equal.
  apply Z.bits_inj'. intros n Hn.
  rewrite !Z.land_spec, Z.lnot_spec by done.
  assert (Z.testbit (Z.land g f) n = false) as Hb by (rewrite Hgf; apply Z.bits_0).
  rewrite Z.land_spec in Hb.
  destruct (Z.testbit x n), (Z.testbit g n), (Z.testbit f n); try done.
Qed.

Lemma has_flag_clear_sub x g f : has_flag (clear_flag x g) f = true -> has_flag x f = true.
Proof.
  unfold has_flag, clear_flag. rewrite !negb_true_iff, !Z.eqb_neq. intros Hne He. apply Hne.
  by rewrite <- Z.land_assoc, (Z.land_comm (Z.lnot g)), Z.land_assoc, He, Z.land_0_l.
Qed.

Lemma set_flag_zero x f : set_flag x f = 0 -> x = 0 /\ f = 0.
Proof. apply Z.lor_eq_0_iff. Qed.

Lemma has_flag_nonzero x f : has_flag x f = true -> x <> 0.
Proof. intros H ->. unfold has_flag in H. rewrite Z.land_0_l in H. done. Qed.

Lemma has_flag_zero f : has_flag 0 f = false.
Proof. unfold has_flag. by rewrite Z.land_0_l. Qed.

Lemma clear_flag_disjoint x f : Z.land x f = 0 -> clear_flag x f = x.
Proof.
  intros Hd. unfold clear_flag. apply Z.bits_inj'. intros n Hn.
  assert (Z.testbit (Z.land x f) n = false) as Hb by (rewrite Hd; apply Z.bits_0).
  rewrite Z.land_spec in *. rewrite Z.lnot_spec by done.
  destruct (Z.testbit x n), (Z.testbit f n); done.
Qed.

Lemma clear_set_flag x f : has_flag x f = false -> clear_flag (set_flag x f) f = x.
Proof.
  unfold has_flag. rewrite negb_false_iff, Z.eqb_eq. intros Hd.
  unfold set_flag. transitivity (clear_flag x f); [|by apply clear_flag_disjoint].
  unfold clear_flag. rewrite Z.land_lor_distr_l, Z.land_lnot_diag. apply Z.lor_0_r.
Qed.

#[export] Hint Rewrite has_flag_clear_same has_flag_zero : flags.
#[export] Hint Rewrite has_flag_set_same using (vm_compute; discriminate) : flags.
#[export] Hint Rewrite has_flag_set_other using reflexivity : flags.
#[export] Hint Rewrite has_flag_clear_other using reflexivity : flags.

(** ** Machine words *)

Definition wrapu (w x : Z) : Z := x mod 2 ^ w.
(** Conversion to a signed integer of [w] bits. *)
Definition wraps (w x : Z) : Z := wrapu w (x + 2 ^ (w - 1)) - 2 ^ (w - 1).
Definition notu (w x : Z) : Z := wrapu w (Z.lnot x).

Lemma wrapu_range w x : 0 <= w -> 0 <= wrapu w x < 2 ^ w.
Proof. intros. apply Z.mod_pos_bound. lia. Qed.

Lemma wrapu_small w x : 0 <= x < 2 ^ w -> wrapu w x = x.
Proof. intros. by apply Z.mod_small. Qed.

Lemma wraps_small w x : 0 < w -> - 2 ^ (w - 1) <= x < 2 ^ (w - 1) -> wraps w x = x.
Proof.
  intros Hw Hx. unfold wraps. rewrite wrapu_small; [lia|].
  assert (2 ^ w = 2 * 2 ^ (w - 1)) as ->; [|lia].
  rewrite <- Z.pow_succ_r by lia. f_equal. lia.
Qed.

Lemma wraps_testbit w x n : 0 <= n < w -> Z.testbit (wraps w x) n = Z.testbit x n.
Proof.
  intros Hn. rewrite <- (Z.mod_pow2_bits_low (wraps w x) w) by lia.
  rewrite <- (Z.mod_pow2_bits_low x w) by lia. f_equal.
  unfold wraps, wrapu. rewrite Zminus_mod_idemp_l. f_equal. lia.
Qed.

Lemma testbit_notu w x n :
  0 <= n < w -> Z.testbit (notu w x) n = negb (Z.testbit x n).
Proof.
  intros Hn. unfold notu, wrapu.
  rewrite Z.mod_pow2_bits_low by lia. apply Z.lnot_spec. lia.
Qed.

Lemma testbit_notu_high w x n :
  0 <= w <= n -> Z.testbit (notu w x) n = false.
Proof. intros Hn. unfold notu, wrapu. apply Z.mod_pow2_bits_high. lia. Qed.

Lemma testbit_above w x n :
  0 <= x < 2 ^ w -> w <= n -> Z.testbit x n = false.
Proof.
  intros Hx Hn. destruct (decide (x = 0)) as [->|]; [apply Z.bits_0|].
  apply Z.bits_above_log2; [lia|].
  enough (Z.log2 x < w) by lia. apply Z.log2_lt_pow2; lia.
Qed.

Lemma bits_range w x :
  0 <= w -> 0 <= x -> (forall n, w <= n -> Z.testbit x n = false) -> x < 2 ^ w.
Proof.
  intros Hw Hx Hb. destruct (decide (x = 0)) as [->|]; [lia|].
  apply Z.log2_lt_pow2; [lia|].
  destruct (Z.lt_ge_cases (Z.log2 x) w) as [|Hge]; [done|].
  pose proof (Z.bit_log2 x ltac:(lia)). rewrite Hb in *; congruence.
Qed.

(** A field of [k] bits below another one. *)
Lemma lor_shiftl_add k x y :
  0 <= k -> 0 <= y < 2 ^ k -> Z.lor (Z.shiftl x k) y = x * 2 ^ k + y.
Proof.
  intros Hk Hy. rewrite <- Z.add_nocarry_lor, Z.shiftl_mul_pow2 by
    (done || (apply Z.bits_inj'; intros i Hi; rewrite Z.land_spec, Z.bits_0;
     destruct (Z.lt_ge_cases i k);
       [by rewrite Z.shiftl_spec_low|by rewrite (testbit_above k y), andb_false_r])). done.
Qed.

(** ** Decisions in hypotheses *)

Ltac b2p_hyp :=
  match goal with
  | H : (_ && _)%bool = true |- _ => apply andb_true_iff in H; destruct H
  | H : (_ || _)%bool = false |- _ => apply orb_false_iff in H; destruct H
  | H : negb _ = true |- _ => apply negb_true_iff in H
  | H : negb _ = false |- _ => apply negb_false_iff in H
  | H : (_ =? _) = true |- _ => apply Z.eqb_eq in H
  | H : (_ =? _) = false |- _ => apply Z.eqb_neq in H
  | H : (_ <? _) = true |- _ => apply Z.ltb_lt in H
  | H : (_ <? _) = false |- _ => apply Z.ltb_ge in H
  | H : (_ <=? _) = true |- _ => apply Z.leb_le in H
  | H : (_ <=? _) = false |- _ => apply Z.leb_gt in H
  end.
Ltac b2p := repeat b2p_hyp.

(** Case analysis on the condition of an [if] of the goal or of a hypothesis. *)
Ltac case_cond :=
  match goal with
  | |- context [if ?b then _ else _] => destruct b eqn:?
  | H : context [if ?b then _ else _] |- _ => destruct b eqn:?
  end.

(** ** Lists *)

Lemma NoDup_middle {A} (l1 l2 : list A) x :
  NoDup (l1 ++ x :: l2) <-> x ∉ l1 ++ l2 /\ NoDup (l1 ++ l2).
Proof. rewrite <- Permutation_middle. apply NoDup_cons. Qed.

Lemma NoDup_perm {A} (l l' : list A) : l ≡ₚ l' -> NoDup l -> NoDup l'.
Proof. by intros ->. Qed.

Create Rewrite HintDb member.
#[export] Hint Rewrite @elem_of_cons @elem_of_app @elem_of_nil : member.

(** Splits [NoDup] and non-membership hypotheses into atoms. *)
Ltac nodup_simpl :=
  repeat match goal with
  | H : NoDup [] |- _ => clear H
  | H : NoDup (_ :: _) |- _ => apply NoDup_cons in H; destruct H
  | H : NoDup (_ ++ _ :: _) |- _ => apply NoDup_middle in H; destruct H
  | H : _ ∉ [] |- _ => clear H
  | H : _ ∉ _ :: _ |- _ => apply not_elem_of_cons in H; destruct H
  | H : _ ∉ _ ++ _ |- _ => apply not_elem_of_app in H; destruct H
  end.

(** Closed decidable propositions by evaluation. *)
Ltac by_decide := apply (bool_decide_unpack _); vm_compute; exact I.

(** Membership by propositional reasoning on atoms. *)
Ltac member := autorewrite with member in *; intuition congruence.

Lemma filter_ne_notin (l : list Z) n : n ∉ l -> filter (fun x => x <> n) l = l.
Proof.
  induction l as [|x l IH]; intros Hn; [done|]. apply not_elem_of_cons in Hn as [Hx Hn].
  rewrite filter_cons_True by done. by rewrite IH.
Qed.

Lemma NoDup_bounded_length (l : list Z) lo hi :
  NoDup l -> (forall x, x ∈ l -> lo <= x < hi) ->
  (length l <= Z.to_nat (hi - lo))%nat.
Proof.
  intros Hnd Hin.
  rewrite <- (length_seqZ lo (hi - lo)).
  apply submseteq_length, NoDup_submseteq; [done|].
  intros x Hx. apply elem_of_seqZ. specialize (Hin x Hx). lia.
Qed.

(** The first place from [lo] on where a test holds. *)
Lemma least_true (f : Z -> bool) (lo k : Z) :
  lo <= k -> f k = true ->
  exists m, lo <= m <= k /\ f m = true /\ forall j, lo <= j < m -> f j = false.
Proof.
  intros Hle Hk. replace k with (lo + Z.of_nat (Z.to_nat (k - lo))) in * by lia.
  set (n := Z.to_nat (k - lo)) in *. clearbody n. clear Hle.
  revert lo Hk. induction n as [|n IH]; intros lo Hk.
  - exists lo. rewrite Z.add_0_r in Hk. repeat split; [lia..|done|lia].
  - destruct (f lo) eqn:Hlo.
    + exists lo. repeat split; [lia..|done|lia].
    + destruct (IH (lo + 1)) as (m & Hm & Hfm & Hmin).
      { rewrite <- Hk. f_equal. lia. }
      exists m. repeat split; [lia..|done|].
      intros j Hj. destruct (decide (j = lo)) as [->|]; [done|]. apply Hmin. lia.
Qed.

Lemma list_filter_ext {A} (P Q : A -> Prop) `{!forall x, Decision (P x), !forall x, Decision (Q x)} (l : list A) :
  (forall x, x ∈ l -> P x <-> Q x) -> filter P l = filter Q l.
Proof.
  induction l as [|x l IH]; intros Hx; [done|]. rewrite !filter_cons, IH by (intros; apply Hx; by right).
  assert (P x <-> Q x) by (apply Hx; by left). by repeat case_decide; try tauto.
Qed.

Lemma list_filter_id {A} (P : A -> Prop) `{!forall x, Decision (P x)} (l : list A) :
  (forall x, x ∈ l -> P x) -> filter P l = l.
Proof.
  induction l as [|x l IH]; intros Hx; [done|].
  rewrite filter_cons_True by (apply Hx; by left). f_equal. apply IH. intros y Hy. apply Hx. by right.
Qed.
