(* ===== verification/Stm.v ===== *)
(** * Programs with state that may fail

    The handlers of the servers read and write the globals of their server and
    can fail by a bad pointer, a call of [panic] or (in the model) by running
    out of fuel: [stm S A] is a program with state [S] and result [A]. [wp] is
    its weakest precondition; the argument [E] says which failures are
    tolerated, so that [wp nofail] is total and [wp anyfail] partial
    correctness. The database [wp] collects the specifications of procedures. *)

From S2P Require Import Prelude.

Definition stm (S A : Type) : Type := S -> res (S * A).

#[export] Instance stm_mret {S} : MRet (stm S) := fun A a s => Ret (s, a).
#[export] Instance stm_mbind {S} : MBind (stm S) := fun A B f m s =>
  match m s with
  | Ret (s', a) => f a s'
  | Crash c => Crash c
  end.

Definition fail {S A} (c : crash) : stm S A := fun _ => Crash c.
Definition gets {S A} (f : S -> A) : stm S A := fun s => Ret (s, f s).
Definition modify {S} (f : S -> S) : stm S unit := fun s => Ret (f s, tt).
Definition when {S} (b : bool) (m : stm S unit) : stm S unit := if b then m else mret tt.

(** A loop over [l] whose body may leave the function with a result. *)
Fixpoint loop {S A R} (l : list A) (body : A -> stm S (option R)) : stm S (option R) :=
  match l with
  | [] => mret None
  | x :: l =>
      r ← body x;
      match (r : option R) with
      | Some r => mret (Some r)
      | None => loop l body
      end
  end.

(** A loop that runs to its end. *)
Fixpoint each {S A} (l : list A) (body : A -> stm S unit) : stm S unit :=
  match l with
  | [] => mret tt
  | x :: l => _ ← body x; each l body
  end.

(** ** Weakest preconditions *)

Definition wp {S A} (E : crash -> Prop) (m : stm S A) (Q : A -> S -> Prop) (s : S) : Prop :=
  match m s with
  | Ret (s', a) => Q a s'
  | Crash c => E c
  end.

Definition nofail (c : crash) : Prop := False.
Definition anyfail (c : crash) : Prop := True.

Section wp.
Context {S : Type} (E : crash -> Prop).
Implicit Types s : S.

Lemma wp_bind {A B} (m : stm S A) (f : A -> stm S B) Q s :
  wp E m (fun a s' => wp E (f a) Q s') s -> wp E (m ≫= f) Q s.
Proof. unfold wp, mbind, stm_mbind. by destruct (m s) as [[s' a]|c]. Qed.

Lemma wp_ret {A} (a : A) Q s : Q a s -> wp E (mret a) Q s.
Proof. done. Qed.

Lemma wp_fail {A} c (Q : A -> S -> Prop) s : E c -> wp E (fail c) Q s.
Proof. done. Qed.

Lemma wp_gets {A} (f : S -> A) Q s : Q (f s) s -> wp E (gets f) Q s.
Proof. done. Qed.

Lemma wp_modify (f : S -> S) Q s : Q tt (f s) -> wp E (modify f) Q s.
Proof. done. Qed.

Lemma wp_when (b : bool) (m : stm S unit) Q s :
  (b = true -> wp E m Q s) -> (b = false -> Q tt s) -> wp E (when b m) Q s.
Proof. destruct b; cbn; auto. Qed.

Lemma wp_mono {A} (m : stm S A) (Q Q' : A -> S -> Prop) s :
  wp E m Q s -> (forall a s', Q a s' -> Q' a s') -> wp E m Q' s.
Proof. unfold wp. destruct (m s) as [[s' a]|c]; auto. Qed.

Lemma wp_and {A} (m : stm S A) (Q Q' : A -> S -> Prop) s :
  wp E m Q s -> wp E m Q' s -> wp E m (fun a s' => Q a s' /\ Q' a s') s.
Proof. unfold wp. destruct (m s) as [[s' a]|c]; auto. Qed.

Lemma wp_each {A} (l : list A) (body : A -> stm S unit) (I : S -> Prop) s :
  (forall x s, x ∈ l -> I s -> wp E (body x) (fun _ => I) s) -> I s -> wp E (each l body) (fun _ => I) s.
Proof.
  revert s. induction l as [|x l IH]; intros s Hb Hs; cbn; [done|].
  apply wp_bind. eapply wp_mono; [apply Hb; [set_solver|done]|].
  intros [] s' Hs'. apply IH; [|done]. intros y s0 Hy. apply Hb. set_solver.
Qed.

Lemma wp_loop {A R} (l : list A) (body : A -> stm S (option R)) (I : S -> Prop) Q s :
  (forall x s, x ∈ l -> I s ->
     wp E (body x) (fun r s' => match r with Some r => Q (Some r) s' | None => I s' end) s) ->
  (forall s, I s -> Q None s) -> I s -> wp E (loop l body) Q s.
Proof.
  intros Hb Hend. revert s. induction l as [|x l IH]; intros s Hs; cbn; [by apply wp_ret, Hend|].
  apply wp_bind. eapply wp_mono; [apply Hb; [set_solver|done]|].
  intros [r|] s' Hs'; [done|]. apply IH; [|done]. intros y s0 Hy. apply Hb. set_solver.
Qed.

End wp.

Lemma wp_weaken {S A} (E E' : crash -> Prop) (m : stm S A) Q (s : S) :
  (forall c, E c -> E' c) -> wp E m Q s -> wp E' m Q s.
Proof. unfold wp. destruct (m s) as [[s' a]|c]; auto. Qed.

Lemma wp_result {S A} E (m : stm S A) Q (s s' : S) a :
  wp E m Q s -> m s = Ret (s', a) -> Q a s'.
Proof. unfold wp. intros H He. by rewrite He in H. Qed.

Lemma wp_returns {S A} (m : stm S A) Q (s : S) :
  wp nofail m Q s -> exists s' a, m s = Ret (s', a) /\ Q a s'.
Proof. unfold wp. destruct (m s) as [[s' a]|c]; [eauto|done]. Qed.

Lemma each_app {S A} (l1 l2 : list A) (body : A -> stm S unit) s :
  each (l1 ++ l2) body s = (_ ← each l1 body; each l2 body) s.
Proof.
  revert s. induction l1 as [|x l1 IH]; intros s; [done|]. cbn. unfold mbind, stm_mbind in *.
  destruct (body x s) as [[s' []]|]; [apply IH|done].
Qed.

Lemma each_skip {S A} (l : list A) (body : A -> stm S unit) s :
  (forall x, x ∈ l -> body x s = Ret (s, tt)) -> each l body s = Ret (s, tt).
Proof.
  induction l as [|x l IH]; intros Hb; [done|]. cbn. unfold mbind, stm_mbind in *.
  rewrite Hb by set_solver. apply IH. set_solver.
Qed.

Create HintDb wp.

(** One step of symbolic execution; procedures by the database [wp]. *)
Ltac wp_step :=
  lazymatch goal with
  | |- wp _ (mbind _ _) _ _ => apply wp_bind
  | |- wp _ (mret _) _ _ => apply wp_ret
  | |- wp _ (gets _) _ _ => apply wp_gets
  | |- wp _ (modify _) _ _ => apply wp_modify
  | |- wp _ (fail _) _ _ => apply wp_fail
  | |- wp _ (when _ _) _ _ => apply wp_when; intros ?
  | |- wp _ (if ?b then _ else _) _ _ => destruct b eqn:?
  | |- wp _ (let _ := _ in _) _ _ => cbv zeta
  | |- wp _ _ _ _ => eapply wp_mono; [solve [eauto with wp]|]
  | |- anyfail _ => exact I
  end.

(** ** Invariants

    [keeps I m]: when [m] returns, [I] holds again. *)

Definition keeps {S A} (I : S -> Prop) (m : stm S A) : Prop :=
  forall s, I s -> wp anyfail m (fun _ => I) s.

Section keeps.
Context {S : Type} (I : S -> Prop).

Lemma keeps_at {A} (m : stm S A) s : keeps I m -> I s -> wp anyfail m (fun _ => I) s.
Proof. auto. Qed.

Lemma keeps_bind {A B} (m : stm S A) (f : A -> stm S B) :
  keeps I m -> (forall a, keeps I (f a)) -> keeps I (m ≫= f).
Proof. intros Hm Hf s Hs. apply wp_bind. eapply wp_mono; [by apply Hm|]. intros a s'. apply Hf. Qed.

Lemma keeps_ret {A} (a : A) : keeps I (mret a).
Proof. by intros s. Qed.
Lemma keeps_fail {A} c : keeps (A := A) I (fail c).
Proof. by intros s. Qed.
Lemma keeps_gets {A} (f : S -> A) : keeps I (gets f).
Proof. by intros s. Qed.
Lemma keeps_modify f : (forall s, I s -> I (f s)) -> keeps I (modify f).
Proof. intros Hf s Hs. by apply Hf. Qed.
Lemma keeps_if {A} (b : bool) (m m' : stm S A) :
  keeps I m -> keeps I m' -> keeps I (if b then m else m').
Proof. by destruct b. Qed.
Lemma keeps_when b m : keeps I m -> keeps I (when b m).
Proof. intros. by apply keeps_if; [|apply keeps_ret]. Qed.
Lemma keeps_each {A} (l : list A) body :
  (forall x, x ∈ l -> keeps I (body x)) -> keeps I (each l body).
Proof. intros Hb s Hs. apply wp_each; [|done]. intros x s' Hx. by apply Hb. Qed.

(** A program that may need more than the invariant, and then one that keeps it. *)
Lemma wp_then_keeps {A B} (m : stm S A) (f : A -> stm S B) s :
  wp anyfail m (fun _ => I) s -> (forall a, keeps I (f a)) -> wp anyfail (m ≫= f) (fun _ => I) s.
Proof. intros Hm Hf. apply wp_bind. eapply wp_mono; [exact Hm|]. intros a s'. apply Hf. Qed.

End keeps.

Create HintDb keeps.

(** Primitives of a program, to be extended. *)
Ltac keep_prim := fail.

Ltac keep_step :=
  lazymatch goal with
  | |- keeps _ (mbind _ _) => apply keeps_bind; [|intros ?]
  | |- keeps _ (mret _) => apply keeps_ret
  | |- keeps _ (fail _) => apply keeps_fail
  | |- keeps _ (gets _) => apply keeps_gets
  | |- keeps _ (when _ _) => apply keeps_when
  | |- keeps _ (each _ _) => apply keeps_each; intros ? _
  | |- keeps _ (match ?x with _ => _ end) => destruct x
  | |- keeps _ (let _ := _ in _) => cbv zeta
  | |- keeps _ _ => first [keep_prim | solve [eauto with keeps]]
  end.
Ltac keep := repeat keep_step.
