(* ===== verification/SigSet.v ===== *)
(** * Signal numbers and signal sets

    The signals and the macros on [sigset_t] of sys/signal.h of the C library's
    port (toolchain/patches/newlib/lyos/sys/signal.h), shared by the kernel and
    the process manager. A [sigset_t] is an [unsigned long]; [1 << sig] is
    computed on [int], so the bit of signal 31 extends to every bit above, and
    the test for it is a test for any of them. *)

From S2P Require Import Prelude.

Definition NSIG : Z := 32.
Definition SIGINT : Z := 2.
Definition SIGQUIT : Z := 3.
Definition SIGILL : Z := 4.
Definition SIGTRAP : Z := 5.
Definition SIGABRT : Z := 6.
Definition SIGEMT : Z := 7.
Definition SIGFPE : Z := 8.
Definition SIGKILL : Z := 9.
Definition SIGBUS : Z := 10.
Definition SIGSEGV : Z := 11.
Definition SIGTERM : Z := 15.
Definition SIGSTOP : Z := 17.
Definition SIGCONT : Z := 19.
Definition SIGCHLD : Z := 20.
Definition SIGWINCH : Z := 28.
Definition SIGUSR1 : Z := 30.
Definition SIGUSR2 : Z := 31.

Definition sigbit (sig : Z) : Z := wraps 32 (Z.shiftl 1 sig).
Definition sigaddset (set sig : Z) : Z := Z.lor set (wrapu 64 (sigbit sig)).
Definition sigdelset (set sig : Z) : Z := Z.land set (Z.lnot (sigbit sig)).
Definition sigismember (set sig : Z) : bool := negb (Z.land set (sigbit sig) =? 0).

Create Rewrite HintDb sigset.

Lemma sigbit_check (P : Z -> bool) sig :
  0 <= sig < NSIG -> forallb P (seqZ 0 32) = true -> P sig = true.
Proof.
  intros Hs H. rewrite forallb_forall in H. apply H, list_elem_of_In, elem_of_seqZ.
  unfold NSIG in Hs. lia.
Qed.

Lemma testbit_sigbit sig : 0 <= sig < 32 -> Z.testbit (sigbit sig) sig = true.
Proof.
  intros Hs. by apply (sigbit_check (fun x => Z.testbit (sigbit x) x)); [|vm_compute].
Qed.

Lemma testbit_sigaddset set sig : 0 <= sig < 32 -> Z.testbit (sigaddset set sig) sig = true.
Proof.
  intros Hs. unfold sigaddset, wrapu. rewrite Z.lor_spec, Z.mod_pow2_bits_low by lia.
  by rewrite testbit_sigbit, orb_true_r.
Qed.

Lemma testbit_sigismember set sig :
  0 <= sig < 32 -> Z.testbit set sig = true -> sigismember set sig = true.
Proof.
  intros Hs Hb. unfold sigismember. apply negb_true_iff, Z.eqb_neq. intros H.
  assert (Z.testbit (Z.land set (sigbit sig)) sig = false) as Hz by (by rewrite H, Z.bits_0).
  by rewrite Z.land_spec, Hb, testbit_sigbit in Hz.
Qed.

(** A check of all pairs of signals. *)
Lemma sigbit_check2 (P : Z -> Z -> bool) a b :
  0 <= a < NSIG -> 0 <= b < NSIG ->
  forallb (fun x => forallb (P x) (seqZ 0 32)) (seqZ 0 32) = true -> P a b = true.
Proof.
  intros Ha Hb H. apply (sigbit_check (P a)); [done|].
  by apply (sigbit_check (fun x => forallb (P x) (seqZ 0 32))).
Qed.

Lemma land_sigbits a b :
  0 <= a < NSIG -> 0 <= b < NSIG ->
  Z.land (wrapu 64 (sigbit a)) (sigbit b) = (if a =? b then wrapu 64 (sigbit a) else 0) /\
  Z.land (Z.lnot (sigbit a)) (sigbit b) = (if a =? b then 0 else sigbit b).
Proof.
  intros Ha Hb.
  pose proof (sigbit_check2 (fun x y =>
    (Z.land (wrapu 64 (sigbit x)) (sigbit y) =? if x =? y then wrapu 64 (sigbit x) else 0) &&
    (Z.land (Z.lnot (sigbit x)) (sigbit y) =? if x =? y then 0 else sigbit y)) a b Ha Hb
    ltac:(by vm_compute)) as H.
  cbn beta in H. apply andb_true_iff in H as [H1 H2]. by apply Z.eqb_eq in H1, H2.
Qed.

Lemma sigismember_add_same set sig :
  0 <= sig < NSIG -> sigismember (sigaddset set sig) sig = true.
Proof. intros. by apply testbit_sigismember, testbit_sigaddset. Qed.

Lemma sigismember_add set a b :
  0 <= a < NSIG -> 0 <= b < NSIG ->
  sigismember (sigaddset set a) b = (a =? b) || sigismember set b.
Proof.
  intros Ha Hb. destruct (Z.eqb_spec a b) as [->|Hne]; [by apply sigismember_add_same|].
  unfold sigismember, sigaddset. rewrite Z.land_lor_distr_l.
  rewrite (proj1 (land_sigbits a b Ha Hb)). apply Z.eqb_neq in Hne. by rewrite Hne, Z.lor_0_r.
Qed.

Lemma sigismember_del set a b :
  0 <= a < NSIG -> 0 <= b < NSIG ->
  sigismember (sigdelset set a) b = negb (a =? b) && sigismember set b.
Proof.
  intros Ha Hb. unfold sigismember, sigdelset.
  rewrite <- Z.land_assoc, (proj2 (land_sigbits a b Ha Hb)).
  destruct (a =? b); [by rewrite Z.land_0_r|done].
Qed.

Lemma sigismember_0 sig : sigismember 0 sig = false.
Proof. unfold sigismember. by rewrite Z.land_0_l. Qed.

#[export] Hint Rewrite sigismember_0 : sigset.
#[export] Hint Rewrite sigismember_add sigismember_del using (unfold NSIG in *; lia) : sigset.
