(* ===== verification/Bitmap.v ===== *)
(** * Bitmaps

    The bitmaps of the kernel and of the system libraries: the chunk macros of
    include/lyos/bitmap.h and the scanning routines of lib/liblyos/bitmap.c. A
    bitmap is an array of [unsigned long] chunks, here a list of integers below
    [2 ^ 64] (the 64-bit build). The kernel keeps its pending notifications,
    pending asynchronous messages, non-empty run queues and allocated interrupt
    numbers in such bitmaps. *)

From S2P Require Import Prelude.

Definition BITCHUNK_BITS : Z := 64.
Definition BITCHUNKS (bits : Z) : Z := (bits + BITCHUNK_BITS - 1) / BITCHUNK_BITS.

Abbreviation bitmap := (list Z) (only parsing).

Definition chunk (map : bitmap) (index : Z) : Z := nth (Z.to_nat index) map 0.
Definition MAP_CHUNK (map : bitmap) (bit : Z) : Z := chunk map (bit / BITCHUNK_BITS).
Definition CHUNK_OFFSET (bit : Z) : Z := bit mod BITCHUNK_BITS.
Definition GET_BIT (map : bitmap) (bit : Z) : Z :=
  Z.land (MAP_CHUNK map bit) (Z.shiftl 1 (CHUNK_OFFSET bit)).
Definition SET_BIT (map : bitmap) (bit : Z) : bitmap :=
  <[Z.to_nat (bit / BITCHUNK_BITS) :=
      Z.lor (MAP_CHUNK map bit) (Z.shiftl 1 (CHUNK_OFFSET bit))]> map.
Definition UNSET_BIT (map : bitmap) (bit : Z) : bitmap :=
  <[Z.to_nat (bit / BITCHUNK_BITS) :=
      Z.land (MAP_CHUNK map bit)
             (notu 64 (Z.shiftl 1 (CHUNK_OFFSET bit)))]> map.

(** [GET_BIT] used as a condition. *)
Definition test_bit (map : bitmap) (bit : Z) : bool := negb (GET_BIT map bit =? 0).

(** [~0UL << (start & 63)] and [~0UL >> (-nbits & 63)]. *)
Definition BITMAP_FIRST_WORD_MASK (start : Z) : Z :=
  wrapu 64 (Z.shiftl (notu 64 0) (Z.land start (BITCHUNK_BITS - 1))).
Definition BITMAP_LAST_WORD_MASK (nbits : Z) : Z :=
  Z.shiftr (notu 64 0) (Z.land (- nbits) (BITCHUNK_BITS - 1)).

(** The loop over the full chunks: the index at which it stops, which is [lim]
    when the chunks before it are the same. *)
Fixpoint equal_chunks (map1 map2 : bitmap) (k : Z) (n : nat) : bool :=
  match n with
  | O => true
  | S n =>
      if negb (chunk map1 k =? chunk map2 k) then false
      else equal_chunks map1 map2 (k + 1) n
  end.

Definition bitmap_equal (map1 map2 : bitmap) (bits : Z) : bool :=
  let lim := bits / BITCHUNK_BITS in
  if negb (equal_chunks map1 map2 0 (Z.to_nat lim)) then false
  else if negb (bits mod BITCHUNK_BITS =? 0) then
    if negb (Z.land (Z.lxor (chunk map1 lim) (chunk map2 lim))
                    (BITMAP_LAST_WORD_MASK bits) =? 0)
    then false else true
  else true.

(** [while (!(chunk & 1)) { chunk >>= 1; bit++; }] *)
Fixpoint lowest_bit (fuel : nat) (c bit : Z) : option Z :=
  match fuel with
  | O => None
  | S fuel =>
      if Z.land c 1 =? 0 then lowest_bit fuel (Z.shiftr c 1) (bit + 1)
      else Some bit
  end.

(** The loop of [bitmap_find_next_bit]; [n] bounds its iterations. *)
Fixpoint next_bit_loop (n : nat) (map : bitmap) (size index c : Z) : option Z :=
  match n with
  | O => None
  | S n =>
      if index <? BITCHUNKS size then
        if negb (c =? 0) then
          match lowest_bit 64 c (index * BITCHUNK_BITS) with
          | None => None
          | Some bit => Some (if bit <? size then bit else size)
          end
        else if BITCHUNKS size <=? index + 1 then Some size
        else next_bit_loop n map size (index + 1) (chunk map (index + 1))
      else Some size
  end.

Definition bitmap_find_next_bit (map : bitmap) (size start : Z) : option Z :=
  if size <=? start then Some size
  else
    let index := start / BITCHUNK_BITS in
    next_bit_loop (S (Z.to_nat (BITCHUNKS size))) map size index
      (Z.land (chunk map index) (BITMAP_FIRST_WORD_MASK start)).

(** [for (j = index; j < end; j++) if (GET_BIT(map, j)) { i = j; break; }] *)
Fixpoint first_set (map : bitmap) (j : Z) (n : nat) : option Z :=
  match n with
  | O => None
  | S n => if test_bit map j then Some j else first_set map (j + 1) n
  end.

(** The outer loop of [bitmap_find_next_zero_area]: [i] is its counter and
    [index] the variable it returns. After a set bit [j] was met the body adds
    one to [i] and the loop header adds one more. *)
Fixpoint zero_area_loop (fuel : nat) (map : bitmap) (size nr i index : Z) : option Z :=
  match fuel with
  | O => None
  | S fuel =>
      if i <? size then
        if test_bit map i then zero_area_loop fuel map size nr (i + 1) index
        else
          let index := i in
          let end_ := index + nr in
          if size <? end_ then Some end_
          else
            match first_set map index (Z.to_nat nr) with
            | None => Some index
            | Some j => zero_area_loop fuel map size nr (j + 1 + 1) index
            end
      else Some index
  end.

Definition bitmap_find_next_zero_area (map : bitmap) (size start nr : Z) : option Z :=
  zero_area_loop (S (Z.to_nat (size - start))) map size nr start size.

(** A bitmap for [size] bits. *)
Definition wf_bitmap (map : bitmap) (size : Z) : Prop :=
  Forall (fun c => 0 <= c < 2 ^ 64) map /\ BITCHUNKS size <= Z.of_nat (length map).

(** ** Single bits *)

Lemma land_pow2_testbit x k :
  0 <= k -> negb (Z.land x (Z.shiftl 1 k) =? 0) = Z.testbit x k.
Proof.
  intros Hk. rewrite Z.shiftl_1_l.
  assert (Z.land x (2 ^ k) = if Z.testbit x k then 2 ^ k else 0) as ->.
  { apply Z.bits_inj'. intros n Hn. rewrite Z.land_spec, Z.pow2_bits_eqb by lia.
    destruct (Z.eqb_spec k n) as [->|Hne].
    - rewrite andb_true_r. destruct (Z.testbit x n).
      + rewrite Z.pow2_bits_true by lia. done.
      + by rewrite Z.bits_0.
    - rewrite andb_false_r. destruct (Z.testbit x k); [|by rewrite Z.bits_0].
      symmetry. apply Z.pow2_bits_false. done. }
  destruct (Z.testbit x k); [|done].
  apply negb_true_iff, Z.eqb_neq. pose proof (Z.pow_pos_nonneg 2 k). lia.
Qed.

Lemma test_bit_testbit map i :
  test_bit map i = Z.testbit (MAP_CHUNK map i) (CHUNK_OFFSET i).
Proof.
  apply land_pow2_testbit. apply Z.mod_pos_bound. done.
Qed.

Lemma chunk_index_bound i size :
  0 <= i < size -> 0 <= i / BITCHUNK_BITS < BITCHUNKS size.
Proof.
  unfold BITCHUNKS, BITCHUNK_BITS. intros Hi. split; [apply Z.div_pos; lia|].
  apply Z.div_lt_upper_bound; [done|].
  pose proof (Z.mod_pos_bound (size + 64 - 1) 64).
  pose proof (Z.div_mod (size + 64 - 1) 64). lia.
Qed.

Lemma chunk_index_lt map i size :
  wf_bitmap map size -> 0 <= i < size ->
  (Z.to_nat (i / BITCHUNK_BITS) < length map)%nat.
Proof.
  intros [_ Hlen] Hi. pose proof (chunk_index_bound i size Hi). lia.
Qed.

Lemma chunk_range map size k :
  wf_bitmap map size -> 0 <= chunk map k < 2 ^ 64.
Proof.
  intros [Hall _]. unfold chunk.
  destruct (nth_lookup_or_length map (Z.to_nat k) 0) as [Hl|Hl].
  - exact (Forall_lookup_1 _ _ _ _ Hall Hl).
  - rewrite nth_overflow by done. lia.
Qed.

Lemma chunk_insert map k k' c :
  0 <= k -> 0 <= k' -> (Z.to_nat k < length map)%nat ->
  chunk (<[Z.to_nat k := c]> map) k' = if decide (k = k') then c else chunk map k'.
Proof.
  intros Hk Hk' Hlen. unfold chunk. rewrite !nth_lookup.
  destruct (decide (k = k')) as [->|Hne].
  - rewrite list_lookup_insert_eq by done. done.
  - rewrite list_lookup_insert_ne by lia. done.
Qed.

Lemma bit_split i j :
  i / BITCHUNK_BITS = j / BITCHUNK_BITS -> CHUNK_OFFSET i = CHUNK_OFFSET j -> i = j.
Proof.
  unfold CHUNK_OFFSET, BITCHUNK_BITS. intros Hd Hm.
  rewrite (Z.div_mod i 64), (Z.div_mod j 64) by done. congruence.
Qed.

Lemma offset_range i : 0 <= CHUNK_OFFSET i < 64.
Proof. by apply Z.mod_pos_bound. Qed.

Lemma test_bit_SET_BIT map size i j :
  wf_bitmap map size -> 0 <= i < size -> 0 <= j ->
  test_bit (SET_BIT map i) j = if decide (i = j) then true else test_bit map j.
Proof.
  intros Hwf Hi Hj. rewrite !test_bit_testbit. unfold SET_BIT, MAP_CHUNK.
  pose proof (offset_range i). pose proof (offset_range j).
  rewrite chunk_insert by first [by eapply chunk_index_lt
                                | apply Z.div_pos; unfold BITCHUNK_BITS; lia].
  destruct (decide (i / BITCHUNK_BITS = j / BITCHUNK_BITS)) as [Hd|Hd].
  - rewrite Z.shiftl_1_l, Z.lor_spec, Z.pow2_bits_eqb by lia.
    destruct (decide (i = j)) as [->|Hne].
    + rewrite Z.eqb_refl, orb_true_r. done.
    + destruct (Z.eqb_spec (CHUNK_OFFSET i) (CHUNK_OFFSET j)) as [He|He].
      * exfalso. by apply Hne, bit_split.
      * rewrite orb_false_r, Hd. done.
  - rewrite decide_False by (intros ->; done). done.
Qed.

Lemma test_bit_UNSET_BIT map size i j :
  wf_bitmap map size -> 0 <= i < size -> 0 <= j ->
  test_bit (UNSET_BIT map i) j = if decide (i = j) then false else test_bit map j.
Proof.
  intros Hwf Hi Hj. rewrite !test_bit_testbit. unfold UNSET_BIT, MAP_CHUNK.
  pose proof (offset_range i). pose proof (offset_range j).
  rewrite chunk_insert by first [by eapply chunk_index_lt
                                | apply Z.div_pos; unfold BITCHUNK_BITS; lia].
  destruct (decide (i / BITCHUNK_BITS = j / BITCHUNK_BITS)) as [Hd|Hd].
  - rewrite Z.land_spec, testbit_notu, Z.shiftl_1_l, Z.pow2_bits_eqb by lia.
    destruct (decide (i = j)) as [->|Hne].
    + rewrite Z.eqb_refl, andb_false_r. done.
    + destruct (Z.eqb_spec (CHUNK_OFFSET i) (CHUNK_OFFSET j)) as [He|He].
      * exfalso. by apply Hne, bit_split.
      * rewrite andb_true_r, Hd. done.
  - rewrite decide_False by (intros ->; done). done.
Qed.

Lemma wf_bitmap_insert map size k c :
  wf_bitmap map size -> 0 <= c < 2 ^ 64 -> wf_bitmap (<[k := c]> map) size.
Proof.
  intros [Hall Hlen] Hc. split; [|by rewrite length_insert].
  by apply Forall_insert.
Qed.

Lemma lor_range w x y :
  0 <= w -> 0 <= x < 2 ^ w -> 0 <= y < 2 ^ w -> 0 <= Z.lor x y < 2 ^ w.
Proof.
  intros Hw Hx Hy. assert (0 <= Z.lor x y) by (apply Z.lor_nonneg; lia).
  split; [done|]. apply bits_range; [done..|].
  intros n Hn. rewrite Z.lor_spec, !(testbit_above w) by lia. done.
Qed.

Lemma land_range w x y :
  0 <= w -> 0 <= x < 2 ^ w -> 0 <= Z.land x y < 2 ^ w.
Proof.
  intros Hw Hx. assert (0 <= Z.land x y) by (apply Z.land_nonneg; lia).
  split; [done|]. apply bits_range; [done..|].
  intros n Hn. rewrite Z.land_spec, (testbit_above w) by lia. done.
Qed.

Lemma wf_SET_BIT map size i : wf_bitmap map size -> wf_bitmap (SET_BIT map i) size.
Proof.
  intros Hwf. apply wf_bitmap_insert; [done|].
  apply lor_range; [lia|by eapply chunk_range|].
  pose proof (offset_range i). rewrite Z.shiftl_1_l.
  split; [lia|]. apply Z.pow_lt_mono_r; lia.
Qed.

Lemma wf_UNSET_BIT map size i : wf_bitmap map size -> wf_bitmap (UNSET_BIT map i) size.
Proof.
  intros Hwf. apply wf_bitmap_insert; [done|].
  apply land_range; [lia|by eapply chunk_range].
Qed.
#[export] Hint Resolve wf_SET_BIT wf_UNSET_BIT : lyos.

(** ** Scanning *)

(** What a scan for the next set bit promises: [r] is the first set bit from
    [start] on, or [size] when there is none below [size]. *)
Definition next_bit_spec (map : bitmap) (size start r : Z) : Prop :=
  start <= r <= size /\
  (forall i, start <= i < r -> test_bit map i = false) /\
  (r < size -> test_bit map r = true).

Lemma next_bit_spec_unique map size start r1 r2 :
  next_bit_spec map size start r1 -> next_bit_spec map size start r2 -> r1 = r2.
Proof.
  intros (Hr1 & Hz1 & Ho1) (Hr2 & Hz2 & Ho2).
  destruct (Z.lt_trichotomy r1 r2) as [Hlt|[|Hlt]]; [|done|].
  - specialize (Ho1 ltac:(lia)). rewrite Hz2 in Ho1; [done|lia].
  - specialize (Ho2 ltac:(lia)). rewrite Hz1 in Ho2; [done|lia].
Qed.

Lemma lowest_bit_spec fuel c bit k :
  0 <= k < Z.of_nat fuel -> Z.testbit c k = true ->
  (forall j, 0 <= j < k -> Z.testbit c j = false) ->
  lowest_bit fuel c bit = Some (bit + k).
Proof.
  revert c bit k. induction fuel as [|fuel IH]; intros c bit k Hk Hc Hlow; [lia|].
  cbn [lowest_bit].
  replace (Z.land c 1 =? 0) with (negb (Z.testbit c 0)).
  2: { rewrite <- (land_pow2_testbit c 0), negb_involutive by done. done. }
  destruct (decide (k = 0)) as [->|Hk0].
  - rewrite Hc. cbn. f_equal. lia.
  - rewrite Hlow by lia. cbn [negb].
    rewrite (IH _ _ (k - 1)); [f_equal; lia|lia| |].
    + rewrite Z.shiftr_spec by lia. by replace (k - 1 + 1) with k by lia.
    + intros j Hj. rewrite Z.shiftr_spec by lia. apply Hlow. lia.
Qed.

Lemma nonzero_lowest c :
  0 <= c < 2 ^ 64 -> c <> 0 ->
  exists k, 0 <= k < 64 /\ Z.testbit c k = true /\
            forall j, 0 <= j < k -> Z.testbit c j = false.
Proof.
  intros Hc Hne. pose proof (Z.bit_log2 c ltac:(lia)) as Hlog.
  pose proof (Z.log2_nonneg c).
  destruct (least_true (Z.testbit c) 0 (Z.log2 c)) as (k & Hk & Hbit & Hmin); [done..|].
  exists k. repeat split; [lia| |done|done].
  assert (Z.log2 c < 64) by (apply Z.log2_lt_pow2; lia). lia.
Qed.

Lemma index_bits index i :
  index * BITCHUNK_BITS <= i < (index + 1) * BITCHUNK_BITS ->
  i / BITCHUNK_BITS = index /\ CHUNK_OFFSET i = i - index * BITCHUNK_BITS.
Proof.
  unfold CHUNK_OFFSET, BITCHUNK_BITS. intros Hi.
  assert (i / 64 = index) as Hd by (symmetry; apply Z.div_unique with (i - index * 64); lia).
  split; [done|]. rewrite Z.mod_eq by done. lia.
Qed.

Lemma BITCHUNKS_bound size : size <= BITCHUNKS size * BITCHUNK_BITS.
Proof.
  unfold BITCHUNKS, BITCHUNK_BITS.
  pose proof (Z.div_mod (size + 64 - 1) 64). pose proof (Z.mod_pos_bound (size + 64 - 1) 64).
  lia.
Qed.

Section next_bit.
Context (map : bitmap) (size start : Z).
Hypothesis Hwf : wf_bitmap map size.
Hypothesis Hstart : 0 <= start < size.

Lemma next_bit_loop_spec n index c :
  0 <= index < BITCHUNKS size -> BITCHUNKS size - index <= Z.of_nat n ->
  start < (index + 1) * BITCHUNK_BITS -> 0 <= c < 2 ^ 64 ->
  (forall i, index * BITCHUNK_BITS <= i < (index + 1) * BITCHUNK_BITS ->
     Z.testbit c (CHUNK_OFFSET i) = ((start <=? i) && test_bit map i)%bool) ->
  (forall i, start <= i < index * BITCHUNK_BITS -> test_bit map i = false) ->
  exists r, next_bit_loop n map size index c = Some r /\
            next_bit_spec map size start r.
Proof using Hwf Hstart.
  revert index c. induction n as [|n IH]; intros index c Hi Hn Hst Hc Hbits Hlow.
  { lia. }
  pose proof (BITCHUNKS_bound size) as Hsz.
  cbn [next_bit_loop]. destruct (Z.ltb_spec index (BITCHUNKS size)) as [Hlt|Hge]; [|lia].
  destruct (Z.eqb_spec c 0) as [->|Hne]; cbn [negb].
  - (* an empty chunk *)
    assert (forall i, start <= i < (index + 1) * BITCHUNK_BITS ->
              test_bit map i = false) as Hlow'.
    { intros i Hr. destruct (Z.lt_ge_cases i (index * BITCHUNK_BITS)).
      { apply Hlow. lia. }
      specialize (Hbits i ltac:(lia)). rewrite Z.bits_0 in Hbits.
      destruct (Z.leb_spec start i); [done|lia]. }
    destruct (Z.leb_spec (BITCHUNKS size) (index + 1)) as [Hlast|Hmore].
    + exists size. split; [done|]. repeat split; [lia..| |lia].
      intros i Hr. apply Hlow'. unfold BITCHUNK_BITS in *. nia.
    + apply IH; [lia|lia|unfold BITCHUNK_BITS in *; lia| |
                 |done].
      { by eapply chunk_range. }
      intros i Hr. rewrite test_bit_testbit. unfold MAP_CHUNK.
      destruct (index_bits (index + 1) i Hr) as [-> ->].
      destruct (Z.leb_spec start i) as [|Hlt']; [done|lia].
  - (* the lowest bit of a non-empty chunk *)
    destruct (nonzero_lowest c Hc Hne) as (k & Hk & Hbit & Hmin).
    rewrite (lowest_bit_spec 64 c _ k) by (try done; lia).
    set (b := index * BITCHUNK_BITS + k).
    assert (forall i, index * BITCHUNK_BITS <= i < (index + 1) * BITCHUNK_BITS ->
              CHUNK_OFFSET i = i - index * BITCHUNK_BITS) as Hoff
      by (intros i Hr; apply index_bits, Hr).
    assert (start <= b /\ test_bit map b = true) as [Hsb Htb].
    { specialize (Hbits b). rewrite Hoff in Hbits by (unfold b, BITCHUNK_BITS in *; lia).
      replace (b - index * BITCHUNK_BITS) with k in Hbits by (unfold b; lia).
      rewrite Hbit in Hbits. specialize (Hbits ltac:(unfold b, BITCHUNK_BITS in *; lia)).
      symmetry in Hbits. b2p. done. }
    assert (forall i, start <= i < b -> test_bit map i = false) as Hbelow.
    { intros i Hr. destruct (Z.lt_ge_cases i (index * BITCHUNK_BITS)).
      { apply Hlow. lia. }
      specialize (Hbits i ltac:(unfold b, BITCHUNK_BITS in *; lia)).
      rewrite Hoff, Hmin in Hbits by (unfold b, BITCHUNK_BITS in *; lia).
      destruct (Z.leb_spec start i); [done|lia]. }
    destruct (Z.ltb_spec b size) as [Hb|Hb].
    + exists b. repeat split; try done; lia.
    + exists size. repeat split; try done; try lia. intros i Hr. apply Hbelow. lia.
Qed.
End next_bit.

Lemma testbit_first_word_mask start off :
  0 <= off < 64 ->
  Z.testbit (BITMAP_FIRST_WORD_MASK start) off = (CHUNK_OFFSET start <=? off).
Proof.
  intros Hoff. unfold BITMAP_FIRST_WORD_MASK, wrapu.
  rewrite Z.mod_pow2_bits_low by lia.
  change (BITCHUNK_BITS - 1) with (Z.ones 6). rewrite Z.land_ones by done.
  change (start mod 2 ^ 6) with (CHUNK_OFFSET start).
  pose proof (offset_range start).
  rewrite Z.shiftl_spec by lia.
  destruct (Z.leb_spec (CHUNK_OFFSET start) off).
  - rewrite testbit_notu, Z.bits_0 by lia. done.
  - apply Z.testbit_neg_r. lia.
Qed.

(** [bitmap_find_next_bit] on every input with the map allocated. *)
Lemma bitmap_find_next_bit_spec map size start :
  wf_bitmap map size -> 0 <= start <= size ->
  exists r, bitmap_find_next_bit map size start = Some r /\
            next_bit_spec map size start r.
Proof.
  intros Hwf Hst. unfold bitmap_find_next_bit.
  destruct (Z.leb_spec size start) as [Hle|Hlt].
  { exists size. repeat split; try done; lia. }
  assert (0 <= start / BITCHUNK_BITS) by (apply Z.div_pos; unfold BITCHUNK_BITS; lia).
  pose proof (chunk_index_bound start size ltac:(lia)).
  pose proof (Z.div_mod start BITCHUNK_BITS ltac:(done)) as Hdm.
  pose proof (offset_range start). unfold CHUNK_OFFSET in *.
  apply next_bit_loop_spec; try done; try lia.
  - unfold BITCHUNK_BITS in *. lia.
  - apply land_range; [lia|by eapply chunk_range].
  - intros i Hi. rewrite test_bit_testbit. unfold MAP_CHUNK.
    rewrite Z.land_spec, testbit_first_word_mask by apply offset_range.
    destruct (index_bits _ i Hi) as [-> Hoff].
    rewrite andb_comm. f_equal. rewrite Hoff. unfold CHUNK_OFFSET.
    destruct (Z.leb_spec start i), (Z.leb_spec (start mod BITCHUNK_BITS)
      (i - start / BITCHUNK_BITS * BITCHUNK_BITS)); lia.
Qed.

Lemma equal_chunks_spec map1 map2 k n :
  equal_chunks map1 map2 k n = true <->
  forall j, k <= j < k + Z.of_nat n -> chunk map1 j = chunk map2 j.
Proof.
  revert k. induction n as [|n IH]; intros k; cbn [equal_chunks].
  { split; [intros; lia|done]. }
  destruct (Z.eqb_spec (chunk map1 k) (chunk map2 k)) as [He|He]; cbn [negb].
  - rewrite IH. split; intros H j Hj; [|apply H; lia].
    destruct (decide (j = k)) as [->|]; [done|apply H; lia].
  - split; [done|]. intros H. destruct He. apply H. lia.
Qed.

Lemma testbit_last_word_mask bits off :
  0 <= off < 64 -> bits mod BITCHUNK_BITS <> 0 ->
  Z.testbit (BITMAP_LAST_WORD_MASK bits) off = (off <? bits mod BITCHUNK_BITS).
Proof.
  intros Hoff Hb. unfold BITMAP_LAST_WORD_MASK.
  change (BITCHUNK_BITS - 1) with (Z.ones 6). rewrite Z.land_ones by done.
  unfold BITCHUNK_BITS in *. change (2 ^ 6) with 64.
  rewrite Z.mod_opp_l_nz by done.
  pose proof (Z.mod_pos_bound bits 64 ltac:(done)).
  rewrite Z.shiftr_spec by lia.
  destruct (Z.ltb_spec off (bits mod 64)).
  - rewrite testbit_notu, Z.bits_0 by lia. done.
  - apply testbit_notu_high. lia.
Qed.

(** A test on chunks is a test on their bits. *)
Lemma chunk_bits map j off :
  0 <= j -> 0 <= off < 64 ->
  Z.testbit (chunk map j) off = test_bit map (j * BITCHUNK_BITS + off).
Proof.
  intros Hj Hoff. rewrite test_bit_testbit. unfold MAP_CHUNK.
  destruct (index_bits j (j * BITCHUNK_BITS + off)) as [-> ->].
  { unfold BITCHUNK_BITS. lia. }
  f_equal. lia.
Qed.

Lemma chunk_eq_bits map1 map2 size j :
  wf_bitmap map1 size -> wf_bitmap map2 size -> 0 <= j ->
  (forall i, j * BITCHUNK_BITS <= i < (j + 1) * BITCHUNK_BITS ->
     test_bit map1 i = test_bit map2 i) ->
  chunk map1 j = chunk map2 j.
Proof.
  intros Hwf1 Hwf2 Hj Hbits. apply Z.bits_inj'. intros n Hn.
  destruct (Z.lt_ge_cases n 64).
  - rewrite !chunk_bits by lia. apply Hbits. unfold BITCHUNK_BITS. lia.
  - rewrite !(testbit_above 64) by first [done | by eapply chunk_range]. done.
Qed.

Lemma last_word_equal map1 map2 bits j :
  0 <= j -> bits mod BITCHUNK_BITS <> 0 ->
  Z.land (Z.lxor (chunk map1 j) (chunk map2 j)) (BITMAP_LAST_WORD_MASK bits) = 0 <->
  forall i, j * BITCHUNK_BITS <= i < j * BITCHUNK_BITS + bits mod BITCHUNK_BITS ->
    test_bit map1 i = test_bit map2 i.
Proof.
  intros Hj Hb. pose proof (Z.mod_pos_bound bits BITCHUNK_BITS ltac:(done)) as Hr.
  assert (bits mod BITCHUNK_BITS < 64) as Hr64 by apply Hr. split.
  - intros Hz i Hi. pose (off := i - j * BITCHUNK_BITS).
    assert (Z.testbit 0 off = false) as Ht by apply Z.bits_0.
    rewrite <- Hz, Z.land_spec, Z.lxor_spec, testbit_last_word_mask in Ht by (unfold off; lia).
    rewrite !chunk_bits in Ht by (unfold off; lia).
    replace (j * BITCHUNK_BITS + off) with i in Ht by (unfold off; lia).
    destruct (Z.ltb_spec off (bits mod BITCHUNK_BITS)); [|unfold off in *; lia].
    destruct (test_bit map1 i), (test_bit map2 i); done.
  - intros H. apply Z.bits_inj'. intros n Hn. rewrite Z.bits_0, Z.land_spec.
    destruct (Z.lt_ge_cases n 64) as [Hn64|Hn64].
    + rewrite testbit_last_word_mask, Z.lxor_spec, !chunk_bits by lia.
      destruct (Z.ltb_spec n (bits mod BITCHUNK_BITS)); [|apply andb_false_r].
      rewrite H, xorb_nilpotent by lia. done.
    + unfold BITMAP_LAST_WORD_MASK. rewrite Z.shiftr_spec by done.
      rewrite testbit_notu_high, andb_false_r; [done|].
      pose proof (Z.land_nonneg (- bits) (BITCHUNK_BITS - 1)). cbn in *. lia.
Qed.

Lemma bitmap_equal_spec map1 map2 bits :
  wf_bitmap map1 bits -> wf_bitmap map2 bits -> 0 <= bits ->
  bitmap_equal map1 map2 bits = true <->
  forall i, 0 <= i < bits -> test_bit map1 i = test_bit map2 i.
Proof.
  intros Hwf1 Hwf2 Hb. unfold bitmap_equal.
  set (lim := bits / BITCHUNK_BITS).
  assert (0 <= lim) by (apply Z.div_pos; [done|done]).
  pose proof (Z.div_mod bits BITCHUNK_BITS ltac:(done)) as Hdm. fold lim in Hdm.
  pose proof (Z.mod_pos_bound bits BITCHUNK_BITS ltac:(done)) as Hr.
  assert (equal_chunks map1 map2 0 (Z.to_nat lim) = true <->
    forall i, 0 <= i < lim * BITCHUNK_BITS -> test_bit map1 i = test_bit map2 i) as Hfull.
  { rewrite equal_chunks_spec. split.
    - intros He i Hi. rewrite !test_bit_testbit. unfold MAP_CHUNK. rewrite He; [done|].
      split; [apply Z.div_pos; [lia|done]|].
      apply Z.div_lt_upper_bound; [done|]. unfold BITCHUNK_BITS in *. lia.
    - intros H' j Hj. eapply chunk_eq_bits; [done|done|lia|].
      intros i Hi. apply H'. unfold BITCHUNK_BITS in *. nia. }
  destruct (equal_chunks _ _ _ _) eqn:He; cbn [negb].
  2: { split; [done|]. intros H'. enough (false = true) by done. apply Hfull.
       intros i Hi. apply H'. lia. }
  destruct (Z.eqb_spec (bits mod BITCHUNK_BITS) 0) as [Hz|Hnz]; cbn [negb].
  { split; [|done]. intros _ i Hi. apply Hfull; [done|lia]. }
  pose proof (last_word_equal map1 map2 bits lim ltac:(done) Hnz) as Hlast.
  destruct (Z.eqb_spec (Z.land (Z.lxor (chunk map1 lim) (chunk map2 lim))
                          (BITMAP_LAST_WORD_MASK bits)) 0) as [Hw|Hw]; cbn [negb].
  - split; [|done]. intros _ i Hi.
    destruct (Z.lt_ge_cases i (lim * BITCHUNK_BITS)).
    + apply Hfull; [done|lia].
    + apply Hlast; [done|lia].
  - split; [done|]. intros H'. destruct Hw. apply Hlast. intros i Hi. apply H'. unfold BITCHUNK_BITS in *. lia.
Qed.

(** ** Free areas *)

Lemma first_set_None map j n :
  first_set map j n = None ->
  forall i, j <= i < j + Z.of_nat n -> test_bit map i = false.
Proof.
  revert j. induction n as [|n IH]; intros j; cbn; [lia|].
  destruct (test_bit map j) eqn:Hj; [done|]. intros Hn i Hi.
  destruct (decide (i = j)) as [->|]; [done|]. eapply IH; [done|lia].
Qed.

Lemma zero_bit_loop_spec fuel map size i index :
  size - i < Z.of_nat fuel -> i <= size -> (i = size -> index = size) ->
  (i < size -> index = size) ->
  exists r, zero_area_loop fuel map size 1 i index = Some r /\
    i <= r <= size /\
    (forall k, i <= k < r -> test_bit map k = true) /\
    (r < size -> test_bit map r = false).
Proof.
  revert i. induction fuel as [|fuel IH]; intros i Hf Hi He Hlt; [lia|].
  cbn [zero_area_loop]. destruct (Z.ltb_spec i size) as [His|His].
  - destruct (test_bit map i) eqn:Hti.
    + destruct (IH (i + 1)) as (r & Hr & Hb & Hset & Hclr); [lia|lia|auto..|].
      exists r. repeat split; [done|lia|lia| |done].
      intros k Hk. destruct (decide (k = i)) as [->|]; [done|apply Hset; lia].
    + destruct (Z.ltb_spec size (i + 1)); [lia|].
      change (Z.to_nat 1) with 1%nat. cbn [first_set]. rewrite Hti.
      exists i. repeat split; [lia..|done].
  - assert (i = size) as -> by lia. exists size.
    rewrite He by done. repeat split; lia.
Qed.

(** A single-bit request is served correctly: the first clear bit from [start]
    on, or [size]. *)
Lemma find_zero_bit_spec map size start :
  0 <= start <= size ->
  exists r, bitmap_find_next_zero_area map size start 1 = Some r /\
    start <= r <= size /\
    (forall k, start <= k < r -> test_bit map k = true) /\
    (r < size -> test_bit map r = false).
Proof.
  intros Hs. apply zero_bit_loop_spec; try done; lia.
Qed.

(** [bitmap_find_next_bit] returns, for every allocated map and every start
    up to the size, the index of the first set bit from [start] on, and [size]
    when no bit from [start] on is set; its loops terminate. *)
Theorem find_next_bit_correct map size start :
  wf_bitmap map size -> 0 <= start <= size ->
  exists r, bitmap_find_next_bit map size start = Some r /\
    start <= r <= size /\
    (forall i, start <= i < r -> test_bit map i = false) /\
    (r < size -> test_bit map r = true).
Proof. apply bitmap_find_next_bit_spec. Qed.

Lemma find_next_bit_witness :
  exists r, bitmap_find_next_bit [5; 1] 128 3 = Some r /\
    3 <= r <= 128 /\
    (forall i, 3 <= i < r -> test_bit [5; 1] i = false) /\
    (r < 128 -> test_bit [5; 1] r = true).
Proof.
  apply (find_next_bit_correct [5; 1] 128 3).
  - split; [repeat constructor; lia|vm_compute; discriminate].
  - lia.
Defined.

(** [bitmap_equal] on two allocated maps is true exactly when the two maps
    agree on every bit below [bits], also when [bits] ends inside a chunk. *)
Theorem bitmap_equal_correct map1 map2 bits :
  wf_bitmap map1 bits -> wf_bitmap map2 bits -> 0 <= bits ->
  bitmap_equal map1 map2 bits = true <->
  forall i, 0 <= i < bits -> test_bit map1 i = test_bit map2 i.
Proof. apply bitmap_equal_spec. Qed.

(** [bitmap_find_next_zero_area] can return an area that is not free. In a
    map with the bits 1 and 3 of four set, a request for two bits returns the
    area that starts at bit 0 and holds bit 1, and reports success, because the
    loop leaves the last candidate in [index] when it runs out. *)
Lemma zero_area_not_free :
  exists map size nr r i,
    wf_bitmap map size /\
    bitmap_find_next_zero_area map size 0 nr = Some r /\
    r + nr <= size /\ r <= i < r + nr /\ test_bit map i = true.
Proof.
  exists [10], 4, 2, 0, 1.
  split; [split; [repeat constructor; lia|vm_compute; discriminate]|].
  repeat split; try done; vm_compute; congruence.
Qed.
