(* ===== verification/ListHead.v ===== *)
(** * Intrusive doubly linked lists

    The list facility of include/lyos/list.h, on which the run queues, the timer
    queues and most lists of the servers are built. Nodes are addresses; the
    heap maps an address to its [prev] and [next] members, and every operation
    is the pointer surgery of the header. [is_list] relates a list head to the
    sequence of its nodes, and the theorems show that the surgery implements
    insertion, removal and splicing of sequences and leaves every other list
    alone: the components that use lists are modelled on sequences. *)

From S2P Require Import Prelude.

Record heap := mk_heap { prev : Z -> Z; next : Z -> Z }.
#[export] Instance rebuild_heap : Rebuild heap := fun h => mk_heap (prev h) (next h).

Definition set_prev (x y : Z) (h : heap) : heap := h <| prev ::= <[x := y]> |>.
Definition set_next (x y : Z) (h : heap) : heap := h <| next ::= <[x := y]> |>.

Definition INIT_LIST_HEAD (ptr : Z) (h : heap) : heap :=
  set_prev ptr ptr (set_next ptr ptr h).

Definition list_empty (list : Z) (h : heap) : bool := next h list =? list.

Definition __list_add (new pre nxt : Z) (h : heap) : heap :=
  let h := set_prev new pre h in
  let h := set_next new nxt h in
  let h := set_next pre new h in
  set_prev nxt new h.

Definition list_add (new head : Z) (h : heap) : heap :=
  __list_add new head (next h head) h.

Definition list_add_tail (new head : Z) (h : heap) : heap :=
  __list_add new (prev h head) head h.

Definition list_del (node : Z) (h : heap) : heap :=
  let h := set_next (prev h node) (next h node) h in
  let h := set_prev (next h node) (prev h node) h in
  let h := set_prev node node h in
  set_next node node h.

Definition __list_splice (list pre nxt : Z) (h : heap) : heap :=
  let first := next h list in
  let last := prev h list in
  let h := set_prev first pre h in
  let h := set_next pre first h in
  let h := set_next last nxt h in
  set_prev nxt last h.

Definition list_splice (list head : Z) (h : heap) : heap :=
  if negb (list_empty list h) then __list_splice list head (next h head) h else h.

Definition list_splice_init (list head : Z) (h : heap) : heap :=
  if negb (list_empty list h)
  then INIT_LIST_HEAD list (__list_splice list head (next h head) h)
  else h.

(** The nodes [list_for_each_entry] visits, in order; [n] bounds the walk. *)
Fixpoint list_walk (n : nat) (h : heap) (pos head : Z) : option (list Z) :=
  match n with
  | O => None
  | S n =>
      if pos =? head then Some []
      else (pos ::.) <$> list_walk n h (next h pos) head
  end.

(** ** Sequences of nodes *)

(** From [p], the [next] pointers run through [l] to [e], and the [prev]
    pointers back. *)
Fixpoint seg (h : heap) (p : Z) (l : list Z) (e : Z) : Prop :=
  match l with
  | [] => next h p = e /\ prev h e = p
  | x :: l => next h p = x /\ prev h x = p /\ seg h x l e
  end.

Definition is_list (h : heap) (head : Z) (l : list Z) : Prop :=
  seg h head l head /\ NoDup (head :: l).

Lemma seg_app h p l1 x l2 e :
  seg h p (l1 ++ x :: l2) e <-> seg h p l1 x /\ seg h x l2 e.
Proof.
  revert p. induction l1 as [|y l1 IH]; intros p; cbn.
  - tauto.
  - rewrite IH. tauto.
Qed.

Lemma seg_ext h h' p l e :
  (forall x, x ∈ p :: l -> next h' x = next h x) ->
  (forall x, x ∈ l ++ [e] -> prev h' x = prev h x) ->
  seg h p l e -> seg h' p l e.
Proof.
  revert p. induction l as [|y l IH]; intros p Hn Hp; cbn.
  - rewrite Hn, Hp by set_solver. done.
  - intros (Hy & Hpy & Hs). rewrite Hn, Hp by set_solver. split; [done|].
    split; [done|]. apply IH; [|..|done]; set_solver.
Qed.

Lemma seg_last h p l e : seg h p l e -> prev h e = default p (last l).
Proof.
  revert p. induction l as [|x l IH]; intros p; cbn; [tauto|].
  intros (_ & _ & Hs). rewrite (IH x Hs). change (x :: l) with ([x] ++ l).
  rewrite last_app. by destruct (last l).
Qed.

Lemma seg_first h p l e : seg h p l e -> next h p = default e (head l).
Proof. destruct l; cbn; tauto. Qed.

Lemma next_set_prev x y h z : next (set_prev x y h) z = next h z.
Proof. done. Qed.
Lemma prev_set_next x y h z : prev (set_next x y h) z = prev h z.
Proof. done. Qed.
Lemma next_set_next x y h : next (set_next x y h) x = y.
Proof. apply fn_lookup_insert. Qed.
Lemma next_set_next_ne x y h z : x <> z -> next (set_next x y h) z = next h z.
Proof. apply fn_lookup_insert_ne. Qed.
Lemma prev_set_prev x y h : prev (set_prev x y h) x = y.
Proof. apply fn_lookup_insert. Qed.
Lemma prev_set_prev_ne x y h z : x <> z -> prev (set_prev x y h) z = prev h z.
Proof. apply fn_lookup_insert_ne. Qed.

#[local] Arguments set_next : simpl never.
#[local] Arguments set_prev : simpl never.
Create Rewrite HintDb heap.
#[export] Hint Rewrite next_set_prev prev_set_next next_set_next prev_set_prev : heap.
#[export] Hint Rewrite next_set_next_ne prev_set_prev_ne using
  first [assumption | congruence] : heap.

(** ** The operations on sequences *)

Ltac heap_simpl := autorewrite with heap.

(** A segment none of whose links is written to stays. *)
Ltac seg_keep := eapply seg_ext; [| |eassumption];
  [intros ? ?; repeat (first [rewrite next_set_prev | rewrite next_set_next_ne by member]); done
  |intros ? ?; repeat (first [rewrite prev_set_next | rewrite prev_set_prev_ne by member]); done].

Lemma is_list_nil h head : is_list h head [] <-> next h head = head /\ prev h head = head.
Proof.
  unfold is_list. cbn. split; [tauto|]. intros [-> ->]. split; [done|apply NoDup_singleton].
Qed.

Lemma list_empty_spec h head l :
  is_list h head l -> list_empty head h = true <-> l = [].
Proof.
  intros [Hs Hnd]. unfold list_empty. rewrite (seg_first _ _ _ _ Hs), Z.eqb_eq.
  destruct l as [|x l]; cbn; [done|]. split; [|done]. intros ->. nodup_simpl. done.
Qed.

Lemma INIT_LIST_HEAD_spec h head : is_list (INIT_LIST_HEAD head h) head [].
Proof. apply is_list_nil. unfold INIT_LIST_HEAD. by heap_simpl. Qed.

Lemma list_add_spec h head l new :
  is_list h head l -> new ∉ head :: l ->
  is_list (list_add new head h) head (new :: l).
Proof.
  intros [Hs Hnd] Hnew. unfold list_add, __list_add. rewrite (seg_first _ _ _ _ Hs).
  split.
  2: { apply (NoDup_middle [head]). cbn. done. }
  destruct l as [|y l]; cbn in Hs |- *; nodup_simpl.
  - heap_simpl. done.
  - destruct Hs as (Hy & Hpy & Hs). heap_simpl. repeat split; try done. seg_keep.
Qed.

Lemma list_add_tail_spec h head l new :
  is_list h head l -> new ∉ head :: l ->
  is_list (list_add_tail new head h) head (l ++ [new]).
Proof.
  intros [Hs Hnd] Hnew. unfold list_add_tail, __list_add. rewrite (seg_last _ _ _ _ Hs).
  split.
  2: { apply (NoDup_middle (head :: l)). rewrite app_nil_r. done. }
  destruct l as [|z l _] using rev_ind; cbn in Hs |- *; nodup_simpl.
  - heap_simpl. done.
  - rewrite last_snoc. cbn. rewrite <- app_assoc. cbn.
    rewrite seg_app in Hs |- *. destruct Hs as (Hs & Hz & Hh).
    cbn. heap_simpl. repeat split; try done. seg_keep.
Qed.

Lemma list_del_spec h head l1 x l2 :
  is_list h head (l1 ++ x :: l2) ->
  is_list (list_del x h) head (l1 ++ l2) /\ is_list (list_del x h) x [].
Proof.
  intros [Hs Hnd]. apply seg_app in Hs as [Hs1 Hs2].
  pose proof (seg_last _ _ _ _ Hs1) as Hp. pose proof (seg_first _ _ _ _ Hs2) as Hn.
  apply (NoDup_middle (head :: l1)) in Hnd as [Hx Hnd].
  assert (default head (last l1) <> x) as Hpx.
  { destruct (last l1) as [z|] eqn:Hl; cbn; [apply last_Some in Hl as [l' ->]|];
      cbn in Hx; nodup_simpl; done. }
  unfold list_del. rewrite Hp. heap_simpl. rewrite Hn, Hp.
  split; [split; [|done]|rewrite is_list_nil; heap_simpl; done].
  clear Hp Hn Hpx. cbn in Hnd, Hx.
  destruct l1 as [|z l1 _] using rev_ind; destruct l2 as [|y l2]; cbn in *.
  - nodup_simpl. heap_simpl. done.
  - destruct Hs2 as (Hy & Hpy & Hs2). nodup_simpl.
    heap_simpl. repeat split; try done. seg_keep.
  - rewrite last_snoc. cbn. rewrite app_nil_r, seg_app in *.
    destruct Hs1 as (Hs1 & Hz & Hpz). nodup_simpl.
    cbn. heap_simpl. repeat split; try done. seg_keep.
  - rewrite last_snoc. cbn. rewrite <- app_assoc in *. cbn in *. rewrite seg_app in *.
    destruct Hs1 as (Hs1 & Hz & Hpz), Hs2 as (Hy & Hpy & Hs2). nodup_simpl.
    cbn. heap_simpl. repeat split; try done; seg_keep.
Qed.

(** ** Other lists are left alone *)

Definition agree_at (h h' : heap) (z : Z) : Prop :=
  next h' z = next h z /\ prev h' z = prev h z.

Lemma is_list_frame h h' head l :
  (forall z, z ∈ head :: l -> agree_at h h' z) -> is_list h head l -> is_list h' head l.
Proof.
  intros Hag [Hs Hnd]. split; [|done]. eapply seg_ext; [| |done].
  - intros z Hz. apply Hag, Hz.
  - intros z Hz. apply Hag. member.
Qed.

Lemma seg_prev_in h p l e : seg h p l e -> prev h e ∈ p :: l.
Proof.
  intros Hs. rewrite (seg_last _ _ _ _ Hs).
  destruct (last l) as [z|] eqn:Hl; cbn; [|set_solver].
  apply last_Some in Hl as [l' ->]. set_solver.
Qed.

Lemma seg_next_in h p l e : seg h p l e -> next h p ∈ l ++ [e].
Proof. intros Hs. rewrite (seg_first _ _ _ _ Hs). destruct l; cbn; set_solver. Qed.

Lemma agree_set h x y z :
  x <> z -> agree_at h (set_next x y h) z /\ agree_at h (set_prev x y h) z.
Proof. intros. unfold agree_at. by heap_simpl. Qed.

Lemma list_add_frame h head l new z :
  is_list h head l -> z ∉ new :: head :: l -> agree_at h (list_add new head h) z.
Proof.
  intros [Hs _] Hz. pose proof (seg_next_in _ _ _ _ Hs) as Hn.
  assert (next h head <> z) by (intros <-; member).
  unfold list_add, __list_add, agree_at. nodup_simpl. by heap_simpl.
Qed.

Lemma list_add_tail_frame h head l new z :
  is_list h head l -> z ∉ new :: head :: l -> agree_at h (list_add_tail new head h) z.
Proof.
  intros [Hs _] Hz. pose proof (seg_prev_in _ _ _ _ Hs) as Hn.
  assert (prev h head <> z) by (intros <-; member).
  unfold list_add_tail, __list_add, agree_at. nodup_simpl. by heap_simpl.
Qed.

Lemma list_del_frame h head l1 x l2 z :
  is_list h head (l1 ++ x :: l2) -> z ∉ head :: l1 ++ x :: l2 ->
  agree_at h (list_del x h) z.
Proof.
  intros [Hs Hnd] Hz. apply seg_app in Hs as [Hs1 Hs2].
  pose proof (seg_prev_in _ _ _ _ Hs1) as Hp. pose proof (seg_next_in _ _ _ _ Hs2) as Hn.
  assert (prev h x <> z) by (intros <-; member).
  assert (next h x <> z) by (intros <-; member).
  assert (prev h x <> x).
  { intros Hpx. rewrite Hpx in Hp. apply (NoDup_middle (head :: l1)) in Hnd as [Hx _].
    cbn in Hx. member. }
  unfold list_del, agree_at. nodup_simpl. by heap_simpl.
Qed.

(** A node that is not on any list (it points to itself) can be deleted. *)
Lemma list_del_self h x z :
  is_list h x [] -> next (list_del x h) z = next h z /\ prev (list_del x h) z = prev h z.
Proof.
  rewrite is_list_nil. intros [Hn Hp]. unfold list_del. rewrite Hp, Hn. heap_simpl.
  destruct (decide (x = z)) as [->|Hne]; heap_simpl; [|done]. by rewrite Hn, Hp.
Qed.

(** [list_del] and [list_add] in a row move a node to the front of another list. *)
Lemma move_node h a l1 x l2 b l :
  is_list h a (l1 ++ x :: l2) -> is_list h b l -> NoDup (a :: b :: x :: l1 ++ l2 ++ l) ->
  is_list (list_add x b (list_del x h)) a (l1 ++ l2) /\
  is_list (list_add x b (list_del x h)) b (x :: l) /\
  forall z, z ∉ a :: b :: x :: l1 ++ l2 ++ l -> agree_at h (list_add x b (list_del x h)) z.
Proof.
  intros Ha Hb Hnd. pose proof (list_del_spec _ _ _ _ _ Ha) as [Hd _].
  rewrite !NoDup_cons, !NoDup_app in Hnd. destruct Hnd as (Hab & Hbx & Hx & H1 & H12 & H2 & H2l & Hl).
  assert (is_list (list_del x h) b l) as Hb'.
  { eapply is_list_frame; [|exact Hb]. intros z Hz. eapply list_del_frame; [exact Ha|]. set_solver. }
  split; [|split].
  - eapply is_list_frame; [|exact Hd]. intros z Hz. eapply list_add_frame; [exact Hb'|]. set_solver.
  - apply list_add_spec; [done|]. set_solver.
  - intros z Hz. assert (agree_at h (list_del x h) z) as [Hn Hp].
    { eapply list_del_frame; [exact Ha|]. set_solver. }
    assert (agree_at (list_del x h) (list_add x b (list_del x h)) z) as [Hn' Hp'].
    { eapply list_add_frame; [exact Hb'|]. set_solver. }
    split; congruence.
Qed.

(** ** Walking and splicing *)

Lemma list_walk_seg n h p l head :
  seg h p l head -> head ∉ l -> (length l < n)%nat ->
  list_walk n h (next h p) head = Some l.
Proof.
  revert n p. induction l as [|x l IH]; intros n p Hs Hh Hn; cbn in Hs.
  - destruct n; [cbn in Hn; lia|]. cbn. destruct Hs as [-> _]. by rewrite Z.eqb_refl.
  - destruct n; [cbn in Hn; lia|]. destruct Hs as (-> & _ & Hs). cbn.
    destruct (Z.eqb_spec x head) as [->|]; [nodup_simpl; done|].
    rewrite (IH n x); [done|done|nodup_simpl; done|cbn in Hn; lia].
Qed.

Lemma list_splice_init_spec h list head l1 l2 :
  is_list h list l1 -> is_list h head l2 -> NoDup (list :: l1 ++ head :: l2) ->
  is_list (list_splice_init list head h) head (l1 ++ l2) /\
  is_list (list_splice_init list head h) list [].
Proof.
  intros Hl1 Hl2 Hnd. unfold list_splice_init.
  destruct (list_empty list h) eqn:He; cbn [negb].
  { rewrite (list_empty_spec _ _ _ Hl1) in He. subst l1. done. }
  destruct l1 as [|x l1].
  { by rewrite (proj2 (list_empty_spec _ _ _ Hl1) eq_refl) in He. }
  split; [|apply INIT_LIST_HEAD_spec].
  destruct Hl1 as [Hs1 _], Hl2 as [Hs2 _].
  unfold INIT_LIST_HEAD, __list_splice.
  rewrite (seg_last _ _ _ _ Hs1), (seg_first _ _ _ _ Hs1), (seg_first _ _ _ _ Hs2).
  split.
  2: { apply NoDup_cons in Hnd as [_ Hnd]. rewrite <- Permutation_middle in Hnd. done. }
  destruct l1 as [|y l1 _] using rev_ind; destruct l2 as [|b l2]; cbn in *.
  - nodup_simpl. heap_simpl. done.
  - destruct Hs2 as (Hb & Hpb & Hs2), Hs1 as (Hx & Hpx & Hn & Hp). nodup_simpl.
    heap_simpl. repeat split; try done. seg_keep.
  - rewrite app_comm_cons, last_snoc. cbn. rewrite app_nil_r, seg_app in *.
    destruct Hs1 as (Hx & Hpx & Hs1 & Hn & Hp). rewrite <- app_assoc in Hnd. cbn in Hnd.
    nodup_simpl. cbn. heap_simpl. repeat split; try done. seg_keep.
  - rewrite app_comm_cons, last_snoc. cbn. rewrite <- app_assoc in *. cbn in *. rewrite seg_app in *.
    destruct Hs1 as (Hx & Hpx & Hs1 & Hn & Hp), Hs2 as (Hb & Hpb & Hs2).
    nodup_simpl. cbn. heap_simpl. repeat split; try done; seg_keep.
Qed.

(** ** Refinement of sequences *)

(** A heap holding two disjoint lists, for the witnesses: head 1 with the nodes
    2 and 3, head 10 with the node 11. *)
Definition two_lists : heap :=
  list_add_tail 11 10 (INIT_LIST_HEAD 10
    (list_add_tail 3 1 (list_add_tail 2 1
      (INIT_LIST_HEAD 1 (mk_heap (fun _ => 0) (fun _ => 0)))))).

Lemma two_lists_1 : is_list two_lists 1 [2; 3].
Proof. split; [vm_compute; done|]. by_decide. Qed.

Lemma two_lists_10 : is_list two_lists 10 [11].
Proof. split; [vm_compute; done|]. by_decide. Qed.

(** C9: on a heap that holds the list [l] at [head], [list_add] puts a fresh node
    in front of [l], [list_add_tail] behind it, [list_del] takes a node out of
    the middle and leaves it linked to itself, and [list_for_each_entry] then
    visits exactly the resulting sequence; a list at another head that shares
    no node with this one is unchanged by each of them. [list_splice_init] moves
    every node of [l] to the front of another list, in order, and leaves the
    list at [head] empty. *)
Theorem list_ops_refine_sequences h head l :
  is_list h head l ->
  (forall new, new ∉ head :: l ->
     is_list (list_add new head h) head (new :: l) /\
     is_list (list_add_tail new head h) head (l ++ [new])) /\
  (forall l1 x l2, l = l1 ++ x :: l2 ->
     is_list (list_del x h) head (l1 ++ l2) /\ is_list (list_del x h) x []) /\
  list_walk (S (length l)) h (next h head) head = Some l /\
  (forall head' l', is_list h head' l' -> (forall z, z ∈ head' :: l' -> z ∉ head :: l) ->
     (forall new, new ∉ head' :: l' ->
        is_list (list_add new head h) head' l' /\
        is_list (list_add_tail new head h) head' l') /\
     (forall x, x ∈ l -> is_list (list_del x h) head' l')) /\
  (forall head' l', is_list h head' l' -> NoDup (head :: l ++ head' :: l') ->
     is_list (list_splice_init head head' h) head' (l ++ l') /\
     is_list (list_splice_init head head' h) head []).
Proof.
  intros Hl. split; [|split; [|split; [|split]]].
  - intros new Hnew. split; [by apply list_add_spec|by apply list_add_tail_spec].
  - intros l1 x l2 ->. by apply list_del_spec.
  - destruct Hl as [Hs Hnd]. apply list_walk_seg; [done|nodup_simpl; done|lia].
  - intros head' l' Hl' Hdis. split; [intros new Hnew; split|intros x Hx];
      (eapply is_list_frame; [intros z Hz|done]).
    + eapply list_add_frame; [done|]. apply not_elem_of_cons. split; [intros ->; done|auto].
    + eapply list_add_tail_frame; [done|]. apply not_elem_of_cons. split; [intros ->; done|auto].
    + apply list_elem_of_split in Hx as (l1 & l2 & ->). eapply list_del_frame; [done|auto].
  - intros head' l' Hl' Hnd. by apply list_splice_init_spec.
Qed.

Lemma list_ops_witness :
  is_list (list_add_tail 9 1 two_lists) 1 [2; 3; 9] /\
  is_list (list_del 2 two_lists) 1 [3] /\
  is_list (list_splice_init 1 10 two_lists) 10 [2; 3; 11].
Proof.
  destruct (list_ops_refine_sequences two_lists 1 [2; 3] two_lists_1) as (Hadd & Hdel & _ & _ & Hsplice).
  split; [|split].
  - apply (Hadd 9). by_decide.
  - exact (proj1 (Hdel [] 2 [3] eq_refl)).
  - exact (proj1 (Hsplice 10 [11] two_lists_10 ltac:(by_decide))).
Defined.
