(* ===== verification/Kernel.v ===== *)
(** * Kernel state

    The process table, the privilege table and the other globals the kernel's
    message passing and scheduling code works on (include/kernel/proc.h,
    include/lyos/priv.h, include/kernel/global.h), with the constants of
    include/lyos/config.h, include/lyos/const.h and include/uapi/lyos/const.h,
    endpoint numbers (include/lyos/endpoint.h) and their validation
    ([verify_endpt] of kernel/proc.c).

    A pointer to an entry of [proc_table] is the number of the process
    ([proc_addr(n)] is the entry of process [n]; the numbers start at
    [-NR_TASKS]); a pointer that may be null is an [option]. A pointer into the
    memory of a process is an integer. What the memory of the processes holds
    is a parameter of the kernel, reached through [UserMemory]. *)

From S2P Require Import Prelude Bitmap.

(** ** Constants *)

Definition NR_TASKS : Z := 4.
Definition NR_BOOT_PROCS : Z := NR_TASKS + 14.
Definition NR_PROCS : Z := 256.
Definition NR_PRIV_PROCS : Z := 64.

Definition ANY : Z := NR_PROCS + 10.
Definition NO_TASK : Z := NR_PROCS + 20.

Definition CLOCK : Z := -4.
Definition SYSTEM : Z := -3.
Definition KERNEL : Z := -2.
Definition INTERRUPT : Z := -1.
Definition TASK_MM : Z := 0.
Definition TASK_PM : Z := 1.
Definition INIT : Z := 13.
Definition SELF : Z := - 35534. (* -0x8ace *)

(** Process states: a process is runnable when none of these bits is set. *)
Definition PST_BOOTINHIBIT : Z := 1.
Definition PST_SENDING : Z := 2.
Definition PST_RECEIVING : Z := 4.
Definition PST_NO_PRIV : Z := 8.
Definition PST_NO_QUANTUM : Z := 16.
Definition PST_PAGEFAULT : Z := 32.
Definition PST_MMINHIBIT : Z := 64.
Definition PST_STOPPED : Z := 128.
Definition PST_FREE_SLOT : Z := 256.
Definition PST_SIGNALED : Z := 512.
Definition PST_SIG_PENDING : Z := 1024.
Definition PST_MMREQUEST : Z := 2048.
Definition PST_TRACED : Z := 4096.

Definition PF_RESUME_SYSCALL : Z := 1.
Definition PF_TRACE_SYSCALL : Z := 2.
Definition PF_LEAVE_SYSCALL : Z := 4.
Definition PF_PROFILE_RECORDED : Z := 8.
Definition PF_RECV_ASYNC : Z := 16.
Definition PF_FPU_INITIALIZED : Z := 32.
Definition PF_DELIVER_MSG : Z := 64.
Definition PF_MSG_FAILED : Z := 128.

Definition PRF_PRIV_PROC : Z := 1.
Definition PRF_DYN_ID : Z := 2.
Definition PRF_ALLOW_PROXY_GRANT : Z := 4.
Definition PRIV_ID_NULL : Z := -1.

(** ** Messages *)

(** The body of a message, seen through [struct mess3], the view the kernel
    uses; the bytes behind it travel with it. *)
Record mess3 := mk_mess3 {
  m3i1 : Z; m3i2 : Z; m3i3 : Z; m3i4 : Z;
  m3l1 : Z; m3l2 : Z;
  m3p1 : Z; m3p2 : Z;
  m3pad : list Z
}.
#[export] Instance rebuild_mess3 : Rebuild mess3 := fun m =>
  mk_mess3 (m3i1 m) (m3i2 m) (m3i3 m) (m3i4 m) (m3l1 m) (m3l2 m) (m3p1 m) (m3p2 m) (m3pad m).

Record MESSAGE := mk_msg { m_source : Z; m_type : Z; m_u : mess3 }.
#[export] Instance rebuild_msg : Rebuild MESSAGE := fun m =>
  mk_msg (m_source m) (m_type m) (m_u m).

(** [memset(m, 0, sizeof(MESSAGE))] *)
Definition reset_msg : MESSAGE :=
  mk_msg 0 0 (mk_mess3 0 0 0 0 0 0 0 0 (replicate 24 0)).

Record async_message_t := mk_amsg {
  am_dest : Z; am_msg : MESSAGE; am_flags : Z; am_result : Z
}.
#[export] Instance rebuild_amsg : Rebuild async_message_t := fun a =>
  mk_amsg (am_dest a) (am_msg a) (am_flags a) (am_result a).
Definition ASMF_USED : Z := 1.
Definition ASMF_DONE : Z := 2.
(** [sizeof(async_message_t)]: an [int], an 80-byte message and two [int]s. *)
Definition sizeof_amsg : Z := 92.

(** ** The process and privilege tables *)

Record mm_request_t := mk_mmreq {
  next_request : option Z;
  rq_target : Z;
  saved_reqmsg : MESSAGE;
  req_type : Z;
  rq_type : Z;
  check_start : Z; check_len : Z; check_write : Z;
  rq_result : Z
}.
#[export] Instance rebuild_mmreq : Rebuild mm_request_t := fun r =>
  mk_mmreq (next_request r) (rq_target r) (saved_reqmsg r) (req_type r) (rq_type r)
           (check_start r) (check_len r) (check_write r) (rq_result r).

Record proc := mk_proc {
  p_priority : Z;
  p_counter_ns : Z;
  p_quantum_ms : Z;
  p_sched_policy : Z;
  p_deadline : Z;
  p_priv : option Z;
  p_endpoint : Z;
  p_slot : Z;
  p_state : Z;
  p_flags : Z;
  p_send_msg : MESSAGE;
  p_deliver_msg : MESSAGE;
  p_recv_msg : Z;
  p_syscall_msg : Z;
  p_recvfrom : Z;
  p_sendto : Z;
  p_q_sending : option Z;
  p_next_sending : option Z;
  p_parent : Z;
  p_sig_pending : Z;
  p_user_time : Z;
  p_mm_request : mm_request_t
}.
#[export] Instance rebuild_proc : Rebuild proc := fun p =>
  mk_proc (p_priority p) (p_counter_ns p) (p_quantum_ms p) (p_sched_policy p) (p_deadline p)
          (p_priv p) (p_endpoint p) (p_slot p) (p_state p) (p_flags p)
          (p_send_msg p) (p_deliver_msg p) (p_recv_msg p) (p_syscall_msg p)
          (p_recvfrom p) (p_sendto p) (p_q_sending p) (p_next_sending p)
          (p_parent p) (p_sig_pending p) (p_user_time p) (p_mm_request p).

Record priv_t := mk_priv {
  pr_proc_nr : Z;
  pr_id : Z;
  pr_flags : Z;
  pr_syscall_mask : bitmap;
  pr_notify_pending : bitmap;
  pr_int_pending : Z;
  pr_sig_pending : Z;
  pr_async_table : Z;
  pr_async_len : Z;
  pr_async_pending : bitmap;
  pr_grant_table : Z;
  pr_grant_entries : Z;
  pr_grant_endpoint : Z
}.
#[export] Instance rebuild_priv : Rebuild priv_t := fun p =>
  mk_priv (pr_proc_nr p) (pr_id p) (pr_flags p) (pr_syscall_mask p) (pr_notify_pending p)
          (pr_int_pending p) (pr_sig_pending p) (pr_async_table p) (pr_async_len p)
          (pr_async_pending p) (pr_grant_table p) (pr_grant_entries p) (pr_grant_endpoint p).

(** ** The memory of the processes

    [copy_user_message] and [data_vir_copy] are assembly and page-table code of
    each architecture. The kernel's C code uses them to read and write objects
    at a user address, and to learn that the address is not mapped; the
    address space is given by the process it belongs to. *)

Class UserMemory (mem : Type) := {
  um_read_msg : mem -> Z -> Z -> option MESSAGE;
  um_write_msg : mem -> Z -> Z -> MESSAGE -> option mem;
  um_read_amsg : mem -> Z -> Z -> option async_message_t;
  um_write_amsg : mem -> Z -> Z -> async_message_t -> option mem
}.

(** ** Global state *)

Record kstate (mem : Type) := mk_kstate {
  procs : Z -> proc;
  privs : Z -> priv_t;
  run_queues : Z -> Z -> list Z;
  run_queue_bitmap : Z -> bitmap;
  rr_interval_ms : Z;
  jiffies : Z;
  system_hz : Z;
  mmrequest : option Z;
  proc_ptr : Z -> option Z;
  pt_proc : Z -> Z;
  kmem : mem
}.
Arguments mk_kstate {mem}.
Arguments procs {mem}.
Arguments privs {mem}.
Arguments run_queues {mem}.
Arguments run_queue_bitmap {mem}.
Arguments rr_interval_ms {mem}.
Arguments jiffies {mem}.
Arguments system_hz {mem}.
Arguments mmrequest {mem}.
Arguments proc_ptr {mem}.
Arguments pt_proc {mem}.
Arguments kmem {mem}.
#[export] Instance rebuild_kstate mem : Rebuild (kstate mem) := fun k =>
  mk_kstate (procs k) (privs k) (run_queues k) (run_queue_bitmap k) (rr_interval_ms k)
            (jiffies k) (system_hz k) (mmrequest k) (proc_ptr k) (pt_proc k) (kmem k).

(** Zero-initialised storage, the state the kernel starts with. *)
Definition zero_mmreq : mm_request_t := mk_mmreq None 0 reset_msg 0 0 0 0 0 0.
Definition zero_proc : proc :=
  mk_proc 0 0 0 0 0 None 0 0 0 0 reset_msg reset_msg 0 0 0 0 None None 0 0 0 zero_mmreq.
Definition zero_priv : priv_t :=
  mk_priv 0 0 0 (replicate 1 0) (replicate 1 0) 0 0 0 0 (replicate 1 0) 0 0 0.
Definition zero_kstate {mem} (hz : Z) (m : mem) : kstate mem :=
  mk_kstate (fun _ => zero_proc) (fun _ => zero_priv) (fun _ _ => []) (fun _ => [0; 0])
            0 0 hz None (fun _ => None) (fun _ => 0) m.

(** ** Endpoints *)

Definition ENDPOINT_GENERATION_SHIFT : Z := 10.
Definition ENDPOINT_GENERATION_SIZE : Z := Z.shiftl 1 ENDPOINT_GENERATION_SHIFT.
Definition make_endpoint (gen p : Z) : Z := Z.shiftl gen ENDPOINT_GENERATION_SHIFT + p.
Definition ENDPOINT_G (ep : Z) : Z := Z.shiftr (ep + NR_TASKS) ENDPOINT_GENERATION_SHIFT.
Definition ENDPOINT_P (ep : Z) : Z :=
  Z.land (ep + NR_TASKS) (ENDPOINT_GENERATION_SIZE - 1) - NR_TASKS.

Definition proc_slot (n : Z) : Z := n + NR_TASKS.

Section kernel.
Context {mem : Type}.
Implicit Types (st : kstate mem) (p : proc).

Definition upd_proc (n : Z) (f : proc -> proc) (st : kstate mem) : kstate mem :=
  st <| procs ::= alter f n |>.
Definition upd_priv (id : Z) (f : priv_t -> priv_t) (st : kstate mem) : kstate mem :=
  st <| privs ::= alter f id |>.

(** [verify_endpt(ep, proc_nr)]: whether the endpoint is valid, and the process
    number it stores through [proc_nr] when it stores one. *)
Definition verify_endpt (st : kstate mem) (ep : Z) : bool * option Z :=
  if ep <? - NR_TASKS then (false, None)
  else if (ep =? NO_TASK) || (ep =? ANY) || (ep =? SELF) then (true, None)
  else
    let n := ENDPOINT_P ep in
    let slot := proc_slot n in
    if (slot <? 0) || (NR_PROCS <? slot) then (false, None)
    else if (p_state (procs st n) =? PST_FREE_SLOT) || negb (p_endpoint (procs st n) =? ep)
    then (false, None)
    else (true, Some n).

(** The local variable the result goes to is initialised to -1. *)
Definition endpt_proc (st : kstate mem) (ep : Z) : option Z :=
  match verify_endpt st ep with
  | (false, _) => None
  | (true, Some n) => Some n
  | (true, None) => Some (-1)
  end.
End kernel.

(** ** Endpoint numbers *)

Lemma ENDPOINT_parts ep :
  ep = make_endpoint (ENDPOINT_G ep) (ENDPOINT_P ep) /\
  - NR_TASKS <= ENDPOINT_P ep < ENDPOINT_GENERATION_SIZE - NR_TASKS.
Proof.
  unfold make_endpoint, ENDPOINT_G, ENDPOINT_P, ENDPOINT_GENERATION_SIZE,
    ENDPOINT_GENERATION_SHIFT, NR_TASKS.
  change (Z.shiftl 1 10 - 1) with (Z.ones 10).
  rewrite Z.land_ones, Z.shiftr_div_pow2, Z.shiftl_mul_pow2 by done.
  pose proof (Z.div_mod (ep + 4) (2 ^ 10) ltac:(done)).
  pose proof (Z.mod_pos_bound (ep + 4) (2 ^ 10) ltac:(done)).
  change (Z.shiftl 1 10) with (2 ^ 10). lia.
Qed.

Lemma make_endpoint_parts gen p :
  - NR_TASKS <= p < ENDPOINT_GENERATION_SIZE - NR_TASKS ->
  ENDPOINT_G (make_endpoint gen p) = gen /\ ENDPOINT_P (make_endpoint gen p) = p.
Proof.
  unfold make_endpoint, ENDPOINT_G, ENDPOINT_P, ENDPOINT_GENERATION_SIZE,
    ENDPOINT_GENERATION_SHIFT, NR_TASKS.
  change (Z.shiftl 1 10 - 1) with (Z.ones 10). change (Z.shiftl 1 10) with (2 ^ 10).
  intros Hp.
  rewrite Z.land_ones, Z.shiftr_div_pow2, Z.shiftl_mul_pow2 by done.
  replace (gen * 2 ^ 10 + p + 4) with (p + 4 + gen * 2 ^ 10) by lia.
  rewrite Z.div_add, Z.mod_add, Z.div_small, Z.mod_small by lia. lia.
Qed.

(** An endpoint number packs a generation and a process number: taking the
    two apart and putting them together again is the identity on every
    endpoint, and every process number of the table comes back from an
    endpoint made with it, whatever its generation. *)
Theorem endpoint_roundtrip :
  (forall ep, make_endpoint (ENDPOINT_G ep) (ENDPOINT_P ep) = ep) /\
  (forall gen p, - NR_TASKS <= p < NR_PROCS ->
     ENDPOINT_G (make_endpoint gen p) = gen /\ ENDPOINT_P (make_endpoint gen p) = p).
Proof.
  split.
  - intros ep. symmetry. apply ENDPOINT_parts.
  - intros gen p Hp. apply make_endpoint_parts.
    revert Hp. unfold NR_PROCS, NR_TASKS. change ENDPOINT_GENERATION_SIZE with 1024. lia.
Qed.

Section endpoints.
Context {mem : Type}.
Implicit Types st : kstate mem.

(** A process [n] that [endpt_proc] can return for its own endpoint. *)
Definition live (st : kstate mem) (n : Z) : Prop :=
  - NR_TASKS <= n <= NR_PROCS - NR_TASKS /\
  p_state (procs st n) <> PST_FREE_SLOT /\
  ENDPOINT_P (p_endpoint (procs st n)) = n /\
  - NR_TASKS <= p_endpoint (procs st n) /\
  p_endpoint (procs st n) <> NO_TASK /\ p_endpoint (procs st n) <> ANY.

Definition special_endpt (ep : Z) : bool :=
  (- NR_TASKS <=? ep) && ((ep =? NO_TASK) || (ep =? ANY)).

Lemma endpt_proc_Some st ep n :
  endpt_proc st ep = Some n <->
  (special_endpt ep = true /\ n = -1) \/
  (special_endpt ep = false /\ live st n /\ p_endpoint (procs st n) = ep).
Proof.
  unfold endpt_proc, verify_endpt, special_endpt, live, proc_slot.
  destruct (ENDPOINT_parts ep) as [_ Hp].
  unfold NO_TASK, ANY, SELF, NR_TASKS, NR_PROCS in *.
  change (Z.opp 4) with (-4) in *.
  change (256 + 20) with 276. change (256 + 10) with 266.
  destruct (Z.ltb_spec ep (-4)) as [Hlt|Hge].
  { rewrite (proj2 (Z.leb_gt (-4) ep)) by lia. cbn. split; [done|].
    intros [[? _]|(_ & Hl & He)]; [done|]. lia. }
  rewrite (proj2 (Z.leb_le (-4) ep)) by lia. cbn.
  replace (ep =? -35534) with false by (symmetry; apply Z.eqb_neq; lia).
  rewrite orb_false_r.
  destruct ((ep =? 276) || (ep =? 266))%bool eqn:Hsp.
  { split; [|by intros [[_ ->]|[? _]]]. intros [= <-]. by left. }
  apply orb_false_iff in Hsp as [Hs1 Hs2]. apply Z.eqb_neq in Hs1, Hs2.
  destruct ((ENDPOINT_P ep + 4 <? 0) || (256 <? ENDPOINT_P ep + 4))%bool eqn:Hr.
  { split; [done|]. intros [[? _]|(_ & (Hb & _ & He & _) & Heq)]; [done|].
    rewrite Heq in He. apply orb_true_iff in Hr. rewrite !Z.ltb_lt in Hr. lia. }
  apply orb_false_iff in Hr as [Hr1 Hr2]. apply Z.ltb_ge in Hr1, Hr2.
  destruct (Z.eqb_spec (p_state (procs st (ENDPOINT_P ep))) PST_FREE_SLOT) as [Hf|Hf]; cbn.
  { split; [done|]. intros [[? _]|(_ & (_ & Hnf & He & _) & Heq)]; [done|].
    rewrite Heq in He. subst n. done. }
  destruct (Z.eqb_spec (p_endpoint (procs st (ENDPOINT_P ep))) ep) as [He|He]; cbn.
  - split.
    + intros [= <-]. right. rewrite He. repeat split; try done; lia.
    + intros [[? _]|(_ & (_ & _ & Hn & _) & Heq)]; [done|]. rewrite Heq in Hn. by subst.
  - split; [done|]. intros [[? _]|(_ & (_ & _ & Hn & _) & Heq)]; [done|].
    rewrite Heq in Hn. subst n. done.
Qed.

Lemma live_endpt st n : live st n -> endpt_proc st (p_endpoint (procs st n)) = Some n.
Proof.
  intros Hl. apply endpt_proc_Some. right. split; [|done].
  destruct Hl as (_ & _ & _ & Hge & Hnt & Hany). unfold special_endpt.
  apply Z.leb_le in Hge. rewrite Hge. apply Z.eqb_neq in Hnt, Hany. by rewrite Hnt, Hany.
Qed.
End endpoints.
