(* ===== verification/Sched.v ===== *)
(** * Scheduler

    Run queues of kernel/sched.c and the state macros of include/kernel/proc.h
    ([PST_SET] and the like), through which every part of the kernel blocks and
    unblocks processes. The run queues and their bitmap are per CPU; [cpu] is
    the CPU the code runs on. A run queue is the sequence of the processes
    linked on it (file ListHead shows that the intrusive lists implement such
    sequences): [list_del] takes a process off whatever queue it is linked on
    and does nothing to a process that is on none. *)

From S2P Require Import Prelude Bitmap Kernel.

Definition SCHED_RUNTIME : Z := 1.
Definition SCHED_ISO : Z := 2.
Definition SCHED_NORMAL : Z := 3.
Definition SCHED_IDLEPRIO : Z := 4.
Definition SCHED_RUNTIME_QUEUES : Z := 100.
Definition SCHED_QUEUES : Z := 103.
Definition RR_INTERVAL_DEFAULT : Z := 6.
Definition MSEC_PER_SEC : Z := 1000.
Definition NSEC_PER_MSEC : Z := 1000000.

(** include/lyos/const.h *)
Definition TASK_PRIO : Z := 3.
Definition TASK_QUANTUM : Z := 15.
Definition USER_PRIO : Z := 7.
Definition USER_QUANTUM : Z := 15.

Definition proc_queue (p : proc) : Z :=
  if p_sched_policy p =? SCHED_RUNTIME then p_priority p
  else SCHED_RUNTIME_QUEUES - 2 + p_sched_policy p.

(** [pst_is_runnable] *)
Definition pst_is_runnable (pst : Z) : bool := pst =? 0.

Section sched.
Context {mem : Type}.
Implicit Types st : kstate mem.

(** [MSEC_PER_SEC] is a [long]: the product of it and an [int] does not overflow. *)
Definition JIFFIES_MS (st : kstate mem) : Z := Z.quot (jiffies st * MSEC_PER_SEC) (system_hz st).

(** All queues empty. The bitmap is zero-initialised storage. *)
Definition init_sched (st : kstate mem) : kstate mem :=
  st <| run_queues := fun _ _ => [] |>
     <| rr_interval_ms := RR_INTERVAL_DEFAULT |>.

Definition enqueue_proc (cpu n : Z) (st : kstate mem) : kstate mem :=
  let queue := proc_queue (procs st n) in
  st <| run_queues ::= alter (alter (n ::.) queue) cpu |>
     <| run_queue_bitmap ::= alter (fun b => SET_BIT b queue) cpu |>.

(** [list_del(&p->run_list)] *)
Definition run_list_del (n : Z) (st : kstate mem) : kstate mem :=
  st <| run_queues ::= fun rq c q => filter (fun x => x <> n) (rq c q) |>.

Definition dequeue_proc (cpu n : Z) (st : kstate mem) : kstate mem :=
  let queue := proc_queue (procs st n) in
  let st := run_list_del n st in
  match run_queues st cpu queue with
  | [] => st <| run_queue_bitmap ::= alter (fun b => UNSET_BIT b queue) cpu |>
  | _ :: _ => st
  end.

(** ** Blocking and unblocking *)

Definition PST_IS_SET (st : kstate mem) (n pst : Z) : bool :=
  has_flag (p_state (procs st n)) pst.

Definition PST_SET_LOCKED (cpu n pst : Z) (st : kstate mem) : kstate mem :=
  let prev_pst := p_state (procs st n) in
  let st := upd_proc n (fun p => p <| p_state ::= fun s => set_flag s pst |>) st in
  if pst_is_runnable prev_pst && negb (pst_is_runnable (p_state (procs st n)))
  then dequeue_proc cpu n st else st.

Definition PST_SETFLAGS_LOCKED (cpu n flags : Z) (st : kstate mem) : kstate mem :=
  let prev_pst := p_state (procs st n) in
  let st := upd_proc n (fun p => p <| p_state := flags |>) st in
  if pst_is_runnable prev_pst && negb (pst_is_runnable (p_state (procs st n)))
  then dequeue_proc cpu n st else st.

Definition PST_UNSET_LOCKED (cpu n pst : Z) (st : kstate mem) : kstate mem :=
  let prev_pst := p_state (procs st n) in
  let st := upd_proc n (fun p => p <| p_state ::= fun s => clear_flag s pst |>) st in
  if negb (pst_is_runnable prev_pst) && pst_is_runnable (p_state (procs st n))
  then enqueue_proc cpu n st else st.

(** ** Choosing a process *)

(** The loop over the bits of a chunk: [j] runs from 0 to 63. *)
Fixpoint first_bit_of_chunk (c j : Z) (n : nat) : option Z :=
  match n with
  | O => None
  | S n =>
      if negb (Z.land c (Z.shiftl 1 j) =? 0) then Some j
      else first_bit_of_chunk c (j + 1) n
  end.

(** The loop over the chunks stops at the first that is not zero. *)
Fixpoint first_queue (b : bitmap) (i : Z) (n : nat) : option Z :=
  match n with
  | O => None
  | S n =>
      if negb (chunk b i =? 0) then
        (fun j => i * BITCHUNK_BITS + j) <$> first_bit_of_chunk (chunk b i) 0 64
      else first_queue b (i + 1) n
  end.

(** The loop over the processes of the queue; [smallest] is an unsigned
    64-bit word that starts as [-1]. *)
Fixpoint select_proc (st : kstate mem) (l : list Z) (smallest : Z) (selected : option Z)
  : option Z :=
  match l with
  | [] => selected
  | n :: l =>
      let deadline := p_deadline (procs st n) in
      if deadline <? wrapu 64 (JIFFIES_MS st) then Some n
      else if (smallest =? 2 ^ 64 - 1) || (deadline <? smallest)
      then select_proc st l deadline (Some n)
      else select_proc st l smallest selected
  end.

Definition pick_proc (cpu : Z) (st : kstate mem) : option Z * kstate mem :=
  match first_queue (run_queue_bitmap st cpu) 0 (Z.to_nat (BITCHUNKS SCHED_QUEUES)) with
  | None => (None, st)
  | Some q =>
      match select_proc st (run_queues st cpu q) (2 ^ 64 - 1) None with
      | None => (None, st)
      | Some n => (Some n, dequeue_proc cpu n st)
      end
  end.

(** [rr_interval_ms] is a [u32]; [counter_ns] and [deadline] are [u64]. *)
Definition next_deadline (st : kstate mem) (n : Z) : Z :=
  let prio_ratio := p_priority (procs st n) in
  wrapu 64 (JIFFIES_MS st + wrapu 32 (rr_interval_ms st * prio_ratio)).

Definition proc_no_time (cpu n : Z) (st : kstate mem) : kstate mem :=
  let d := next_deadline st n in
  let st := upd_proc n (fun p =>
    p <| p_counter_ns := wrapu 64 (rr_interval_ms st * NSEC_PER_MSEC) |>
      <| p_deadline := d |>) st in
  PST_UNSET_LOCKED cpu n PST_NO_QUANTUM st.

Definition sched_clock (n : Z) (st : kstate mem) : kstate mem :=
  let d := next_deadline st n in
  upd_proc n (fun p => p <| p_deadline := d |>) st.

(** ** The process table at boot ([init_proc] of kernel/proc.c) *)

(** The members the loop over the process table assigns first. *)
Definition init_proc_fields (i : Z) (p : proc) : proc :=
  let prio := if i =? INIT then USER_PRIO else TASK_PRIO in
  let quantum := if i =? INIT then USER_QUANTUM else TASK_QUANTUM in
  p <| p_quantum_ms := quantum |>
    <| p_counter_ns := wrapu 64 (quantum * NSEC_PER_MSEC) |>
    <| p_priority := prio |>
    <| p_parent := NO_TASK |>
    <| p_endpoint := make_endpoint 0 i |>
    <| p_slot := i |>
    <| p_send_msg := reset_msg |>
    <| p_recv_msg := 0 |>
    <| p_recvfrom := NO_TASK |>
    <| p_sendto := NO_TASK |>
    <| p_q_sending := None |>
    <| p_next_sending := None |>
    <| p_state := 0 |>
    <| p_flags := 0 |>
    <| p_priv := None |>.

(** The body of the loop. [run_list] becomes a list of its own: the process
    is on no queue. [arch_reset_proc] clears the saved registers, which are
    not part of the model. *)
Definition init_proc_entry (cpu i : Z) (st : kstate mem) : kstate mem :=
  if NR_BOOT_PROCS - NR_TASKS <=? i then
    upd_proc i (fun p => p <| p_state := PST_FREE_SLOT |>) st
  else
    let st := upd_proc i (init_proc_fields i) st in
    let st :=
      if negb (i =? TASK_MM) then
        PST_SET_LOCKED cpu i PST_MMINHIBIT (PST_SET_LOCKED cpu i PST_BOOTINHIBIT st)
      else st in
    let st := PST_SET_LOCKED cpu i PST_STOPPED st in
    let st := upd_proc i (fun p => p <| p_sched_policy := SCHED_NORMAL |>) st in
    proc_no_time cpu i st.

Definition init_priv_entry (id : Z) (st : kstate mem) : kstate mem :=
  upd_priv id (fun _ => zero_priv <| pr_proc_nr := NO_TASK |> <| pr_id := id |>) st.

Definition init_proc (cpu : Z) (st : kstate mem) : kstate mem :=
  let st := foldl (fun st i => init_proc_entry cpu i st) st
              (seqZ (- NR_TASKS) (NR_TASKS + NR_PROCS)) in
  let st := foldl (fun st id => init_priv_entry id st) st (seqZ 0 NR_PRIV_PROCS) in
  st <| mmrequest := None |>.
End sched.

(** ** The process table under updates *)

Section tables.
Context {mem : Type}.
Implicit Types st : kstate mem.

Lemma procs_upd_proc n f st k :
  procs (upd_proc n f st) k = if decide (n = k) then f (procs st n) else procs st k.
Proof. reflexivity. Qed.

Lemma procs_upd_proc_eq n f st : procs (upd_proc n f st) n = f (procs st n).
Proof. rewrite procs_upd_proc, decide_True; done. Qed.

Lemma procs_upd_proc_ne n f st k : n <> k -> procs (upd_proc n f st) k = procs st k.
Proof. intros. rewrite procs_upd_proc, decide_False; done. Qed.

Lemma procs_enqueue cpu n st : procs (enqueue_proc cpu n st) = procs st.
Proof. done. Qed.

Lemma run_queues_enqueue cpu n st q :
  run_queues (enqueue_proc cpu n st) cpu q =
  if decide (proc_queue (procs st n) = q) then n :: run_queues st cpu q
  else run_queues st cpu q.
Proof.
  unfold enqueue_proc. cbn. rewrite fn_lookup_alter. unfold alter, fn_alter.
  by destruct (decide _) as [->|].
Qed.

Lemma run_queue_bitmap_enqueue cpu n st :
  run_queue_bitmap (enqueue_proc cpu n st) cpu =
  SET_BIT (run_queue_bitmap st cpu) (proc_queue (procs st n)).
Proof. unfold enqueue_proc. cbn. by rewrite fn_lookup_alter. Qed.

Lemma procs_dequeue cpu n st : procs (dequeue_proc cpu n st) = procs st.
Proof. unfold dequeue_proc. by destruct (run_queues _ _ _). Qed.

Lemma run_queues_dequeue cpu n st c q :
  run_queues (dequeue_proc cpu n st) c q = filter (fun x => x <> n) (run_queues st c q).
Proof.
  unfold dequeue_proc. destruct (run_queues (run_list_del n st) cpu _); reflexivity.
Qed.

Lemma run_queue_bitmap_dequeue cpu n st :
  run_queue_bitmap (dequeue_proc cpu n st) cpu =
  let queue := proc_queue (procs st n) in
  match filter (fun x => x <> n) (run_queues st cpu queue) with
  | [] => UNSET_BIT (run_queue_bitmap st cpu) queue
  | _ :: _ => run_queue_bitmap st cpu
  end.
Proof.
  unfold dequeue_proc. cbn. destruct (filter _ _); [|done]. cbn. by rewrite fn_lookup_alter.
Qed.

Lemma proc_ptr_dequeue cpu n st : proc_ptr (dequeue_proc cpu n st) = proc_ptr st.
Proof. unfold dequeue_proc. by destruct (run_queues (run_list_del n st) cpu _). Qed.

(** The macros change the state word of one process and the run queues. *)
Lemma procs_PST_SET cpu n pst st k :
  procs (PST_SET_LOCKED cpu n pst st) k =
  if decide (n = k) then (procs st n) <| p_state ::= fun s => set_flag s pst |>
  else procs st k.
Proof. unfold PST_SET_LOCKED. case_cond; rewrite ?procs_dequeue; apply procs_upd_proc. Qed.

Lemma procs_PST_UNSET cpu n pst st k :
  procs (PST_UNSET_LOCKED cpu n pst st) k =
  if decide (n = k) then (procs st n) <| p_state ::= fun s => clear_flag s pst |>
  else procs st k.
Proof. unfold PST_UNSET_LOCKED. case_cond; rewrite ?procs_enqueue; apply procs_upd_proc. Qed.

Lemma procs_PST_SETFLAGS cpu n flags st k :
  procs (PST_SETFLAGS_LOCKED cpu n flags st) k =
  if decide (n = k) then (procs st n) <| p_state := flags |> else procs st k.
Proof. unfold PST_SETFLAGS_LOCKED. case_cond; rewrite ?procs_dequeue; apply procs_upd_proc. Qed.
End tables.

(** ** The scheduler invariant

    On a machine with one CPU: the bitmap has a bit for exactly the queues that
    are not empty, a queued process is runnable and on the queue of its
    policy, and a runnable process is queued, unless it is the one the CPU
    runs. *)

Definition valid_nr (n : Z) : Prop := - NR_TASKS <= n < NR_PROCS.

(** The bits of [bitchunk_t[BITCHUNKS(SCHED_QUEUES)]]. *)
Definition QUEUE_BITS : Z := BITCHUNKS SCHED_QUEUES * BITCHUNK_BITS.

Record queues_wf {mem} (cpu : Z) (st : kstate mem) : Prop := {
  sw_bitmap : wf_bitmap (run_queue_bitmap st cpu) QUEUE_BITS;
  sw_bit q : 0 <= q < QUEUE_BITS ->
    test_bit (run_queue_bitmap st cpu) q = true <-> run_queues st cpu q <> [];
  sw_other c q : c <> cpu -> run_queues st c q = [];
  sw_queued q n : n ∈ run_queues st cpu q ->
    p_state (procs st n) = 0 /\ proc_queue (procs st n) = q;
  sw_nodup q : NoDup (run_queues st cpu q);
  sw_range n : 0 <= proc_queue (procs st n) < SCHED_QUEUES
}.

Record sched_wf {mem} (cpu : Z) (st : kstate mem) : Prop := {
  sw_queues : queues_wf cpu st;
  sw_kept n : valid_nr n -> p_state (procs st n) = 0 ->
    n ∈ run_queues st cpu (proc_queue (procs st n)) \/ proc_ptr st cpu = Some n
}.

(** Two process table entries the scheduler cannot tell apart. *)
Definition same_sched (p p' : proc) : Prop :=
  p_state p' = p_state p /\ p_sched_policy p' = p_sched_policy p /\ p_priority p' = p_priority p.

Lemma same_sched_queue p p' : same_sched p p' -> proc_queue p' = proc_queue p.
Proof. intros (_ & Hp & Hr). unfold proc_queue. by rewrite Hp, Hr. Qed.

Section sched_inv.
Context {mem : Type}.
Implicit Types st : kstate mem.

Lemma queue_bit st n :
  0 <= proc_queue (procs st n) < SCHED_QUEUES -> 0 <= proc_queue (procs st n) < QUEUE_BITS.
Proof. change QUEUE_BITS with 128. unfold SCHED_QUEUES. lia. Qed.

Lemma queues_wf_ext cpu st st' :
  (forall n, same_sched (procs st n) (procs st' n)) ->
  (forall c q, run_queues st' c q = run_queues st c q) ->
  run_queue_bitmap st' cpu = run_queue_bitmap st cpu ->
  queues_wf cpu st -> queues_wf cpu st'.
Proof.
  intros Hs Hq Hb [H1 H2 H3 H4 H5 H6].
  assert (forall n, p_state (procs st' n) = p_state (procs st n)) as Hst by apply Hs.
  assert (forall n, proc_queue (procs st' n) = proc_queue (procs st n)) as Hpq
    by (intros; apply same_sched_queue, Hs).
  constructor; rewrite ?Hb; intros; rewrite ?Hq, ?Hst, ?Hpq in *; auto.
Qed.

Lemma sched_wf_ext cpu st st' :
  (forall n, same_sched (procs st n) (procs st' n)) ->
  run_queues st' = run_queues st -> run_queue_bitmap st' = run_queue_bitmap st ->
  proc_ptr st' cpu = proc_ptr st cpu ->
  sched_wf cpu st -> sched_wf cpu st'.
Proof.
  intros Hs Hq Hb Hp [H1 H2]. constructor.
  - eapply queues_wf_ext; [exact Hs|..|done]; [by rewrite Hq|by rewrite Hb].
  - intros n Hn. destruct (Hs n) as (-> & Hr). rewrite Hq, Hp.
    rewrite (same_sched_queue (procs st n)) by apply Hs. auto.
Qed.

Lemma sched_wf_upd_proc cpu n f st :
  same_sched (procs st n) (f (procs st n)) ->
  sched_wf cpu st -> sched_wf cpu (upd_proc n f st).
Proof.
  intros Hf. apply sched_wf_ext; try done. intros k. rewrite procs_upd_proc.
  destruct (decide (n = k)) as [<-|]; done.
Qed.

(** Changing a process and taking it off the queues. *)
Lemma queues_wf_dequeue cpu n f st :
  queues_wf cpu st -> proc_queue (f (procs st n)) = proc_queue (procs st n) ->
  queues_wf cpu (dequeue_proc cpu n (upd_proc n f st)).
Proof.
  intros [H1 H2 H3 H4 H5 H6] Hpq.
  assert (forall k, proc_queue (procs (upd_proc n f st) k) = proc_queue (procs st k)) as Hq.
  { intros k. rewrite procs_upd_proc. by destruct (decide (n = k)) as [<-|]. }
  assert (forall q, proc_queue (procs st n) <> q ->
            filter (fun x => x <> n) (run_queues st cpu q) = run_queues st cpu q) as Hoth.
  { intros q Hqn. apply filter_ne_notin. intros Hx. apply Hqn. by apply H4. }
  constructor.
  - rewrite run_queue_bitmap_dequeue, Hq. cbn.
    destruct (filter _ _); auto with lyos.
  - intros q Hqr. rewrite run_queue_bitmap_dequeue, Hq, run_queues_dequeue. cbn.
    destruct (decide (proc_queue (procs st n) = q)) as [<-|Hqn].
    + destruct (filter _ _) eqn:Hfil.
      * rewrite (test_bit_UNSET_BIT _ QUEUE_BITS), decide_True by (done || lia). done.
      * split; intros _; [discriminate|]. apply H2; [done|]. intros He. rewrite He in Hfil. done.
    + rewrite (Hoth q Hqn), <- H2 by done.
      destruct (filter _ _); [|done].
      rewrite (test_bit_UNSET_BIT _ QUEUE_BITS), decide_False by (done || lia || apply queue_bit, H6).
      done.
  - intros c q Hc. rewrite run_queues_dequeue. cbn. by rewrite H3.
  - intros q x Hx. rewrite run_queues_dequeue in Hx. apply list_elem_of_filter in Hx as [Hxn Hx].
    rewrite procs_dequeue, Hq, procs_upd_proc, decide_False by (intros ->; done). by apply H4.
  - intros q. rewrite run_queues_dequeue. apply NoDup_filter, H5.
  - intros k. by rewrite procs_dequeue, Hq.
Qed.

(** Taking a process off the queues once its state says it is blocked. *)
Lemma sched_wf_block cpu n f st :
  sched_wf cpu st -> p_state (f (procs st n)) <> 0 ->
  proc_queue (f (procs st n)) = proc_queue (procs st n) ->
  sched_wf cpu (dequeue_proc cpu n (upd_proc n f st)).
Proof.
  intros [Hqs Hk] Hne Hpq. constructor; [by apply queues_wf_dequeue|].
  intros k Hv. rewrite procs_dequeue, procs_upd_proc, proc_ptr_dequeue.
  destruct (decide (n = k)) as [<-|Hnk]; [done|]. intros Hz.
  destruct (Hk k Hv Hz) as [Hin|]; [left|by right].
  rewrite run_queues_dequeue. apply list_elem_of_filter. split; [done|exact Hin].
Qed.

(** Taking a runnable process off the queues to run it. *)
Lemma sched_wf_dispatch cpu n st :
  sched_wf cpu st ->
  (forall m, proc_ptr st cpu = Some m -> p_state (procs st m) = 0 ->
     m ∈ run_queues st cpu (proc_queue (procs st m))) ->
  sched_wf cpu ((dequeue_proc cpu n st) <| proc_ptr ::= <[cpu := Some n]> |>).
Proof.
  intros [Hqs Hk] Hcur. constructor.
  - apply queues_wf_ext with (dequeue_proc cpu n (upd_proc n (fun p => p) st)).
    + intros k. cbn. rewrite !procs_dequeue, procs_upd_proc.
      by destruct (decide (n = k)) as [<-|].
    + intros c q. cbn. by rewrite !run_queues_dequeue.
    + cbn. rewrite !run_queue_bitmap_dequeue. by rewrite procs_upd_proc_eq.
    + by apply queues_wf_dequeue.
  - intros k Hv. cbn. rewrite procs_dequeue, run_queues_dequeue, fn_lookup_insert. intros Hz.
    destruct (decide (k = n)) as [->|Hne]; [by right|left].
    apply list_elem_of_filter. split; [done|]. destruct (Hk k Hv Hz); auto.
Qed.

(** Queueing a process whose state says it has become runnable. *)
Lemma sched_wf_unblock cpu n f st :
  sched_wf cpu st -> p_state (procs st n) <> 0 -> p_state (f (procs st n)) = 0 ->
  proc_queue (f (procs st n)) = proc_queue (procs st n) ->
  sched_wf cpu (enqueue_proc cpu n (upd_proc n f st)).
Proof.
  intros [[H1 H2 H3 H4 H5 H6] H7] Hne Hz Hpq.
  assert (forall k, proc_queue (procs (upd_proc n f st) k) = proc_queue (procs st k)) as Hq.
  { intros k. rewrite procs_upd_proc. by destruct (decide (n = k)) as [<-|]. }
  assert (forall q, n ∉ run_queues st cpu q) as Hnin.
  { intros q Hin. apply H4 in Hin. tauto. }
  constructor; [constructor|].
  - rewrite run_queue_bitmap_enqueue, Hq. auto with lyos.
  - intros q Hqr. rewrite run_queues_enqueue, run_queue_bitmap_enqueue, Hq.
    rewrite (test_bit_SET_BIT _ QUEUE_BITS) by (done || lia || apply queue_bit, H6).
    destruct (decide _); [done|]. by apply H2.
  - intros c q Hc. cbn. rewrite fn_lookup_alter_ne by done. by apply H3.
  - intros q x Hx. rewrite procs_enqueue, Hq, procs_upd_proc.
    rewrite run_queues_enqueue, Hq in Hx.
    destruct (decide (proc_queue (procs st n) = q)) as [<-|Hqn].
    + apply elem_of_cons in Hx as [->|Hx].
      * rewrite decide_True by done. done.
      * rewrite decide_False by (intros ->; by eapply Hnin). by apply H4.
    + rewrite decide_False by (intros ->; by eapply Hnin). by apply H4.
  - intros q. rewrite run_queues_enqueue, Hq. case_decide; [|apply H5].
    apply NoDup_cons. split; [apply Hnin|apply H5].
  - intros k. by rewrite procs_enqueue, Hq.
  - intros k Hk. rewrite procs_enqueue, run_queues_enqueue, !Hq, procs_upd_proc.
    destruct (decide (n = k)) as [<-|Hnk].
    + intros _. left. rewrite decide_True by done. apply elem_of_cons. by left.
    + intros Hs. destruct (H7 k Hk Hs) as [Hin|]; [left|by right].
      case_decide; [by apply elem_of_cons; right|done].
Qed.

(** Neither before nor after the change is the process runnable. *)
Lemma sched_wf_blocked cpu n f st :
  sched_wf cpu st -> p_state (procs st n) <> 0 -> p_state (f (procs st n)) <> 0 ->
  proc_queue (f (procs st n)) = proc_queue (procs st n) ->
  sched_wf cpu (upd_proc n f st).
Proof.
  intros [[H1 H2 H3 H4 H5 H6] H7] Hne Hz Hpq.
  assert (forall k, proc_queue (procs (upd_proc n f st) k) = proc_queue (procs st k)) as Hq.
  { intros k. rewrite procs_upd_proc. by destruct (decide (n = k)) as [<-|]. }
  constructor; [constructor; try done|].
  - intros q x Hx. rewrite Hq, procs_upd_proc. cbn in Hx.
    rewrite decide_False; [by apply H4|]. intros ->. apply H4 in Hx. tauto.
  - intros k. by rewrite Hq.
  - intros k Hk. rewrite Hq, procs_upd_proc.
    destruct (decide (n = k)) as [<-|Hnk]; [done|]. by apply H7.
Qed.

Lemma sched_wf_PST_SET cpu n pst st :
  sched_wf cpu st -> sched_wf cpu (PST_SET_LOCKED cpu n pst st).
Proof.
  intros Hwf. unfold PST_SET_LOCKED, pst_is_runnable. rewrite procs_upd_proc_eq. cbn.
  destruct (Z.eqb_spec (p_state (procs st n)) 0) as [Hz|Hz]; cbn.
  - destruct (Z.eqb_spec (set_flag (p_state (procs st n)) pst) 0) as [Hs|Hs]; cbn.
    + apply sched_wf_upd_proc; [|done]. repeat split. cbn. congruence.
    + by apply sched_wf_block.
  - apply sched_wf_blocked; try done. cbn. intros Hs. by apply set_flag_zero in Hs as [? _].
Qed.

Lemma sched_wf_PST_UNSET cpu n pst st :
  sched_wf cpu st -> sched_wf cpu (PST_UNSET_LOCKED cpu n pst st).
Proof.
  intros Hwf. unfold PST_UNSET_LOCKED, pst_is_runnable. rewrite procs_upd_proc_eq. cbn.
  destruct (Z.eqb_spec (p_state (procs st n)) 0) as [Hz|Hz]; cbn.
  - apply sched_wf_upd_proc; [|done]. repeat split. cbn. rewrite Hz.
    apply Z.land_0_l.
  - destruct (Z.eqb_spec (clear_flag (p_state (procs st n)) pst) 0) as [Hs|Hs].
    + by apply sched_wf_unblock.
    + by apply sched_wf_blocked.
Qed.

Lemma sched_wf_PST_SETFLAGS cpu n flags st :
  sched_wf cpu st -> flags <> 0 -> sched_wf cpu (PST_SETFLAGS_LOCKED cpu n flags st).
Proof.
  intros Hwf Hf. unfold PST_SETFLAGS_LOCKED, pst_is_runnable. rewrite procs_upd_proc_eq. cbn.
  rewrite (proj2 (Z.eqb_neq flags 0)) by done.
  destruct (Z.eqb_spec (p_state (procs st n)) 0) as [Hz|Hz]; cbn.
  - by apply sched_wf_block.
  - by apply sched_wf_blocked.
Qed.
End sched_inv.
#[export] Hint Resolve sched_wf_PST_SET sched_wf_PST_UNSET : lyos.

(** ** Choosing a process *)

Lemma first_bit_of_chunk_spec c j n :
  0 <= j ->
  match first_bit_of_chunk c j n with
  | Some k => j <= k < j + Z.of_nat n /\ Z.testbit c k = true /\
              forall i, j <= i < k -> Z.testbit c i = false
  | None => forall i, j <= i < j + Z.of_nat n -> Z.testbit c i = false
  end.
Proof.
  revert j. induction n as [|n IH]; intros j Hj; cbn [first_bit_of_chunk]; [lia|].
  rewrite land_pow2_testbit by done. destruct (Z.testbit c j) eqn:Hb.
  - repeat split; [lia..|done|lia].
  - specialize (IH (j + 1) ltac:(lia)). destruct (first_bit_of_chunk c (j + 1) n) as [k|].
    + destruct IH as (Hk & Hbk & Hlow). repeat split; [lia..|done|].
      intros i Hi. destruct (decide (i = j)) as [->|]; [done|]. apply Hlow. lia.
    + intros i Hi. destruct (decide (i = j)) as [->|]; [done|]. apply IH. lia.
Qed.

Lemma first_queue_spec b i n :
  Forall (fun c => 0 <= c < 2 ^ 64) b -> 0 <= i ->
  match first_queue b i n with
  | Some q => i * 64 <= q < (i + Z.of_nat n) * 64 /\ test_bit b q = true /\
              forall j, i * 64 <= j < q -> test_bit b j = false
  | None => forall j, i * 64 <= j < (i + Z.of_nat n) * 64 -> test_bit b j = false
  end.
Proof.
  intros Hb. revert i. induction n as [|n IH]; intros i Hi; cbn [first_queue]; [lia|].
  assert (forall j, i * 64 <= j < (i + 1) * 64 ->
            test_bit b j = Z.testbit (chunk b i) (j - i * 64)) as Hj.
  { intros j Hj. rewrite chunk_bits by lia. f_equal. unfold BITCHUNK_BITS. lia. }
  destruct (Z.eqb_spec (chunk b i) 0) as [Hz|Hnz]; cbn [negb].
  - assert (forall j, i * 64 <= j < (i + 1) * 64 -> test_bit b j = false) as Hlow.
    { intros j Hr. rewrite Hj, Hz by done. apply Z.bits_0. }
    specialize (IH (i + 1) ltac:(lia)). destruct (first_queue b (i + 1) n) as [q|].
    + destruct IH as (Hq & Hbq & Hmin). split; [lia|]. split; [done|].
      intros j Hr. destruct (decide (j < (i + 1) * 64)); [apply Hlow|apply Hmin]; lia.
    + intros j Hr. destruct (decide (j < (i + 1) * 64)); [apply Hlow|apply IH]; lia.
  - pose proof (first_bit_of_chunk_spec (chunk b i) 0 64 ltac:(done)) as Hs.
    destruct (first_bit_of_chunk (chunk b i) 0 64) as [k|]; cbn [fmap option_fmap option_map].
    + destruct Hs as (Hk & Hbk & Hlow). unfold BITCHUNK_BITS.
      split; [lia|]. split; [rewrite Hj, <- Hbk by lia; f_equal; lia|].
      intros j Hr. rewrite Hj by lia. apply Hlow. lia.
    + exfalso. destruct (nonzero_lowest (chunk b i)) as (k & Hk & Hbk & _); [|done|].
      { apply (chunk_range b 0). split; [done|]. change (BITCHUNKS 0) with 0. lia. }
      rewrite Hs in Hbk by lia. done.
Qed.

Section pick.
Context {mem : Type} (st : kstate mem).

Definition expired (n : Z) : Prop := p_deadline (procs st n) < wrapu 64 (JIFFIES_MS st).

(** The first process of the queue whose deadline has passed; the first with
    the smallest deadline when none has. *)
Definition earliest (l : list Z) (n : Z) : Prop :=
  exists l1 l2, l = l1 ++ n :: l2 /\ (forall x, x ∈ l1 -> ~ expired x) /\
    (expired n \/
     (forall x, x ∈ l -> ~ expired x) /\
     (forall x, x ∈ l1 -> p_deadline (procs st n) < p_deadline (procs st x)) /\
     (forall x, x ∈ l2 -> p_deadline (procs st n) <= p_deadline (procs st x))).

Definition deadlines_ok (l : list Z) : Prop :=
  forall n, n ∈ l -> 0 <= p_deadline (procs st n) < 2 ^ 64 - 1.

Lemma select_proc_some l m :
  deadlines_ok (m :: l) -> ~ expired m ->
  exists n, select_proc st l (p_deadline (procs st m)) (Some m) = Some n /\
            earliest (m :: l) n.
Proof.
  revert m. induction l as [|x l IH]; intros m Hok Hm; cbn [select_proc].
  { exists m. split; [done|]. exists [], []. split; [done|]. split; [set_solver|].
    right. split_and!; set_solver. }
  assert (deadlines_ok (m :: l)) as Hokm by (intros y Hy; apply Hok; set_solver).
  assert (deadlines_ok (x :: l)) as Hokx by (intros y Hy; apply Hok; set_solver).
  destruct (Z.ltb_spec (p_deadline (procs st x)) (wrapu 64 (JIFFIES_MS st))) as [Hx|Hx].
  { exists x. split; [done|]. exists [m], l. split; [done|]. split; [|by left].
    intros y Hy. apply elem_of_cons in Hy as [->|Hy]; [done|]. by apply elem_of_nil in Hy. }
  assert (~ expired x) as Hnx by (unfold expired; lia).
  rewrite (proj2 (Z.eqb_neq _ _)) by (pose proof (Hok m ltac:(member)); lia). cbn [orb].
  destruct (Z.ltb_spec (p_deadline (procs st x)) (p_deadline (procs st m))) as [Hlt|Hge].
  - destruct (IH x Hokx Hnx) as (n & -> & l1 & l2 & Heq & Hl1 & Hn). exists n. split; [done|].
    exists (m :: l1), l2. split; [by rewrite Heq|]. split; [set_solver|].
    destruct Hn as [|(Hne & Hlt1 & Hle2)]; [by left|right]. split; [set_solver|]. split; [|done].
    intros y Hy. apply elem_of_cons in Hy as [->|Hy]; [|auto].
    destruct l1 as [|z l1]; injection Heq as -> ->; [done|].
    specialize (Hlt1 z ltac:(member)). lia.
  - destruct (IH m Hokm Hm) as (n & -> & l1 & l2 & Heq & Hl1 & Hn). exists n. split; [done|].
    destruct l1 as [|z l1]; injection Heq as -> ->.
    + exists [], (x :: l2). split; [done|]. split; [set_solver|].
      destruct Hn as [|(Hne & Hlt1 & Hle2)]; [done|right]. split_and!; [set_solver..|].
      intros y Hy. apply elem_of_cons in Hy as [->|Hy]; auto with lia.
    + exists (z :: x :: l1), l2. split; [done|]. split; [set_solver|].
      destruct Hn as [|(Hne & Hlt1 & Hle2)]; [by left|right]. split_and!; [set_solver| |done].
      intros y Hy. pose proof (Hlt1 z ltac:(member)).
      apply elem_of_cons in Hy as [->|Hy]; [done|].
      apply elem_of_cons in Hy as [->|Hy]; [lia|]. apply Hlt1. member.
Qed.

Lemma select_proc_spec l :
  deadlines_ok l -> l <> [] ->
  exists n, select_proc st l (2 ^ 64 - 1) None = Some n /\ earliest l n.
Proof.
  destruct l as [|x l]; intros Hok Hne; [done|]. cbn [select_proc].
  destruct (Z.ltb_spec (p_deadline (procs st x)) (wrapu 64 (JIFFIES_MS st))) as [Hx|Hx].
  - exists x. split; [done|]. exists [], l. split; [done|]. split; [set_solver|]. by left.
  - apply select_proc_some; [done|]. unfold expired. lia.
Qed.

Lemma earliest_in l n : earliest l n -> n ∈ l.
Proof. intros (l1 & l2 & -> & _). member. Qed.

Lemma pick_proc_spec cpu :
  queues_wf cpu st -> (forall q, deadlines_ok (run_queues st cpu q)) ->
  (fst (pick_proc cpu st) = None /\ snd (pick_proc cpu st) = st /\
   forall q, 0 <= q < SCHED_QUEUES -> run_queues st cpu q = []) \/
  (exists n q, pick_proc cpu st = (Some n, dequeue_proc cpu n st) /\ 0 <= q < SCHED_QUEUES /\
     (forall j, 0 <= j < q -> run_queues st cpu j = []) /\
     earliest (run_queues st cpu q) n).
Proof.
  intros [Hb Hbit _ Hqd _ Hrg] Hok. unfold pick_proc.
  pose proof (first_queue_spec (run_queue_bitmap st cpu) 0 (Z.to_nat (BITCHUNKS SCHED_QUEUES))
                (proj1 Hb) ltac:(done)) as Hfq.
  change ((0 + Z.of_nat (Z.to_nat (BITCHUNKS SCHED_QUEUES))) * 64) with QUEUE_BITS in Hfq.
  assert (forall q, 0 <= q < QUEUE_BITS -> test_bit (run_queue_bitmap st cpu) q = false ->
            run_queues st cpu q = []) as Hempty.
  { intros q Hq Hf. destruct (run_queues st cpu q) eqn:E; [done|].
    assert (test_bit (run_queue_bitmap st cpu) q = true) by (apply Hbit; [done|by rewrite E]).
    congruence. }
  destruct (first_queue _ 0 _) as [q|].
  2: { left. split_and!; [done..|]. intros q Hq. change QUEUE_BITS with 128 in *.
       unfold SCHED_QUEUES in Hq. apply Hempty; [lia|]. apply Hfq. lia. }
  destruct Hfq as (Hqr & Hq & Hmin). right.
  assert (run_queues st cpu q <> []) as Hne by by apply Hbit.
  destruct (select_proc_spec _ (Hok q) Hne) as (n & -> & Hn). exists n, q.
  split; [done|]. split.
  { apply earliest_in in Hn. apply Hqd in Hn as [_ <-]. apply Hrg. }
  split; [|done]. intros j Hj. apply Hempty; [lia|]. apply Hmin. lia.
Qed.
End pick.

(** ** The state after boot *)

Section boot.
Context {mem : Type} (cpu : Z).
Implicit Types st : kstate mem.

(** No process is on a queue. *)
Record quiet (st : kstate mem) : Prop := {
  qt_queues c q : run_queues st c q = [];
  qt_bitmap : wf_bitmap (run_queue_bitmap st cpu) QUEUE_BITS;
  qt_bits q : 0 <= q < QUEUE_BITS -> test_bit (run_queue_bitmap st cpu) q = false;
  qt_range n : 0 <= proc_queue (procs st n) < SCHED_QUEUES
}.

Lemma quiet_queues_wf st : quiet st -> queues_wf cpu st.
Proof.
  intros [Hq Hw Hb Hr]. constructor; try done.
  - intros q Hqr. by rewrite Hb, Hq.
  - intros q n Hn. rewrite Hq in Hn. by apply elem_of_nil in Hn.
  - intros q. rewrite Hq. constructor.
Qed.

Lemma quiet_upd n f st :
  quiet st -> 0 <= proc_queue (f (procs st n)) < SCHED_QUEUES -> quiet (upd_proc n f st).
Proof.
  intros [Hq Hw Hb Hr] Hf. constructor; try done.
  intros k. rewrite procs_upd_proc. by destruct (decide (n = k)).
Qed.

Lemma quiet_dequeue n st : quiet st -> quiet (dequeue_proc cpu n st).
Proof.
  intros [Hq Hw Hb Hr]. constructor.
  - intros c q. by rewrite run_queues_dequeue, Hq.
  - rewrite run_queue_bitmap_dequeue. cbn. destruct (filter _ _); auto with lyos.
  - intros q Hqr. rewrite run_queue_bitmap_dequeue. cbn. destruct (filter _ _); [|by apply Hb].
    rewrite (test_bit_UNSET_BIT _ QUEUE_BITS) by (done || lia || apply queue_bit, Hr).
    case_decide; [done|]. by apply Hb.
  - intros k. by rewrite procs_dequeue.
Qed.

Lemma quiet_PST_SET n pst st : quiet st -> quiet (PST_SET_LOCKED cpu n pst st).
Proof.
  intros Hqt. unfold PST_SET_LOCKED.
  assert (quiet (upd_proc n (fun p => p <| p_state ::= fun s => set_flag s pst |>) st)).
  { apply quiet_upd; [done|]. apply (qt_range st Hqt n). }
  case_cond; [by apply quiet_dequeue|done].
Qed.

Lemma quiet_PST_UNSET n pst st :
  quiet st -> clear_flag (p_state (procs st n)) pst <> 0 ->
  quiet (PST_UNSET_LOCKED cpu n pst st).
Proof.
  intros Hqt Hne. unfold PST_UNSET_LOCKED, pst_is_runnable. rewrite procs_upd_proc_eq. cbn.
  rewrite (proj2 (Z.eqb_neq (clear_flag _ _) 0)), andb_false_r by done.
  apply quiet_upd; [done|]. apply (qt_range st Hqt n).
Qed.

(** What the loop leaves in an entry of the process table. *)
Record booted (i : Z) (p : proc) : Prop := {
  bt_state : p_state p <> 0;
  bt_free : has_flag (p_state p) PST_FREE_SLOT = true -> p_state p = PST_FREE_SLOT;
  bt_sending : has_flag (p_state p) PST_SENDING = false;
  bt_receiving : has_flag (p_state p) PST_RECEIVING = false;
  bt_q_sending : p_q_sending p = None;
  bt_next_sending : p_next_sending p = None;
  bt_endpoint : p_state p <> PST_FREE_SLOT -> p_endpoint p = i
}.

Lemma procs_proc_no_time n st k :
  procs (proc_no_time cpu n st) k =
  if decide (n = k) then
    (procs st n) <| p_counter_ns := wrapu 64 (rr_interval_ms st * NSEC_PER_MSEC) |>
                 <| p_deadline := next_deadline st n |>
                 <| p_state ::= fun s => clear_flag s PST_NO_QUANTUM |>
  else procs st k.
Proof.
  unfold proc_no_time. rewrite procs_PST_UNSET. destruct (decide (n = k)).
  - by rewrite procs_upd_proc_eq.
  - by rewrite procs_upd_proc_ne.
Qed.

Lemma init_proc_entry_spec i st :
  quiet st -> procs st i = zero_proc ->
  quiet (init_proc_entry cpu i st) /\ booted i (procs (init_proc_entry cpu i st) i) /\
  forall k, k <> i -> procs (init_proc_entry cpu i st) k = procs st k.
Proof.
  intros Hqt Hz. unfold init_proc_entry. destruct (Z.leb_spec (NR_BOOT_PROCS - NR_TASKS) i).
  { split_and!.
    - apply quiet_upd; [done|]. cbn. rewrite Hz. done.
    - rewrite procs_upd_proc_eq, Hz. by constructor.
    - intros k Hk. by rewrite procs_upd_proc_ne by done. }
  assert (quiet (upd_proc i (init_proc_fields i) st)) as Hq1.
  { apply quiet_upd; [done|]. by rewrite Hz. }
  assert (procs (upd_proc i (init_proc_fields i) st) i = init_proc_fields i zero_proc) as H1
    by (rewrite procs_upd_proc_eq, Hz; reflexivity).
  pose proof (procs_upd_proc_ne i (init_proc_fields i) st) as Ho1.
  set (st1 := upd_proc i (init_proc_fields i) st) in *. clearbody st1.
  assert (p_state (init_proc_fields i zero_proc) = 0) as Hf1 by reflexivity.
  assert (p_q_sending (init_proc_fields i zero_proc) = None) as Hf2 by reflexivity.
  assert (p_next_sending (init_proc_fields i zero_proc) = None) as Hf3 by reflexivity.
  assert (p_endpoint (init_proc_fields i zero_proc) = i) as Hf4 by reflexivity.
  set (P := init_proc_fields i zero_proc) in *. clearbody P.
  set (st2 := if negb (i =? TASK_MM) then _ else st1).
  assert (quiet st2) as Hq2 by (unfold st2; case_cond; auto using quiet_PST_SET).
  assert (procs st2 i = P <| p_state := if i =? TASK_MM then 0 else 65 |>) as He.
  { unfold st2. destruct (i =? TASK_MM); cbn [negb];
      rewrite ?procs_PST_SET, ?decide_True, H1 by done; destruct P; cbn in *; by subst. }
  assert (forall k, i <> k -> procs st2 k = procs st k) as Ho.
  { intros k Hk. unfold st2. rewrite <- Ho1 by done.
    case_cond; by rewrite ?procs_PST_SET, ?decide_False by done. }
  clearbody st2. set (st3 := upd_proc i _ (PST_SET_LOCKED cpu i PST_STOPPED st2)).
  assert (procs st3 i = (procs st2 i) <| p_state ::= fun s => set_flag s PST_STOPPED |>
                                      <| p_sched_policy := SCHED_NORMAL |>) as H3.
  { unfold st3. by rewrite procs_upd_proc_eq, procs_PST_SET, decide_True. }
  assert (quiet st3) as Hq3.
  { apply quiet_upd; [by apply quiet_PST_SET|done]. }
  assert (forall k, i <> k -> procs st3 k = procs st k) as Ho3.
  { intros k Hk. unfold st3.
    rewrite procs_upd_proc_ne, procs_PST_SET, decide_False by done. by apply Ho. }
  clearbody st3. rewrite He in H3. split_and!.
  - unfold proc_no_time. apply quiet_PST_UNSET.
    + apply quiet_upd; [done|]. apply (qt_range st3 Hq3 i).
    + rewrite procs_upd_proc_eq, H3. cbn. by destruct (i =? TASK_MM).
  - rewrite procs_proc_no_time, decide_True, H3 by done.
    by destruct P, (i =? TASK_MM); constructor.
  - intros k Hk. rewrite procs_proc_no_time, decide_False by done. by apply Ho3.
Qed.

Lemma init_proc_loop_spec l st :
  quiet st -> NoDup l -> (forall i, i ∈ l -> procs st i = zero_proc) ->
  quiet (foldl (fun st i => init_proc_entry cpu i st) st l) /\
  (forall i, i ∈ l -> booted i (procs (foldl (fun st i => init_proc_entry cpu i st) st l) i)) /\
  (forall k, k ∉ l -> procs (foldl (fun st i => init_proc_entry cpu i st) st l) k = procs st k).
Proof.
  revert st. induction l as [|i l IH]; intros st Hqt Hnd Hz; cbn [foldl].
  { split_and!; [done| |done]. intros i Hi. by apply elem_of_nil in Hi. }
  apply NoDup_cons in Hnd as [Hni Hnd].
  destruct (init_proc_entry_spec i st) as (Hq' & Hb & Ho); [done|apply Hz; member|].
  destruct (IH (init_proc_entry cpu i st)) as (Hq'' & Hb' & Ho'); [done..| |].
  { intros k Hk. rewrite Ho by congruence. apply Hz. member. }
  split_and!; [done| |].
  - intros k Hk. apply elem_of_cons in Hk as [->|Hk]; [|auto]. by rewrite Ho'.
  - intros k Hk. apply not_elem_of_cons in Hk as [Hki Hkl]. by rewrite Ho', Ho by done.
Qed.

Lemma procs_init_privs l st :
  procs (foldl (fun st id => init_priv_entry id st) st l) = procs st.
Proof. revert st. induction l as [|i l IH]; intros st; cbn [foldl]; [done|]. by rewrite IH. Qed.

Definition boot_state (hz : Z) (m : mem) : kstate mem :=
  init_proc cpu (init_sched (zero_kstate hz m)).

Lemma quiet_init_privs l st :
  quiet st -> quiet (foldl (fun st id => init_priv_entry id st) st l).
Proof.
  revert st. induction l as [|i l IH]; intros st Hq; cbn [foldl]; [done|].
  apply IH. by destruct Hq; constructor.
Qed.

Lemma quiet_mmrequest v st : quiet st -> quiet (st <| mmrequest := v |>).
Proof. intros Hq. by destruct Hq; constructor. Qed.

Lemma procs_mmrequest v st : procs (st <| mmrequest := v |>) = procs st.
Proof. done. Qed.

Lemma init_proc_spec st :
  quiet st -> (forall i, procs st i = zero_proc) ->
  quiet (init_proc cpu st) /\ (forall i, valid_nr i -> booted i (procs (init_proc cpu st) i)) /\
  forall i, ~ valid_nr i -> procs (init_proc cpu st) i = zero_proc.
Proof.
  intros Hq Hz. unfold init_proc.
  destruct (init_proc_loop_spec (seqZ (- NR_TASKS) (NR_TASKS + NR_PROCS)) st)
    as (Hq' & Hb & Ho); [done|apply NoDup_seqZ|auto|].
  set (st' := foldl _ st _) in *. clearbody st'. split_and!.
  - by apply quiet_mmrequest, quiet_init_privs.
  - intros i Hi. rewrite procs_mmrequest, procs_init_privs. apply Hb, elem_of_seqZ.
    unfold valid_nr, NR_TASKS, NR_PROCS in *. lia.
  - intros i Hi. rewrite procs_mmrequest, procs_init_privs, <- (Hz i). apply Ho.
    rewrite elem_of_seqZ. unfold valid_nr, NR_TASKS, NR_PROCS in *. lia.
Qed.

Lemma quiet_zero hz m : quiet (init_sched (zero_kstate hz m)).
Proof.
  constructor; cbn; try done.
  - by split; [repeat constructor|].
  - intros q Hq. rewrite test_bit_testbit. unfold MAP_CHUNK, chunk.
    destruct (Z.to_nat _) as [|[|[]]]; apply Z.bits_0.
Qed.

Lemma boot_state_spec hz m :
  sched_wf cpu (boot_state hz m) /\
  (forall i, valid_nr i -> booted i (procs (boot_state hz m) i)) /\
  forall i, ~ valid_nr i -> procs (boot_state hz m) i = zero_proc.
Proof.
  unfold boot_state. destruct (init_proc_spec _ (quiet_zero hz m)) as [Hq [Hb Ho]]; [done|].
  set (st := init_proc cpu _) in *. clearbody st. split; [|done]. constructor.
  - by apply quiet_queues_wf.
  - intros n Hn Hs. exfalso. by apply (bt_state n _ (Hb n Hn)).
Qed.
End boot.

(** ** Examples: every process stopped; two processes runnable *)

Definition idle_state : kstate unit :=
  (zero_kstate 100 tt)
    <| procs := fun _ => zero_proc <| p_state := PST_STOPPED |>
                                   <| p_sched_policy := SCHED_NORMAL |> |>.

Lemma idle_state_wf : sched_wf 0 idle_state.
Proof.
  constructor; [|done]. apply quiet_queues_wf. constructor; try done.
  - apply (qt_bitmap 0 _ (quiet_zero 0 100 tt)).
  - apply (qt_bits 0 _ (quiet_zero 0 100 tt)).
Qed.

Definition two_runnable : kstate unit :=
  PST_UNSET_LOCKED 0 0 PST_STOPPED (PST_UNSET_LOCKED 0 1 PST_STOPPED idle_state).

(** Process 1 on the queue of the normal policy and process 2 on the queue of
    the idle priority policy, both of CPU 0; CPU 1 then stops process 1. *)
Definition stopped_by_other_cpu : kstate unit :=
  let st := upd_proc 2 (fun p => p <| p_sched_policy := SCHED_IDLEPRIO |>) idle_state in
  let st := PST_UNSET_LOCKED 0 1 PST_STOPPED st in
  let st := PST_UNSET_LOCKED 0 2 PST_STOPPED st in
  PST_SET_LOCKED 1 1 PST_STOPPED st.

(** ** Properties *)

(** C7: the scheduler's bookkeeping holds after [init_proc] and through every
    change of a process state: whatever bits [PST_SET] and [PST_UNSET] change
    on whatever process, and whatever non-zero state [PST_SETFLAGS] stores, a
    process is on the run queue of its policy exactly while its state is 0 and
    the CPU does not run it, on no other queue and only once, and the bitmap
    has the bits of the queues that are not empty. *)
Theorem process_states_keep_queues {mem} (cpu : Z) (st : kstate mem) :
  sched_wf cpu st ->
  forall n pst,
    sched_wf cpu (PST_SET_LOCKED cpu n pst st) /\
    sched_wf cpu (PST_UNSET_LOCKED cpu n pst st) /\
    (pst <> 0 -> sched_wf cpu (PST_SETFLAGS_LOCKED cpu n pst st)).
Proof.
  intros Hwf n pst. split_and!; [by apply sched_wf_PST_SET|by apply sched_wf_PST_UNSET|].
  intros Hne. by apply sched_wf_PST_SETFLAGS.
Qed.

Lemma process_states_witness :
  sched_wf 0 (PST_SET_LOCKED 0 3 PST_STOPPED idle_state) /\
  sched_wf 0 (PST_UNSET_LOCKED 0 3 PST_STOPPED idle_state).
Proof.
  destruct (process_states_keep_queues 0 idle_state idle_state_wf 3 PST_STOPPED) as (H1 & H2 & _).
  exact (conj H1 H2).
Defined.

(** C8: [pick_proc] takes the process to run off its queue and returns it: it
    comes from the first queue that is not empty, and it is the first process
    of that queue whose deadline has passed or, when none has, the first one
    with the smallest deadline. It returns none only when every queue is
    empty. *)
Theorem pick_proc_chooses {mem} (st : kstate mem) cpu :
  sched_wf cpu st -> (forall q, deadlines_ok st (run_queues st cpu q)) ->
  (fst (pick_proc cpu st) = None /\ snd (pick_proc cpu st) = st /\
   forall q, 0 <= q < SCHED_QUEUES -> run_queues st cpu q = []) \/
  (exists n q, pick_proc cpu st = (Some n, dequeue_proc cpu n st) /\ 0 <= q < SCHED_QUEUES /\
     (forall j, 0 <= j < q -> run_queues st cpu j = []) /\
     earliest st (run_queues st cpu q) n).
Proof. intros Hwf. apply pick_proc_spec, Hwf. Qed.

Lemma pick_proc_witness :
  exists n q, pick_proc 0 two_runnable = (Some n, dequeue_proc 0 n two_runnable) /\
              earliest two_runnable (run_queues two_runnable 0 q) n.
Proof.
  destruct (pick_proc_chooses two_runnable 0) as [(Hn & _)|(n & q & Hp & _ & _ & He)].
  - apply sched_wf_PST_UNSET, sched_wf_PST_UNSET, idle_state_wf.
  - intros q n _. unfold two_runnable. rewrite !procs_PST_UNSET.
    by destruct (decide (0 = n)), (decide (1 = n)), (decide (1 = 0)).
  - exfalso. revert Hn. vm_compute. discriminate.
  - exists n, q. exact (conj Hp He).
Defined.

(** The run queue bitmap of a CPU goes stale when another CPU stops a
    process queued on it. [dequeue_proc] unlinks the process from whatever
    queue it is on, but looks at the queue and the bitmap of the CPU that
    executes it. The first CPU's bit then stays set for an empty queue, and its
    [pick_proc] returns none although a process is runnable on it. *)
Theorem stale_queue_bit :
  run_queues stopped_by_other_cpu 0 102 = [2] /\
  p_state (procs stopped_by_other_cpu 2) = 0 /\
  run_queues stopped_by_other_cpu 0 101 = [] /\
  test_bit (run_queue_bitmap stopped_by_other_cpu 0) 101 = true /\
  fst (pick_proc 0 stopped_by_other_cpu) = None.
Proof. vm_compute. done. Qed.
