(* ===== verification/Ipc.v ===== *)
(** * Message passing

    The kernel's interprocess communication (kernel/proc.c): rendezvous of a
    sender and a receiver, deadlock detection, notifications and asynchronous
    messages. Each routine takes the CPU it runs on and the kernel state, and
    returns the new state and the C return value, or the way it stops the
    machine. The locks of the process table entries serialise the routines;
    the model runs one at a time. *)

From S2P Require Import Prelude Bitmap Kernel Sched.

Definition SEND : Z := 1.
Definition RECEIVE : Z := 2.
Definition BOTH : Z := 3.
Definition SEND_NONBLOCK : Z := 4.
Definition SEND_ASYNC : Z := 5.
Definition RECEIVE_ASYNC : Z := 6.
Definition NOTIFY : Z := 7.

Definition IPCF_FROMKERNEL : Z := 1.
Definition IPCF_NONBLOCK : Z := 2.
Definition IPCF_ASYNC : Z := 4.

Definition NOTIFY_MSG : Z := 1.

(** A [MESSAGE*] argument: an object of the kernel or an address in the
    memory of the process the CPU's address space belongs to. *)
Inductive msg_ptr :=
| KPtr (m : MESSAGE)
| UPtr (a : Z).

(** The iterations a walk along senders can take: one per process. *)
Definition CHAIN_FUEL : nat := Z.to_nat (NR_TASKS + NR_PROCS).

Section ipc.
Context {mem : Type} `{!UserMemory mem}.
Implicit Types st : kstate mem.

(** ** Memory access *)

(** [copy_user_message(&object, m)] *)
Definition copy_user_message (cpu : Z) (st : kstate mem) (m : msg_ptr) : option MESSAGE :=
  match m with
  | KPtr msg => Some msg
  | UPtr a => um_read_msg (kmem st) (pt_proc st cpu) a
  end.

(** [*m] in the kernel: a fault there is fatal. *)
Definition load_msg (cpu : Z) (st : kstate mem) (m : msg_ptr) : res MESSAGE :=
  match copy_user_message cpu st m with
  | Some msg => Ret msg
  | None => Crash Panic
  end.

(** [dump_msg] prints the members of the message. *)
Definition dump_msg (cpu : Z) (st : kstate mem) (m : msg_ptr) : res unit :=
  _ ← load_msg cpu st m; Ret tt.

(** [data_vir_copy] between the kernel and the memory of the process an
    endpoint names: what is copied is one [async_message_t]. *)
Definition read_amsg (st : kstate mem) (ep a : Z) : async_message_t + Z :=
  match endpt_proc st ep with
  | None => inr ESRCH
  | Some n =>
      match um_read_amsg (kmem st) n a with
      | Some amsg => inl amsg
      | None => inr EFAULT
      end
  end.

Definition write_amsg (st : kstate mem) (ep a : Z) (amsg : async_message_t) : kstate mem * Z :=
  match endpt_proc st ep with
  | None => (st, ESRCH)
  | Some n =>
      match um_write_amsg (kmem st) n a amsg with
      | Some m => (st <| kmem := m |>, 0)
      | None => (st, EFAULT)
      end
  end.

(** ** Deadlock detection *)

Fixpoint deadlock_loop (fuel : nat) (st : kstate mem) (src p : Z) : res bool :=
  match fuel with
  | O => Crash OutOfFuel
  | S fuel =>
      if PST_IS_SET st p PST_SENDING then
        if p_sendto (procs st p) =? src then Ret true
        else
          p ← deref (endpt_proc st (p_sendto (procs st p)));
          deadlock_loop fuel st src p
      else Ret false
  end.

(** The loop that prints the chain: the endpoints it prints. *)
Fixpoint print_chain (fuel : nat) (st : kstate mem) (src p : Z) : res (list Z) :=
  match fuel with
  | O => Crash OutOfFuel
  | S fuel =>
      p ← deref (endpt_proc st (p_sendto (procs st p)));
      if decide (Some p = endpt_proc st src) then Ret [p_endpoint (procs st p)]
      else
        l ← print_chain fuel st src p;
        Ret (p_endpoint (procs st p) :: l)
  end.

Definition deadlock (st : kstate mem) (src dest : Z) : res bool :=
  p ← deref (endpt_proc st dest);
  found ← deadlock_loop CHAIN_FUEL st src p;
  if found : bool then
    p ← deref (endpt_proc st dest);
    _ ← print_chain CHAIN_FUEL st src p;
    Ret true
  else Ret false.

(** ** Sending *)

(** [while (p->next_sending) p = p->next_sending;] *)
Fixpoint last_sender (fuel : nat) (st : kstate mem) (p : Z) : res Z :=
  match fuel with
  | O => Crash OutOfFuel
  | S fuel =>
      match p_next_sending (procs st p) with
      | Some p' => last_sender fuel st p'
      | None => Ret p
      end
  end.

(** Whether [p_dest] is blocked waiting for a message of [ep]. *)
Definition waits_for_msg (st : kstate mem) (p_dest ep : Z) : bool :=
  negb (PST_IS_SET st p_dest PST_SENDING) && PST_IS_SET st p_dest PST_RECEIVING &&
  ((p_recvfrom (procs st p_dest) =? ep) || (p_recvfrom (procs st p_dest) =? ANY)).

(** The message [msg_send] takes: [*m] with [IPCF_FROMKERNEL], a copy of the
    caller's message without; the copy fails on an address that is not mapped. *)
Definition fetch_msg (cpu flags : Z) (st : kstate mem) (m : msg_ptr) : res (option MESSAGE) :=
  if has_flag flags IPCF_FROMKERNEL then msg ← load_msg cpu st m; Ret (Some msg)
  else Ret (copy_user_message cpu st m).

(** The message reaches a receiver that waits for it. *)
Definition hand_over (cpu sender p_dest : Z) (msg : MESSAGE) (st : kstate mem) : kstate mem :=
  let ep := p_endpoint (procs st sender) in
  let st := upd_proc p_dest (fun p =>
    p <| p_deliver_msg := msg <| m_source := ep |> |>
      <| p_flags ::= fun f => set_flag f PF_DELIVER_MSG |>) st in
  let st := PST_UNSET_LOCKED cpu p_dest PST_RECEIVING st in
  upd_proc p_dest (fun p => p <| p_flags ::= fun f => clear_flag f PF_RECV_ASYNC |>) st.

(** Append to the sending queue. *)
Definition append_sender (sender p_dest : Z) (st : kstate mem) : res (kstate mem) :=
  st ← match p_q_sending (procs st p_dest) with
       | Some q =>
           p ← last_sender CHAIN_FUEL st q;
           Ret (upd_proc p (fun p => p <| p_next_sending := Some sender |>) st)
       | None => Ret (upd_proc p_dest (fun p => p <| p_q_sending := Some sender |>) st)
       end;
  Ret (upd_proc sender (fun p => p <| p_next_sending := None |>) st).

Definition msg_send (cpu p_to_send dest : Z) (m : msg_ptr) (flags : Z) (st : kstate mem)
  : res (kstate mem * Z) :=
  let sender := p_to_send in
  match endpt_proc st dest with
  | None => Ret (st, EINVAL)
  | Some p_dest =>
      dl ← deadlock st (p_endpoint (procs st sender)) dest;
      if dl : bool then
        _ ← dump_msg cpu st m;
        Ret (st, EDEADLK)
      else if waits_for_msg st p_dest (p_endpoint (procs st sender)) then
        if has_flag (p_flags (procs st p_dest)) PF_DELIVER_MSG then Crash Panic
        else
          o ← fetch_msg cpu flags st m;
          match o with
          | None => Ret (st, EFAULT)
          | Some msg => Ret (hand_over cpu sender p_dest msg st, 0)
          end
      else if has_flag flags IPCF_NONBLOCK then Ret (st, EBUSY)
      else
        let st := PST_SET_LOCKED cpu sender PST_SENDING st in
        let st := upd_proc sender (fun p => p <| p_sendto := dest |>) st in
        o ← fetch_msg cpu flags st m;
        match o with
        | None => Ret (st, EFAULT)
        | Some msg =>
            let ep := p_endpoint (procs st p_to_send) in
            let st := upd_proc sender
              (fun p => p <| p_send_msg := msg <| m_source := ep |> |>) st in
            st ← append_sender sender p_dest st;
            Ret (st, 0)
        end
  end.

(** ** Pending notifications *)

Definition find_next_bit (b : bitmap) (size start : Z) : res Z :=
  match bitmap_find_next_bit b size start with
  | Some i => Ret i
  | None => Crash OutOfFuel
  end.

(** [p->priv] used as a pointer *)
Definition proc_priv (st : kstate mem) (n : Z) : res Z := deref (p_priv (procs st n)).

Definition has_pending_notify (st : kstate mem) (p src : Z) : res Z :=
  if negb (src =? ANY) then
    match endpt_proc st src with
    | None => Ret PRIV_ID_NULL
    | Some sender =>
        id ← proc_priv st p;
        sid ← proc_priv st sender;
        if test_bit (pr_notify_pending (privs st id)) (pr_id (privs st sid))
        then Ret (pr_id (privs st sid)) else Ret PRIV_ID_NULL
    end
  else
    id ← proc_priv st p;
    priv_id ← find_next_bit (pr_notify_pending (privs st id)) NR_PRIV_PROCS 0;
    if NR_PRIV_PROCS <=? priv_id then Ret PRIV_ID_NULL else Ret priv_id.

Definition has_pending_async (st : kstate mem) (p src : Z) : res Z :=
  id ← proc_priv st p;
  priv_id ← find_next_bit (pr_async_pending (privs st id)) NR_PRIV_PROCS 0;
  if NR_PRIV_PROCS <=? priv_id then Ret PRIV_ID_NULL
  else if negb (src =? ANY) then
    match endpt_proc st src with
    | None => Ret PRIV_ID_NULL
    | Some sender =>
        sid ← proc_priv st sender;
        if test_bit (pr_async_pending (privs st id)) (pr_id (privs st sid))
        then Ret (pr_id (privs st sid)) else Ret PRIV_ID_NULL
    end
  else Ret priv_id.

Definition unset_notify_pending (p id : Z) (st : kstate mem) : res (kstate mem) :=
  pid ← proc_priv st p;
  Ret (upd_priv pid (fun r => r <| pr_notify_pending ::= fun b => UNSET_BIT b id |>) st).

(** [set_notify_msg(dest, m, src)]: the new state and the message stored at [m]. *)
Definition set_notify_msg (dest src : Z) (st : kstate mem) : res (kstate mem * MESSAGE) :=
  let m := reset_msg <| m_source := src |> <| m_type := NOTIFY_MSG |> in
  if src =? INTERRUPT then
    id ← proc_priv st dest;
    Ret (upd_priv id (fun r => r <| pr_int_pending := 0 |>) st,
         m <| m_u ::= fun u => u <| m3l1 := pr_int_pending (privs st id) |> |>)
  else if src =? SYSTEM then
    id ← proc_priv st dest;
    Ret (upd_priv id (fun r => r <| pr_sig_pending := 0 |>) st,
         m <| m_u ::= fun u => u <| m3i1 := wraps 32 (pr_sig_pending (privs st id)) |> |>)
  else if src =? CLOCK then
    Ret (st, m <| m_u ::= fun u => u <| m3l1 := wrapu 64 (jiffies st) |> |>)
  else Ret (st, m).

Definition msg_notify (cpu p_to_send dest : Z) (st : kstate mem) : res (kstate mem * Z) :=
  match endpt_proc st dest with
  | None => Ret (st, EINVAL)
  | Some p_dest =>
      if waits_for_msg st p_dest (p_endpoint (procs st p_to_send)) then
        '(st, msg) ← set_notify_msg p_dest (p_endpoint (procs st p_to_send)) st;
        let st := upd_proc p_dest (fun p =>
          p <| p_deliver_msg := msg |>
            <| p_flags ::= fun f => clear_flag (set_flag f PF_DELIVER_MSG) PF_RECV_ASYNC |>) st in
        Ret (PST_UNSET_LOCKED cpu p_dest PST_RECEIVING st, 0)
      else
        id ← proc_priv st p_dest;
        sid ← proc_priv st p_to_send;
        let bit := pr_id (privs st sid) in
        Ret (upd_priv id (fun r => r <| pr_notify_pending ::= fun b => SET_BIT b bit |>) st, 0)
  end.

(** ** Asynchronous messages *)

(** The address of entry [i] of a table of asynchronous messages. *)
Definition amsg_addr (table i : Z) : Z := wrapu 64 (table + i * sizeof_amsg).

(** The message of [sender] reaches [p]. *)
Definition deliver_async (cpu sender p : Z) (amsg : async_message_t) (st : kstate mem)
  : kstate mem :=
  let ep := p_endpoint (procs st sender) in
  let st := upd_proc p (fun r =>
    r <| p_deliver_msg := (am_msg amsg) <| m_source := ep |> |>
      <| p_flags ::= fun f => clear_flag (set_flag f PF_DELIVER_MSG) PF_RECV_ASYNC |>) st in
  PST_UNSET_LOCKED cpu p PST_RECEIVING st.

(** The entry as it goes back to the sender's table. *)
Definition amsg_done (ep result : Z) (amsg : async_message_t) : async_message_t :=
  amsg <| am_msg ::= fun m => m <| m_source := ep |> |>
       <| am_result := result |>
       <| am_flags ::= fun f => set_flag f ASMF_DONE |>.

(** The loop of [receive_async_from] from entry [i] on, [n] entries being left:
    the state, [retval], and [done] unless the loop was left for
    [async_error]. *)
Fixpoint async_from_loop (n : nat) (cpu p sender table i retval : Z) (done : bool)
    (st : kstate mem) : kstate mem * Z * option bool :=
  match n with
  | O => (st, retval, Some done)
  | S n =>
      let ep := p_endpoint (procs st sender) in
      match read_amsg st ep (amsg_addr table i) with
      | inr _ => (st, EFAULT, None)
      | inl amsg =>
          let flags := am_flags amsg in
          if flags =? 0 then async_from_loop n cpu p sender table (i + 1) retval done st
          else if has_flag flags ASMF_DONE then
            async_from_loop n cpu p sender table (i + 1) retval done st
          else if negb (am_dest amsg =? p_endpoint (procs st p)) then
            async_from_loop n cpu p sender table (i + 1) retval false st
          else
            let st := deliver_async cpu sender p amsg st in
            let '(st, r) := write_amsg st ep (amsg_addr table i) (amsg_done ep 0 amsg) in
            if negb (r =? 0) then (st, EFAULT, None) else (st, 0, Some false)
      end
  end.

Definition receive_async_from (cpu p sender : Z) (st : kstate mem) : res (kstate mem * Z) :=
  id ← proc_priv st sender;
  if negb (has_flag (pr_flags (privs st id)) PRF_PRIV_PROC) then Ret (st, EPERM)
  else
    pid ← proc_priv st p;
    let bit := pr_id (privs st id) in
    let st := upd_priv pid (fun r => r <| pr_async_pending ::= fun b => UNSET_BIT b bit |>) st in
    match async_from_loop (Z.to_nat (pr_async_len (privs st id))) cpu p sender
            (pr_async_table (privs st id)) 0 ESRCH true st with
    | (st, retval, None) => Ret (st, retval)
    | (st, retval, Some true) =>
        Ret (upd_priv id (fun r => r <| pr_async_table := 0 |> <| pr_async_len := 0 |>) st, retval)
    | (st, retval, Some false) =>
        Ret (upd_priv pid (fun r => r <| pr_async_pending ::= fun b => SET_BIT b bit |>) st, retval)
    end.

Fixpoint receive_async_loop (fuel : nat) (cpu p priv_id : Z) (st : kstate mem)
  : res (kstate mem * Z) :=
  match fuel with
  | O => Crash OutOfFuel
  | S fuel =>
      if priv_id <? NR_PRIV_PROCS then
        let next st :=
          id ← proc_priv st p;
          priv_id ← find_next_bit (pr_async_pending (privs st id)) NR_PRIV_PROCS (priv_id + 1);
          receive_async_loop fuel cpu p priv_id st in
        if pr_proc_nr (privs st priv_id) =? NO_TASK then next st
        else
          '(st, retval) ← receive_async_from cpu p (pr_proc_nr (privs st priv_id)) st;
          if retval =? 0 then Ret (st, 0) else next st
      else Ret (st, ESRCH)
  end.

Definition receive_async (cpu p : Z) (st : kstate mem) : res (kstate mem * Z) :=
  id ← proc_priv st p;
  priv_id ← find_next_bit (pr_async_pending (privs st id)) NR_PRIV_PROCS 0;
  receive_async_loop (S (Z.to_nat NR_PRIV_PROCS)) cpu p priv_id st.

(** One entry of the table [msg_senda] works through: the state and [done]. *)
Definition senda_entry (cpu p_to_send table i : Z) (done : bool) (st : kstate mem)
  : res (kstate mem * bool) :=
  let ep := p_endpoint (procs st p_to_send) in
  match read_amsg st ep (amsg_addr table i) with
  | inr _ => Ret (st, done)
  | inl amsg =>
      let flags := am_flags amsg in
      let async_done retval st :=
        let '(st, _) := write_amsg st ep (amsg_addr table i) (amsg_done ep retval amsg) in
        Ret (st, done) in
      if flags =? 0 then Ret (st, done)
      else if has_flag flags ASMF_DONE then Ret (st, done)
      else if am_dest amsg =? ep then async_done EINVAL st
      else
        match endpt_proc st (am_dest amsg) with
        | None => async_done EINVAL st
        | Some p_dest =>
            if waits_for_msg st p_dest ep && has_flag (p_flags (procs st p_dest)) PF_RECV_ASYNC
            then async_done 0 (deliver_async cpu p_to_send p_dest amsg st)
            else
              did ← proc_priv st p_dest;
              id ← proc_priv st p_to_send;
              let bit := pr_id (privs st id) in
              Ret (upd_priv did
                     (fun r => r <| pr_async_pending ::= fun b => SET_BIT b bit |>) st, false)
        end
  end.

Fixpoint senda_loop (n : nat) (cpu p_to_send table i : Z) (done : bool) (st : kstate mem)
  : res (kstate mem * bool) :=
  match n with
  | O => Ret (st, done)
  | S n =>
      '(st, done) ← senda_entry cpu p_to_send table i done st;
      senda_loop n cpu p_to_send table (i + 1) done st
  end.

Definition msg_senda (cpu p_to_send table len : Z) (st : kstate mem) : res (kstate mem * Z) :=
  id ← proc_priv st p_to_send;
  if negb (has_flag (pr_flags (privs st id)) PRF_PRIV_PROC) then Ret (st, EPERM)
  else
    let st := upd_priv id (fun r => r <| pr_async_table := 0 |> <| pr_async_len := 0 |>) st in
    if len =? 0 then Ret (st, 0)
    else
      '(st, done) ← senda_loop (Z.to_nat len) cpu p_to_send table 0 true st;
      if negb done then
        Ret (upd_priv id (fun r => r <| pr_async_table := table |> <| pr_async_len := len |>) st, 0)
      else Ret (st, 0).

(** ** Receiving *)

(** [no_msg:] block until a message arrives. *)
Definition recv_block (cpu who src m flags : Z) (st : kstate mem) : kstate mem :=
  let st := PST_SET_LOCKED cpu who PST_RECEIVING st in
  upd_proc who (fun p =>
    p <| p_flags ::= fun f => set_flag f (if has_flag flags IPCF_ASYNC then PF_RECV_ASYNC else 0) |>
      <| p_recv_msg := m |>
      <| p_recvfrom := src |>) st.

(** The search of the sending queue: the process whose endpoint is [src] and
    the one before it. *)
Fixpoint find_sender (fuel : nat) (st : kstate mem) (p prev : option Z) (src : Z)
  : res (option Z * option Z) :=
  match fuel with
  | O => Crash OutOfFuel
  | S fuel =>
      match p with
      | None => Ret (None, prev)
      | Some q =>
          if p_endpoint (procs st q) =? src then Ret (Some q, prev)
          else find_sender fuel st (p_next_sending (procs st q)) (Some q) src
      end
  end.

(** Take [from], whose predecessor is [prev], off the queue and its message
    with it. *)
Definition take_message (cpu who from : Z) (prev : option Z) (m : Z) (st : kstate mem)
  : res (kstate mem) :=
  st ← (if decide (p_q_sending (procs st who) = Some from) then
          match prev with
          | Some _ => Crash Panic
          | None =>
              let next := p_next_sending (procs st from) in
              Ret (upd_proc who (fun p => p <| p_q_sending := next |>) st)
          end
        else
          match prev with
          | None => Crash Panic
          | Some prev =>
              let next := p_next_sending (procs st from) in
              Ret (upd_proc prev (fun p => p <| p_next_sending := next |>) st)
          end);
  let st := upd_proc from (fun p => p <| p_next_sending := None |>) st in
  if m =? 0 then Crash Panic
  else
    let msg := p_send_msg (procs st from) in
    let st := upd_proc who (fun p =>
      p <| p_recv_msg := m |>
        <| p_deliver_msg := msg |>
        <| p_flags ::= fun f => set_flag f PF_DELIVER_MSG |>) st in
    let st := upd_proc from (fun p =>
      p <| p_send_msg := reset_msg |> <| p_sendto := NO_TASK |>) st in
    Ret (PST_UNSET_LOCKED cpu from PST_SENDING st).

(** The part of [msg_receive] that looks for a sender. *)
Definition recv_from_sender (cpu who src m flags retval : Z) (st : kstate mem)
  : res (kstate mem * Z) :=
  if src =? ANY then
    match p_q_sending (procs st who) with
    | Some from => st ← take_message cpu who from None m st; Ret (st, retval)
    | None => Ret (recv_block cpu who src m flags st, retval)
    end
  else
    match endpt_proc st src with
    | None => Ret (st, EINVAL)
    | Some from =>
        if PST_IS_SET st from PST_SENDING &&
           (p_sendto (procs st from) =? p_endpoint (procs st who)) then
          match p_q_sending (procs st who) with
          | None => Crash Panic
          | Some q =>
              '(found, prev) ← find_sender (S CHAIN_FUEL) st (Some q) None src;
              let from := default from found in
              st ← take_message cpu who from prev m st;
              Ret (st, retval)
          end
        else Ret (recv_block cpu who src m flags st, retval)
    end.

(** A pending notification becomes the message. *)
Definition recv_notification (cpu who notify_id m : Z) (st : kstate mem) : res (kstate mem) :=
  let notifier := pr_proc_nr (privs st notify_id) in
  '(st, msg) ← set_notify_msg who (p_endpoint (procs st notifier)) st;
  let st := upd_proc who (fun p => p <| p_deliver_msg := msg |>) st in
  st ← unset_notify_pending who notify_id st;
  let st := upd_proc who (fun p =>
    p <| p_recv_msg := m |> <| p_flags ::= fun f => set_flag f PF_DELIVER_MSG |>) st in
  let st := PST_UNSET_LOCKED cpu who PST_RECEIVING st in
  Ret (upd_proc who (fun p => p <| p_flags ::= fun f => clear_flag f PF_RECV_ASYNC |>) st).

Definition msg_receive (cpu who src m flags : Z) (st : kstate mem) : res (kstate mem * Z) :=
  if PST_IS_SET st who PST_SENDING then Ret (recv_block cpu who src m flags st, 0)
  else
    notify_id ← has_pending_notify st who src;
    if negb (notify_id =? PRIV_ID_NULL) then
      st ← recv_notification cpu who notify_id m st; Ret (st, 0)
    else if has_flag flags IPCF_ASYNC then
      async_id ← has_pending_async st who src;
      if negb (async_id =? PRIV_ID_NULL) then
        let st := upd_proc who (fun p => p <| p_recv_msg := m |>) st in
        '(st, retval) ← (if src =? ANY then receive_async cpu who st
                         else receive_async_from cpu who (pr_proc_nr (privs st async_id)) st);
        if retval =? 0 then Ret (st, 0)
        else
          let st := upd_proc who (fun p => p <| p_recv_msg := 0 |>) st in
          recv_from_sender cpu who src m flags retval st
      else recv_from_sender cpu who src m flags 0 st
    else recv_from_sender cpu who src m flags 0 st.

(** ** The system call *)

Definition sys_sendrec (cpu : Z) (m : MESSAGE) (p : Z) (st : kstate mem) : res (kstate mem * Z) :=
  let function := m3i1 (m_u m) in
  let src_dest := m3i2 (m_u m) in
  let msg := m3p1 (m_u m) in
  let msg_len := wrapu 64 (m3i2 (m_u m)) in
  let caller := p_endpoint (procs st p) in
  if negb (function =? SEND_ASYNC) &&
     (negb (fst (verify_endpt st src_dest)) || (caller =? src_dest))
  then Ret (st, EINVAL)
  else if (function =? BOTH) || (function =? SEND) then
    '(st, ret) ← msg_send cpu p src_dest (UPtr msg) 0 st;
    if negb (ret =? 0) || (function =? SEND) then Ret (st, ret)
    else msg_receive cpu p src_dest msg 0 st
  else if function =? RECEIVE then msg_receive cpu p src_dest msg 0 st
  else if function =? SEND_NONBLOCK then msg_send cpu p src_dest (UPtr msg) IPCF_NONBLOCK st
  else if function =? SEND_ASYNC then msg_senda cpu p msg msg_len st
  else if function =? RECEIVE_ASYNC then msg_receive cpu p src_dest msg IPCF_ASYNC st
  else if function =? NOTIFY then msg_notify cpu p src_dest st
  else Ret (st, EINVAL).
End ipc.
