(* ===== verification/IpcInv.v ===== *)
(** * The structure of waiting senders

    The sending queues of kernel/proc.c and the wait-for relation between
    processes, the invariant that ties them together, and deadlock detection:
    it ends, it reports exactly the sends that would close a cycle. *)

From S2P Require Import Prelude Bitmap Kernel Sched Ipc.

Section defs.
Context {mem : Type}.
Implicit Types st : kstate mem.

Definition sending st n : Prop := PST_IS_SET st n PST_SENDING = true.

(** The process a blocked sender waits for. *)
Definition target st n : option Z := endpt_proc st (p_sendto (procs st n)).

Definition waits st (q p : Z) : Prop := sending st q /\ target st q = Some p.

(** The linked list of senders that starts at a pointer. *)
Fixpoint chain st (o : option Z) (l : list Z) : Prop :=
  match l with
  | [] => o = None
  | q :: l => o = Some q /\ chain st (p_next_sending (procs st q)) l
  end.

(** Following the senders from [n] ends at a process that does not send. *)
Inductive settles st : Z -> Prop :=
| settles_end n : ~ sending st n -> settles st n
| settles_step n p : waits st n p -> settles st p -> settles st n.

(** [Q p] is the sequence of the processes blocked sending to [p], the longest
    waiting first. *)
Record ipc_wf st (Q : Z -> list Z) : Prop := {
  iw_chain p : valid_nr p -> chain st (p_q_sending (procs st p)) (Q p);
  iw_nodup p : valid_nr p -> NoDup (Q p);
  iw_mem p q : valid_nr p -> q ∈ Q p -> valid_nr q /\ waits st q p;
  iw_sending q : valid_nr q -> sending st q ->
    exists p, valid_nr p /\ target st q = Some p /\ q ∈ Q p;
  iw_sender q : valid_nr q -> sending st q -> live st q /\ q <> INTERRUPT;
  iw_settles q : valid_nr q -> settles st q;
  iw_free n : has_flag (p_state (procs st n)) PST_FREE_SLOT = true ->
    p_state (procs st n) = PST_FREE_SLOT
}.
End defs.

Section walk.
Context {mem : Type}.
Implicit Types st : kstate mem.

Lemma endpt_proc_valid st ep n : endpt_proc st ep = Some n -> valid_nr n.
Proof.
  intros [[_ ->]|(_ & (Hn & _) & _)]%endpt_proc_Some;
    unfold valid_nr, NR_TASKS, NR_PROCS in *; lia.
Qed.

Lemma waits_valid st q p : waits st q p -> valid_nr p.
Proof. intros [_ Ht]. by eapply endpt_proc_valid. Qed.

Lemma waits_det st q p p' : waits st q p -> waits st q p' -> p = p'.
Proof. intros [_ H] [_ H']. congruence. Qed.

(** ** The path from a process along the senders *)

Fixpoint path st (p : Z) (l : list Z) : Prop :=
  match l with
  | [] => ~ sending st p
  | q :: l => waits st p q /\ path st q l
  end.

Lemma settles_path st p : settles st p -> exists l, path st p l.
Proof.
  induction 1 as [n Hn|n p Hw _ [l Hl]]; [by exists []|]. by exists (p :: l).
Qed.

Lemma path_det st p l l' : path st p l -> path st p l' -> l = l'.
Proof.
  revert p l'. induction l as [|q l IH]; intros p [|q' l']; cbn; [done|..].
  - intros Hn [[] _]. done.
  - intros [[] _] Hn. done.
  - intros [Hw Hl] [Hw' Hl']. rewrite (waits_det _ _ _ _ Hw Hw') in *. f_equal. eauto.
Qed.

Lemma path_suffix st p l1 q l2 : path st p (l1 ++ q :: l2) -> path st q l2.
Proof. revert p. induction l1 as [|x l1 IH]; intros p [Hw Hl]; [done|]. eauto. Qed.

Lemma path_notin st p l : path st p l -> p ∉ l.
Proof.
  intros Hl (l1 & l2 & ->)%list_elem_of_split.
  pose proof (path_suffix _ _ _ _ _ Hl) as Hl2. pose proof (path_det _ _ _ _ Hl Hl2) as He.
  apply (f_equal length) in He. rewrite length_app in He. cbn in He. lia.
Qed.

Lemma path_nodup st p l : path st p l -> NoDup (p :: l).
Proof.
  revert p. induction l as [|q l IH]; intros p Hl; apply NoDup_cons.
  - split; [member|constructor].
  - split; [by apply path_notin in Hl|]. apply IH, Hl.
Qed.

Lemma path_valid st p l : path st p l -> forall q, q ∈ l -> valid_nr q.
Proof.
  revert p. induction l as [|q l IH]; intros p Hl x Hx; [by apply elem_of_nil in Hx|].
  destruct Hl as [Hw Hl]. apply elem_of_cons in Hx as [->|Hx]; eauto using waits_valid.
Qed.

Lemma valid_length l : NoDup l -> (forall q, q ∈ l -> valid_nr q) -> (length l <= CHAIN_FUEL)%nat.
Proof.
  intros Hnd Hv. unfold CHAIN_FUEL.
  replace (NR_TASKS + NR_PROCS) with (NR_PROCS - - NR_TASKS) by done.
  by apply NoDup_bounded_length.
Qed.

Lemma path_length st p l : valid_nr p -> path st p l -> (length l < CHAIN_FUEL)%nat.
Proof.
  intros Hp Hl. apply (valid_length (p :: l)); [by eapply path_nodup|].
  intros q Hq. apply elem_of_cons in Hq as [->|Hq]; [done|]. by eapply path_valid.
Qed.

(** ** Deadlock detection *)

Lemma deadlock_loop_spec st src fuel p l :
  path st p l -> (length l < fuel)%nat ->
  (deadlock_loop fuel st src p = Ret true /\
     exists l1 q s l2, p :: l = l1 ++ q :: s :: l2 /\ waits st q s /\ p_sendto (procs st q) = src) \/
  (deadlock_loop fuel st src p = Ret false /\
     forall q, q ∈ p :: l -> sending st q -> p_sendto (procs st q) <> src).
Proof.
  revert fuel p. induction l as [|q l IH]; intros [|fuel] p Hl Hf; cbn in Hf; try lia;
    cbn [deadlock_loop].
  - right. cbn in Hl. unfold sending in *. destruct (PST_IS_SET st p PST_SENDING) eqn:Hs; [done|].
    split; [done|]. intros q Hq. apply elem_of_cons in Hq as [->|Hq]; [congruence|].
    by apply elem_of_nil in Hq.
  - destruct Hl as [[Hs Ht] Hl]. unfold sending in Hs. rewrite Hs.
    destruct (Z.eqb_spec (p_sendto (procs st p)) src) as [He|He].
    { left. split; [done|]. by exists [], p, q, l. }
    unfold target in Ht. rewrite Ht. cbn.
    destruct (IH fuel q Hl ltac:(lia)) as [(-> & l1 & x & s & l2 & Heq & Hw & Hx)|(-> & Hno)].
    + left. split; [done|]. exists (p :: l1), x, s, l2. by rewrite Heq.
    + right. split; [done|]. intros x Hx. apply elem_of_cons in Hx as [->|Hx]; [done|]. by apply Hno.
Qed.

Lemma print_chain_returns st src fuel p l s :
  path st p l -> (length l <= fuel)%nat -> s ∈ l -> endpt_proc st src = Some s ->
  returns (print_chain fuel st src p).
Proof.
  revert fuel p. induction l as [|q l IH]; intros [|fuel] p Hl Hf Hs Hsrc; cbn in Hf; try lia.
  { by apply elem_of_nil in Hs. }
  { by apply elem_of_nil in Hs. }
  destruct Hl as [[_ Ht] Hl]. unfold target in Ht. cbn [print_chain]. rewrite Ht, Hsrc. cbn.
  case_decide as Hd; [by eexists|].
  destruct (IH fuel q Hl ltac:(lia)) as [c Hc]; [|done|].
  - apply elem_of_cons in Hs as [->|]; [done|done].
  - rewrite Hc. cbn. by eexists.
Qed.

Lemma path_waits st p l1 s l2 : path st p (l1 ++ s :: l2) -> tc (waits st) p s.
Proof.
  revert p. induction l1 as [|x l1 IH]; intros p [Hw Hl]; [by apply tc_once|].
  eapply tc_l; [done|]. by apply IH.
Qed.

Lemma path_waits_inv st p l s : path st p l -> tc (waits st) p s -> s ∈ l.
Proof.
  intros Hl Ht. revert l Hl. induction Ht as [x y Hw|x y z Hw _ IH]; intros [|q l] Hl; cbn in Hl.
  - destruct Hw. done.
  - destruct Hl as [Hw' _]. rewrite (waits_det _ _ _ _ Hw Hw'). member.
  - destruct Hw. done.
  - destruct Hl as [Hw' Hl]. rewrite (waits_det _ _ _ _ Hw Hw') in *.
    apply elem_of_cons. right. by apply IH.
Qed.

Lemma path_pred st p l s : path st p l -> s ∈ l -> exists x, x ∈ p :: l /\ waits st x s.
Proof.
  revert p. induction l as [|q l IH]; intros p Hl Hs; [by apply elem_of_nil in Hs|].
  destruct Hl as [Hw Hl]. apply elem_of_cons in Hs as [->|Hs].
  - exists p. split; [member|done].
  - destruct (IH q Hl Hs) as (x & Hx & Hxs). exists x. split; [|done].
    apply elem_of_cons. by right.
Qed.

(** Only the task [INTERRUPT] can be waited for by other than its endpoint. *)
Lemma target_endpoint st q p :
  target st q = Some p -> p <> INTERRUPT -> p_sendto (procs st q) = p_endpoint (procs st p).
Proof. by intros [[_ ->]|(_ & _ & ->)]%endpt_proc_Some. Qed.

(** Both loops of [deadlock] end, and it answers whether the chain of senders
    that starts at the destination gets to the process that wants to send. *)
Lemma deadlock_spec st Q sender dest p :
  ipc_wf st Q -> live st sender -> sender <> INTERRUPT -> endpt_proc st dest = Some p ->
  exists b, deadlock st (p_endpoint (procs st sender)) dest = Ret b /\
            (b = true <-> tc (waits st) p sender).
Proof.
  intros Hwf Hlive Hint Hp. pose proof (endpt_proc_valid _ _ _ Hp) as Hv.
  destruct (settles_path st p) as [l Hl]; [by eapply iw_settles|].
  pose proof (path_length _ _ _ Hv Hl) as Hlen. unfold deadlock. rewrite Hp. cbn.
  pose proof (live_endpt _ _ Hlive) as He.
  destruct (deadlock_loop_spec st (p_endpoint (procs st sender)) CHAIN_FUEL p l Hl Hlen)
    as [(-> & l1 & q & s & l2 & Heq & [_ Ht] & Hq)|(-> & Hno)]; cbn.
  - assert (s = sender) as -> by (unfold target in Ht; congruence).
    assert (sender ∈ l) as Hin.
    { destruct l1 as [|x l1]; injection Heq as -> ->; member. }
    destruct (print_chain_returns st (p_endpoint (procs st sender)) CHAIN_FUEL p l sender)
      as [c Hc]; [done|lia|done|done|].
    rewrite Hc. cbn. exists true. split; [done|]. split; [|done]. intros _.
    apply list_elem_of_split in Hin as (m1 & m2 & ->). by eapply path_waits.
  - exists false. split; [done|]. split; [done|]. intros Ht. exfalso.
    destruct (path_pred _ _ _ _ Hl (path_waits_inv _ _ _ _ Hl Ht)) as (x & Hx & [Hs Hxt]).
    by apply (Hno x Hx Hs), target_endpoint.
Qed.
End walk.

(** ** What message passing depends on *)

(** A free slot has no other state bit. *)
Definition free_ok (s : Z) : Prop :=
  has_flag s PST_FREE_SLOT = true -> s = PST_FREE_SLOT.

Lemma free_ok_eqb s : free_ok s -> (s =? PST_FREE_SLOT) = has_flag s PST_FREE_SLOT.
Proof.
  intros Hf. destruct (Z.eqb_spec s PST_FREE_SLOT) as [->|Hne]; [done|].
  destruct (has_flag s PST_FREE_SLOT) eqn:He; [|done]. by apply Hf in He.
Qed.

Lemma free_ok_set s f :
  has_flag s PST_FREE_SLOT = false -> Z.land f PST_FREE_SLOT = 0 -> free_ok (set_flag s f).
Proof. intros Hs Hf. unfold free_ok. rewrite has_flag_set_other by done. congruence. Qed.

Lemma free_ok_clear s f :
  free_ok s -> Z.land f PST_FREE_SLOT = 0 -> free_ok (clear_flag s f).
Proof.
  intros Hs Hf. unfold free_ok. rewrite has_flag_clear_other by done.
  intros ->%Hs. apply clear_flag_disjoint. by rewrite Z.land_comm.
Qed.

(** The members of a process table entry that the sending queues and the
    wait-for relation depend on. *)
Record same_ipc (p p' : proc) : Prop := {
  si_endpoint : p_endpoint p' = p_endpoint p;
  si_sendto : p_sendto p' = p_sendto p;
  si_q_sending : p_q_sending p' = p_q_sending p;
  si_next_sending : p_next_sending p' = p_next_sending p;
  si_sending : has_flag (p_state p') PST_SENDING = has_flag (p_state p) PST_SENDING;
  si_free : has_flag (p_state p') PST_FREE_SLOT = has_flag (p_state p) PST_FREE_SLOT
}.

Section preserve.
Context {mem : Type}.
Implicit Types st : kstate mem.

Lemma endpt_proc_ext st st' ep :
  (forall n, p_endpoint (procs st' n) = p_endpoint (procs st n)) ->
  (forall n, has_flag (p_state (procs st' n)) PST_FREE_SLOT =
             has_flag (p_state (procs st n)) PST_FREE_SLOT) ->
  (forall n, free_ok (p_state (procs st n))) -> (forall n, free_ok (p_state (procs st' n))) ->
  endpt_proc st' ep = endpt_proc st ep.
Proof.
  intros He Hf Hok Hok'. unfold endpt_proc, verify_endpt.
  by rewrite !free_ok_eqb, He, Hf by done.
Qed.

Lemma chain_ext st st' o l :
  (forall q, q ∈ l -> p_next_sending (procs st' q) = p_next_sending (procs st q)) ->
  chain st o l -> chain st' o l.
Proof.
  revert o. induction l as [|q l IH]; intros o Hn; cbn; [done|]. intros [-> Hc]. split; [done|].
  rewrite Hn by member. apply IH; [|done]. intros x Hx. apply Hn. member.
Qed.

Lemma chain_snoc st st' o l z s :
  (forall q, q ∈ l -> p_next_sending (procs st' q) = p_next_sending (procs st q)) ->
  p_next_sending (procs st' z) = Some s -> p_next_sending (procs st' s) = None ->
  chain st o (l ++ [z]) -> chain st' o (l ++ [z; s]).
Proof.
  revert o. induction l as [|q l IH]; intros o Hn Hz Hs; cbn.
  - intros [-> _]. by rewrite Hz, Hs.
  - intros [-> Hc]. split; [done|]. rewrite Hn by member. apply IH; [|done..].
    intros x Hx. apply Hn. member.
Qed.

Lemma chain_drop st st' o l1 q l2 :
  (forall x, x ∈ l1 ++ l2 -> p_next_sending (procs st' x) =
     if decide (last l1 = Some x) then p_next_sending (procs st q)
     else p_next_sending (procs st x)) ->
  l1 <> [] -> NoDup (l1 ++ q :: l2) ->
  chain st o (l1 ++ q :: l2) -> chain st' o (l1 ++ l2).
Proof.
  revert o. induction l1 as [|x l1 IH]; intros o Hn Hne Hnd; [done|]. cbn. intros [-> Hc].
  split; [done|]. change (NoDup (x :: (l1 ++ q :: l2))) in Hnd.
  apply NoDup_cons in Hnd as [Hx Hnd].
  rewrite Hn by member. destruct l1 as [|y l1].
  - cbn in *. destruct Hc as [_ Hc]. rewrite decide_True by done.
    eapply chain_ext; [|done]. intros z Hz. rewrite Hn by member. rewrite decide_False; [done|].
    intros [= <-]. apply Hx. member.
  - rewrite decide_False.
    2: { intros Hl. apply Hx, elem_of_app. left.
         exact (last_Some_elem_of (y :: l1) x Hl). }
    apply IH; [|done..]. intros z Hz. rewrite Hn by member. done.
Qed.

Lemma chain_middle st o l1 q l2 :
  chain st o (l1 ++ q :: l2) -> chain st (p_next_sending (procs st q)) l2.
Proof. revert o. induction l1 as [|x l1 IH]; intros o; cbn; intros [-> Hc]; eauto. Qed.

Lemma last_sender_spec st fuel q l :
  chain st (Some q) l -> (length l <= fuel)%nat ->
  exists l' z, l = l' ++ [z] /\ last_sender fuel st q = Ret z.
Proof.
  revert q l. induction fuel as [|fuel IH]; intros q [|x l]; cbn; try done; try lia.
  intros [[= <-] Hc] Hl. destruct l as [|y l]; cbn in Hc.
  - rewrite Hc. by exists [], q.
  - destruct Hc as [Hy Hc]. rewrite Hy.
    destruct (IH y (y :: l)) as (l' & z & Heq & ->); [done|cbn in *; lia|].
    exists (q :: l'), z. by rewrite Heq.
Qed.

Lemma ipc_wf_free st Q n : ipc_wf st Q -> free_ok (p_state (procs st n)).
Proof. intros Hwf. exact (iw_free _ _ Hwf n). Qed.

Lemma live_ext st st' n :
  p_endpoint (procs st' n) = p_endpoint (procs st n) ->
  has_flag (p_state (procs st' n)) PST_FREE_SLOT = has_flag (p_state (procs st n)) PST_FREE_SLOT ->
  free_ok (p_state (procs st n)) -> live st n -> live st' n.
Proof.
  intros He Hf Hok (H1 & H2 & H3). unfold live. rewrite He. split_and!; try tauto.
  intros Hs. apply H2, Hok. rewrite <- Hf, Hs. done.
Qed.

Lemma waits_ext st st' q p :
  (forall ep, endpt_proc st' ep = endpt_proc st ep) ->
  has_flag (p_state (procs st' q)) PST_SENDING = has_flag (p_state (procs st q)) PST_SENDING ->
  p_sendto (procs st' q) = p_sendto (procs st q) ->
  waits st q p <-> waits st' q p.
Proof.
  intros He Hs Ht. unfold waits, sending, target, PST_IS_SET. by rewrite He, Hs, Ht.
Qed.

Lemma ipc_wf_ext st st' Q :
  (forall n, same_ipc (procs st n) (procs st' n)) ->
  (forall n, free_ok (p_state (procs st' n))) ->
  ipc_wf st Q -> ipc_wf st' Q.
Proof.
  intros Hs Hok Hwf.
  assert (forall ep, endpt_proc st' ep = endpt_proc st ep) as He.
  { intros ep. apply endpt_proc_ext; try done; try apply Hs. by intros; eapply ipc_wf_free. }
  assert (forall q p, waits st q p <-> waits st' q p) as Hw.
  { intros. apply waits_ext; [done|apply Hs..]. }
  assert (forall q, sending st' q <-> sending st q) as Hsend.
  { intros q. unfold sending, PST_IS_SET. by rewrite (si_sending _ _ (Hs q)). }
  constructor; [..|done].
  - intros p Hp. rewrite (si_q_sending _ _ (Hs p)). eapply chain_ext; [|by apply Hwf].
    intros q _. apply Hs.
  - apply Hwf.
  - intros p q Hp Hq. rewrite <- Hw. by apply Hwf.
  - intros q Hq Hsq. unfold target. rewrite He, (si_sendto _ _ (Hs q)).
    apply Hwf; [done|by apply Hsend].
  - intros q Hq Hsq%Hsend. destruct (iw_sender _ _ Hwf q Hq Hsq) as [Hl Hi]. split; [|done].
    apply (live_ext st); [apply Hs..| |done]. by eapply ipc_wf_free.
  - intros q Hq. induction (iw_settles _ _ Hwf q Hq) as [n Hn|n p Hnp _ IH].
    + apply settles_end. by rewrite Hsend.
    + apply settles_step with p; [by apply Hw|]. apply IH. by eapply waits_valid.
Qed.

(** A path that never gets to [s] is there after [s] started to wait. *)
Lemma settles_avoid st st' s p :
  (forall q r, q <> s -> waits st q r <-> waits st' q r) ->
  (forall q, q <> s -> sending st' q <-> sending st q) ->
  p <> s -> ~ tc (waits st) p s -> settles st p -> settles st' p.
Proof.
  intros Hw Hs Hps Htc Hset. induction Hset as [n Hn|n p Hnp _ IH].
  - apply settles_end. by rewrite Hs.
  - apply settles_step with p; [by apply Hw|]. apply IH.
    + intros ->. apply Htc. by apply tc_once.
    + intros Ht. apply Htc. by eapply tc_l.
Qed.

(** [sender] is appended to the queue of [p_dest]. *)
Lemma ipc_wf_append st st' Q sender p_dest dest :
  ipc_wf st Q -> live st sender -> sender <> INTERRUPT -> ~ sending st sender ->
  endpt_proc st dest = Some p_dest -> p_dest <> sender -> ~ tc (waits st) p_dest sender ->
  (forall n, p_endpoint (procs st' n) = p_endpoint (procs st n)) ->
  (forall n, has_flag (p_state (procs st' n)) PST_FREE_SLOT =
             has_flag (p_state (procs st n)) PST_FREE_SLOT) ->
  (forall n, free_ok (p_state (procs st' n))) ->
  (forall n, n <> sender ->
     has_flag (p_state (procs st' n)) PST_SENDING = has_flag (p_state (procs st n)) PST_SENDING /\
     p_sendto (procs st' n) = p_sendto (procs st n)) ->
  sending st' sender -> p_sendto (procs st' sender) = dest ->
  (forall p, valid_nr p -> p <> p_dest -> chain st' (p_q_sending (procs st' p)) (Q p)) ->
  chain st' (p_q_sending (procs st' p_dest)) (Q p_dest ++ [sender]) ->
  ipc_wf st' (<[p_dest := Q p_dest ++ [sender]]> Q).
Proof.
  intros Hwf Hlive Hint Hns Hd Hne Htc Hep Hfr Hok Hoth Hss Hsd Hch Hchd.
  pose proof (endpt_proc_valid _ _ _ (live_endpt _ _ Hlive)) as Hsv.
  assert (forall ep, endpt_proc st' ep = endpt_proc st ep) as He.
  { intros ep. apply endpt_proc_ext; try done. by intros; eapply ipc_wf_free. }
  assert (forall q p, q <> sender -> waits st q p <-> waits st' q p) as Hw.
  { intros q p Hq. destruct (Hoth q Hq). by apply waits_ext. }
  assert (forall q, q <> sender -> sending st' q <-> sending st q) as Hsend.
  { intros q Hq. unfold sending, PST_IS_SET. by rewrite (proj1 (Hoth q Hq)). }
  assert (waits st' sender p_dest) as Hwd.
  { split; [done|]. unfold target. by rewrite Hsd, He. }
  assert (forall p, valid_nr p -> sender ∉ Q p) as Hnin.
  { intros p Hp Hin. by apply Hwf in Hin as [_ []]. }
  pose proof (endpt_proc_valid _ _ _ Hd) as Hdv.
  assert (settles st' p_dest) as Hset.
  { eapply settles_avoid; [done..|]. by apply Hwf. }
  constructor; [..|done].
  - intros p Hp. destruct (decide (p = p_dest)) as [->|Hpd].
    + by rewrite fn_lookup_insert.
    + rewrite fn_lookup_insert_ne by done. by apply Hch.
  - intros p Hp. destruct (decide (p = p_dest)) as [->|Hpd].
    + rewrite fn_lookup_insert. apply NoDup_app. split_and!; [by apply Hwf| |by apply NoDup_singleton].
      intros x Hx. rewrite list_elem_of_singleton. intros ->. by apply (Hnin p_dest).
    + rewrite fn_lookup_insert_ne by done. by apply Hwf.
  - intros p q Hp Hq. destruct (decide (q = sender)) as [->|Hqs].
    + destruct (decide (p = p_dest)) as [->|Hpd]; [done|].
      rewrite fn_lookup_insert_ne in Hq by done. by apply Hnin in Hq.
    + rewrite <- Hw by done. apply Hwf; [done|]. destruct (decide (p = p_dest)) as [->|Hpd].
      * rewrite fn_lookup_insert in Hq. member.
      * by rewrite fn_lookup_insert_ne in Hq.
  - intros q Hq Hsq. destruct (decide (q = sender)) as [->|Hqs].
    + exists p_dest. rewrite fn_lookup_insert. split_and!; [done|apply Hwd|member].
    + apply Hsend in Hsq; [|done]. destruct (iw_sending _ _ Hwf q Hq Hsq) as (p & Hp & Ht & Hin).
      exists p. split; [done|]. split.
      * unfold target in *. by rewrite (proj2 (Hoth q Hqs)), He.
      * destruct (decide (p = p_dest)) as [->|Hpd].
        -- rewrite fn_lookup_insert. member.
        -- by rewrite fn_lookup_insert_ne.
  - intros q Hq Hsq. destruct (decide (q = sender)) as [->|Hqs].
    + split; [|done]. apply (live_ext st); [done..|by eapply ipc_wf_free|done].
    + apply Hsend in Hsq; [|done]. destruct (iw_sender _ _ Hwf q Hq Hsq) as [Hl Hi].
      split; [|done]. apply (live_ext st); [done..|by eapply ipc_wf_free|done].
  - intros q Hq. induction (iw_settles _ _ Hwf q Hq) as [n Hn|n p Hnp _ IH];
      (destruct (decide (n = sender)) as [->|Hnsd]; [by apply settles_step with p_dest|]).
    + apply settles_end. by rewrite Hsend.
    + apply settles_step with p; [by apply Hw|]. apply IH. by eapply waits_valid.
Qed.

(** [from] is taken off the queue of [who]. *)
Lemma ipc_wf_remove st st' Q who from l1 l2 :
  ipc_wf st Q -> valid_nr who -> Q who = l1 ++ from :: l2 ->
  (forall n, p_endpoint (procs st' n) = p_endpoint (procs st n)) ->
  (forall n, has_flag (p_state (procs st' n)) PST_FREE_SLOT =
             has_flag (p_state (procs st n)) PST_FREE_SLOT) ->
  (forall n, free_ok (p_state (procs st' n))) ->
  (forall n, n <> from ->
     has_flag (p_state (procs st' n)) PST_SENDING = has_flag (p_state (procs st n)) PST_SENDING /\
     p_sendto (procs st' n) = p_sendto (procs st n)) ->
  ~ sending st' from ->
  (forall p, valid_nr p -> p <> who -> chain st' (p_q_sending (procs st' p)) (Q p)) ->
  chain st' (p_q_sending (procs st' who)) (l1 ++ l2) ->
  ipc_wf st' (<[who := l1 ++ l2]> Q).
Proof.
  intros Hwf Hv HQ Hep Hfr Hok Hoth Hns Hch Hchw.
  assert (forall ep, endpt_proc st' ep = endpt_proc st ep) as He.
  { intros ep. apply endpt_proc_ext; try done. by intros; eapply ipc_wf_free. }
  assert (forall q p, q <> from -> waits st q p <-> waits st' q p) as Hw.
  { intros q p Hq. destruct (Hoth q Hq). by apply waits_ext. }
  assert (forall q, q <> from -> sending st' q <-> sending st q) as Hsend.
  { intros q Hq. unfold sending, PST_IS_SET. by rewrite (proj1 (Hoth q Hq)). }
  pose proof (iw_nodup _ _ Hwf who Hv) as Hnd. rewrite HQ in Hnd. apply NoDup_middle in Hnd as [Hf Hnd].
  assert (forall p q, valid_nr p -> q ∈ <[who := l1 ++ l2]> Q p -> q ∈ Q p /\ q <> from) as Hsub.
  { intros p q Hp Hq. destruct (decide (p = who)) as [->|Hpw].
    - rewrite fn_lookup_insert in Hq. rewrite HQ. split; [member|]. by intros ->.
    - rewrite fn_lookup_insert_ne in Hq by done. split; [done|]. intros ->. apply Hpw.
      apply (waits_det st from); apply Hwf; [done..|]. rewrite HQ. member. }
  constructor; [..|done].
  - intros p Hp. destruct (decide (p = who)) as [->|Hpd].
    + by rewrite fn_lookup_insert.
    + rewrite fn_lookup_insert_ne by done. by apply Hch.
  - intros p Hp. destruct (decide (p = who)) as [->|Hpd].
    + by rewrite fn_lookup_insert.
    + rewrite fn_lookup_insert_ne by done. by apply Hwf.
  - intros p q Hp [Hq Hqf]%Hsub; [|done]. rewrite <- Hw by done. by apply Hwf.
  - intros q Hq Hsq. destruct (decide (q = from)) as [->|Hqs]; [done|].
    apply Hsend in Hsq; [|done]. destruct (iw_sending _ _ Hwf q Hq Hsq) as (p & Hp & Ht & Hin).
    exists p. split; [done|]. split.
    + unfold target in *. by rewrite (proj2 (Hoth q Hqs)), He.
    + destruct (decide (p = who)) as [->|Hpd].
      * rewrite fn_lookup_insert. rewrite HQ in Hin. member.
      * by rewrite fn_lookup_insert_ne.
  - intros q Hq Hsq. destruct (decide (q = from)) as [->|Hqs]; [done|].
    apply Hsend in Hsq; [|done]. destruct (iw_sender _ _ Hwf q Hq Hsq) as [Hl Hi].
    split; [|done]. apply (live_ext st); [done..|by eapply ipc_wf_free|done].
  - intros q Hq. induction (iw_settles _ _ Hwf q Hq) as [n Hn|n p Hnp _ IH];
      (destruct (decide (n = from)) as [->|Hnf]; [by apply settles_end|]).
    + apply settles_end. by rewrite Hsend.
    + apply settles_step with p; [by apply Hw|]. apply IH. by eapply waits_valid.
Qed.
End preserve.
