(* ===== verification/Rendezvous.v ===== *)
(** * Sending and receiving

    What [msg_send] and [msg_receive] of kernel/proc.c do in a state that
    satisfies the invariants: they return, keep the invariants, and implement
    one first-in first-out mailbox per process. *)

From S2P Require Import Prelude Bitmap Kernel Sched Ipc IpcInv.

(** Reads an entry of the process table after updates. *)
Ltac table :=
  repeat rewrite ?procs_upd_proc, ?procs_PST_SET, ?procs_PST_UNSET;
  repeat case_decide; subst; try done.

Section frame.
Context {mem : Type}.
Implicit Types st : kstate mem.

(** A process that waits for a message has none to be delivered. *)
Definition recv_ok st : Prop := forall n,
  PST_IS_SET st n PST_RECEIVING = true -> has_flag (p_flags (procs st n)) PF_DELIVER_MSG = false.

(** A process an endpoint names has a privilege structure. *)
Definition priv_ok st : Prop := forall ep n,
  endpt_proc st ep = Some n ->
  exists id, p_priv (procs st n) = Some id /\
    0 <= pr_id (privs st id) < NR_PRIV_PROCS /\
    wf_bitmap (pr_notify_pending (privs st id)) NR_PRIV_PROCS /\
    wf_bitmap (pr_async_pending (privs st id)) NR_PRIV_PROCS.

Lemma live_not_free st n :
  live st n -> free_ok (p_state (procs st n)) -> has_flag (p_state (procs st n)) PST_FREE_SLOT = false.
Proof.
  intros (_ & Hnf & _) Hok. destruct (has_flag _ PST_FREE_SLOT) eqn:H; [|done]. by apply Hok in H.
Qed.

(** Privileges that stay, up to the pending bits. *)
Lemma priv_ok_ext st st' Q Q' :
  ipc_wf st Q -> ipc_wf st' Q' ->
  (forall n, p_endpoint (procs st' n) = p_endpoint (procs st n) /\
             p_priv (procs st' n) = p_priv (procs st n) /\
             has_flag (p_state (procs st' n)) PST_FREE_SLOT =
             has_flag (p_state (procs st n)) PST_FREE_SLOT) ->
  (forall id, pr_id (privs st' id) = pr_id (privs st id) /\
     (wf_bitmap (pr_notify_pending (privs st id)) NR_PRIV_PROCS ->
      wf_bitmap (pr_notify_pending (privs st' id)) NR_PRIV_PROCS) /\
     (wf_bitmap (pr_async_pending (privs st id)) NR_PRIV_PROCS ->
      wf_bitmap (pr_async_pending (privs st' id)) NR_PRIV_PROCS)) ->
  priv_ok st -> priv_ok st'.
Proof.
  intros Hwf Hwf' Hp Hr Hok ep n Hn.
  rewrite (endpt_proc_ext st st') in Hn;
    [|intros; apply Hp|intros; apply Hp|intros; by eapply ipc_wf_free|intros; by eapply ipc_wf_free].
  destruct (Hok ep n Hn) as (id & Hid & Hrg & Hb1 & Hb2). exists id.
  destruct (Hp n) as (_ & -> & _). destruct (Hr id) as (-> & ? & ?). auto.
Qed.

(** ** Operations that leave the senders alone *)

Lemma ipc_wf_procs st st' Q : procs st' = procs st -> ipc_wf st Q -> ipc_wf st' Q.
Proof.
  intros Hp Hwf. eapply ipc_wf_ext; [..|done].
  - intros n. rewrite Hp. by constructor.
  - intros n. rewrite Hp. by eapply ipc_wf_free.
Qed.

Lemma ipc_wf_upd n f st Q :
  same_ipc (procs st n) (f (procs st n)) -> p_state (f (procs st n)) = p_state (procs st n) ->
  ipc_wf st Q -> ipc_wf (upd_proc n f st) Q.
Proof.
  intros Hs Hst Hwf. eapply ipc_wf_ext; [..|done].
  - intros k. by table.
  - intros k. table; rewrite ?Hst; by eapply ipc_wf_free.
Qed.

Lemma ipc_wf_PST_UNSET cpu n pst st Q :
  Z.land pst PST_SENDING = 0 -> Z.land pst PST_FREE_SLOT = 0 ->
  ipc_wf st Q -> ipc_wf (PST_UNSET_LOCKED cpu n pst st) Q.
Proof.
  intros Hs Hf Hwf. eapply ipc_wf_ext; [..|done].
  - intros k. table; constructor; cbn; try done; by apply has_flag_clear_other.
  - intros k. table; [|by eapply ipc_wf_free]. cbn.
    apply free_ok_clear; [by eapply ipc_wf_free|done].
Qed.

Lemma ipc_wf_PST_SET cpu n pst st Q :
  Z.land pst PST_SENDING = 0 -> Z.land pst PST_FREE_SLOT = 0 -> live st n ->
  ipc_wf st Q -> ipc_wf (PST_SET_LOCKED cpu n pst st) Q.
Proof.
  intros Hs Hf Hl Hwf. eapply ipc_wf_ext; [..|done].
  - intros k. table; constructor; cbn; try done; by apply has_flag_set_other.
  - intros k. table; [|by eapply ipc_wf_free]. cbn.
    apply free_ok_set; [|done]. apply live_not_free; [done|by eapply ipc_wf_free].
Qed.

Lemma env_PST_SET cpu n pst st :
  kmem (PST_SET_LOCKED cpu n pst st) = kmem st /\
  pt_proc (PST_SET_LOCKED cpu n pst st) = pt_proc st /\
  privs (PST_SET_LOCKED cpu n pst st) = privs st.
Proof.
  unfold PST_SET_LOCKED. case_cond; [|done]. unfold dequeue_proc.
  by destruct (run_queues (run_list_del _ _) _ _).
Qed.

Lemma env_PST_UNSET cpu n pst st :
  kmem (PST_UNSET_LOCKED cpu n pst st) = kmem st /\
  pt_proc (PST_UNSET_LOCKED cpu n pst st) = pt_proc st /\
  privs (PST_UNSET_LOCKED cpu n pst st) = privs st.
Proof. unfold PST_UNSET_LOCKED. by case_cond. Qed.
End frame.

Section send.
Context {mem : Type} `{!UserMemory mem}.
Implicit Types st : kstate mem.

Lemma ipc_wf_hand_over cpu sender p msg st Q :
  ipc_wf st Q -> ipc_wf (hand_over cpu sender p msg st) Q.
Proof.
  intros Hwf. unfold hand_over. apply ipc_wf_upd; [by constructor|done|].
  apply ipc_wf_PST_UNSET; [done..|]. by apply ipc_wf_upd; [constructor|..].
Qed.

Lemma sched_wf_hand_over cpu sender p msg st :
  sched_wf cpu st -> sched_wf cpu (hand_over cpu sender p msg st).
Proof.
  intros Hwf. unfold hand_over. apply sched_wf_upd_proc; [done|].
  apply sched_wf_PST_UNSET. by apply sched_wf_upd_proc.
Qed.

Lemma procs_hand_over cpu sender p msg st n :
  procs (hand_over cpu sender p msg st) n =
  if decide (p = n) then
    (procs st p) <| p_deliver_msg := msg <| m_source := p_endpoint (procs st sender) |> |>
                 <| p_flags ::= fun f => clear_flag (set_flag f PF_DELIVER_MSG) PF_RECV_ASYNC |>
                 <| p_state ::= fun s => clear_flag s PST_RECEIVING |>
  else procs st n.
Proof. unfold hand_over. table. Qed.

(** [sender] blocked on [dest] with its message, not yet queued. *)
Definition blocked_sender cpu sender dest (msg : MESSAGE) st : kstate mem :=
  let st1 := upd_proc sender (fun p => p <| p_sendto := dest |>)
               (PST_SET_LOCKED cpu sender PST_SENDING st) in
  upd_proc sender (fun p =>
    p <| p_send_msg := msg <| m_source := p_endpoint (procs st1 sender) |> |>) st1.

Lemma procs_blocked_sender cpu sender dest msg st n :
  procs (blocked_sender cpu sender dest msg st) n =
  if decide (sender = n) then
    (procs st sender) <| p_state ::= fun s => set_flag s PST_SENDING |>
      <| p_sendto := dest |>
      <| p_send_msg := msg <| m_source := p_endpoint (procs st sender) |> |>
  else procs st n.
Proof. unfold blocked_sender. table. Qed.

(** Two entries that differ at most in the links of the sending queues. *)
Definition same_but_links (p p' : proc) : Prop :=
  p' = p <| p_q_sending := p_q_sending p' |> <| p_next_sending := p_next_sending p' |>.

Lemma same_but_links_refl p : same_but_links p p.
Proof. by destruct p. Qed.

(** Appending to the queue of [p_dest] returns, links the sender at the end,
    and changes nothing but the links. *)
Lemma append_sender_spec st Q sender p_dest st0 :
  ipc_wf st Q -> valid_nr p_dest -> ~ sending st sender ->
  (forall n, p_next_sending (procs st0 n) = p_next_sending (procs st n)) ->
  (forall n, p_q_sending (procs st0 n) = p_q_sending (procs st n)) ->
  exists st', append_sender sender p_dest st0 = Ret st' /\
    chain st' (p_q_sending (procs st' p_dest)) (Q p_dest ++ [sender]) /\
    (forall p, valid_nr p -> p <> p_dest -> chain st' (p_q_sending (procs st' p)) (Q p)) /\
    (forall n, same_but_links (procs st0 n) (procs st' n)) /\
    run_queues st' = run_queues st0 /\ run_queue_bitmap st' = run_queue_bitmap st0 /\
    proc_ptr st' = proc_ptr st0 /\ privs st' = privs st0.
Proof.
  intros Hwf Hdv Hns Hnext Hqs. unfold append_sender.
  assert (forall p, valid_nr p -> sender ∉ Q p) as Hnin.
  { intros p Hp Hin. by apply Hwf in Hin as [_ []]. }
  assert (forall p, valid_nr p -> chain st0 (p_q_sending (procs st0 p)) (Q p)) as Hch.
  { intros p Hp. rewrite Hqs. eapply chain_ext; [|by apply Hwf]. done. }
  pose proof (Hch p_dest Hdv) as Hd. destruct (p_q_sending (procs st0 p_dest)) as [q|] eqn:Hq.
  - destruct (last_sender_spec st0 CHAIN_FUEL q (Q p_dest)) as (l & z & HQ & ->); [done| |].
    { apply valid_length; [by apply Hwf|]. intros x Hx. by apply (iw_mem _ _ Hwf p_dest). }
    cbn. eexists. split; [done|].
    assert (z ∈ Q p_dest) as Hz by (rewrite HQ; member).
    assert (z <> sender) as Hzs by (intros ->; by apply (Hnin p_dest)).
    split_and!; [..|done|done|done|done].
    + rewrite HQ, <- app_assoc. eapply chain_snoc with (st := st0).
      * intros x Hx. assert (x ∈ Q p_dest) by (rewrite HQ; member).
        assert (x <> z). { intros ->. pose proof (iw_nodup _ _ Hwf p_dest Hdv) as Hnd.
          rewrite HQ in Hnd. apply NoDup_middle in Hnd as [Hnd _]. member. }
        assert (x <> sender) by (intros ->; by apply (Hnin p_dest)). by table.
      * by table.
      * by table.
      * rewrite <- HQ. replace (p_q_sending _) with (Some q); [done|]. by table.
    + intros p Hp Hpd. eapply chain_ext with (st := st0).
      * intros x Hx. assert (x <> sender) by (intros ->; by apply (Hnin p)).
        assert (x <> z). { intros ->. apply Hpd. by apply (waits_det st z); apply Hwf. }
        by table.
      * replace (p_q_sending _) with (p_q_sending (procs st0 p)); [by apply Hch|]. by table.
    + intros n. table; try apply same_but_links_refl; by destruct (procs st0 n).
  - assert (Q p_dest = []) as HQ by (destruct (Q p_dest); [done|]; by destruct Hd).
    cbn. eexists. split; [done|]. split_and!; [..|done|done|done|done].
    + rewrite HQ. cbn [app chain]. split; by table.
    + intros p Hp Hpd. eapply chain_ext with (st := st0).
      * intros x Hx. assert (x <> sender) by (intros ->; by apply (Hnin p)). by table.
      * replace (p_q_sending _) with (p_q_sending (procs st0 p)); [by apply Hch|]. by table.
    + intros n. table; try apply same_but_links_refl; by destruct (procs st0 n).
Qed.

Lemma same_but_links_fields p p' :
  same_but_links p p' ->
  same_sched p p' /\ p_state p' = p_state p /\ p_endpoint p' = p_endpoint p /\
  p_sendto p' = p_sendto p /\ p_send_msg p' = p_send_msg p /\
  p_deliver_msg p' = p_deliver_msg p /\ p_flags p' = p_flags p /\ p_priv p' = p_priv p.
Proof. intros H. unfold same_sched. rewrite H. done. Qed.

(** The invariants message passing relies on. *)
Record ipc_ok cpu st (Q : Z -> list Z) : Prop := {
  ok_ipc : ipc_wf st Q;
  ok_sched : sched_wf cpu st;
  ok_recv : recv_ok st;
  ok_priv : priv_ok st
}.

(** What a send ends in: [msg] is the message at [m]. *)
Inductive send_outcome cpu st Q sender dest (msg : MESSAGE) flags
  : kstate mem -> (Z -> list Z) -> Z -> Prop :=
| so_invalid :
    endpt_proc st dest = None -> send_outcome cpu st Q sender dest msg flags st Q EINVAL
| so_deadlock p :
    endpt_proc st dest = Some p -> tc (waits st) p sender ->
    send_outcome cpu st Q sender dest msg flags st Q EDEADLK
| so_delivered p :
    endpt_proc st dest = Some p -> ~ tc (waits st) p sender ->
    waits_for_msg st p (p_endpoint (procs st sender)) = true ->
    send_outcome cpu st Q sender dest msg flags (hand_over cpu sender p msg st) Q 0
| so_busy p :
    endpt_proc st dest = Some p -> ~ tc (waits st) p sender ->
    waits_for_msg st p (p_endpoint (procs st sender)) = false ->
    has_flag flags IPCF_NONBLOCK = true ->
    send_outcome cpu st Q sender dest msg flags st Q EBUSY
| so_blocked p st' :
    endpt_proc st dest = Some p -> ~ tc (waits st) p sender ->
    waits_for_msg st p (p_endpoint (procs st sender)) = false ->
    has_flag flags IPCF_NONBLOCK = false ->
    (forall n, same_but_links (procs (blocked_sender cpu sender dest msg st) n) (procs st' n)) ->
    privs st' = privs st ->
    send_outcome cpu st Q sender dest msg flags st' (<[p := Q p ++ [sender]]> Q) 0.

Lemma recv_ok_hand_over cpu sender p msg st :
  recv_ok st -> recv_ok (hand_over cpu sender p msg st).
Proof.
  intros Hr n. unfold PST_IS_SET. rewrite procs_hand_over. case_decide as Hd; [|apply Hr].
  subst. cbn. by rewrite has_flag_clear_same.
Qed.

Lemma ipc_ok_hand_over cpu sender p msg st Q :
  ipc_ok cpu st Q -> ipc_ok cpu (hand_over cpu sender p msg st) Q.
Proof.
  intros [Hwf Hs Hr Hp]. pose proof (ipc_wf_hand_over cpu sender p msg st Q Hwf) as Hwf'.
  constructor; auto using sched_wf_hand_over, recv_ok_hand_over.
  eapply priv_ok_ext; [exact Hwf|exact Hwf'|..|done].
  - intros n. rewrite procs_hand_over.
    by case_decide; subst; cbn; rewrite ?has_flag_clear_other.
  - intros id. unfold hand_over. cbn.
    by rewrite (proj2 (proj2 (env_PST_UNSET cpu p PST_RECEIVING _))).
Qed.

Lemma fetch_msg_mapped cpu flags st m msg :
  copy_user_message cpu st m = Some msg -> fetch_msg cpu flags st m = Ret (Some msg).
Proof. intros Hm. unfold fetch_msg, load_msg. rewrite Hm. by case_cond. Qed.

Lemma copy_user_message_env cpu st st' m :
  kmem st' = kmem st -> pt_proc st' = pt_proc st ->
  copy_user_message cpu st' m = copy_user_message cpu st m.
Proof. intros Hk Hp. unfold copy_user_message. by rewrite Hk, Hp. Qed.

(** The blocking path: the sender ends up at the end of the queue. *)
Lemma ipc_ok_blocked cpu st Q sender dest msg p :
  ipc_ok cpu st Q -> live st sender -> sender <> INTERRUPT -> ~ sending st sender ->
  endpt_proc st dest = Some p -> p <> sender -> ~ tc (waits st) p sender ->
  exists st', append_sender sender p (blocked_sender cpu sender dest msg st) = Ret st' /\
    ipc_ok cpu st' (<[p := Q p ++ [sender]]> Q) /\
    (forall n, same_but_links (procs (blocked_sender cpu sender dest msg st) n) (procs st' n)) /\
    privs st' = privs st.
Proof.
  intros [Hwf Hsch Hrecv Hpriv] Hlive Hint Hns Hp Hne Htc.
  set (st3 := blocked_sender cpu sender dest msg st).
  destruct (append_sender_spec st Q sender p st3) 
    as (st' & -> & Hc & Hco & Hlink & Hq1 & Hq2 & Hq3 & Hq4).
  { done. } { by eapply endpt_proc_valid. } { done. }
  { intros n. unfold st3. rewrite procs_blocked_sender. by case_decide; subst. }
  { intros n. unfold st3. rewrite procs_blocked_sender. by case_decide; subst. }
  assert (privs st' = privs st) as Hpv.
  { rewrite Hq4. unfold st3, blocked_sender. cbn. apply env_PST_SET. }
  exists st'. split; [done|]. split; [|done].
  assert (forall n, p_state (procs st' n) =
            if decide (sender = n) then set_flag (p_state (procs st n)) PST_SENDING
            else p_state (procs st n)) as Hstate.
  { intros n. destruct (same_but_links_fields _ _ (Hlink n)) as (_ & -> & _). unfold st3.
    rewrite procs_blocked_sender. by case_decide; subst. }
  assert (forall n, n <> sender -> p_sendto (procs st' n) = p_sendto (procs st n)) as Hto.
  { intros n Hn. destruct (same_but_links_fields _ _ (Hlink n)) as (_ & _ & _ & -> & _). unfold st3.
    by rewrite procs_blocked_sender, decide_False by done. }
  assert (forall n, p_endpoint (procs st' n) = p_endpoint (procs st n) /\
            p_priv (procs st' n) = p_priv (procs st n) /\
            has_flag (p_state (procs st' n)) PST_FREE_SLOT =
            has_flag (p_state (procs st n)) PST_FREE_SLOT) as Hsame.
  { intros n. destruct (same_but_links_fields _ _ (Hlink n)) as (_ & -> & -> & _ & _ & _ & _ & ->).
    unfold st3. rewrite procs_blocked_sender.
    by case_decide; subst; cbn; rewrite ?has_flag_set_other. }
  assert (ipc_wf st' (<[p := Q p ++ [sender]]> Q)) as Hwf'.
  { eapply ipc_wf_append with (st := st); try done; try apply Hsame.
    + intros n. rewrite Hstate. case_decide; [subst|by eapply ipc_wf_free].
      apply free_ok_set; [|done]. apply live_not_free; [done|by eapply ipc_wf_free].
    + intros n Hn. rewrite Hstate, decide_False by done. split; [done|]. by apply Hto.
    + unfold sending, PST_IS_SET. rewrite Hstate, decide_True by done. by apply has_flag_set_same.
    + destruct (same_but_links_fields _ _ (Hlink sender)) as (_ & _ & _ & -> & _). unfold st3.
      by rewrite procs_blocked_sender, decide_True. }
  constructor; [done|..].
  - apply sched_wf_ext with st3; [|done|done|by rewrite Hq3|].
    + intros n. apply same_but_links_fields, Hlink.
    + unfold st3, blocked_sender. by do 2 (apply sched_wf_upd_proc; [done|]); apply sched_wf_PST_SET.
  - intros n. unfold PST_IS_SET. rewrite Hstate.
    destruct (same_but_links_fields _ _ (Hlink n)) as (_ & _ & _ & _ & _ & _ & -> & _).
    unfold st3. rewrite procs_blocked_sender.
    case_decide; subst; [rewrite has_flag_set_other by done|]; apply Hrecv.
  - eapply priv_ok_ext; [exact Hwf|exact Hwf'|done| |done].
    intros id. by rewrite Hpv.
Qed.

(** [msg_send] on a mapped message returns one of its outcomes. *)
Lemma msg_send_spec cpu st Q sender dest m flags msg :
  ipc_ok cpu st Q -> live st sender -> sender <> INTERRUPT -> ~ sending st sender ->
  endpt_proc st dest <> Some sender -> copy_user_message cpu st m = Some msg ->
  exists st' Q' r, msg_send cpu sender dest m flags st = Ret (st', r) /\
    ipc_ok cpu st' Q' /\ send_outcome cpu st Q sender dest msg flags st' Q' r.
Proof.
  intros Hok Hlive Hint Hns Hself Hm. unfold msg_send.
  destruct (endpt_proc st dest) as [p|] eqn:Hp.
  2: { exists st, Q, EINVAL. split_and!; [done..|by constructor]. }
  destruct (deadlock_spec st Q sender dest p) as (b & -> & Hb); [apply Hok|done..|].
  assert (p <> sender) as Hne by congruence.
  rewrite res_ret_bind. destruct b; cbv beta iota zeta.
  { unfold dump_msg, load_msg. rewrite Hm. cbn. exists st, Q, EDEADLK.
    split_and!; [done..|]. apply so_deadlock with p; [done|by apply Hb]. }
  assert (~ tc (waits st) p sender) as Htc by (rewrite <- Hb; done).
  destruct (waits_for_msg st p (p_endpoint (procs st sender))) eqn:Hwait.
  - assert (has_flag (p_flags (procs st p)) PF_DELIVER_MSG = false) as ->.
    { apply Hok. unfold waits_for_msg in Hwait. by b2p. }
    rewrite (fetch_msg_mapped _ _ _ _ _ Hm). cbn.
    exists (hand_over cpu sender p msg st), Q, 0. split; [done|]. split.
    + by apply ipc_ok_hand_over.
    + by apply so_delivered.
  - destruct (has_flag flags IPCF_NONBLOCK) eqn:Hnb.
    { exists st, Q, EBUSY. split_and!; [done..|]. by apply so_busy with p. }
    rewrite (fetch_msg_mapped _ _ _ _ msg).
    2: { rewrite <- Hm. apply copy_user_message_env; apply env_PST_SET. }
    rewrite res_ret_bind. cbv beta iota.
    destruct (ipc_ok_blocked cpu st Q sender dest msg p) as (st' & Happ & Hok' & Hl & Hpv);
      [done..|].
    unfold blocked_sender in Happ. rewrite Happ. cbn.
    exists st', (<[p := Q p ++ [sender]]> Q), 0. split_and!; [done..|]. by apply so_blocked.
Qed.
End send.

Section receive.
Context {mem : Type} `{!UserMemory mem}.
Implicit Types st : kstate mem.

Lemma find_sender_spec st fuel o prev src l1 q l2 :
  chain st o (l1 ++ q :: l2) -> (length l1 < fuel)%nat ->
  (forall x, x ∈ l1 -> p_endpoint (procs st x) <> src) -> p_endpoint (procs st q) = src ->
  find_sender fuel st o prev src =
  Ret (Some q, match last l1 with Some z => Some z | None => prev end).
Proof.
  revert o prev l1. induction fuel as [|fuel IH]; intros o prev [|x l1] Hc Hf Hne Hq;
    cbn in Hf; try lia; destruct Hc as [-> Hc]; cbn [find_sender].
  - by rewrite Hq, Z.eqb_refl.
  - rewrite (proj2 (Z.eqb_neq _ _)) by (apply Hne; member).
    rewrite (IH _ _ l1); [|done|lia|intros y Hy; apply Hne; member|done].
    destruct l1 as [|y l1]; [done|]. change (last (x :: y :: l1)) with (last (y :: l1)).
    destruct (last (y :: l1)) eqn:Hl; [done|]. by apply last_None in Hl.
Qed.

(** [take_message] after the queue was relinked. *)
Definition take_rest cpu who from m st : kstate mem :=
  let st := upd_proc from (fun p => p <| p_next_sending := None |>) st in
  let msg := p_send_msg (procs st from) in
  let st := upd_proc who (fun p =>
    p <| p_recv_msg := m |>
      <| p_deliver_msg := msg |>
      <| p_flags ::= fun f => set_flag f PF_DELIVER_MSG |>) st in
  let st := upd_proc from (fun p =>
    p <| p_send_msg := reset_msg |> <| p_sendto := NO_TASK |>) st in
  PST_UNSET_LOCKED cpu from PST_SENDING st.

Lemma procs_take_rest cpu who from m st n :
  who <> from ->
  procs (take_rest cpu who from m st) n =
  if decide (n = from) then
    (procs st from) <| p_next_sending := None |>
      <| p_send_msg := reset_msg |> <| p_sendto := NO_TASK |>
      <| p_state ::= fun s => clear_flag s PST_SENDING |>
  else if decide (n = who) then
    (procs st who) <| p_recv_msg := m |>
      <| p_deliver_msg := p_send_msg (procs st from) |>
      <| p_flags ::= fun f => set_flag f PF_DELIVER_MSG |>
  else procs st n.
Proof.
  intros Hne. unfold take_rest.
  repeat rewrite ?procs_PST_UNSET, ?procs_upd_proc. repeat case_decide; done || congruence.
Qed.

Lemma sched_wf_take_rest cpu who from m st :
  sched_wf cpu st -> sched_wf cpu (take_rest cpu who from m st).
Proof.
  intros Hwf. unfold take_rest. apply sched_wf_PST_UNSET.
  by repeat (apply sched_wf_upd_proc; [done|]).
Qed.

(** What receiving the message of [from] does to the processes. *)
Record received st st' who from m : Prop := {
  rd_deliver : p_deliver_msg (procs st' who) = p_send_msg (procs st from);
  rd_addr : p_recv_msg (procs st' who) = m;
  rd_flag : has_flag (p_flags (procs st' who)) PF_DELIVER_MSG = true;
  rd_state n : p_state (procs st' n) =
    if decide (n = from) then clear_flag (p_state (procs st n)) PST_SENDING
    else p_state (procs st n);
  rd_send n : n <> from -> p_send_msg (procs st' n) = p_send_msg (procs st n)
}.

(** [st1] differs from [st] only in the links of the queue of [who], from which
    [from] was taken. *)
Section taking.
Context (cpu : Z) (st st1 : kstate mem) (Q : Z -> list Z) (who from m : Z) (l1 l2 : list Z).
Hypothesis Hok : ipc_ok cpu st Q.
Hypothesis Hv : valid_nr who.
Hypothesis Hns : ~ sending st who.
Hypothesis HQ : Q who = l1 ++ from :: l2.
Hypothesis Hl : forall n, same_but_links (procs st n) (procs st1 n).
Hypothesis Hqs : forall p, p <> who -> p_q_sending (procs st1 p) = p_q_sending (procs st p).
Hypothesis Hnx : forall x, x ∉ Q who ->
  p_next_sending (procs st1 x) = p_next_sending (procs st x).
Hypothesis Hch : chain st1 (p_q_sending (procs st1 who)) (l1 ++ l2).

Let st' : kstate mem := take_rest cpu who from m st1.

Lemma take_from : from ∈ Q who /\ from ∉ l1 ++ l2 /\ who <> from.
Proof.
  assert (from ∈ Q who) as Hin by (rewrite HQ; member).
  pose proof (iw_nodup _ _ (ok_ipc _ _ _ Hok) who Hv) as Hnd. rewrite HQ in Hnd.
  apply NoDup_middle in Hnd as [Hnf _]. split_and!; [done..|].
  intros ->. by destruct (iw_mem _ _ (ok_ipc _ _ _ Hok) from from Hv Hin) as [_ []].
Qed.

Lemma take_procs n : procs st' n = procs (take_rest cpu who from m st1) n.
Proof. done. Qed.

Lemma take_state n :
  p_state (procs st' n) =
  if decide (n = from) then clear_flag (p_state (procs st n)) PST_SENDING
  else p_state (procs st n).
Proof.
  rewrite take_procs, procs_take_rest by apply take_from.
  pose proof (same_but_links_fields _ _ (Hl n)) as (_ & Hs & _).
  repeat case_decide; subst; cbn; by rewrite Hs.
Qed.

Lemma take_same n :
  p_endpoint (procs st' n) = p_endpoint (procs st n) /\
  p_priv (procs st' n) = p_priv (procs st n) /\
  has_flag (p_state (procs st' n)) PST_FREE_SLOT =
  has_flag (p_state (procs st n)) PST_FREE_SLOT.
Proof.
  rewrite take_state. pose proof (same_but_links_fields _ _ (Hl n)) as (_&_&He&_&_&_&_&Hp).
  rewrite take_procs, procs_take_rest by apply take_from. rewrite <- He, <- Hp.
  repeat case_decide; subst; cbn; by rewrite ?has_flag_clear_other.
Qed.

Lemma take_wf : ipc_wf st' (<[who := l1 ++ l2]> Q).
Proof.
  destruct take_from as (Hin & Hnf & Hne). pose proof (ok_ipc _ _ _ Hok) as Hwf.
  eapply ipc_wf_remove with (st := st); try done; try apply take_same.
  - intros n. rewrite take_state. case_decide; [|by eapply ipc_wf_free].
    apply free_ok_clear; [by eapply ipc_wf_free|done].
  - intros n Hn. rewrite take_state, decide_False by done. split; [done|].
    pose proof (same_but_links_fields _ _ (Hl n)) as (_ & _ & _ & Ht & _).
    rewrite take_procs, procs_take_rest, decide_False, <- Ht by done. by case_decide; subst.
  - unfold sending, PST_IS_SET. rewrite take_state, decide_True, has_flag_clear_same by done. done.
  - intros p Hp Hpw.
    replace (p_q_sending (procs st' p)) with (p_q_sending (procs st p)).
    2: { rewrite <- Hqs, take_procs, procs_take_rest by done. by repeat case_decide; subst. }
    eapply chain_ext; [|by apply Hwf]. intros x Hx.
    assert (x ∉ Q who) as Hxw.
    { intros Hx'. apply Hpw. by apply (waits_det st x); apply Hwf. }
    rewrite <- Hnx, take_procs, procs_take_rest by done.
    repeat case_decide; subst; done.
  - replace (p_q_sending (procs st' who)) with (p_q_sending (procs st1 who)).
    2: { rewrite take_procs, procs_take_rest, decide_False, decide_True by done. done. }
    eapply chain_ext; [|done]. intros x Hx. rewrite take_procs, procs_take_rest by done.
    repeat case_decide; subst; done.
Qed.

Lemma take_received : received st st' who from m.
Proof.
  destruct take_from as (_ & _ & Hne).
  constructor; try (rewrite take_procs, procs_take_rest, decide_False, decide_True by done).
  - apply (same_but_links_fields _ _ (Hl from)).
  - done.
  - by apply has_flag_set_same.
  - apply take_state.
  - intros n Hn. rewrite take_procs, procs_take_rest, decide_False by done.
    pose proof (same_but_links_fields _ _ (Hl n)) as (_ & _ & _ & _ & <- & _). by case_decide; subst.
Qed.

Lemma take_ok :
  PST_IS_SET st who PST_RECEIVING = false ->
  run_queues st1 = run_queues st -> run_queue_bitmap st1 = run_queue_bitmap st ->
  proc_ptr st1 = proc_ptr st -> privs st1 = privs st ->
  ipc_ok cpu st' (<[who := l1 ++ l2]> Q).
Proof.
  intros Hnr Hq1 Hq2 Hq3 Hq4. destruct take_from as (Hin & Hnf & Hne).
  pose proof take_wf as Hwf'. constructor; [done|..].
  - apply sched_wf_take_rest, sched_wf_ext with st; [|done|done|by rewrite Hq3|apply Hok].
    intros n. apply same_but_links_fields, Hl.
  - intros n. unfold PST_IS_SET. rewrite take_state, take_procs, procs_take_rest by done.
    pose proof (same_but_links_fields _ _ (Hl n)) as (_ & _ & _ & _ & _ & _ & Hf & _).
    intros Hr. assert (PST_IS_SET st n PST_RECEIVING = true) as Hrn.
    { revert Hr. case_decide; [by rewrite has_flag_clear_other|done]. }
    pose proof (ok_recv _ _ _ Hok n Hrn) as Hd. rewrite <- Hf in Hd.
    repeat case_decide; subst; cbn; try done. congruence.
  - eapply priv_ok_ext; [apply Hok|exact Hwf'|apply take_same| |apply Hok].
    intros id. unfold st', take_rest. rewrite (proj2 (proj2 (env_PST_UNSET _ _ _ _))). cbn.
    by rewrite Hq4.
Qed.
End taking.

Lemma take_message_spec cpu st Q who from m l1 l2 :
  ipc_ok cpu st Q -> valid_nr who -> ~ sending st who ->
  PST_IS_SET st who PST_RECEIVING = false -> Q who = l1 ++ from :: l2 -> m <> 0 ->
  exists st', take_message cpu who from (last l1) m st = Ret st' /\
    ipc_ok cpu st' (<[who := l1 ++ l2]> Q) /\ received st st' who from m.
Proof.
  intros Hok Hv Hns Hnr HQ Hm.
  pose proof (iw_chain _ _ (ok_ipc _ _ _ Hok) who Hv) as Hc. rewrite HQ in Hc.
  pose proof (iw_nodup _ _ (ok_ipc _ _ _ Hok) who Hv) as Hnd. rewrite HQ in Hnd.
  unfold take_message. destruct (last l1) as [z|] eqn:Hz.
  - assert (p_q_sending (procs st who) <> Some from) as Hhd.
    { destruct l1 as [|x l1]; [done|]. destruct Hc as [-> _]. intros [= ->].
      apply NoDup_middle in Hnd as [Hnd _]. member. }
    rewrite decide_False, res_ret_bind by done. rewrite (proj2 (Z.eqb_neq m 0)) by done.
    eexists. split; [reflexivity|].
    set (st1 := upd_proc z _ st).
    assert (forall n, same_but_links (procs st n) (procs st1 n)) as Hl.
    { intros n. unfold st1. table; try apply same_but_links_refl; by destruct (procs st n). }
    assert (chain st1 (p_q_sending (procs st1 who)) (l1 ++ l2)) as Hch.
    { replace (p_q_sending (procs st1 who)) with (p_q_sending (procs st who))
        by (unfold st1; by table).
      eapply chain_drop; [|by intros ->|done|done]. intros x Hx. rewrite Hz. unfold st1.
      by table; simplify_eq. }
    assert (forall x, x ∉ Q who -> p_next_sending (procs st1 x) = p_next_sending (procs st x)) as Hnx.
    { intros x Hx. unfold st1. rewrite procs_upd_proc, decide_False; [done|]. intros ->.
      apply Hx. rewrite HQ. apply last_Some_elem_of in Hz. member. }
    assert (forall p, p <> who -> p_q_sending (procs st1 p) = p_q_sending (procs st p)) as Hqs
      by (intros p _; unfold st1; by table).
    split; [by apply (take_ok cpu st st1)|by eapply (take_received cpu st st1)].
  - apply last_None in Hz as ->. destruct Hc as [Hq Hc].
    rewrite decide_True, res_ret_bind by done. rewrite (proj2 (Z.eqb_neq m 0)) by done.
    eexists. split; [reflexivity|].
    set (st1 := upd_proc who _ st).
    assert (forall n, same_but_links (procs st n) (procs st1 n)) as Hl.
    { intros n. unfold st1. table; try apply same_but_links_refl; by destruct (procs st n). }
    assert (forall x, p_next_sending (procs st1 x) = p_next_sending (procs st x)) as Hnx
      by (intros x; unfold st1; by table).
    assert (chain st1 (p_q_sending (procs st1 who)) ([] ++ l2)) as Hch.
    { replace (p_q_sending (procs st1 who)) with (p_next_sending (procs st from))
        by (unfold st1; by rewrite procs_upd_proc_eq).
      apply (chain_ext st); [|done]. intros x _. apply Hnx. }
    assert (forall p, p <> who -> p_q_sending (procs st1 p) = p_q_sending (procs st p)) as Hqs
      by (intros p Hp; unfold st1; by rewrite procs_upd_proc_ne).
    split; [by apply (take_ok cpu st st1)|by eapply (take_received cpu st st1)].
Qed.

Lemma find_in_queue st Q who src from :
  ipc_wf st Q -> valid_nr who -> endpt_proc st src = Some from ->
  sending st from -> p_sendto (procs st from) = p_endpoint (procs st who) -> live st who ->
  exists l1 l2, Q who = l1 ++ from :: l2 /\
    find_sender (S CHAIN_FUEL) st (p_q_sending (procs st who)) None src =
    Ret (Some from, last l1).
Proof.
  intros Hwf Hv Hsrc Hs Hto Hlive.
  pose proof (endpt_proc_valid _ _ _ Hsrc) as Hfv.
  destruct (iw_sender _ _ Hwf from Hfv Hs) as [Hfl Hfi].
  assert (p_endpoint (procs st from) = src) as He.
  { by apply endpt_proc_Some in Hsrc as [[_ ->]|(_ & _ & ?)]. }
  destruct (iw_sending _ _ Hwf from Hfv Hs) as (p & Hpv & Ht & Hin).
  assert (p = who) as ->.
  { unfold target in Ht. rewrite Hto, live_endpt in Ht by done. congruence. }
  apply list_elem_of_split in Hin as (l1 & l2 & HQ). exists l1, l2. split; [done|].
  pose proof (iw_chain _ _ Hwf who Hv) as Hc. rewrite HQ in Hc.
  rewrite (find_sender_spec st _ _ None src l1 from l2); [by destruct (last l1)|done|..|done].
  - pose proof (valid_length (Q who) (iw_nodup _ _ Hwf who Hv)) as Hlen.
    rewrite HQ, length_app in Hlen. cbn in Hlen. apply Nat.lt_succ_r.
    etrans; [|apply Hlen]; [lia|]. intros q Hq. rewrite <- HQ in Hq. by apply (iw_mem _ _ Hwf who).
  - intros x Hx Hxs. assert (x ∈ Q who) as Hxq by (rewrite HQ; member).
    destruct (iw_mem _ _ Hwf who x Hv Hxq) as [Hxv [Hxsd _]].
    destruct (iw_sender _ _ Hwf x Hxv Hxsd) as [Hxl _].
    assert (x = from) as -> by (apply live_endpt in Hxl, Hfl; congruence).
    pose proof (iw_nodup _ _ Hwf who Hv) as Hnd. rewrite HQ in Hnd.
    apply NoDup_middle in Hnd as [Hnd _]. member.
Qed.
End receive.
