(* ===== verification/Receive.v ===== *)
(** * Receiving, notifications and the system call

    [msg_receive], [msg_notify] and [sys_sendrec] of kernel/proc.c: what each
    returns, that it keeps the invariants, and that sending and receiving
    implement a mailbox per process. *)

From S2P Require Import Prelude Bitmap Kernel Sched Ipc IpcInv Rendezvous.

Section frame.
Context {mem : Type} `{!UserMemory mem}.
Implicit Types st : kstate mem.

(** ** Updates the invariants do not see *)

(** A change of a process table entry that is neither about its state nor
    about the sending queues. *)
Record unseen (p p' : proc) : Prop := {
  us_ipc : same_ipc p p';
  us_sched : same_sched p p';
  us_priv : p_priv p' = p_priv p
}.

Lemma ipc_ok_upd cpu n f st Q :
  unseen (procs st n) (f (procs st n)) ->
  (PST_IS_SET st n PST_RECEIVING = true ->
   has_flag (p_flags (f (procs st n))) PF_DELIVER_MSG = false) ->
  ipc_ok cpu st Q -> ipc_ok cpu (upd_proc n f st) Q.
Proof.
  intros [Hi Hs Hp] Hd [Hwf Hsch Hr Hpr].
  assert (ipc_wf (upd_proc n f st) Q) as Hwf' by (apply ipc_wf_upd; [done|apply Hs|done]).
  constructor; [done|by apply sched_wf_upd_proc|..].
  - intros k. unfold PST_IS_SET. rewrite procs_upd_proc. destruct (decide (n = k)) as [<-|]; [|apply Hr].
    destruct Hs as [-> _]. apply Hd.
  - eapply priv_ok_ext; [exact Hwf|exact Hwf'| |done|done].
    intros k. rewrite procs_upd_proc. destruct (decide (n = k)) as [<-|]; [|done].
    split_and!; [apply Hi|done|apply Hi].
Qed.

Lemma ipc_ok_upd_priv cpu id f st Q :
  pr_id (f (privs st id)) = pr_id (privs st id) ->
  (wf_bitmap (pr_notify_pending (privs st id)) NR_PRIV_PROCS ->
   wf_bitmap (pr_notify_pending (f (privs st id))) NR_PRIV_PROCS) ->
  (wf_bitmap (pr_async_pending (privs st id)) NR_PRIV_PROCS ->
   wf_bitmap (pr_async_pending (f (privs st id))) NR_PRIV_PROCS) ->
  ipc_ok cpu st Q -> ipc_ok cpu (upd_priv id f st) Q.
Proof.
  intros Hid Hn Ha [Hwf Hsch Hr Hpr].
  assert (ipc_wf (upd_priv id f st) Q) as Hwf' by (by apply (ipc_wf_procs st)).
  constructor; [done|by apply (sched_wf_ext cpu st)|done|].
  eapply priv_ok_ext; [exact Hwf|exact Hwf'|done| |done].
  intros k. cbn. unfold alter, fn_alter. by destruct (decide (id = k)) as [<-|].
Qed.

Lemma ipc_ok_unset cpu n pst st Q :
  Z.land pst PST_SENDING = 0 -> Z.land pst PST_FREE_SLOT = 0 ->
  ipc_ok cpu st Q -> ipc_ok cpu (PST_UNSET_LOCKED cpu n pst st) Q.
Proof.
  intros Hps Hpf [Hwf Hsch Hr Hpr].
  assert (ipc_wf (PST_UNSET_LOCKED cpu n pst st) Q) as Hwf' by (by apply ipc_wf_PST_UNSET).
  constructor; [done|by apply sched_wf_PST_UNSET|..].
  - intros k. unfold PST_IS_SET. rewrite procs_PST_UNSET.
    destruct (decide (n = k)) as [<-|]; [|apply Hr]. cbn. intros Hc%has_flag_clear_sub.
    by apply Hr.
  - eapply priv_ok_ext; [exact Hwf|exact Hwf'|..|done].
    + intros k. rewrite procs_PST_UNSET. case_decide; subst; cbn; by rewrite ?has_flag_clear_other.
    + intros id. by rewrite (proj2 (proj2 (env_PST_UNSET _ _ _ _))).
Qed.

Lemma ipc_ok_set_receiving cpu n st Q :
  live st n -> has_flag (p_flags (procs st n)) PF_DELIVER_MSG = false ->
  ipc_ok cpu st Q -> ipc_ok cpu (PST_SET_LOCKED cpu n PST_RECEIVING st) Q.
Proof.
  intros Hl Hd [Hwf Hsch Hr Hpr].
  assert (ipc_wf (PST_SET_LOCKED cpu n PST_RECEIVING st) Q) as Hwf' by (by apply ipc_wf_PST_SET).
  constructor; [done|by apply sched_wf_PST_SET|..].
  - intros k. unfold PST_IS_SET. rewrite procs_PST_SET.
    destruct (decide (n = k)) as [<-|]; [done|apply Hr].
  - eapply priv_ok_ext; [exact Hwf|exact Hwf'|..|done].
    + intros k. rewrite procs_PST_SET. case_decide; subst; cbn; by rewrite ?has_flag_set_other.
    + intros id. by rewrite (proj2 (proj2 (env_PST_SET _ _ _ _))).
Qed.

Lemma not_receiving_unset cpu n st :
  PST_IS_SET (PST_UNSET_LOCKED cpu n PST_RECEIVING st) n PST_RECEIVING = false.
Proof.
  unfold PST_IS_SET. rewrite procs_PST_UNSET, decide_True by done. cbn. by rewrite has_flag_clear_same.
Qed.

Lemma ipc_ok_recv_block cpu who src m flags st Q :
  live st who -> has_flag (p_flags (procs st who)) PF_DELIVER_MSG = false ->
  ipc_ok cpu st Q -> ipc_ok cpu (recv_block cpu who src m flags st) Q.
Proof.
  intros Hl Hd Hok. unfold recv_block. apply ipc_ok_upd; [by constructor| |].
  - intros _. rewrite procs_PST_SET, decide_True by done. cbn.
    case_cond; rewrite has_flag_set_other; done.
  - by apply ipc_ok_set_receiving.
Qed.

(** ** Pending notifications *)

Definition notify_pending st who id : Prop :=
  exists pid, p_priv (procs st who) = Some pid /\ 0 <= id < NR_PRIV_PROCS /\
              test_bit (pr_notify_pending (privs st pid)) id = true.

(** The notifications a receive from [src] is interested in. *)
Definition notify_from st who src id : Prop :=
  notify_pending st who id /\
  (src <> ANY -> exists s sid, endpt_proc st src = Some s /\ p_priv (procs st s) = Some sid /\
                               id = pr_id (privs st sid)).

Lemma find_next_bit_0 b :
  wf_bitmap b NR_PRIV_PROCS ->
  exists r, find_next_bit b NR_PRIV_PROCS 0 = Ret r /\ 0 <= r <= NR_PRIV_PROCS /\
    (forall i, 0 <= i < r -> test_bit b i = false) /\ (r < NR_PRIV_PROCS -> test_bit b r = true).
Proof.
  intros Hb. destruct (bitmap_find_next_bit_spec b NR_PRIV_PROCS 0) as (r & Hr & Hs); [done|done|].
  exists r. unfold find_next_bit. rewrite Hr. done.
Qed.

Lemma has_pending_notify_spec cpu st Q who src :
  ipc_ok cpu st Q -> live st who ->
  exists id, has_pending_notify st who src = Ret id /\
    (id = PRIV_ID_NULL -> forall i, ~ notify_from st who src i) /\
    (id <> PRIV_ID_NULL -> notify_from st who src id).
Proof.
  intros Hok Hl. destruct (ok_priv _ _ _ Hok _ _ (live_endpt _ _ Hl)) as (pid & Hpid & _ & Hb & _).
  unfold has_pending_notify, proc_priv, notify_from, notify_pending.
  destruct (Z.eqb_spec src ANY) as [->|Hany]; cbn [negb].
  - rewrite Hpid. cbn. destruct (find_next_bit_0 _ Hb) as (r & -> & Hr & Hlow & Hset). cbn.
    destruct (Z.leb_spec NR_PRIV_PROCS r) as [Hge|Hlt].
    + exists PRIV_ID_NULL. split; [done|]. split; [|done]. intros _ i [(q & Hq & Hi & Ht) _].
      simplify_eq. rewrite Hlow in Ht by lia. done.
    + exists r. split; [done|]. split; [unfold PRIV_ID_NULL; lia|]. intros _. split; [|done].
      exists pid. auto with lia.
  - destruct (endpt_proc st src) as [s|] eqn:Hs.
    2: { exists PRIV_ID_NULL. split; [done|]. split; [|done]. intros _ i [_ Hi].
         by destruct (Hi Hany) as (? & ? & ? & _). }
    destruct (ok_priv _ _ _ Hok _ _ Hs) as (sid & Hsid & Hrg & _). rewrite Hpid, Hsid. cbn.
    destruct (test_bit _ _) eqn:Ht.
    + exists (pr_id (privs st sid)). split; [done|]. split; [unfold PRIV_ID_NULL; lia|].
      intros _. split; [by exists pid|]. intros _. by exists s, sid.
    + exists PRIV_ID_NULL. split; [done|]. split; [|done]. intros _ i [(q & Hq & Hi & Hti) Hsrc].
      destruct (Hsrc Hany) as (s' & sid' & ? & ? & ->). simplify_eq. congruence.
Qed.

(** ** Delivery *)

(** A receiver is given a message and woken up. *)
Lemma ipc_ok_wake cpu n f st Q :
  unseen (procs st n) (f (procs st n)) ->
  ipc_ok cpu st Q -> ipc_ok cpu (PST_UNSET_LOCKED cpu n PST_RECEIVING (upd_proc n f st)) Q.
Proof.
  intros [Hi Hs Hp] [Hwf Hsch Hr Hpr].
  assert (ipc_wf (upd_proc n f st) Q) as Hwf1 by (apply ipc_wf_upd; [done|apply Hs|done]).
  assert (ipc_wf (PST_UNSET_LOCKED cpu n PST_RECEIVING (upd_proc n f st)) Q) as Hwf'
    by (by apply ipc_wf_PST_UNSET).
  constructor; [done|by apply sched_wf_PST_UNSET, sched_wf_upd_proc|..].
  - intros k. unfold PST_IS_SET. rewrite procs_PST_UNSET.
    destruct (decide (n = k)) as [<-|Hk]; cbn [p_state field_update].
    + cbn. by rewrite has_flag_clear_same.
    + rewrite procs_upd_proc_ne by done. apply Hr.
  - eapply priv_ok_ext; [exact Hwf|exact Hwf'|..|done].
    + intros k. rewrite procs_PST_UNSET. destruct (decide (n = k)) as [<-|Hk].
      * rewrite procs_upd_proc_eq. cbn. rewrite has_flag_clear_other by done.
        split_and!; [apply Hi|done|apply Hi].
      * by rewrite procs_upd_proc_ne.
    + intros id. by rewrite (proj2 (proj2 (env_PST_UNSET _ _ _ _))).
Qed.

(** What is in a notification: its source, and for the kernel's own sources the
    pending interrupts, the pending signals or the time. *)
Definition notification st dest src (msg : MESSAGE) : Prop :=
  m_source msg = src /\ m_type msg = NOTIFY_MSG /\
  (forall pid, p_priv (procs st dest) = Some pid ->
     (src = INTERRUPT -> m3l1 (m_u msg) = pr_int_pending (privs st pid)) /\
     (src = SYSTEM -> m3i1 (m_u msg) = wraps 32 (pr_sig_pending (privs st pid)))) /\
  (src = CLOCK -> m3l1 (m_u msg) = wrapu 64 (jiffies st)).

Lemma set_notify_msg_spec cpu st Q dest src pid :
  ipc_ok cpu st Q -> p_priv (procs st dest) = Some pid ->
  exists st' msg, set_notify_msg dest src st = Ret (st', msg) /\ ipc_ok cpu st' Q /\
    notification st dest src msg /\ procs st' = procs st /\
    forall id, pr_notify_pending (privs st' id) = pr_notify_pending (privs st id).
Proof.
  intros Hok Hpid. unfold set_notify_msg, proc_priv. rewrite Hpid. cbn.
  assert (forall f, (forall r, pr_id (f r) = pr_id r) ->
            (forall r, pr_notify_pending (f r) = pr_notify_pending r) ->
            (forall r, pr_async_pending (f r) = pr_async_pending r) ->
            ipc_ok cpu (upd_priv pid f st) Q /\
            forall id, pr_notify_pending (privs (upd_priv pid f st) id) =
                       pr_notify_pending (privs st id)) as Hupd.
  { intros f H1 H2 H3. split; [by apply ipc_ok_upd_priv; rewrite ?H1, ?H2, ?H3|].
    intros id. cbn. unfold alter, fn_alter. destruct (decide (pid = id)) as [<-|]; [apply H2|done]. }
  unfold notification. rewrite Hpid.
  destruct (Z.eqb_spec src INTERRUPT) as [->|H1].
  { destruct (Hupd (fun r => r <| pr_int_pending := 0 |>)) as [Ho Hn]; [done..|].
    do 2 eexists. split; [reflexivity|]. split; [exact Ho|]. split; [|done].
    split_and!; try done. by intros pid' [= <-]. }
  destruct (Z.eqb_spec src SYSTEM) as [->|H2].
  { destruct (Hupd (fun r => r <| pr_sig_pending := 0 |>)) as [Ho Hn]; [done..|].
    do 2 eexists. split; [reflexivity|]. split; [exact Ho|]. split; [|done].
    split_and!; try done. by intros pid' [= <-]. }
  destruct (Z.eqb_spec src CLOCK) as [->|H3];
    (do 2 eexists; split; [reflexivity|]; split; [exact Hok|]; split; [|done]; by split_and!).
Qed.

(** A message sits in the entry of [n], to be copied out before it runs again. *)
Definition has_message st n (msg : MESSAGE) : Prop :=
  p_deliver_msg (procs st n) = msg /\
  has_flag (p_flags (procs st n)) PF_DELIVER_MSG = true /\
  PST_IS_SET st n PST_RECEIVING = false.

Lemma notify_bit_unset st who id pid j :
  p_priv (procs st who) = Some pid -> wf_bitmap (pr_notify_pending (privs st pid)) NR_PRIV_PROCS ->
  0 <= id < NR_PRIV_PROCS ->
  forall st', p_priv (procs st' who) = Some pid ->
  pr_notify_pending (privs st' pid) = UNSET_BIT (pr_notify_pending (privs st pid)) id ->
  notify_pending st' who j <-> notify_pending st who j /\ j <> id.
Proof.
  intros Hp Hb Hid st' Hp' Hb'. unfold notify_pending. rewrite Hp, Hp'. split.
  - intros (q & [= <-] & Hj & Ht). rewrite Hb' in Ht.
    rewrite (test_bit_UNSET_BIT _ NR_PRIV_PROCS) in Ht by (done || lia).
    case_decide; [done|]. split; [by exists pid|done].
  - intros [(q & [= <-] & Hj & Ht) Hne]. exists pid. rewrite Hb'.
    rewrite (test_bit_UNSET_BIT _ NR_PRIV_PROCS), decide_False by (done || lia). done.
Qed.

Lemma recv_notification_spec cpu st Q who id m :
  ipc_ok cpu st Q -> live st who -> notify_pending st who id ->
  exists st' msg, recv_notification cpu who id m st = Ret st' /\ ipc_ok cpu st' Q /\
    notification st who (p_endpoint (procs st (pr_proc_nr (privs st id)))) msg /\
    has_message st' who msg /\ p_recv_msg (procs st' who) = m /\
    forall j, notify_pending st' who j <-> notify_pending st who j /\ j <> id.
Proof.
  intros Hok Hl (pid & Hpid & Hid & Hbit).
  destruct (ok_priv _ _ _ Hok _ _ (live_endpt _ _ Hl)) as (pid' & Hp' & _ & Hb & _).
  assert (pid' = pid) as -> by congruence.
  unfold recv_notification.
  destruct (set_notify_msg_spec cpu st Q who (p_endpoint (procs st (pr_proc_nr (privs st id)))) pid)
    as (st1 & msg & -> & Hok1 & Hmsg & Hprocs & Hnp); [done..|].
  rewrite res_ret_bind. cbv beta iota zeta. unfold unset_notify_pending, proc_priv.
  assert (p_priv (procs (upd_proc who (fun p => p <| p_deliver_msg := msg |>) st1) who) = Some pid)
    as -> by (rewrite procs_upd_proc_eq, Hprocs; done).
  cbn [deref]. rewrite !res_ret_bind. eexists _, msg. split; [reflexivity|].
  set (st2 := upd_proc who _ st1). set (st3 := upd_priv pid _ st2).
  set (st4 := PST_UNSET_LOCKED cpu who PST_RECEIVING (upd_proc who _ st3)).
  assert (ipc_ok cpu st4 Q) as Hok4.
  { apply ipc_ok_wake; [done|]. apply ipc_ok_upd_priv; [done|by apply wf_UNSET_BIT|done|].
    apply ipc_ok_upd; [done| |done]. apply (ok_recv _ _ _ Hok1). }
  assert (procs st4 who = (procs st who) <| p_deliver_msg := msg |> <| p_recv_msg := m |>
            <| p_flags ::= fun f => set_flag f PF_DELIVER_MSG |>
            <| p_state ::= fun s => clear_flag s PST_RECEIVING |>) as He.
  { unfold st4. rewrite procs_PST_UNSET, decide_True, procs_upd_proc_eq by done.
    change (procs st3 who) with (procs st2 who). unfold st2.
    by rewrite procs_upd_proc_eq, Hprocs. }
  assert (PST_IS_SET st4 who PST_RECEIVING = false) as Hnr by apply not_receiving_unset.
  set (f := fun p => p <| p_flags ::= _ |>). split_and!; [|done|..].
  - apply ipc_ok_upd; [done|by rewrite Hnr|done].
  - unfold has_message, PST_IS_SET. rewrite procs_upd_proc_eq, He. cbn. split_and!; [done| |].
    + rewrite has_flag_clear_other by done. by apply has_flag_set_same.
    + by rewrite has_flag_clear_same.
  - by rewrite procs_upd_proc_eq, He.
  - intros j. apply notify_bit_unset with pid; try done.
    + by rewrite procs_upd_proc_eq, He.
    + change (privs (upd_proc who f st4)) with (privs st4). unfold st4.
      rewrite (proj2 (proj2 (env_PST_UNSET _ _ _ _))). cbn.
      rewrite fn_lookup_alter. cbn. by rewrite Hnp.
Qed.

(** ** Notifying *)

Lemma msg_notify_spec cpu st Q sender dest :
  ipc_ok cpu st Q -> live st sender ->
  exists st' r, msg_notify cpu sender dest st = Ret (st', r) /\ ipc_ok cpu st' Q /\
    match endpt_proc st dest with
    | None => r = EINVAL /\ st' = st
    | Some p => r = 0 /\
        ((waits_for_msg st p (p_endpoint (procs st sender)) = true /\
          exists msg, notification st p (p_endpoint (procs st sender)) msg /\
                      has_message st' p msg) \/
         (waits_for_msg st p (p_endpoint (procs st sender)) = false /\
          exists sid, p_priv (procs st sender) = Some sid /\
                      notify_pending st' p (pr_id (privs st sid))))
    end.
Proof.
  intros Hok Hl. unfold msg_notify. destruct (endpt_proc st dest) as [p|] eqn:Hp.
  2: { by exists st, EINVAL. }
  destruct (ok_priv _ _ _ Hok _ _ Hp) as (pid & Hpid & _ & Hb & _).
  destruct (waits_for_msg st p _) eqn:Hw.
  - destruct (set_notify_msg_spec cpu st Q p (p_endpoint (procs st sender)) pid)
      as (st1 & msg & -> & Hok1 & Hmsg & Hprocs & _); [done..|].
    rewrite res_ret_bind. cbv beta iota zeta. do 2 eexists. split; [reflexivity|]. split.
    + by apply ipc_ok_wake.
    + split; [done|]. left. split; [done|]. exists msg. split; [done|].
      unfold has_message. split_and!; [..|apply not_receiving_unset];
        rewrite procs_PST_UNSET, decide_True, procs_upd_proc_eq, Hprocs by done; cbn; [done|].
      rewrite has_flag_clear_other by done. by apply has_flag_set_same.
  - destruct (ok_priv _ _ _ Hok _ _ (live_endpt _ _ Hl)) as (sid & Hsid & Hrg & _).
    unfold proc_priv. rewrite Hpid, Hsid. cbn [deref]. rewrite !res_ret_bind.
    do 2 eexists. split; [reflexivity|]. split.
    + apply ipc_ok_upd_priv; [done|by apply wf_SET_BIT|done|done].
    + split; [done|]. right. split; [done|]. exists sid. split; [done|]. exists pid. split; [done|]. split; [done|].
      cbn. rewrite fn_lookup_alter. cbn.
      by rewrite (test_bit_SET_BIT _ NR_PRIV_PROCS), decide_True by (done || lia).
Qed.
End frame.

Section receive.
Context {mem : Type} `{!UserMemory mem}.
Implicit Types st : kstate mem.

(** A process that may receive: it runs, so it neither waits nor has a message
    to be delivered. *)
Record can_receive st who : Prop := {
  cr_live : live st who;
  cr_int : who <> INTERRUPT;
  cr_receiving : PST_IS_SET st who PST_RECEIVING = false;
  cr_deliver : has_flag (p_flags (procs st who)) PF_DELIVER_MSG = false
}.

(** What looking for a sender ends in; [retval] is the value the search was
    entered with. *)
Inductive queue_outcome cpu st Q who src m flags retval
  : kstate mem -> (Z -> list Z) -> Z -> Prop :=
| qo_invalid :
    src <> ANY -> endpt_proc st src = None ->
    queue_outcome cpu st Q who src m flags retval st Q EINVAL
| qo_taken from l1 l2 st' :
    Q who = l1 ++ from :: l2 ->
    (if decide (src = ANY) then l1 = [] else endpt_proc st src = Some from) ->
    received st st' who from m ->
    queue_outcome cpu st Q who src m flags retval st' (<[who := l1 ++ l2]> Q) retval
| qo_blocked :
    (if decide (src = ANY) then Q who = []
     else exists from, endpt_proc st src = Some from /\ from ∉ Q who) ->
    queue_outcome cpu st Q who src m flags retval (recv_block cpu who src m flags st) Q retval.

Lemma recv_from_sender_spec cpu st Q who src m flags retval :
  ipc_ok cpu st Q -> can_receive st who -> ~ sending st who -> m <> 0 ->
  exists st' Q' r, recv_from_sender cpu who src m flags retval st = Ret (st', r) /\
    ipc_ok cpu st' Q' /\ queue_outcome cpu st Q who src m flags retval st' Q' r.
Proof.
  intros Hok [Hl Hi Hnr Hnd] Hns Hm. pose proof (ok_ipc _ _ _ Hok) as Hwf.
  pose proof (endpt_proc_valid _ _ _ (live_endpt _ _ Hl)) as Hv.
  pose proof (iw_chain _ _ Hwf who Hv) as Hc.
  unfold recv_from_sender. destruct (Z.eqb_spec src ANY) as [->|Hany].
  - destruct (Q who) as [|from l2] eqn:HQ; cbn in Hc.
    + rewrite Hc. eexists _, Q, retval. split; [done|]. split; [by apply ipc_ok_recv_block|].
      by apply qo_blocked.
    + destruct Hc as [-> _].
      destruct (take_message_spec cpu st Q who from m [] l2) as (st' & Ht & Hok' & Hr); [done..|].
      cbn [last] in Ht. rewrite Ht, res_ret_bind. do 3 eexists. split; [done|].
      split; [exact Hok'|]. by apply qo_taken with from.
  - destruct (endpt_proc st src) as [from|] eqn:Hsrc.
    2: { exists st, Q, EINVAL. split_and!; [done..|]. by apply qo_invalid. }
    destruct (_ && _) eqn:Hcond.
    + apply andb_true_iff in Hcond as [Hs Hto]. apply Z.eqb_eq in Hto.
      destruct (find_in_queue st Q who src from) as (l1 & l2 & HQ & Hfind); [done..|].
      destruct (take_message_spec cpu st Q who from m l1 l2) as (st' & Ht & Hok' & Hr); [done..|].
      destruct (p_q_sending (procs st who)) as [q|] eqn:Hq.
      2: { rewrite HQ in Hc. by destruct l1, Hc. }
      rewrite Hfind, res_ret_bind. cbv beta iota zeta. change (default from (Some from)) with from.
      rewrite Ht, res_ret_bind. do 3 eexists. split; [done|]. split; [exact Hok'|].
      apply qo_taken with from; [done| |done]. by rewrite decide_False.
    + eexists _, Q, retval. split; [done|]. split; [by apply ipc_ok_recv_block|].
      apply qo_blocked. rewrite decide_False by done. exists from. split; [done|].
      intros Hin. destruct (iw_mem _ _ Hwf who from Hv Hin) as [_ [Hs Ht]].
      apply target_endpoint in Ht; [|done]. unfold sending in Hs.
      by rewrite Hs, Ht, Z.eqb_refl in Hcond.
Qed.

(** What [msg_receive] without asynchronous messages ends in. *)
Inductive recv_outcome cpu st Q who src m flags
  : kstate mem -> (Z -> list Z) -> Z -> Prop :=
| ro_sending :
    sending st who ->
    recv_outcome cpu st Q who src m flags (recv_block cpu who src m flags st) Q 0
| ro_notified id st' msg :
    ~ sending st who -> notify_from st who src id ->
    notification st who (p_endpoint (procs st (pr_proc_nr (privs st id)))) msg ->
    has_message st' who msg -> p_recv_msg (procs st' who) = m ->
    (forall j, notify_pending st' who j <-> notify_pending st who j /\ j <> id) ->
    recv_outcome cpu st Q who src m flags st' Q 0
| ro_queue st' Q' r :
    ~ sending st who -> (forall id, ~ notify_from st who src id) ->
    queue_outcome cpu st Q who src m flags 0 st' Q' r ->
    recv_outcome cpu st Q who src m flags st' Q' r.

Lemma msg_receive_spec cpu st Q who src m flags :
  ipc_ok cpu st Q -> can_receive st who -> has_flag flags IPCF_ASYNC = false -> m <> 0 ->
  exists st' Q' r, msg_receive cpu who src m flags st = Ret (st', r) /\
    ipc_ok cpu st' Q' /\ recv_outcome cpu st Q who src m flags st' Q' r.
Proof.
  intros Hok Hcr Hfl Hm. unfold msg_receive. destruct (PST_IS_SET st who PST_SENDING) eqn:Hs.
  { do 3 eexists. split; [done|]. split; [|by apply ro_sending].
    apply ipc_ok_recv_block; [apply Hcr..|done]. }
  assert (~ sending st who) as Hns by (unfold sending; congruence).
  destruct (has_pending_notify_spec cpu st Q who src) as (id & -> & Hnull & Hsome);
    [done|apply Hcr|].
  rewrite res_ret_bind, Hfl. destruct (Z.eqb_spec id PRIV_ID_NULL) as [Hid|Hid]; cbn [negb].
  - destruct (recv_from_sender_spec cpu st Q who src m flags 0) as (st' & Q' & r & Hr & Hok' & Ho);
      [done..|].
    exists st', Q', r. split_and!; [done..|]. apply ro_queue; auto.
  - destruct (recv_notification_spec cpu st Q who id m)
      as (st' & msg & -> & Hok' & Hmsg & Hhas & Haddr & Hj); [done|apply Hcr|by apply Hsome|].
    rewrite res_ret_bind. exists st', Q, 0. split_and!; [done..|].
    eapply ro_notified; eauto.
Qed.
End receive.

(** ** Asynchronous sends *)

Section senda.
Context {mem : Type} `{!UserMemory mem}.
Implicit Types st : kstate mem.

Lemma ipc_ok_kmem cpu m st Q : ipc_ok cpu st Q -> ipc_ok cpu (st <| kmem := m |>) Q.
Proof.
  intros [Hwf Hsch Hr Hp]. assert (ipc_wf (st <| kmem := m |>) Q) as Hwf' by (by apply (ipc_wf_procs st)).
  constructor; [done|by apply (sched_wf_ext cpu st)|done|].
  by eapply priv_ok_ext; [exact Hwf|exact Hwf'|..].
Qed.

Lemma ipc_ok_write_amsg cpu ep a amsg st Q :
  ipc_ok cpu st Q -> ipc_ok cpu (fst (write_amsg st ep a amsg)) Q.
Proof.
  intros Hok. unfold write_amsg. destruct (endpt_proc st ep); [|done].
  destruct (um_write_amsg _ _ _ _); [|done]. by apply ipc_ok_kmem.
Qed.

Lemma procs_write_amsg ep a amsg st : procs (fst (write_amsg st ep a amsg)) = procs st.
Proof.
  unfold write_amsg. destruct (endpt_proc st ep); [|done]. by destruct (um_write_amsg _ _ _ _).
Qed.

Lemma ipc_ok_deliver_async cpu sender p amsg st Q :
  ipc_ok cpu st Q -> ipc_ok cpu (deliver_async cpu sender p amsg st) Q.
Proof. intros Hok. unfold deliver_async. by apply ipc_ok_wake. Qed.

(** An entry keeps what the caller and its privileges are. *)
Lemma senda_entry_spec cpu st Q sender table i done :
  ipc_ok cpu st Q -> live st sender ->
  exists st' d, senda_entry cpu sender table i done st = Ret (st', d) /\
    ipc_ok cpu st' Q /\ live st' sender.
Proof.
  intros Hok Hl. unfold senda_entry.
  destruct (ok_priv _ _ _ Hok _ _ (live_endpt _ _ Hl)) as (sid & Hsid & _).
  destruct (read_amsg _ _ _) as [amsg|]; [|by do 2 eexists].
  assert (forall st1 a x, ipc_ok cpu st1 Q -> live st1 sender ->
            exists st' d, (let '(st, _) := write_amsg st1 (p_endpoint (procs st sender)) a x in
                           Ret (st, done)) = Ret (st', d) /\ ipc_ok cpu st' Q /\ live st' sender) as Hw.
  { intros st1 a x Hok1 Hl1. pose proof (ipc_ok_write_amsg cpu (p_endpoint (procs st sender)) a x st1 Q Hok1).
    pose proof (procs_write_amsg (p_endpoint (procs st sender)) a x st1) as Hpr.
    destruct (write_amsg st1 _ a x) as [st2 r]. cbn in *. exists st2, done. split; [done|].
    split; [done|]. unfold live. by rewrite Hpr. }
  do 2 (case_cond; [by do 2 eexists|]). case_cond; [by apply Hw|].
  destruct (endpt_proc st (am_dest amsg)) as [p|] eqn:Hp; [|by apply Hw].
  case_cond.
  - apply Hw; [by apply ipc_ok_deliver_async|].
    apply (live_ext st); [..|apply (ipc_wf_free _ Q), Hok|done]; unfold deliver_async;
      rewrite procs_PST_UNSET, !procs_upd_proc; repeat case_decide; subst; try done.
    all: cbn; by rewrite has_flag_clear_other.
  - destruct (ok_priv _ _ _ Hok _ _ Hp) as (pid & Hpid & _ & _ & Hb). unfold proc_priv.
    rewrite Hpid, Hsid. cbn [deref]. rewrite !res_ret_bind. do 2 eexists. split; [reflexivity|].
    split; [|done]. apply ipc_ok_upd_priv; [done|done|by apply wf_SET_BIT|done].
Qed.

Lemma senda_loop_spec cpu st Q sender table n i done :
  ipc_ok cpu st Q -> live st sender ->
  exists st' d, senda_loop n cpu sender table i done st = Ret (st', d) /\
    ipc_ok cpu st' Q /\ live st' sender.
Proof.
  revert st i done. induction n as [|n IH]; intros st i done Hok Hl; cbn [senda_loop].
  { by do 2 eexists. }
  destruct (senda_entry_spec cpu st Q sender table i done) as (st1 & d & -> & Hok1 & Hl1); [done..|].
  rewrite res_ret_bind. by apply IH.
Qed.

Lemma msg_senda_spec cpu st Q sender table len :
  ipc_ok cpu st Q -> live st sender ->
  exists st' r, msg_senda cpu sender table len st = Ret (st', r) /\ ipc_ok cpu st' Q /\
    (r = 0 \/ r = EPERM).
Proof.
  intros Hok Hl. unfold msg_senda, proc_priv.
  destruct (ok_priv _ _ _ Hok _ _ (live_endpt _ _ Hl)) as (sid & -> & _). cbn [deref].
  rewrite res_ret_bind. case_cond; [by do 2 eexists; split_and!; [done|done|right]|].
  set (st1 := upd_priv sid _ st).
  assert (ipc_ok cpu st1 Q) as Hok1 by (by apply ipc_ok_upd_priv).
  case_cond; [by do 2 eexists; split_and!; [done|done|left]|].
  destruct (senda_loop_spec cpu st1 Q sender table (Z.to_nat len) 0 true)
    as (st2 & d & -> & Hok2 & _); [done..|].
  rewrite res_ret_bind. cbv beta iota zeta.
  case_cond; do 2 eexists; split_and!; try reflexivity; auto. by apply ipc_ok_upd_priv.
Qed.
End senda.
