(* ===== verification/IpcProps.v ===== *)
(** * Properties of message passing

    The system call [sys_sendrec] keeps the invariants of files IpcInv and
    Rendezvous whatever sequence of calls the processes make; the mailbox
    reading of sends and receives; and inputs on which the code of
    kernel/proc.c loses a process or stops the machine. *)

From S2P Require Import Prelude Bitmap Kernel Sched Ipc IpcInv Rendezvous Receive.

Section call.
Context {mem : Type} `{!UserMemory mem}.
Implicit Types st : kstate mem.

(** ** The system call *)

Lemma not_self st p ep :
  p <> INTERRUPT -> p_endpoint (procs st p) <> ep -> endpt_proc st ep <> Some p.
Proof. intros Hi Hne [[_ ->]|(_ & _ & ?)]%endpt_proc_Some; done. Qed.

Lemma send_can_receive cpu st Q sender dest msg flags st' Q' r :
  send_outcome cpu st Q sender dest msg flags st' Q' r ->
  free_ok (p_state (procs st sender)) -> endpt_proc st dest <> Some sender ->
  can_receive st sender -> can_receive st' sender.
Proof.
  intros Ho Hf Hself [Hl Hi Hr Hd].
  destruct Ho as [Hp|p Hp _|p Hp _ Hw|p Hp _ Hw Hnb|p st' Hp _ Hw Hnb Hlink _]; try done.
  - assert (p <> sender) by congruence. unfold hand_over.
    constructor; [|done|..]; unfold live, PST_IS_SET; table.
  - destruct (same_but_links_fields _ _ (Hlink sender)) as (_ & Hs & He & _ & _ & _ & Hfl & _).
    rewrite procs_blocked_sender, decide_True in Hs, He, Hfl by done. cbn in Hs, He, Hfl.
    constructor; [|done|..].
    + apply (live_ext st); [done| |done|done]. rewrite Hs. by apply has_flag_set_other.
    + unfold PST_IS_SET. rewrite Hs. by rewrite has_flag_set_other.
    + by rewrite Hfl.
Qed.

(** A process in user mode that makes the call: it runs, and the buffer it
    passes is mapped. *)
Record caller_ok cpu st (m : MESSAGE) p : Prop := {
  co_receive : can_receive st p;
  co_sending : ~ sending st p;
  co_buffer : m3p1 (m_u m) <> 0;
  co_mapped : exists msg, um_read_msg (kmem st) (pt_proc st cpu) (m3p1 (m_u m)) = Some msg
}.

Lemma sys_sendrec_spec cpu st Q m p :
  ipc_ok cpu st Q -> caller_ok cpu st m p -> m3i1 (m_u m) <> RECEIVE_ASYNC ->
  exists st' Q' r, sys_sendrec cpu m p st = Ret (st', r) /\ ipc_ok cpu st' Q'.
Proof.
  intros Hok [Hcr Hns Hm [msg Hmap]] Hfn. pose proof Hcr as [Hl Hi Hr Hd].
  unfold sys_sendrec. cbv zeta.
  destruct (negb (m3i1 (m_u m) =? SEND_ASYNC) && _) eqn:Hchk; [by exists st, Q, EINVAL|].
  assert (m3i1 (m_u m) <> SEND_ASYNC -> endpt_proc st (m3i2 (m_u m)) <> Some p) as Hself.
  { intros Hf. apply not_self; [done|]. rewrite (proj2 (Z.eqb_neq _ _)) in Hchk by done. cbn in Hchk.
    apply orb_false_iff in Hchk as [_ Hc]. by apply Z.eqb_neq. }
  assert (forall flags, m3i1 (m_u m) <> SEND_ASYNC ->
    exists st' Q' r, msg_send cpu p (m3i2 (m_u m)) (UPtr (m3p1 (m_u m))) flags st = Ret (st', r) /\
      ipc_ok cpu st' Q' /\ send_outcome cpu st Q p (m3i2 (m_u m)) msg flags st' Q' r) as Hsend.
  { intros flags Hf. apply msg_send_spec; auto. }
  assert (forall st1 Q1, ipc_ok cpu st1 Q1 -> can_receive st1 p ->
    exists st' Q' r, msg_receive cpu p (m3i2 (m_u m)) (m3p1 (m_u m)) 0 st1 = Ret (st', r) /\
      ipc_ok cpu st' Q') as Hrecv.
  { intros st1 Q1 Hok1 Hcr1.
    destruct (msg_receive_spec cpu st1 Q1 p (m3i2 (m_u m)) (m3p1 (m_u m)) 0)
      as (st' & Q' & r & He & Hok' & _); [done..|]. eauto. }
  destruct ((m3i1 (m_u m) =? BOTH) || (m3i1 (m_u m) =? SEND))%bool eqn:Hboth.
  { assert (m3i1 (m_u m) <> SEND_ASYNC) as Hf.
    { intros Hf. rewrite Hf in Hboth. done. }
    destruct (Hsend 0 Hf) as (st1 & Q1 & r & -> & Hok1 & Ho). rewrite res_ret_bind.
    case_cond; [by exists st1, Q1, r|]. apply (Hrecv _ Q1); [done|].
    eapply send_can_receive; [exact Ho| |by apply Hself|done]. by eapply ipc_wf_free, Hok. }
  case_cond; [by apply (Hrecv st Q)|].
  destruct (Z.eqb_spec (m3i1 (m_u m)) SEND_NONBLOCK) as [Hf|_].
  { destruct (Hsend IPCF_NONBLOCK) as (st1 & Q1 & r & -> & Hok1 & _); [by rewrite Hf|]. eauto. }
  case_cond.
  { destruct (msg_senda_spec cpu st Q p (m3p1 (m_u m)) (wrapu 64 (m3i2 (m_u m))))
      as (st1 & r & -> & Hok1 & _); [done..|]. eauto. }
  rewrite (proj2 (Z.eqb_neq _ _)) by done. case_cond; [|by exists st, Q, EINVAL].
  destruct (msg_notify_spec cpu st Q p (m3i2 (m_u m))) as (st1 & r & -> & Hok1 & _); [done..|]. eauto.
Qed.

(** ** Sequences of calls *)

(** One call of one process. *)
Inductive ipc_step cpu : kstate mem -> kstate mem -> Prop :=
| ipc_call st p m st' r :
    caller_ok cpu st m p -> m3i1 (m_u m) <> RECEIVE_ASYNC ->
    sys_sendrec cpu m p st = Ret (st', r) -> ipc_step cpu st st'.

Lemma ipc_reachable_ok cpu st st' Q :
  ipc_ok cpu st Q -> rtc (ipc_step cpu) st st' -> exists Q', ipc_ok cpu st' Q'.
Proof.
  intros Hok Hrtc. revert Q Hok. induction Hrtc as [st|st st1 st2 Hstep _ IH]; intros Q Hok; [by exists Q|].
  destruct Hstep as [st p m st1 r Hc Hf He].
  destruct (sys_sendrec_spec cpu st Q m p) as (st' & Q' & r' & He' & Hok'); [done..|].
  rewrite He in He'. simplify_eq. by apply (IH Q').
Qed.

(** ** Mailboxes *)

(** The mailbox of [p]: the processes blocked sending to it, each with its
    message, in the order they came. *)
Definition mailbox st (Q : Z -> list Z) (p : Z) : list (Z * MESSAGE) :=
  (fun q => (q, p_send_msg (procs st q))) <$> Q p.

Definition stamped st sender (msg : MESSAGE) : MESSAGE :=
  msg <| m_source := p_endpoint (procs st sender) |>.

Lemma mailbox_ext st st' Q p :
  (forall q, q ∈ Q p -> p_send_msg (procs st' q) = p_send_msg (procs st q)) ->
  mailbox st' Q p = mailbox st Q p.
Proof. intros H. apply list_fmap_ext. intros i q Hq. rewrite H; [done|]. by eapply list_elem_of_lookup_2. Qed.

Lemma send_mailbox cpu st Q sender dest msg flags st' Q' :
  ipc_wf st Q -> ~ sending st sender ->
  send_outcome cpu st Q sender dest msg flags st' Q' 0 ->
  exists p, endpt_proc st dest = Some p /\
    ((waits_for_msg st p (p_endpoint (procs st sender)) = true /\
      has_message st' p (stamped st sender msg) /\
      forall n, valid_nr n -> mailbox st' Q' n = mailbox st Q n) \/
     (waits_for_msg st p (p_endpoint (procs st sender)) = false /\ sending st' sender /\
      forall n, valid_nr n -> mailbox st' Q' n =
        if decide (n = p) then mailbox st Q p ++ [(sender, stamped st sender msg)]
        else mailbox st Q n)).
Proof.
  intros Hwf Hns Ho. inversion Ho as [|p Hp|p Hp Htc Hw|p Hp|p st1 Hp Htc Hw Hnb Hl _]; subst.
  - exists p. split; [done|]. left. split; [done|]. split.
    + unfold has_message, PST_IS_SET. rewrite procs_hand_over, decide_True by done.
      split_and!; [done|..]; cbn.
      * rewrite has_flag_clear_other by done. by apply has_flag_set_same.
      * by rewrite has_flag_clear_same.
    + intros n Hn. apply mailbox_ext. intros q _. rewrite procs_hand_over. by case_decide; subst.
  - exists p. split; [done|]. right. split; [done|].
    assert (forall q, p_send_msg (procs st' q) =
              if decide (sender = q) then stamped st sender msg else p_send_msg (procs st q)) as Hm.
    { intros q. destruct (same_but_links_fields _ _ (Hl q)) as (_ & _ & _ & _ & -> & _).
      rewrite procs_blocked_sender. by case_decide; subst. }
    split.
    + unfold sending, PST_IS_SET.
      destruct (same_but_links_fields _ _ (Hl sender)) as (_ & -> & _).
      rewrite procs_blocked_sender, decide_True by done. by apply has_flag_set_same.
    + intros n Hn. assert (mailbox st' Q n = mailbox st Q n) as Hold.
      { apply mailbox_ext. intros q Hq. rewrite Hm, decide_False; [done|]. intros <-.
        by destruct (iw_mem _ _ Hwf n sender Hn Hq) as [_ []]. }
      destruct (decide (n = p)) as [->|Hne].
      * unfold mailbox. rewrite fn_lookup_insert, fmap_app. unfold mailbox in Hold. rewrite Hold.
        do 2 f_equal. cbn. by rewrite Hm, decide_True.
      * unfold mailbox. by rewrite fn_lookup_insert_ne.
Qed.

Lemma take_mailbox st st' Q who from m l1 l2 :
  ipc_wf st Q -> valid_nr who -> Q who = l1 ++ from :: l2 -> received st st' who from m ->
  exists msg mb1 mb2,
    mailbox st Q who = mb1 ++ (from, msg) :: mb2 /\ (l1 = [] -> mb1 = []) /\
    p_deliver_msg (procs st' who) = msg /\ ~ sending st' from /\
    forall n, valid_nr n -> mailbox st' (<[who := l1 ++ l2]> Q) n =
      if decide (n = who) then mb1 ++ mb2 else mailbox st Q n.
Proof.
  intros Hwf Hv HQ [Hd Ha Hf Hst Hm].
  exists (p_send_msg (procs st from)), ((fun q => (q, p_send_msg (procs st q))) <$> l1),
    ((fun q => (q, p_send_msg (procs st q))) <$> l2).
  split; [unfold mailbox; by rewrite HQ, fmap_app|]. split; [by intros ->|]. split; [done|]. split.
  { unfold sending, PST_IS_SET. rewrite Hst, decide_True by done. by rewrite has_flag_clear_same. }
  pose proof (iw_nodup _ _ Hwf who Hv) as Hnd. rewrite HQ in Hnd. apply NoDup_middle in Hnd as [Hnf _].
  intros n Hn. destruct (decide (n = who)) as [->|Hne].
  - unfold mailbox. rewrite fn_lookup_insert, <- fmap_app. apply list_fmap_ext.
    intros i q Hq%list_elem_of_lookup_2. rewrite Hm; [done|]. by intros ->.
  - unfold mailbox. rewrite fn_lookup_insert_ne by done. apply (mailbox_ext st st' Q n).
    intros q Hq. apply Hm. intros ->. apply Hne.
    apply (waits_det st from); apply (iw_mem _ _ Hwf); try done. rewrite HQ. member.
Qed.

(** ** A message through the queue *)

Lemma not_waits st p s : ~ sending st p -> ~ tc (waits st) p s.
Proof. intros Hns Ht. destruct Ht as [x y [Hs _]|x y z [Hs _]]; done. Qed.

Lemma roundtrip_spec cpu st Q sender p m msg a :
  ipc_ok cpu st Q -> live st sender -> sender <> INTERRUPT -> ~ sending st sender ->
  can_receive st p -> ~ sending st p -> p <> sender -> Q p = [] ->
  (forall id, ~ notify_pending st p id) ->
  copy_user_message cpu st m = Some msg -> a <> 0 ->
  exists st1 st2,
    msg_send cpu sender (p_endpoint (procs st p)) m 0 st = Ret (st1, 0) /\
    sending st1 sender /\
    msg_receive cpu p ANY a 0 st1 = Ret (st2, 0) /\
    p_deliver_msg (procs st2 p) = stamped st sender msg /\ p_recv_msg (procs st2 p) = a /\
    p_state (procs st2 sender) = p_state (procs st sender).
Proof.
  intros Hok Hl Hi Hns Hcr Hpns Hne HQ Hno Hm Ha.
  pose proof (live_endpt _ _ (cr_live _ _ Hcr)) as Hp.
  destruct (msg_send_spec cpu st Q sender (p_endpoint (procs st p)) m 0 msg)
    as (st1 & Q1 & r & Hsend & Hok1 & Ho); [done..|congruence|done|].
  assert (waits_for_msg st p (p_endpoint (procs st sender)) = false) as Hw.
  { unfold waits_for_msg. by rewrite (cr_receiving _ _ Hcr), andb_false_r. }
  inversion Ho as [|q Hq Htc|q Hq Htc Hw'|q Hq Htc Hw' Hnb|q st' Hq Htc Hw' Hnb Hlk Hpv]; subst;
    try (rewrite Hp in *; simplify_eq; congruence).
  { rewrite Hp in Hq. simplify_eq. by apply not_waits in Htc. }
  rewrite Hp in Hq. simplify_eq. exists st1.
  assert (forall n, n <> sender -> procs (blocked_sender cpu sender (p_endpoint (procs st q)) msg st) n
                    = procs st n) as Hoth.
  { intros n Hn. by rewrite procs_blocked_sender, decide_False. }
  destruct (same_but_links_fields _ _ (Hlk q)) as (_ & Hs & He & _ & _ & _ & Hf & Hpr).
  rewrite Hoth in Hs, He, Hf, Hpr by done.
  assert (can_receive st1 q) as Hcr1.
  { destruct Hcr as [Hql Hqi Hqr Hqd].
    constructor; [|done|unfold PST_IS_SET; by rewrite Hs|by rewrite Hf].
    unfold live in *. by rewrite Hs, He. }
  destruct (msg_receive_spec cpu st1 (<[q := Q q ++ [sender]]> Q) q ANY a 0)
    as (st2 & Q2 & r & Hrecv & _ & Hro); [done..|].
  destruct (same_but_links_fields _ _ (Hlk sender)) as (_ & Hss & _ & _ & Hsm & _).
  rewrite procs_blocked_sender, decide_True in Hss, Hsm by done. cbn in Hss, Hsm.
  inversion Hro as [Hsd|id ? ? _ [Hnp _]|? ? ? Hnsd _ Hqo]; subst.
  - unfold sending, PST_IS_SET in Hsd, Hpns. rewrite Hs in Hsd. done.
  - exfalso. apply (Hno id). unfold notify_pending in *. by rewrite Hpr, Hpv in Hnp.
  - inversion Hqo as [Hany|from l1 l2 st' HQ1 Hl1 Hrd|Hbl]; subst; [done|..].
    + rewrite decide_True in Hl1 by done. subst l1. rewrite fn_lookup_insert, HQ in HQ1.
      cbn in HQ1. simplify_eq. destruct Hrd as [Hd Had _ Hst _]. exists st2. split_and!; try done.
      * unfold sending, PST_IS_SET. rewrite Hss. by apply has_flag_set_same.
      * by rewrite Hd, Hsm.
      * rewrite Hst, decide_True, Hss by done. apply clear_set_flag.
        by destruct (has_flag (p_state (procs st from)) PST_SENDING) eqn:E; [destruct Hns|].
    + rewrite decide_True, fn_lookup_insert, HQ in Hbl by done. done.
Qed.
End call.

(** ** Examples

    A memory in which every buffer but the null pointer is mapped and holds one
    message, with a table of asynchronous messages at address 920 that may be
    read-only. *)

Record demo_mem := mk_demo { dm_table : list async_message_t; dm_writable : bool }.

Definition demo_msg : MESSAGE := mk_msg 0 77 (mk_mess3 0 1 0 0 0 0 0 0 []).
Definition demo_index (a : Z) : nat := Z.to_nat ((a - 920) / sizeof_amsg).

#[export] Instance demo_memory : UserMemory demo_mem := {
  um_read_msg _ _ a := if a =? 0 then None else Some demo_msg;
  um_write_msg m _ a _ := if a =? 0 then None else Some m;
  um_read_amsg m _ a := dm_table m !! demo_index a;
  um_write_amsg m _ a x :=
    if dm_writable m then Some (mk_demo (<[demo_index a := x]> (dm_table m)) true) else None
}.

(** Every process has an endpoint of generation 0 and a privilege structure,
    and is stopped. *)
Definition demo_proc (n : Z) : proc :=
  zero_proc <| p_state := PST_STOPPED |> <| p_sched_policy := SCHED_NORMAL |>
            <| p_endpoint := make_endpoint 0 n |> <| p_priv := Some ((n + NR_TASKS) mod 64) |>.
Definition demo_stopped (m : demo_mem) : kstate demo_mem :=
  (zero_kstate 100 m)
    <| procs := demo_proc |>
    <| privs := fun id => zero_priv <| pr_id := id mod 64 |> <| pr_proc_nr := id - NR_TASKS |>
                                    <| pr_flags := PRF_PRIV_PROC |> |>.

(** Processes 5 and 6 are runnable, process 5 is the one that runs. *)
Definition demo_state (m : demo_mem) : kstate demo_mem :=
  PST_UNSET_LOCKED 0 5 PST_STOPPED (PST_UNSET_LOCKED 0 6 PST_STOPPED (demo_stopped m)).

Section quiet.
Context {mem : Type} `{!UserMemory mem}.
Implicit Types st : kstate mem.

(** A state in which nobody sends and nobody waits. *)
Lemma ipc_wf_idle st :
  (forall n, p_q_sending (procs st n) = None) -> (forall n, ~ sending st n) ->
  (forall n, free_ok (p_state (procs st n))) -> ipc_wf st (fun _ => []).
Proof.
  intros Hq Hs Hf. constructor.
  - intros p _. apply Hq.
  - intros p _. constructor.
  - intros p q _ Hx. by apply elem_of_nil in Hx.
  - intros q _ Hx. by apply Hs in Hx.
  - intros q _ Hx. by apply Hs in Hx.
  - intros q _. by apply settles_end.
  - apply Hf.
Qed.
End quiet.

Lemma zero_pending : wf_bitmap (replicate 1 0) NR_PRIV_PROCS.
Proof. split; [|done]. cbn. constructor; [done|constructor]. Qed.

Lemma demo_stopped_ok m : ipc_ok 0 (demo_stopped m) (fun _ => []).
Proof.
  constructor.
  - by apply ipc_wf_idle.
  - constructor; [|done]. apply quiet_queues_wf. constructor; try done.
    + apply (qt_bitmap 0 _ (quiet_zero 0 100 m)).
    + apply (qt_bits 0 _ (quiet_zero 0 100 m)).
  - done.
  - intros ep n _. exists ((n + NR_TASKS) mod 64). split; [done|].
    split; [|exact (conj zero_pending zero_pending)].
    cbn. rewrite Z.mod_mod by done. apply Z.mod_pos_bound. done.
Qed.

Lemma demo_state_ok m : ipc_ok 0 (demo_state m) (fun _ => []).
Proof. do 2 (apply ipc_ok_unset; [done..|]). apply demo_stopped_ok. Qed.

Lemma demo_procs m n :
  procs (demo_state m) n =
  if decide (5 = n) then (demo_proc 5) <| p_state := 0 |>
  else if decide (6 = n) then (demo_proc 6) <| p_state := 0 |> else demo_proc n.
Proof.
  unfold demo_state. rewrite !procs_PST_UNSET, (decide_False (P := 6 = 5)) by done.
  repeat case_decide; subst; done.
Qed.

Lemma demo_can_receive m n : n = 5 \/ n = 6 -> can_receive (demo_state m) n.
Proof.
  intros Hn. constructor; unfold PST_IS_SET, live; rewrite ?demo_procs;
    by destruct Hn as [->| ->]; vm_compute.
Qed.

Lemma demo_not_sending m n : n = 5 \/ n = 6 -> ~ sending (demo_state m) n.
Proof. intros Hn. unfold sending, PST_IS_SET. rewrite demo_procs. by destruct Hn as [->| ->]. Qed.

(** ** Properties *)


Definition demo_call (function src_dest : Z) : MESSAGE :=
  reset_msg <| m_u := mk_mess3 function src_dest 0 0 0 0 8 0 [] |>.
Definition demo0 : kstate demo_mem := demo_state (mk_demo [] true).

Lemma demo_caller n f d : n = 5 \/ n = 6 -> caller_ok 0 demo0 (demo_call f d) n.
Proof.
  intros Hn. constructor; [by apply demo_can_receive|by apply demo_not_sending|done|].
  by exists demo_msg.
Qed.


(** C4: deadlock detection ends and is exact: [deadlock] says yes precisely
    when the processes that wait for each other from the destination on lead
    back to the process that wants to send. *)
Theorem deadlock_detection_exact {mem} (st : kstate mem) Q sender dest p :
  ipc_wf st Q -> live st sender -> sender <> INTERRUPT -> endpt_proc st dest = Some p ->
  exists b, deadlock st (p_endpoint (procs st sender)) dest = Ret b /\
            (b = true <-> tc (waits st) p sender).
Proof. apply deadlock_spec. Qed.

Lemma deadlock_witness :
  exists b, deadlock demo0 (p_endpoint (procs demo0 5)) 6 = Ret b /\
            (b = true <-> tc (waits demo0) 6 5).
Proof.
  apply (deadlock_detection_exact demo0 (fun _ => [])).
  - apply demo_state_ok.
  - apply demo_can_receive. by left.
  - discriminate.
  - vm_compute. reflexivity.
Defined.



(** C3: [msg_receive] from anyone, without asynchronous messages, implements
    taking from a mailbox. It returns and keeps the invariants. A caller that
    is itself blocked sending, in the second half of a send and receive, waits.
    A pending notification comes first. Otherwise the message of the process
    that has waited longest is delivered unchanged, that process is unblocked
    and the mailbox loses exactly this message; on an empty mailbox the caller
    waits. *)
Theorem msg_receive_takes_first {mem} `{!UserMemory mem} cpu (st : kstate mem) Q who a :
  ipc_ok cpu st Q -> can_receive st who -> a <> 0 ->
  exists st' Q', msg_receive cpu who ANY a 0 st = Ret (st', 0) /\ ipc_ok cpu st' Q' /\
    ((sending st who /\ st' = recv_block cpu who ANY a 0 st) \/
     (~ sending st who /\ exists id msg, notify_pending st who id /\
        notification st who (p_endpoint (procs st (pr_proc_nr (privs st id)))) msg /\
        has_message st' who msg /\
        forall j, notify_pending st' who j <-> notify_pending st who j /\ j <> id) \/
     (~ sending st who /\ (forall id, ~ notify_pending st who id) /\
      match mailbox st Q who with
      | [] => st' = recv_block cpu who ANY a 0 st
      | (from, msg) :: rest =>
          p_deliver_msg (procs st' who) = msg /\ p_recv_msg (procs st' who) = a /\
          ~ sending st' from /\
          forall n, valid_nr n ->
            mailbox st' Q' n = if decide (n = who) then rest else mailbox st Q n
      end)).
Proof.
  intros Hok Hcr Ha. pose proof (endpt_proc_valid _ _ _ (live_endpt _ _ (cr_live _ _ Hcr))) as Hv.
  destruct (msg_receive_spec cpu st Q who ANY a 0) as (st' & Q' & r & He & Hok' & Ho); [done..|].
  destruct Ho as [Hs|id st' msg Hns [Hnp _] Hnot Hhas Haddr Hj|st' Q' r Hns Hno Hq].
  - exists (recv_block cpu who ANY a 0 st), Q. auto.
  - exists st', Q. split_and!; [done..|]. right. left. split; [done|]. by exists id, msg.
  - assert (forall id, ~ notify_pending st who id) as Hno'.
    { intros id Hid. by apply (Hno id). }
    destruct Hq as [Hany|from l1 l2 st' HQ Hl1 Hrd|Hbl]; [done|..].
    + exists st', (<[who := l1 ++ l2]> Q). split_and!; [done..|]. right. right. split_and!; [done..|].
      rewrite decide_True in Hl1 by done. pose proof (rd_addr _ _ _ _ _ Hrd) as Haddr.
      destruct (take_mailbox st st' Q who from a l1 l2) as (msg & mb1 & mb2 & -> & Hmb & Hd & Hf & Hall);
        [apply Hok|done..|].
      rewrite Hmb in * by done. done.
    + eexists _, Q. split_and!; [done..|]. right. right. split_and!; [done..|].
      rewrite decide_True in Hbl by done. unfold mailbox. by rewrite Hbl.
Qed.

Lemma msg_receive_witness :
  exists st' Q', msg_receive 0 6 ANY 8 0 demo0 = Ret (st', 0) /\ ipc_ok 0 st' Q'.
Proof.
  destruct (msg_receive_takes_first 0 demo0 (fun _ => []) 6 8) as (st' & Q' & He & Hok & _).
  - apply demo_state_ok.
  - apply demo_can_receive. by right.
  - discriminate.
  - exists st', Q'. exact (conj He Hok).
Defined.

(** C5: what is sent is what is received. A process sends to one that is
    neither waiting nor has anything else to receive: the sender blocks, the
    receiver's next receive from anyone gets the very message with the sender's
    endpoint as its source, and the sender is in the state it was in before. *)
Theorem send_receive_roundtrip {mem} `{!UserMemory mem} cpu (st : kstate mem) Q sender p m msg a :
  ipc_ok cpu st Q -> live st sender -> sender <> INTERRUPT -> ~ sending st sender ->
  can_receive st p -> ~ sending st p -> p <> sender -> Q p = [] ->
  (forall id, ~ notify_pending st p id) ->
  copy_user_message cpu st m = Some msg -> a <> 0 ->
  exists st1 st2,
    msg_send cpu sender (p_endpoint (procs st p)) m 0 st = Ret (st1, 0) /\
    sending st1 sender /\
    msg_receive cpu p ANY a 0 st1 = Ret (st2, 0) /\
    p_deliver_msg (procs st2 p) = stamped st sender msg /\ p_recv_msg (procs st2 p) = a /\
    p_state (procs st2 sender) = p_state (procs st sender).
Proof. apply roundtrip_spec. Qed.

Lemma send_receive_witness :
  exists st1 st2,
    msg_send 0 5 (p_endpoint (procs demo0 6)) (UPtr 8) 0 demo0 = Ret (st1, 0) /\
    msg_receive 0 6 ANY 16 0 st1 = Ret (st2, 0) /\
    p_deliver_msg (procs st2 6) = stamped demo0 5 demo_msg.
Proof.
  destruct (send_receive_roundtrip 0 demo0 (fun _ => []) 5 6 (UPtr 8) demo_msg 16)
    as (st1 & st2 & H1 & _ & H2 & H3 & _).
  - apply demo_state_ok.
  - apply demo_can_receive. by left.
  - discriminate.
  - apply demo_not_sending. by left.
  - apply demo_can_receive. by right.
  - apply demo_not_sending. by right.
  - discriminate.
  - reflexivity.
  - intros id (pid & Hpid & Hid & Ht). revert Ht.
    replace (pr_notify_pending (privs demo0 pid)) with [0] by reflexivity.
    rewrite test_bit_testbit. unfold MAP_CHUNK, chunk.
    destruct (Z.to_nat _) as [|[]]; cbn; by rewrite Z.bits_0.
  - reflexivity.
  - discriminate.
  - exists st1, st2. exact (conj H1 (conj H2 H3)).
Defined.

(** C6: a notification is not lost. [msg_notify] to a valid endpoint returns 0,
    keeps the invariants, and either the process it is for was waiting for it
    and has the notification as its message, or the notification is pending
    under the notifier's id. An invalid endpoint is refused. *)
Theorem notifications_not_lost {mem} `{!UserMemory mem} cpu (st : kstate mem) Q sender dest :
  ipc_ok cpu st Q -> live st sender ->
  exists st' r, msg_notify cpu sender dest st = Ret (st', r) /\ ipc_ok cpu st' Q /\
    match endpt_proc st dest with
    | None => r = EINVAL /\ st' = st
    | Some p => r = 0 /\
        ((waits_for_msg st p (p_endpoint (procs st sender)) = true /\
          exists msg, notification st p (p_endpoint (procs st sender)) msg /\
                      has_message st' p msg) \/
         (waits_for_msg st p (p_endpoint (procs st sender)) = false /\
          exists sid, p_priv (procs st sender) = Some sid /\
                      notify_pending st' p (pr_id (privs st sid))))
    end.
Proof. apply msg_notify_spec. Qed.

Lemma notifications_witness :
  exists st' r, msg_notify 0 5 6 demo0 = Ret (st', r) /\ ipc_ok 0 st' (fun _ => []).
Proof.
  destruct (notifications_not_lost 0 demo0 (fun _ => []) 5 6) as (st' & r & He & Hok & _).
  - apply demo_state_ok.
  - apply demo_can_receive. by left.
  - exists st', r. exact (conj He Hok).
Defined.

(** The state the kernel boots into satisfies the invariants: after
    [init_sched] and [init_proc] nobody sends, every sending queue is empty, the
    wait-for relation has no cycle, no process is runnable and the run queues
    and their bitmap are empty. *)
Theorem boot_state_invariants {mem} (hz : Z) (m : mem) :
  ipc_wf (boot_state 0 hz m) (fun _ => []) /\ sched_wf 0 (boot_state 0 hz m) /\
  forall n, valid_nr n -> p_state (procs (boot_state 0 hz m) n) <> 0.
Proof.
  destruct (boot_state_spec 0 hz m) as (Hs & Hb & Hz). set (st := boot_state 0 hz m) in *.
  clearbody st.
  assert (forall n, (exists p, procs st n = p /\ booted n p) \/ procs st n = zero_proc) as Hall.
  { intros n. destruct (decide (- NR_TASKS <= n < NR_PROCS)) as [Hv|Hv].
    - left. exists (procs st n). split; [done|]. by apply Hb.
    - right. by apply Hz. }
  split_and!; [|done|intros n Hn; apply (bt_state _ _ (Hb n Hn))].
  apply ipc_wf_idle; intros n; destruct (Hall n) as [(p & <- & Hp)|He].
  - apply Hp.
  - by rewrite He.
  - unfold sending, PST_IS_SET. by rewrite (bt_sending _ _ Hp).
  - unfold sending, PST_IS_SET. by rewrite He.
  - exact (bt_free _ _ Hp).
  - by rewrite He.
Qed.

(** ** Inputs the code mishandles *)

(** Process 7 has asynchronous messages for process 6 and process 8. *)
Definition demo_table : list async_message_t :=
  [mk_amsg 6 demo_msg ASMF_USED 0; mk_amsg 8 demo_msg ASMF_USED 0].
Definition async_pending (writable : bool) : res (kstate demo_mem * Z) :=
  msg_senda 0 7 920 2 (demo_state (mk_demo demo_table writable)).

