(* ===== verification/System.v ===== *)
(** * Kernel calls

    Dispatch of kernel calls and signals (kernel/system.c), the calls of
    kernel/system/ that change process states, privileges and signals, requests
    to the memory manager ([mm_suspend] of kernel/arch/x86/memory.c) and the
    delivery of messages on the way back to user space ([deliver_msg] of
    kernel/proc.c). A call takes the request message and the number of the
    caller, and returns the state, the message with the reply in it, and the
    return value. *)

From S2P Require Import Prelude SigSet Bitmap Kernel Sched Ipc.

Definition NR_SYS_CALLS : Z := 30.
Definition MMSUSPEND : Z := -1001.

Definition SIGKSIG : Z := 30.
Definition SIGKMEM : Z := 31.

Definition PRIV_ID_USER : Z := INIT + NR_TASKS.
Definition PRIVCTL_SET_PRIV : Z := 1.
Definition PRIVCTL_ALLOW : Z := 2.

Definition MMREQ_CHECK : Z := 1.
Definition MMREQ_TYPE_SYSCALL : Z := 1.
Definition MMREQ_TYPE_DELIVERMSG : Z := 2.
Definition sizeof_message : Z := 80.

Definition KF_MMINHIBIT : Z := 1.

Definition TRACE_STOP : Z := 1.
Definition TRACE_SYSCALL : Z := 2.
Definition TRACE_CONT : Z := 3.
Definition TRACE_PEEKTEXT : Z := 4.
Definition TRACE_PEEKDATA : Z := 5.
Definition TRACE_PEEKUSER : Z := 6.
Definition sizeof_long : Z := 8.

Definition GETINFO_SYSINFO : Z := 1.
Definition GETINFO_KINFO : Z := 2.
Definition GETINFO_CMDLINE : Z := 3.
Definition GETINFO_BOOTPROCS : Z := 4.
Definition GETINFO_HZ : Z := 5.
Definition GETINFO_MACHINE : Z := 6.
Definition GETINFO_CPUINFO : Z := 7.
Definition GETINFO_PROCTAB : Z := 8.
Definition GETINFO_CPUTICKS : Z := 9.
Definition CONFIG_SMP_MAX_CPUS : Z := 8.

Definition VMCTL_BOOTINHIBIT_CLEAR : Z := 1.
Definition VMCTL_MMINHIBIT_CLEAR : Z := 2.
Definition VMCTL_GET_KERN_MAPPING : Z := 3.
Definition VMCTL_REPLY_KERN_MAPPING : Z := 4.
Definition VMCTL_PAGEFAULT_CLEAR : Z := 5.
Definition VMCTL_CLEAR_MEMCACHE : Z := 8.
Definition VMCTL_GET_MMREQ : Z := 9.
Definition VMCTL_REPLY_MMREQ : Z := 10.

Section system.
Context {mem : Type} `{!UserMemory mem}.
Implicit Types st : kstate mem.

(** ** Privileges *)

(** The first dynamic privilege structure that is not in use. *)
Definition find_dyn_priv (st : kstate mem) : option Z :=
  head (filter (fun id => pr_proc_nr (privs st id) = NO_TASK)
               (seqZ NR_BOOT_PROCS (NR_PRIV_PROCS - NR_BOOT_PROCS))).

Definition take_priv (p id : Z) (st : kstate mem) : kstate mem :=
  let st := upd_proc p (fun r => r <| p_priv := Some id |>) st in
  upd_priv id (fun r => r <| pr_proc_nr := ENDPOINT_P (p_endpoint (procs st p)) |>) st.

Definition set_priv (p id : Z) (st : kstate mem) : kstate mem * Z :=
  if id =? PRIV_ID_NULL then
    match find_dyn_priv st with
    | None => (st, ENOSPC)
    | Some id => (take_priv p id st, 0)
    end
  else if (id <? 0) || (NR_BOOT_PROCS <? id) then (st, EINVAL)
  else if negb (pr_proc_nr (privs st id) =? NO_TASK) then (st, EBUSY)
  else (take_priv p id st, 0).

Definition update_priv (p : Z) (priv : priv_t) (st : kstate mem) : res (kstate mem * Z) :=
  id ← proc_priv st p;
  Ret (upd_priv id (fun r => r <| pr_flags := pr_flags priv |>
                               <| pr_syscall_mask := pr_syscall_mask priv |>) st, 0).

(** ** Signals *)

Definition send_sig (cpu ep signo : Z) (st : kstate mem) : res (kstate mem * Z) :=
  match endpt_proc st ep with
  | None => Ret (st, EINVAL)
  | Some p =>
      match p_priv (procs st p) with
      | None => Ret (st, ENOENT)
      | Some id =>
          let st := upd_priv id (fun r => r <| pr_sig_pending ::= fun s => sigaddset s signo |>) st in
          '(st, _) ← msg_notify cpu SYSTEM (p_endpoint (procs st p)) st;
          Ret (st, 0)
      end
  end.

Definition ksig_proc (cpu ep signo : Z) (st : kstate mem) : res (kstate mem) :=
  match endpt_proc st ep with
  | None => Ret st
  | Some p =>
      if negb (sigismember (p_sig_pending (procs st p)) signo) then
        let st := upd_proc p (fun r => r <| p_sig_pending ::= fun s => sigaddset s signo |>) st in
        if negb (PST_IS_SET st p PST_SIGNALED) then
          let st := PST_SET_LOCKED cpu p (Z.lor PST_SIGNALED PST_SIG_PENDING) st in
          '(st, r) ← send_sig cpu TASK_PM SIGKSIG st;
          if negb (r =? 0) then Crash Panic else Ret st
        else Ret st
      else Ret st
  end.

(** [sys_kill] *)
Definition sys_kill (cpu : Z) (m : MESSAGE) (p_proc : Z) (st : kstate mem)
  : res (kstate mem * MESSAGE * Z) :=
  let target := m3i4 (m_u m) in
  let signo := m3i1 (m_u m) in
  if NSIG <? signo then Ret (st, m, EINVAL)
  else if negb (fst (verify_endpt st target)) then Ret (st, m, EINVAL)
  else if target <? 0 then Ret (st, m, EPERM)
  else
    st ← ksig_proc cpu target signo st;
    Ret (st, m, 0).

(** The loop of [sys_getksig] starts at process 0 and ends before entry
    [NR_PROCS] of the table, which is that of process [NR_PROCS - NR_TASKS]. *)
Definition signaled_proc (st : kstate mem) : option Z :=
  head (filter (fun n => PST_IS_SET st n PST_SIGNALED = true) (seqZ 0 (NR_PROCS - NR_TASKS))).

Definition sys_getksig (cpu : Z) (m : MESSAGE) (p_proc : Z) (st : kstate mem)
  : res (kstate mem * MESSAGE * Z) :=
  match signaled_proc st with
  | Some p =>
      let m := m <| m_u ::= fun u =>
        u <| m3i4 := p_endpoint (procs st p) |>
          <| m3i1 := wraps 32 (p_sig_pending (procs st p)) |> |> in
      let st := upd_proc p (fun r => r <| p_sig_pending := 0 |>) st in
      Ret (PST_UNSET_LOCKED cpu p PST_SIGNALED st, m, 0)
  | None => Ret (st, m <| m_u ::= fun u => u <| m3i4 := NO_TASK |> |>, 0)
  end.

Definition sys_endksig (cpu : Z) (m : MESSAGE) (p_proc : Z) (st : kstate mem)
  : res (kstate mem * MESSAGE * Z) :=
  match endpt_proc st (m3i4 (m_u m)) with
  | None => Ret (st, m, EINVAL)
  | Some p =>
      if negb (PST_IS_SET st p PST_SIG_PENDING) then Ret (st, m, EINVAL)
      else if negb (PST_IS_SET st p PST_SIGNALED) then
        Ret (PST_UNSET_LOCKED cpu p PST_SIG_PENDING st, m, 0)
      else Ret (st, m, 0)
  end.

(** ** Requests to the memory manager *)

(** [mm_suspend] *)
Definition mm_suspend (cpu caller target laddr bytes write type : Z) (st : kstate mem)
  : res (kstate mem) :=
  if p_endpoint (procs st caller) =? TASK_MM then Crash Panic
  else
    let st := PST_SET_LOCKED cpu caller PST_MMREQUEST st in
    let next := mmrequest st in
    let st := upd_proc caller (fun p => p <| p_mm_request ::= fun r =>
      r <| req_type := MMREQ_CHECK |>
        <| rq_type := type |>
        <| rq_target := target |>
        <| check_start := laddr |>
        <| check_len := bytes |>
        <| check_write := write |>
        <| next_request := next |> |>) st in
    let st := st <| mmrequest := Some caller |> in
    match next with
    | None =>
        '(st, r) ← send_sig cpu TASK_MM SIGKMEM st;
        if negb (r =? 0) then Crash Panic else Ret st
    | Some _ => Ret st
    end.

(** [VMCTL_GET_MMREQ]: the request at the head of the list goes to the memory
    manager. *)
Definition vmctl_get_mmreq (m : MESSAGE) (st : kstate mem) : res (kstate mem * MESSAGE * Z) :=
  match mmrequest st with
  | None => Ret (st, m, ESRCH)
  | Some n =>
      let rq := p_mm_request (procs st n) in
      if negb (req_type rq =? MMREQ_CHECK) then Crash Panic
      else
        let m := m <| m_u ::= fun u =>
          u <| m3i1 := rq_target rq |>
            <| m3p1 := check_start rq |>
            <| m3i2 := wraps 32 (check_len rq) |>
            <| m3i3 := check_write rq |>
            <| m3i4 := p_endpoint (procs st n) |> |> in
        let st := upd_proc n
          (fun p => p <| p_mm_request ::= fun r => r <| rq_result := MMSUSPEND |> |>) st in
        Ret (st <| mmrequest := next_request rq |>, m, req_type rq)
  end.

(** [VMCTL_REPLY_MMREQ] *)
Definition vmctl_reply_mmreq (cpu target : Z) (m : MESSAGE) (st : kstate mem)
  : res (kstate mem * MESSAGE * Z) :=
  let st := upd_proc target
    (fun p => p <| p_mm_request ::= fun r => r <| rq_result := m3i3 (m_u m) |> |>) st in
  let type := rq_type (p_mm_request (procs st target)) in
  st ← (if type =? MMREQ_TYPE_SYSCALL then
          Ret (upd_proc target (fun p => p <| p_flags ::= fun f => set_flag f PF_RESUME_SYSCALL |>) st)
        else if type =? MMREQ_TYPE_DELIVERMSG then Ret st
        else Crash Panic);
  Ret (PST_UNSET_LOCKED cpu target PST_MMREQUEST st, m, 0).

(** ** Delivery of a message *)

(** [copy_user_message(p->recv_msg, &p->deliver_msg)] runs in the address space
    of [p]. *)
Definition deliver_msg (cpu p : Z) (st : kstate mem) : res (kstate mem) :=
  match um_write_msg (kmem st) (pt_proc st cpu) (p_recv_msg (procs st p))
                     (p_deliver_msg (procs st p)) with
  | None =>
      if has_flag (p_flags (procs st p)) PF_MSG_FAILED then
        ksig_proc cpu (p_endpoint (procs st p)) SIGSEGV st
      else
        st ← mm_suspend cpu p (p_endpoint (procs st p)) (p_recv_msg (procs st p))
               sizeof_message 1 MMREQ_TYPE_DELIVERMSG st;
        Ret (upd_proc p (fun r => r <| p_flags ::= fun f => set_flag f PF_MSG_FAILED |>) st)
  | Some m =>
      let st := st <| kmem := m |> in
      Ret (upd_proc p (fun r =>
        r <| p_deliver_msg := reset_msg |>
          <| p_flags ::= fun f => clear_flag f (Z.lor PF_DELIVER_MSG PF_MSG_FAILED) |>
          <| p_recv_msg := 0 |>
          <| p_recvfrom := NO_TASK |>) st)
  end.

(** ** Calls on process states *)

(** [kfork_info], the payload of the request *)
Record kfork_info := mk_kfork {
  kf_parent : Z; kf_slot : Z; kf_flags : Z; kf_newsp : Z; kf_tls : Z
}.

(** [sys_fork]; [arch_result] is what [arch_fork_proc] returns. The name of the
    process, its registers and its FPU state are not part of the model. The
    result is the child's endpoint when the reply carries it. [proc_addr] of
    the local variable [verify_endpt] leaves unset is undefined; the model
    stops there. *)
Definition sys_fork (cpu arch_result : Z) (kfi : kfork_info) (st : kstate mem)
  : res (kstate mem * option Z * Z) :=
  let gen := ENDPOINT_G (kf_parent kfi) + 1 in
  let child := kf_slot kfi in
  let child_ep := make_endpoint gen child in
  match verify_endpt st (kf_parent kfi) with
  | (false, _) => Ret (st, None, EINVAL)
  | (true, None) => Crash Panic
  | (true, Some parent) =>
      let pp := procs st parent in
      let st := upd_proc child (fun _ =>
        pp <| p_slot := child |> <| p_endpoint := child_ep |> <| p_parent := kf_parent kfi |>) st in
      id ← proc_priv st child;
      let st :=
        if has_flag (pr_flags (privs st id)) PRF_PRIV_PROC then
          PST_SET_LOCKED cpu child PST_NO_PRIV
            (upd_proc child (fun p => p <| p_priv := Some PRIV_ID_USER |>) st)
        else st in
      let st := upd_proc child (fun p =>
        p <| p_q_sending := None |> <| p_next_sending := None |> <| p_user_time := 0 |>) st in
      let st :=
        if has_flag (kf_flags kfi) KF_MMINHIBIT then PST_SET_LOCKED cpu child PST_MMINHIBIT st
        else st in
      let st :=
        if negb (kf_newsp kfi =? 0) then
          upd_proc child (fun p => p <| p_recv_msg := wrapu 64 (kf_newsp kfi - sizeof_message) |>) st
        else st in
      Ret (st, (if arch_result =? 0 then Some child_ep else None), arch_result)
  end.

(** [sys_clear]; virtual machines and the FPU are not part of the model. *)
Definition sys_clear (cpu : Z) (m : MESSAGE) (p_proc : Z) (st : kstate mem)
  : res (kstate mem * MESSAGE * Z) :=
  match verify_endpt st (m3i4 (m_u m)) with
  | (false, _) => Ret (st, m, EINVAL)
  | (true, None) => Crash Panic
  | (true, Some p) =>
      let st := PST_SETFLAGS_LOCKED cpu p PST_FREE_SLOT st in
      Ret (upd_proc p (fun r => r <| p_flags ::= fun f => clear_flag f PF_FPU_INITIALIZED |>) st, m, 0)
  end.

Definition sys_setgrant (m : MESSAGE) (p_proc : Z) (st : kstate mem)
  : res (kstate mem * MESSAGE * Z) :=
  match p_priv (procs st p_proc) with
  | None => Ret (st, m, EPERM)
  | Some id =>
      if negb (has_flag (pr_flags (privs st id)) PRF_PRIV_PROC) then Ret (st, m, EPERM)
      else
        let ep := p_endpoint (procs st p_proc) in
        Ret (upd_priv id (fun r =>
               r <| pr_grant_table := m3p2 (m_u m) |>
                 <| pr_grant_entries := wrapu 64 (m3i2 (m_u m)) |>
                 <| pr_grant_endpoint := ep |>) st, m, 0)
  end.

(** ** Copies between address spaces

    [la_la_copy] is page table code: it copies and tells which side faulted. *)
Context (la_la_copy : mem -> option Z -> Z -> option Z -> Z -> Z -> mem * Z).

Definition EFAULT_SRC : Z := 1.
Definition EFAULT_DEST : Z := 2.

Record vir_addr := mk_vir { proc_ep : Z; addr : Z }.

Definition check_mm_result (st : kstate mem) (caller : option Z) : Z :=
  match caller with
  | Some p =>
      if has_flag (p_flags (procs st p)) PF_RESUME_SYSCALL then rq_result (p_mm_request (procs st p))
      else 0
  | None => 0
  end.

(** The process on one side of the copy: none for [NO_TASK]. *)
Definition copy_proc (st : kstate mem) (a : vir_addr) : option (option Z) :=
  if proc_ep a =? NO_TASK then Some None
  else
    match endpt_proc st (proc_ep a) with
    | Some n => Some (Some n)
    | None => None
    end.

Definition _vir_copy (cpu : Z) (caller : option Z) (dest src : vir_addr) (bytes : Z) (check : bool)
    (st : kstate mem) : res (kstate mem * Z) :=
  match copy_proc st src, copy_proc st dest with
  | Some psrc, Some pdest =>
      if negb (check_mm_result st caller =? 0) then Ret (st, check_mm_result st caller)
      else
        let '(m, retval) := la_la_copy (kmem st) pdest (addr dest) psrc (addr src) bytes in
        let st := st <| kmem := m |> in
        if negb (retval =? 0) then
          if retval =? EFAULT then Ret (st, EFAULT)
          else if negb (retval =? EFAULT_SRC) && negb (retval =? EFAULT_DEST) then Crash Panic
          else
            match caller with
            | None => Ret (st, EFAULT)
            | Some p =>
                if negb check then Ret (st, EFAULT)
                else
                  let '(target, fault_la, write) :=
                    if retval =? EFAULT_SRC then (proc_ep src, addr src, 0)
                    else (proc_ep dest, addr dest, 1) in
                  st ← mm_suspend cpu p target fault_la bytes write MMREQ_TYPE_SYSCALL st;
                  Ret (st, MMSUSPEND)
            end
        else Ret (st, 0)
  | _, _ => Ret (st, ESRCH)
  end.

Definition sys_datacopy (cpu : Z) (m : MESSAGE) (p_proc : Z) (st : kstate mem)
  : res (kstate mem * MESSAGE * Z) :=
  let self ep := if ep =? SELF then p_endpoint (procs st p_proc) else ep in
  let src := mk_vir (self (m3i1 (m_u m))) (m3p1 (m_u m)) in
  let dest := mk_vir (self (m3i2 (m_u m))) (m3p2 (m_u m)) in
  '(st, r) ← _vir_copy cpu (Some p_proc) dest src (wrapu 64 (m3i3 (m_u m))) true st;
  Ret (st, m, r).

(** [sys_getinfo]: [info_object] gives the address and the size of the object a
    request is about, [kobject] those of the kernel's objects. The result of the
    copy is not looked at. *)
Definition info_object (kobject : Z -> Z * Z) (m : MESSAGE) : option (Z * Z) :=
  let request := m3i2 (m_u m) in
  if bool_decide (request ∈ [GETINFO_SYSINFO; GETINFO_KINFO; GETINFO_CMDLINE; GETINFO_BOOTPROCS;
                             GETINFO_MACHINE; GETINFO_CPUINFO; GETINFO_PROCTAB]) then
    Some (kobject request)
  else if request =? GETINFO_CPUTICKS then
    if CONFIG_SMP_MAX_CPUS <=? wrapu 32 (m3i1 (m_u m)) then None else Some (kobject request)
  else None.

Definition sys_getinfo (cpu : Z) (kobject : Z -> Z * Z) (m : MESSAGE) (p_proc : Z) (st : kstate mem)
  : res (kstate mem * MESSAGE * Z) :=
  if m3i2 (m_u m) =? GETINFO_HZ then
    Ret (st, m <| m_u ::= fun u => u <| m3i1 := system_hz st |> |>, 0)
  else
    match info_object kobject m with
    | None => Ret (st, m, EINVAL)
    | Some (a, size) =>
        let buf_len := wrapu 64 (m3i3 (m_u m)) in
        if (0 <? buf_len) && (buf_len <? size) then Ret (st, m, E2BIG)
        else if negb (a =? 0) then
          '(st, _) ← _vir_copy cpu (Some p_proc) (mk_vir (p_endpoint (procs st p_proc)) (m3p2 (m_u m)))
                       (mk_vir KERNEL a) size true st;
          Ret (st, m, 0)
        else Ret (st, m, 0)
    end.

(** ** Control of memory, tracing and privileges *)

(** [sys_vmctl]; the first three arguments are the architecture's part: the
    kernel's mappings (the return value, the address, the length and the flags
    of a mapping, and the answer to its new address) and page directories.
    [clear_memcache] changes nothing of the state modelled here. *)
Definition sys_vmctl (arch_get_kern_mapping : Z -> Z * Z * Z * Z)
    (arch_reply_kern_mapping : Z -> Z -> Z)
    (arch_vmctl : MESSAGE -> Z -> kstate mem -> res (kstate mem * MESSAGE * Z))
    (cpu : Z) (m : MESSAGE) (p : Z) (st : kstate mem) : res (kstate mem * MESSAGE * Z) :=
  let who := m3i2 (m_u m) in
  let request := m3i1 (m_u m) in
  let target := if who =? SELF then Some p else endpt_proc st who in
  let clear pst :=
    match target with
    | None => Ret (st, m, EINVAL)
    | Some t => Ret (PST_UNSET_LOCKED cpu t pst st, m, 0)
    end in
  if request =? VMCTL_BOOTINHIBIT_CLEAR then clear PST_BOOTINHIBIT
  else if request =? VMCTL_MMINHIBIT_CLEAR then clear PST_MMINHIBIT
  else if request =? VMCTL_GET_KERN_MAPPING then
    let '(retval, addr, len, flags) := arch_get_kern_mapping (m3i2 (m_u m)) in
    Ret (st, m <| m_u ::= fun u =>
      u <| m3i2 := retval |> <| m3p1 := addr |> <| m3i3 := len |> <| m3i4 := flags |> |>, 0)
  else if request =? VMCTL_REPLY_KERN_MAPPING then
    let retval := arch_reply_kern_mapping (m3i2 (m_u m)) (m3p1 (m_u m)) in
    Ret (st, m <| m_u ::= fun u => u <| m3i2 := retval |> |>, 0)
  else if request =? VMCTL_PAGEFAULT_CLEAR then clear PST_PAGEFAULT
  else if request =? VMCTL_CLEAR_MEMCACHE then Ret (st, m, 0)
  else if request =? VMCTL_GET_MMREQ then vmctl_get_mmreq m st
  else
    match target with
    | None => Ret (st, m, EINVAL)
    | Some t =>
        if request =? VMCTL_REPLY_MMREQ then vmctl_reply_mmreq cpu t m st else arch_vmctl m t st
    end.

(** [sys_trace]; [kernel_long a] reads the variable [data] at [a] after the
    copy, [proc_word off] the word at an offset of the process's entry, of
    [sizeof_proc] bytes. *)
Definition sys_trace (kernel_long : mem -> Z -> Z) (data_addr : Z)
    (proc_word : kstate mem -> Z -> Z -> Z) (sizeof_proc : Z)
    (cpu : Z) (m : MESSAGE) (p_proc : Z) (st : kstate mem) : res (kstate mem * MESSAGE * Z) :=
  match endpt_proc st (m3i3 (m_u m)) with
  | None => Ret (st, m, ESRCH)
  | Some target =>
      let request := m3i2 (m_u m) in
      let offset := m3p1 (m_u m) in
      if request =? TRACE_STOP then
        let st := PST_SET_LOCKED cpu target PST_TRACED st in
        Ret (upd_proc target (fun p => p <| p_flags ::= fun f => clear_flag f PF_TRACE_SYSCALL |>) st,
             m, 0)
      else if request =? TRACE_SYSCALL then
        let st := upd_proc target
          (fun p => p <| p_flags ::= fun f => set_flag f PF_TRACE_SYSCALL |>) st in
        Ret (PST_UNSET_LOCKED cpu target PST_TRACED st, m, 0)
      else if request =? TRACE_CONT then Ret (PST_UNSET_LOCKED cpu target PST_TRACED st, m, 0)
      else if (request =? TRACE_PEEKTEXT) || (request =? TRACE_PEEKDATA) then
        '(st, retval) ← _vir_copy cpu (Some p_proc) (mk_vir KERNEL data_addr)
                          (mk_vir (p_endpoint (procs st target)) offset) sizeof_long true st;
        if negb (retval =? 0) then Ret (st, m, EFAULT)
        else Ret (st, m <| m_u ::= fun u => u <| m3l1 := kernel_long (kmem st) data_addr |> |>, 0)
      else if request =? TRACE_PEEKUSER then
        if negb (Z.land offset (sizeof_long - 1) =? 0) then Ret (st, m, EFAULT)
        else if wrapu 64 offset <=? sizeof_proc - sizeof_long then
          Ret (st, m <| m_u ::= fun u => u <| m3l1 := proc_word st target offset |> |>, 0)
        else Ret (st, m, 0)
      else Ret (st, m, EINVAL)
  end.

(** [sys_privctl]; the checked copy of the caller's structure goes to the local
    variable [priv] at [priv_addr], of [sizeof_priv] bytes, which
    [kernel_priv] reads: its result is not looked at. *)
Definition sys_privctl (kernel_priv : mem -> Z -> priv_t) (priv_addr sizeof_priv : Z)
    (cpu : Z) (m : MESSAGE) (p : Z) (st : kstate mem) : res (kstate mem * MESSAGE * Z) :=
  let request := m3i2 (m_u m) in
  let buf := m3p2 (m_u m) in
  match endpt_proc st (m3i4 (m_u m)) with
  | None => Ret (st, m, EINVAL)
  | Some target =>
      if request =? PRIVCTL_SET_PRIV then
        if negb (PST_IS_SET st target PST_NO_PRIV) then Ret (st, m, EPERM)
        else if negb (buf =? 0) then
          '(st, _) ← _vir_copy cpu (Some p) (mk_vir KERNEL priv_addr)
                       (mk_vir (p_endpoint (procs st p)) buf) sizeof_priv true st;
          let priv := kernel_priv (kmem st) priv_addr in
          let priv_id := if negb (has_flag (pr_flags priv) PRF_DYN_ID) then pr_id priv else PRIV_ID_NULL in
          let '(st, r) := set_priv target priv_id st in
          if negb (r =? 0) then Ret (st, m, r)
          else '(st, r) ← update_priv target priv st; Ret (st, m, r)
        else
          let '(st, r) := set_priv target PRIV_ID_NULL st in Ret (st, m, r)
      else if request =? PRIVCTL_ALLOW then Ret (PST_UNSET_LOCKED cpu target PST_NO_PRIV st, m, 0)
      else Ret (st, m, EINVAL)
  end.

(** ** Dispatch *)

(** An entry of [sys_call_table]. *)
Definition sys_call_handler_t : Type :=
  MESSAGE -> Z -> kstate mem -> res (kstate mem * MESSAGE * Z).

Definition sys_nosys : sys_call_handler_t := fun m _ st => Ret (st, m, ENOSYS).

Definition dispatch_sys_call (sys_call_table : Z -> option sys_call_handler_t) (call_nr : Z)
    (msg : MESSAGE) (p_proc : Z) (st : kstate mem) : res (kstate mem * MESSAGE * Z) :=
  id ← proc_priv st p_proc;
  if negb (test_bit (pr_syscall_mask (privs st id)) call_nr) then Ret (st, msg, EPERM)
  else
    match sys_call_table call_nr with
    | Some handler => handler msg p_proc st
    | None => Ret (st, msg, EINVAL)
    end.

Definition finish_sys_call (cpu p_proc : Z) (msg : MESSAGE) (result : Z) (st : kstate mem)
  : kstate mem * Z :=
  if result =? MMSUSPEND then
    (upd_proc p_proc (fun p =>
       p <| p_mm_request ::= fun r => r <| saved_reqmsg := msg |> |>
         <| p_flags ::= fun f => set_flag f PF_RESUME_SYSCALL |>) st, result)
  else
    match um_write_msg (kmem st) (pt_proc st cpu) (p_syscall_msg (procs st p_proc)) msg with
    | Some m => (st <| kmem := m |>, result)
    | None => (st, EFAULT)
    end.

Definition handle_sys_call (cpu : Z) (sys_call_table : Z -> option sys_call_handler_t)
    (call_nr m_user p_proc : Z) (st : kstate mem) : res (kstate mem * Z) :=
  if (NR_SYS_CALLS <=? call_nr) || (call_nr <? 0) then Ret (st, EINVAL)
  else
    let st := upd_proc p_proc (fun p => p <| p_syscall_msg := m_user |>) st in
    let ep := p_endpoint (procs st p_proc) in
    match um_read_msg (kmem st) (pt_proc st cpu) m_user with
    | None => st ← ksig_proc cpu ep SIGSEGV st; Ret (st, EFAULT)
    | Some msg =>
        let msg := msg <| m_source := ep |> <| m_type := call_nr |> in
        if has_flag (p_flags (procs st p_proc)) PF_TRACE_SYSCALL then
          let st := upd_proc p_proc (fun p =>
            p <| p_mm_request ::= fun r => r <| saved_reqmsg := msg |> |>
              <| p_flags ::= fun f => clear_flag (set_flag f PF_RESUME_SYSCALL) PF_TRACE_SYSCALL |>) st in
          st ← ksig_proc cpu ep SIGTRAP st;
          Ret (st, 0)
        else
          '(st, msg, retval) ← dispatch_sys_call sys_call_table call_nr msg p_proc st;
          Ret (finish_sys_call cpu p_proc msg retval st)
    end.

(** The handler works on [saved_reqmsg] itself. *)
Definition resume_sys_call (cpu : Z) (sys_call_table : Z -> option sys_call_handler_t)
    (p : Z) (st : kstate mem) : res (kstate mem * Z) :=
  let req := saved_reqmsg (p_mm_request (procs st p)) in
  '(st, msg, retval) ← dispatch_sys_call sys_call_table (m_type req) req p st;
  let st := upd_proc p (fun r =>
    r <| p_mm_request ::= fun q => q <| saved_reqmsg := msg |> |>
      <| p_flags ::= fun f => clear_flag f PF_RESUME_SYSCALL |>) st in
  Ret (finish_sys_call cpu p msg retval st).
End system.
