(* ===== verification/SystemProps.v ===== *)
(** * Properties of the kernel calls

    Signals reach the process manager, the system call mask is enforced, the
    requests to the memory manager are kept in a list, and inputs on which the
    calls of file System leave the process table in a state the kernel cannot
    work with. *)

From S2P Require Import Prelude SigSet Bitmap Kernel Sched Ipc IpcInv Rendezvous Receive IpcProps System.

Section signals.
Context {mem : Type} `{!UserMemory mem}.
Implicit Types st : kstate mem.

(** What the arrival of a notification leaves as it was. *)
Record notify_frame st st' : Prop := {
  nf_sig n : p_sig_pending (procs st' n) = p_sig_pending (procs st n);
  nf_ep n : p_endpoint (procs st' n) = p_endpoint (procs st n);
  nf_mm n : p_mm_request (procs st' n) = p_mm_request (procs st n);
  nf_pst n pst : Z.land pst PST_RECEIVING = 0 -> PST_IS_SET st' n pst = PST_IS_SET st n pst;
  nf_mmrequest : mmrequest st' = mmrequest st
}.

(** The process manager is told of a signal: it has the message of the kernel
    with [signo] in it, or the kernel's notification waits for it. *)
Definition told st (pm signo : Z) : Prop :=
  (exists msg, has_message st pm msg /\ m_source msg = SYSTEM /\ m_type msg = NOTIFY_MSG /\
               sigismember (m3i1 (m_u msg)) signo = true) \/
  (exists id sid, p_priv (procs st pm) = Some id /\ sigismember (pr_sig_pending (privs st id)) signo = true /\
                  p_priv (procs st SYSTEM) = Some sid /\ notify_pending st pm (pr_id (privs st sid))).

(** The states of a process with signals: one with a signal that nobody asked
    for yet is [PST_SIGNALED], and one that is [PST_SIGNALED] cannot run before
    the process manager is done with it. *)
Definition signals_ok st (n : Z) : Prop :=
  (p_sig_pending (procs st n) <> 0 -> PST_IS_SET st n PST_SIGNALED = true) /\
  (PST_IS_SET st n PST_SIGNALED = true -> PST_IS_SET st n PST_SIG_PENDING = true).

(** ** Blocking a process *)

Lemma ipc_ok_set cpu n pst st Q :
  Z.land pst PST_SENDING = 0 -> Z.land pst PST_FREE_SLOT = 0 -> Z.land pst PST_RECEIVING = 0 ->
  live st n -> ipc_ok cpu st Q -> ipc_ok cpu (PST_SET_LOCKED cpu n pst st) Q.
Proof.
  intros Hs Hf Hr Hl [Hwf Hsch Hrc Hpr].
  assert (ipc_wf (PST_SET_LOCKED cpu n pst st) Q) as Hwf' by (by apply ipc_wf_PST_SET).
  constructor; [done|by apply sched_wf_PST_SET|..].
  - intros k. unfold PST_IS_SET. rewrite procs_PST_SET.
    destruct (decide (n = k)) as [<-|]; [|apply Hrc]. cbn. rewrite has_flag_set_other by done.
    apply Hrc.
  - eapply priv_ok_ext; [exact Hwf|exact Hwf'|..|done].
    + intros k. rewrite procs_PST_SET. case_decide; subst; cbn; by rewrite ?has_flag_set_other.
    + intros id. by rewrite (proj2 (proj2 (env_PST_SET _ _ _ _))).
Qed.

(** ** Notifications and signals *)

Lemma procs_set_notify_msg dest src st st' msg :
  set_notify_msg dest src st = Ret (st', msg) -> procs st' = procs st /\ mmrequest st' = mmrequest st.
Proof.
  unfold set_notify_msg, proc_priv.
  destruct (src =? INTERRUPT), (src =? SYSTEM), (src =? CLOCK), (p_priv (procs st dest));
    cbn; intros [=]; by subst.
Qed.

Lemma mmrequest_PST cpu n pst st :
  mmrequest (PST_SET_LOCKED cpu n pst st) = mmrequest st /\
  mmrequest (PST_UNSET_LOCKED cpu n pst st) = mmrequest st.
Proof.
  unfold PST_SET_LOCKED, PST_UNSET_LOCKED. split; case_cond; try done. unfold dequeue_proc.
  by destruct (run_queues (run_list_del _ _) _ _).
Qed.

Lemma msg_notify_frame cpu sender dest st st' r :
  msg_notify cpu sender dest st = Ret (st', r) -> notify_frame st st'.
Proof.
  unfold msg_notify. destruct (endpt_proc st dest) as [p|]; [|by intros [= <- _]].
  destruct (waits_for_msg st p _).
  - destruct (set_notify_msg p _ st) as [[st1 msg]|] eqn:Hn; [|done].
    apply procs_set_notify_msg in Hn as [Hp Hm]. rewrite res_ret_bind. cbv beta iota zeta.
    intros [= <- _]. constructor.
    1-3: intros n; rewrite procs_PST_UNSET, !procs_upd_proc, !Hp; repeat case_decide; by subst.
    + intros n pst Hpst. unfold PST_IS_SET.
      rewrite procs_PST_UNSET, !procs_upd_proc, !Hp; repeat case_decide; subst; try done.
      cbn. apply has_flag_clear_other. by rewrite Z.land_comm.
    + by rewrite (proj2 (mmrequest_PST _ _ _ _)).
  - unfold proc_priv. destruct (p_priv (procs st p)), (p_priv (procs st sender)); cbn; try done.
    intros [= <- _]. done.
Qed.


Lemma msg_notify_keeps_sigs cpu sender dest p st st' r :
  endpt_proc st dest = Some p -> waits_for_msg st p (p_endpoint (procs st sender)) = false ->
  msg_notify cpu sender dest st = Ret (st', r) ->
  procs st' = procs st /\
  forall id, pr_sig_pending (privs st' id) = pr_sig_pending (privs st id) /\
             pr_id (privs st' id) = pr_id (privs st id).
Proof.
  unfold msg_notify, proc_priv. intros -> ->.
  destruct (p_priv (procs st p)) as [id|], (p_priv (procs st sender)); cbn; try done.
  intros [= <- _]. split; [done|]. intros k. cbn. unfold alter, fn_alter. by case_decide; subst.
Qed.

(** The kernel's own notification, with the signal it adds. *)
Lemma send_sig_spec cpu st Q ep signo :
  ipc_ok cpu st Q -> live st SYSTEM -> p_endpoint (procs st SYSTEM) = SYSTEM -> 0 <= signo < 32 ->
  live st ep -> p_endpoint (procs st ep) = ep ->
  exists st', send_sig cpu ep signo st = Ret (st', 0) /\ ipc_ok cpu st' Q /\ notify_frame st st' /\
              told st' ep signo.
Proof.
  intros Hok Hs Hse Hsig Hl Hep. unfold send_sig.
  pose proof (live_endpt _ _ Hl) as He. rewrite Hep in He. rewrite He.
  destruct (ok_priv _ _ _ Hok _ _ He) as (id & Hid & _). rewrite Hid. cbv zeta.
  set (st1 := upd_priv id _ st).
  assert (ipc_ok cpu st1 Q) as Hok1 by (by apply ipc_ok_upd_priv).
  assert (procs st1 = procs st) as Hp by done.
  assert (Z.testbit (pr_sig_pending (privs st1 id)) signo = true) as Hm.
  { unfold st1. cbn. rewrite fn_lookup_alter. cbn. by apply testbit_sigaddset. }
  assert (notify_frame st st1) as Hf1 by done. clearbody st1. rewrite !Hp, Hep.
  assert (live st1 SYSTEM) as Hs1 by (unfold live; by rewrite Hp).
  assert (endpt_proc st1 ep = Some ep) as He1.
  { unfold endpt_proc, verify_endpt in *. by rewrite Hp. }
  destruct (msg_notify_spec cpu st1 Q SYSTEM ep) as (st2 & r & Hn & Hok2 & Ho); [done..|].
  rewrite Hn. rewrite res_ret_bind. cbv beta iota zeta. rewrite He1 in Ho. destruct Ho as (-> & Ho).
  exists st2. split; [done|]. split; [done|]. pose proof (msg_notify_frame _ _ _ _ _ _ Hn) as [].
  split; [by destruct Hf1; constructor; intros; etransitivity; eauto|].
  rewrite Hp, Hse in Ho. destruct Ho as [(_ & msg & (Hsrc & Ht & Hb & _) & Hmsg)|(Hw & sid & Hsid & Hnp)].
  - left. exists msg. split_and!; try done. rewrite Hp in Hb. destruct (Hb _ Hid) as [_ Hb'].
    rewrite Hb' by done. apply testbit_sigismember; [done|]. by rewrite wraps_testbit.
  - right.
    destruct (msg_notify_keeps_sigs cpu SYSTEM ep ep st1 st2 0) as [Hpp Hpr]; [done|by rewrite Hp, Hse|done|].
    exists id, sid. rewrite Hpp, Hp. split_and!; [done| |done|].
    + rewrite (proj1 (Hpr _)). by apply testbit_sigismember.
    + by rewrite (proj2 (Hpr _)).
Qed.

Lemma live_PST_SET cpu st Q n p pst :
  Z.land pst PST_FREE_SLOT = 0 -> ipc_ok cpu st Q -> live st n ->
  live (PST_SET_LOCKED cpu p pst st) n.
Proof.
  intros Hf Hok Hl. apply (live_ext st); [..|exact (iw_free _ _ (ok_ipc _ _ _ Hok) n)|done];
    rewrite procs_PST_SET; case_decide; subst; cbn; by rewrite ?has_flag_set_other.
Qed.

Lemma ksig_block_spec cpu st Q p :
  ipc_ok cpu st Q -> live st SYSTEM -> p_endpoint (procs st SYSTEM) = SYSTEM ->
  live st TASK_PM -> p_endpoint (procs st TASK_PM) = TASK_PM -> live st p ->
  exists st', ('(st, r) ← send_sig cpu TASK_PM SIGKSIG
                            (PST_SET_LOCKED cpu p (Z.lor PST_SIGNALED PST_SIG_PENDING) st);
               if negb (r =? 0) then Crash Panic else Ret st) = Ret st' /\
    ipc_ok cpu st' Q /\
    ((forall n, p_sig_pending (procs st' n) = p_sig_pending (procs st n)) /\
     forall n, PST_IS_SET st' n PST_SIGNALED = (if decide (p = n) then true else PST_IS_SET st n PST_SIGNALED) /\
       PST_IS_SET st' n PST_SIG_PENDING = (if decide (p = n) then true else PST_IS_SET st n PST_SIG_PENDING)) /\
    told st' TASK_PM SIGKSIG.
Proof.
  intros Hok Hs Hse Hpm Hpme Hl. set (st1 := PST_SET_LOCKED cpu p _ st).
  assert (forall n, p_endpoint (procs st1 n) = p_endpoint (procs st n)) as He.
  { intros n. unfold st1. rewrite procs_PST_SET. by case_decide; subst. }
  destruct (send_sig_spec cpu st1 Q TASK_PM SIGKSIG) as (st' & -> & Hok' & Hf & Ht).
  1: by apply ipc_ok_set. 1,4: by apply (live_PST_SET _ _ Q). 1,3: by rewrite He. 1: done.
  rewrite res_ret_bind. cbv beta iota zeta. exists st'. split; [done|]. split; [done|]. split; [|done].
  split; intros n; [rewrite (nf_sig _ _ Hf)|rewrite !(nf_pst _ _ Hf) by done; unfold PST_IS_SET];
    unfold st1; rewrite procs_PST_SET; case_decide; subst; try done.
  by apply has_flag_set_both.
Qed.

(** What a signal to process [p] comes to. *)
Record signaled st st' (p signo : Z) : Prop := {
  sg_pending : sigismember (p_sig_pending (procs st' p)) signo = true;
  sg_ok : signals_ok st' p;
  sg_blocked : PST_IS_SET st' p PST_SIG_PENDING = true;
  sg_told : PST_IS_SET st p PST_SIGNALED = false -> told st' TASK_PM SIGKSIG;
  sg_others n : n <> p -> p_sig_pending (procs st' n) = p_sig_pending (procs st n) /\
                          (signals_ok st n -> signals_ok st' n)
}.

Lemma ksig_proc_spec cpu st Q p signo :
  ipc_ok cpu st Q -> live st SYSTEM -> p_endpoint (procs st SYSTEM) = SYSTEM ->
  live st TASK_PM -> p_endpoint (procs st TASK_PM) = TASK_PM ->
  live st p -> signals_ok st p -> 0 <= signo < 32 ->
  exists st', ksig_proc cpu (p_endpoint (procs st p)) signo st = Ret st' /\ ipc_ok cpu st' Q /\
              signaled st st' p signo.
Proof.
  intros Hok Hs Hse Hpm Hpme Hl [Hsp Hsg] Hsig. unfold ksig_proc. rewrite live_endpt by done.
  destruct (sigismember (p_sig_pending (procs st p)) signo) eqn:Hm; cbn [negb].
  { assert (PST_IS_SET st p PST_SIGNALED = true) as Hd.
    { apply Hsp. intros H0. rewrite H0 in Hm. by unfold sigismember in Hm. }
    exists st. split_and!; try done. constructor; try done; [by apply Hsg|congruence]. }
  set (st1 := upd_proc p _ st).
  assert (ipc_ok cpu st1 Q) as Hok1 by (apply ipc_ok_upd; [done|apply Hok|done]).
  assert (sigismember (p_sig_pending (procs st1 p)) signo = true) as Hm1.
  { unfold st1. rewrite procs_upd_proc_eq. cbn. by apply testbit_sigismember, testbit_sigaddset. }
  assert (forall n, n <> p -> procs st1 n = procs st n) as Hne.
  { intros n Hn. unfold st1. by rewrite procs_upd_proc_ne. }
  assert (forall n, p_endpoint (procs st1 n) = p_endpoint (procs st n) /\
                    p_state (procs st1 n) = p_state (procs st n)) as He.
  { intros n. unfold st1. rewrite procs_upd_proc. by case_decide; subst. }
  assert (forall n, live st n -> live st1 n) as Hl1.
  { intros n (? & ? & ?). unfold live. by rewrite (proj1 (He n)), (proj2 (He n)). }
  clearbody st1. unfold PST_IS_SET at 1. rewrite (proj2 (He p)). fold (PST_IS_SET st p PST_SIGNALED).
  destruct (PST_IS_SET st p PST_SIGNALED) eqn:Hd; cbn [negb]; cbv zeta.
  { exists st1. split_and!; try done. constructor; try done.
    - split; intros _; unfold PST_IS_SET; rewrite (proj2 (He p)); [done|by apply Hsg].
    - unfold PST_IS_SET. rewrite (proj2 (He p)). by apply Hsg.
    - congruence.
    - intros n Hn. unfold signals_ok, PST_IS_SET. by rewrite Hne. }
  destruct (ksig_block_spec cpu st1 Q p) as (st' & -> & Hok' & Hfr & Ht); [try done; eauto..|].
  1,2: by rewrite (proj1 (He _)).
  exists st'. split; [done|]. split; [done|]. destruct Hfr as [Hf1 Hf2]. destruct (Hf2 p) as [Hb1 Hb2].
  rewrite decide_True in Hb1, Hb2 by done. constructor; try done.
  - by rewrite Hf1.
  - intros n Hn. destruct (Hf2 n) as [Hc1 Hc2]. rewrite decide_False in Hc1, Hc2 by done.
    unfold signals_ok. rewrite Hf1, Hc1, Hc2. unfold PST_IS_SET. by rewrite Hne.
Qed.


Lemma sys_kill_spec cpu st Q m caller p :
  ipc_ok cpu st Q -> live st SYSTEM -> p_endpoint (procs st SYSTEM) = SYSTEM ->
  live st TASK_PM -> p_endpoint (procs st TASK_PM) = TASK_PM ->
  live st p -> signals_ok st p ->
  m3i4 (m_u m) = p_endpoint (procs st p) -> 0 <= p_endpoint (procs st p) -> 0 <= m3i1 (m_u m) < NSIG ->
  exists st', sys_kill cpu m caller st = Ret (st', m, 0) /\ ipc_ok cpu st' Q /\
              signaled st st' p (m3i1 (m_u m)).
Proof.
  intros Hok Hs Hse Hpm Hpme Hl Hsg Ht Hge Hsig. unfold sys_kill. rewrite Ht.
  rewrite (proj2 (Z.ltb_ge _ _)) by lia.
  pose proof (live_endpt _ _ Hl) as He. unfold endpt_proc in He.
  destruct (verify_endpt st _) as [[] o]; [|done]. cbn [fst negb].
  rewrite (proj2 (Z.ltb_ge _ _)) by lia.
  destruct (ksig_proc_spec cpu st Q p (m3i1 (m_u m))) as (st' & -> & Hok' & Hsd); [done..|].
  by exists st'.
Qed.

(** ** The process manager's side *)

Lemma signaled_proc_Some st p :
  signaled_proc st = Some p ->
  0 <= p < NR_PROCS - NR_TASKS /\ PST_IS_SET st p PST_SIGNALED = true.
Proof.
  unfold signaled_proc. intros Hh.
  assert (p ∈ filter (fun n => PST_IS_SET st n PST_SIGNALED = true) (seqZ 0 (NR_PROCS - NR_TASKS)))
    as Hin by (apply list_elem_of_lookup; exists 0%nat; by rewrite <- head_lookup).
  apply list_elem_of_filter in Hin as [Hs Hr%elem_of_seqZ]. split; [lia|done].
Qed.

Lemma signaled_proc_None st n :
  signaled_proc st = None -> 0 <= n < NR_PROCS - NR_TASKS -> PST_IS_SET st n PST_SIGNALED = false.
Proof.
  unfold signaled_proc. intros Hh%head_None Hn. apply not_true_iff_false. intros Hs.
  assert (n ∈ filter (fun n => PST_IS_SET st n PST_SIGNALED = true) (seqZ 0 (NR_PROCS - NR_TASKS)))
    as Hin by (apply list_elem_of_filter; split; [done|apply elem_of_seqZ; lia]).
  rewrite Hh in Hin. by apply elem_of_nil in Hin.
Qed.

(** What [sys_getksig] answers: one process with all its signals, which stays
    blocked, or that there is none. *)
Definition getksig_outcome st st' (m' : MESSAGE) : Prop :=
  match signaled_proc st with
  | Some p =>
      m3i4 (m_u m') = p_endpoint (procs st p) /\
      m3i1 (m_u m') = wraps 32 (p_sig_pending (procs st p)) /\
      p_sig_pending (procs st' p) = 0 /\
      PST_IS_SET st' p PST_SIGNALED = false /\ PST_IS_SET st' p PST_SIG_PENDING = true /\
      forall n, n <> p -> procs st' n = procs st n
  | None =>
      m3i4 (m_u m') = NO_TASK /\ st' = st /\
      forall n, 0 <= n < NR_PROCS - NR_TASKS -> p_sig_pending (procs st n) = 0
  end.

Lemma sys_getksig_spec cpu st Q m caller :
  ipc_ok cpu st Q -> (forall n, signals_ok st n) ->
  exists st' m', sys_getksig cpu m caller st = Ret (st', m', 0) /\ ipc_ok cpu st' Q /\
    (forall n, signals_ok st' n) /\ getksig_outcome st st' m'.
Proof.
  intros Hok Hs. unfold sys_getksig, getksig_outcome. destruct (signaled_proc st) as [p|] eqn:Hp.
  - apply signaled_proc_Some in Hp as [Hr Hd]. do 2 eexists. split; [reflexivity|].
    set (st' := PST_UNSET_LOCKED _ _ _ _).
    assert (procs st' p = (procs st p) <| p_sig_pending := 0 |>
                                     <| p_state ::= fun s => clear_flag s PST_SIGNALED |>) as Hp'.
    { unfold st'. by rewrite procs_PST_UNSET, decide_True, procs_upd_proc_eq. }
    assert (forall n, n <> p -> procs st' n = procs st n) as Hne.
    { intros n Hn. unfold st'. by rewrite procs_PST_UNSET, decide_False, procs_upd_proc_ne. }
    assert (ipc_ok cpu st' Q) as Hok'.
    { apply ipc_ok_unset; [done..|]. apply ipc_ok_upd; [done|apply Hok|done]. }
    clearbody st'. destruct (Hs p) as [_ Hsp].
    assert (PST_IS_SET st' p PST_SIGNALED = false) as H1.
    { unfold PST_IS_SET. rewrite Hp'. apply has_flag_clear_same. }
    assert (PST_IS_SET st' p PST_SIG_PENDING = true) as H2.
    { unfold PST_IS_SET. rewrite Hp'. cbn. rewrite has_flag_clear_other by done. by apply Hsp. }
    split; [done|]. split; [|by rewrite Hp'].
    intros n. destruct (decide (n = p)) as [->|Hn].
    + split; [by rewrite Hp'|by rewrite H1].
    + unfold signals_ok, PST_IS_SET. rewrite Hne by done. apply Hs.
  - do 2 eexists. split; [reflexivity|]. split; [done|]. split; [done|]. split; [done|]. split; [done|].
    intros n Hn. destruct (decide (p_sig_pending (procs st n) = 0)) as [|H0]; [done|].
    apply Hs in H0. rewrite (signaled_proc_None _ _ Hp) in H0; done.
Qed.

(** [sys_endksig]: the process goes on unless a new signal came meanwhile. *)
Lemma sys_endksig_spec cpu st Q m caller p :
  ipc_ok cpu st Q -> (forall n, signals_ok st n) -> live st p -> m3i4 (m_u m) = p_endpoint (procs st p) ->
  exists st' r, sys_endksig cpu m caller st = Ret (st', m, r) /\ ipc_ok cpu st' Q /\
    (forall n, signals_ok st' n) /\
    PST_IS_SET st' p PST_SIG_PENDING = PST_IS_SET st p PST_SIGNALED /\
    (r = 0 <-> PST_IS_SET st p PST_SIG_PENDING = true) /\
    (p_sig_pending (procs st' p) <> 0 -> PST_IS_SET st' p PST_SIG_PENDING = true).
Proof.
  intros Hok Hs Hl He. unfold sys_endksig. rewrite He, live_endpt by done. destruct (Hs p) as [H1 H2].
  destruct (PST_IS_SET st p PST_SIG_PENDING) eqn:Hsp; cbn [negb].
  2: { assert (PST_IS_SET st p PST_SIGNALED = false) as Hd.
       { apply not_true_iff_false. intros Hd%H2. done. }
       exists st, EINVAL. split_and!; try done; [by rewrite Hsp, Hd|].
       intros H0%H1. by rewrite H0 in Hd. }
  destruct (PST_IS_SET st p PST_SIGNALED) eqn:Hd; cbn [negb].
  { exists st, 0. split_and!; try done. }
  do 2 eexists. split; [reflexivity|]. split; [by apply ipc_ok_unset|].
  set (st' := PST_UNSET_LOCKED _ _ _ _).
  assert (forall n, signals_ok st' n) as Hs'.
  { intros n. unfold signals_ok, PST_IS_SET, st'. rewrite procs_PST_UNSET. case_decide; [|apply Hs].
    subst n. cbn. rewrite has_flag_clear_other by done. split; [intros H0; by apply H1 in H0|].
    intros Hf. by unfold PST_IS_SET in Hd; rewrite Hd in Hf. }
  split; [done|]. split_and!; [|done|].
  - unfold PST_IS_SET, st'. rewrite procs_PST_UNSET, decide_True by done. apply has_flag_clear_same.
  - intros H0. by apply Hs', Hs'.
Qed.

(** ** The system call mask *)

(** Two states that differ at most in the message pointer of [p] and in what
    the memory of its address space holds. *)
Record call_frame st st' (p : Z) : Prop := {
  cf_others n : n <> p -> procs st' n = procs st n;
  cf_self : exists a, procs st' p = (procs st p) <| p_syscall_msg := a |>;
  cf_privs : privs st' = privs st;
  cf_queues : run_queues st' = run_queues st;
  cf_mmrequest : mmrequest st' = mmrequest st
}.

Lemma handle_sys_call_masked cpu table call_nr m_user p id msg st :
  p_priv (procs st p) = Some id -> test_bit (pr_syscall_mask (privs st id)) call_nr = false ->
  0 <= call_nr < NR_SYS_CALLS ->
  has_flag (p_flags (procs st p)) PF_TRACE_SYSCALL = false ->
  um_read_msg (kmem st) (pt_proc st cpu) m_user = Some msg ->
  exists st' r, handle_sys_call cpu table call_nr m_user p st = Ret (st', r) /\
    (r = EPERM \/ r = EFAULT) /\ call_frame st st' p.
Proof.
  intros Hid Hb Hn Hf Hm. unfold handle_sys_call.
  rewrite (proj2 (Z.leb_gt _ _)), (proj2 (Z.ltb_ge _ _)) by lia. cbn [orb]. cbv zeta.
  set (st1 := upd_proc p _ st).
  assert (call_frame st st1 p) as Hfr.
  { constructor; try done; unfold st1.
    - intros n Hne. by rewrite procs_upd_proc_ne.
    - exists m_user. by rewrite procs_upd_proc_eq. }
  assert (p_flags (procs st1 p) = p_flags (procs st p) /\ p_priv (procs st1 p) = p_priv (procs st p))
    as [Hpf Hpp] by (unfold st1; by rewrite procs_upd_proc_eq).
  assert (kmem st1 = kmem st /\ pt_proc st1 = pt_proc st /\ privs st1 = privs st) as (E1 & E2 & E3) by done.
  clearbody st1. rewrite E1, E2, Hm, Hpf, Hf.
  unfold dispatch_sys_call, proc_priv. rewrite Hpp, Hid. cbn [deref].
  rewrite res_ret_bind. cbv beta. rewrite E3, Hb. cbn [negb]. rewrite res_ret_bind. cbv beta iota zeta.
  unfold finish_sys_call. change (EPERM =? MMSUSPEND) with false. cbv beta iota.
  destruct (um_write_msg (kmem st1) _ _ _) as [mm|]; do 2 eexists; (split; [reflexivity|]);
    split; auto. by destruct Hfr; constructor.
Qed.

(** ** Requests to the memory manager *)

(** The list of the requests the memory manager has not asked for. *)
Fixpoint mm_chain st (o : option Z) (l : list Z) : Prop :=
  match l with
  | [] => o = None
  | n :: l => o = Some n /\ req_type (p_mm_request (procs st n)) = MMREQ_CHECK /\
              PST_IS_SET st n PST_MMREQUEST = true /\
              mm_chain st (next_request (p_mm_request (procs st n))) l
  end.
Definition mm_requests st (l : list Z) : Prop := NoDup l /\ mm_chain st (mmrequest st) l.

Lemma mm_chain_suspended st o l n : mm_chain st o l -> n ∈ l -> PST_IS_SET st n PST_MMREQUEST = true.
Proof.
  revert o. induction l as [|x l IH]; intros o; [intros _ Hx; by apply elem_of_nil in Hx|].
  intros (_ & _ & Hs & Hl) [->|Hx]%elem_of_cons; [done|by eapply IH].
Qed.

Lemma mm_chain_ext st st' o l :
  (forall n, n ∈ l -> PST_IS_SET st' n PST_MMREQUEST = PST_IS_SET st n PST_MMREQUEST /\
                      req_type (p_mm_request (procs st' n)) = req_type (p_mm_request (procs st n)) /\
                      next_request (p_mm_request (procs st' n)) = next_request (p_mm_request (procs st n))) ->
  mm_chain st o l -> mm_chain st' o l.
Proof.
  revert o. induction l as [|x l IH]; intros o Hext; [done|].
  cbn. destruct (Hext x) as (-> & -> & ->); [by left|]. intros (-> & -> & -> & Hl). split_and!; try done.
  apply IH; [|done]. intros n Hn. apply Hext. by right.
Qed.

(** The request that [mm_suspend] files. *)
Definition filed st (caller target laddr bytes write type : Z) : Prop :=
  let rq := p_mm_request (procs st caller) in
  req_type rq = MMREQ_CHECK /\ rq_type rq = type /\ rq_target rq = target /\
  check_start rq = laddr /\ check_len rq = bytes /\ check_write rq = write.

Lemma ipc_ok_mmrequest cpu st Q o : ipc_ok cpu st Q -> ipc_ok cpu (st <| mmrequest := o |>) Q.
Proof.
  intros [Hwf Hsch Hr Hpr]. assert (ipc_wf (st <| mmrequest := o |>) Q) as Hwf' by (by apply (ipc_wf_procs st)).
  constructor; [done|by apply (sched_wf_ext cpu st)|done|].
  by eapply priv_ok_ext; [exact Hwf|exact Hwf'|..].
Qed.

(** The process table after the request is at the head of the list. *)
Record suspended st st' (caller target laddr bytes write type : Z) : Prop := {
  su_head : mmrequest st' = Some caller;
  su_state : p_state (procs st' caller) = set_flag (p_state (procs st caller)) PST_MMREQUEST;
  su_filed : filed st' caller target laddr bytes write type;
  su_next : next_request (p_mm_request (procs st' caller)) = mmrequest st;
  su_ep : p_endpoint (procs st' caller) = p_endpoint (procs st caller);
  su_others n : n <> caller -> procs st' n = procs st n
}.

Lemma mm_requests_suspended st st' l caller target laddr bytes write type :
  suspended st st' caller target laddr bytes write type ->
  PST_IS_SET st caller PST_MMREQUEST = false -> mm_requests st l -> mm_requests st' (caller :: l).
Proof.
  intros Hsu Hns [Hnd Hch].
  assert (caller ∉ l) as Hnin.
  { intros Hin. by rewrite (mm_chain_suspended _ _ _ _ Hch Hin) in Hns. }
  split; [by constructor|]. split_and!; [apply Hsu|apply Hsu|..].
  - unfold PST_IS_SET. rewrite (su_state _ _ _ _ _ _ _ _ Hsu). by apply has_flag_set_same.
  - rewrite (su_next _ _ _ _ _ _ _ _ Hsu). eapply mm_chain_ext; [|done].
    intros n Hn. unfold PST_IS_SET. rewrite (su_others _ _ _ _ _ _ _ _ Hsu); [done|congruence].
Qed.

Lemma mm_requests_notify st st' l : notify_frame st st' -> mm_requests st l -> mm_requests st' l.
Proof.
  intros Hf [Hnd Hch]. split; [done|]. rewrite (nf_mmrequest _ _ Hf). eapply mm_chain_ext; [|done].
  intros n _. by rewrite (nf_pst _ _ Hf), (nf_mm _ _ Hf).
Qed.

Lemma mm_suspend_spec cpu st Q l caller target laddr bytes write type :
  ipc_ok cpu st Q -> live st SYSTEM -> p_endpoint (procs st SYSTEM) = SYSTEM ->
  live st TASK_MM -> p_endpoint (procs st TASK_MM) = TASK_MM ->
  live st caller -> p_endpoint (procs st caller) <> TASK_MM ->
  PST_IS_SET st caller PST_MMREQUEST = false -> mm_requests st l ->
  exists st', mm_suspend cpu caller target laddr bytes write type st = Ret st' /\ ipc_ok cpu st' Q /\
    mm_requests st' (caller :: l) /\ PST_IS_SET st' caller PST_MMREQUEST = true /\
    filed st' caller target laddr bytes write type /\
    p_endpoint (procs st' caller) = p_endpoint (procs st caller) /\
    (l = [] -> told st' TASK_MM SIGKMEM).
Proof.
  intros Hok Hs Hse Hmm Hmme Hl Hne Hns [Hnd Hch]. unfold mm_suspend.
  rewrite (proj2 (Z.eqb_neq _ _) Hne). cbv zeta. rewrite (proj1 (mmrequest_PST _ _ _ _)).
  set (st1 := PST_SET_LOCKED cpu caller PST_MMREQUEST st).
  assert (ipc_ok cpu st1 Q) as Hok1 by (by apply ipc_ok_set).
  set (st2 := upd_proc caller _ st1).
  assert (ipc_ok cpu st2 Q) as Hok2 by (apply ipc_ok_upd; [done|apply Hok1|done]).
  assert (forall n, procs st2 n =
    if decide (caller = n) then
      (procs st n) <| p_state ::= fun s => set_flag s PST_MMREQUEST |>
        <| p_mm_request ::= fun r =>
             r <| req_type := MMREQ_CHECK |> <| rq_type := type |> <| rq_target := target |>
               <| check_start := laddr |> <| check_len := bytes |> <| check_write := write |>
               <| next_request := mmrequest st |> |>
    else procs st n) as Hp2.
  { intros n. unfold st2, st1. rewrite procs_upd_proc, !procs_PST_SET.
    destruct (decide (caller = n)) as [<-|]; [|done]. by rewrite decide_True. }
  assert (mmrequest st2 = mmrequest st) as Hm2 by (apply mmrequest_PST). clearbody st2. clear st1 Hok1.
  set (st3 := st2 <| mmrequest := Some caller |>).
  assert (ipc_ok cpu st3 Q) as Hok3 by (by apply ipc_ok_mmrequest).
  assert (procs st3 = procs st2 /\ mmrequest st3 = Some caller) as [Hp3 Hm3] by done. clearbody st3.
  assert (suspended st st3 caller target laddr bytes write type) as Hsu.
  { constructor; unfold filed; rewrite ?Hp3; [done|..]; intros; rewrite Hp2; by case_decide. }
  assert (forall n, p_endpoint (procs st3 n) = p_endpoint (procs st n)) as He3.
  { intros n. rewrite Hp3, Hp2. by case_decide; subst. }
  assert (forall n, live st n -> live st3 n) as Hl3.
  { intros n Hn. apply (live_ext st); [done| |exact (iw_free _ _ (ok_ipc _ _ _ Hok) n)|done].
    rewrite Hp3, Hp2. case_decide; subst; cbn; by rewrite ?has_flag_set_other. }
  pose proof (mm_requests_suspended _ _ _ _ _ _ _ _ _ Hsu Hns (conj Hnd Hch)) as Hrq.
  assert (PST_IS_SET st3 caller PST_MMREQUEST = true) as Hset.
  { eapply mm_chain_suspended; [apply Hrq|by left]. }
  clear Hp2 Hp3 Hm2. destruct (mmrequest st) as [h|] eqn:Hh.
  { exists st3. split_and!; try done; [exact (su_filed _ _ _ _ _ _ _ _ Hsu)|]. intros ->. discriminate Hch. }
  destruct (send_sig_spec cpu st3 Q TASK_MM SIGKMEM) as (st' & -> & Hok' & Hf & Ht);
    [done|by apply Hl3|by rewrite He3|done|by apply Hl3|by rewrite He3|].
  rewrite res_ret_bind. cbv beta iota zeta. exists st'. split_and!; try done.
  - by apply (mm_requests_notify st3).
  - by rewrite (nf_pst _ _ Hf).
  - pose proof (su_filed _ _ _ _ _ _ _ _ Hsu) as Hfi. unfold filed in *. by rewrite (nf_mm _ _ Hf).
  - by rewrite (nf_ep _ _ Hf).
Qed.

(** The memory manager takes the request at the head. *)
Lemma vmctl_get_mmreq_spec cpu st Q l m n :
  ipc_ok cpu st Q -> mm_requests st (n :: l) ->
  exists st' m', vmctl_get_mmreq m st = Ret (st', m', MMREQ_CHECK) /\ ipc_ok cpu st' Q /\
    mm_requests st' l /\
    (let rq := p_mm_request (procs st n) in
     m3i4 (m_u m') = p_endpoint (procs st n) /\ m3i1 (m_u m') = rq_target rq /\
     m3p1 (m_u m') = check_start rq /\ m3i2 (m_u m') = wraps 32 (check_len rq) /\
     m3i3 (m_u m') = check_write rq) /\
    PST_IS_SET st' n PST_MMREQUEST = true /\
    p_state (procs st' n) = p_state (procs st n) /\
    forall k, k <> n -> procs st' k = procs st k.
Proof.
  intros Hok (Hnd & Hh & Ht & Hs & Hl). unfold vmctl_get_mmreq. rewrite Hh, Ht. cbn [negb Z.eqb]. cbv zeta.
  change (negb (MMREQ_CHECK =? MMREQ_CHECK)) with false. cbv iota.
  set (st1 := upd_proc n _ st).
  assert (ipc_ok cpu st1 Q) as Hok1 by (apply ipc_ok_upd; [done|apply Hok|done]).
  assert (procs st1 n = (procs st n) <| p_mm_request ::= fun r => r <| rq_result := MMSUSPEND |> |>) as Hp
    by apply procs_upd_proc_eq.
  assert (forall k, k <> n -> procs st1 k = procs st k) as Hne.
  { intros k Hk. unfold st1. by rewrite procs_upd_proc_ne. }
  clearbody st1. do 2 eexists. split; [reflexivity|]. split; [by apply ipc_ok_mmrequest|].
  nodup_simpl. split_and!; try done.
  - split; [done|]. eapply (mm_chain_ext st); [|done]. intros k Hk. unfold PST_IS_SET. cbn.
    rewrite Hne; [done|congruence].
  - unfold PST_IS_SET. cbn. by rewrite Hp.
  - cbn. by rewrite Hp.
Qed.

(** A request that was taken is answered: the call is made again. *)
Lemma vmctl_reply_mmreq_spec cpu st Q m n :
  ipc_ok cpu st Q -> rq_type (p_mm_request (procs st n)) = MMREQ_TYPE_SYSCALL ->
  exists st', vmctl_reply_mmreq cpu n m st = Ret (st', m, 0) /\ ipc_ok cpu st' Q /\
    PST_IS_SET st' n PST_MMREQUEST = false /\
    has_flag (p_flags (procs st' n)) PF_RESUME_SYSCALL = true /\
    check_mm_result st' (Some n) = m3i3 (m_u m).
Proof.
  intros Hok Ht. unfold vmctl_reply_mmreq, check_mm_result. rewrite procs_upd_proc_eq.
  set (st1 := upd_proc n _ st).
  assert (ipc_ok cpu st1 Q) as Hok1 by (apply ipc_ok_upd; [done|apply Hok|done]).
  assert (rq_result (p_mm_request (procs st1 n)) = m3i3 (m_u m)) as Hr.
  { unfold st1. by rewrite procs_upd_proc_eq. }
  clearbody st1. cbn [p_mm_request]. change (rq_type _) with (rq_type (p_mm_request (procs st n))).
  rewrite Ht. change (MMREQ_TYPE_SYSCALL =? MMREQ_TYPE_SYSCALL) with true. cbv iota.
  rewrite res_ret_bind. cbv beta. eexists. split; [reflexivity|]. split.
  { apply ipc_ok_unset; [done..|]. apply ipc_ok_upd; [done| |done].
    cbn. rewrite has_flag_set_other by done. apply Hok1. }
  unfold PST_IS_SET. rewrite procs_PST_UNSET, decide_True, procs_upd_proc_eq by done. cbn.
  rewrite has_flag_clear_same, has_flag_set_same by done. done.
Qed.
End signals.

(** A kill reaches the process manager. For a live target with a signal
    number in range, [sys_kill] returns 0 and keeps the invariants of message
    passing; the signal is pending, the target cannot run before the process
    manager is done with it, the process manager is told unless it was told
    before, and the signals of other processes stay as they were. *)
Theorem kill_reaches_manager {mem} `{!UserMemory mem} cpu (st : kstate mem) Q m caller p :
  ipc_ok cpu st Q -> live st SYSTEM -> p_endpoint (procs st SYSTEM) = SYSTEM ->
  live st TASK_PM -> p_endpoint (procs st TASK_PM) = TASK_PM ->
  live st p -> signals_ok st p ->
  m3i4 (m_u m) = p_endpoint (procs st p) -> 0 <= p_endpoint (procs st p) -> 0 <= m3i1 (m_u m) < NSIG ->
  exists st', sys_kill cpu m caller st = Ret (st', m, 0) /\ ipc_ok cpu st' Q /\
              signaled st st' p (m3i1 (m_u m)).
Proof. apply sys_kill_spec. Qed.

(** C10: signals are collected once. [sys_getksig] answers with one signaled
    process and all its signals, or that there is none, and leaves the process
    blocked; [sys_endksig] lets a process go on exactly when no signal came
    meanwhile. Both keep the invariants. *)
Theorem signals_collected {mem} `{!UserMemory mem} cpu (st : kstate mem) Q m caller :
  ipc_ok cpu st Q -> (forall n, signals_ok st n) ->
  (exists st' m', sys_getksig cpu m caller st = Ret (st', m', 0) /\ ipc_ok cpu st' Q /\
    (forall n, signals_ok st' n) /\ getksig_outcome st st' m') /\
  (forall p, live st p -> m3i4 (m_u m) = p_endpoint (procs st p) ->
   exists st' r, sys_endksig cpu m caller st = Ret (st', m, r) /\ ipc_ok cpu st' Q /\
    (forall n, signals_ok st' n) /\
    PST_IS_SET st' p PST_SIG_PENDING = PST_IS_SET st p PST_SIGNALED /\
    (r = 0 <-> PST_IS_SET st p PST_SIG_PENDING = true) /\
    (p_sig_pending (procs st' p) <> 0 -> PST_IS_SET st' p PST_SIG_PENDING = true)).
Proof.
  intros Hok Hs. split; [by apply sys_getksig_spec|]. intros p. by apply sys_endksig_spec.
Qed.


(** Requests to the memory manager. [mm_suspend] blocks the caller, puts
    its request at the head of the list and signals the memory manager when the
    list was empty; the next [VMCTL_GET_MMREQ] returns that request, with the
    caller still blocked, and leaves the list that was there before. *)
Theorem mm_request_list {mem} `{!UserMemory mem} cpu (st : kstate mem) Q l m caller target laddr bytes write type :
  ipc_ok cpu st Q -> live st SYSTEM -> p_endpoint (procs st SYSTEM) = SYSTEM ->
  live st TASK_MM -> p_endpoint (procs st TASK_MM) = TASK_MM ->
  live st caller -> p_endpoint (procs st caller) <> TASK_MM ->
  PST_IS_SET st caller PST_MMREQUEST = false -> mm_requests st l ->
  exists st1 st2 m', mm_suspend cpu caller target laddr bytes write type st = Ret st1 /\
    ipc_ok cpu st1 Q /\ mm_requests st1 (caller :: l) /\ (l = [] -> told st1 TASK_MM SIGKMEM) /\
    vmctl_get_mmreq m st1 = Ret (st2, m', MMREQ_CHECK) /\ ipc_ok cpu st2 Q /\ mm_requests st2 l /\
    PST_IS_SET st2 caller PST_MMREQUEST = true /\
    m3i4 (m_u m') = p_endpoint (procs st caller) /\ m3i1 (m_u m') = target /\
    m3p1 (m_u m') = laddr /\ m3i2 (m_u m') = wraps 32 bytes /\ m3i3 (m_u m') = write.
Proof.
  intros Hok Hs Hse Hmm Hmme Hl Hne Hns Hrq.
  destruct (mm_suspend_spec cpu st Q l caller target laddr bytes write type)
    as (st1 & He & Hok1 & Hrq1 & _ & Hf & Hep & Ht); [done..|].
  destruct (vmctl_get_mmreq_spec cpu st1 Q l m caller)
    as (st2 & m' & Hg & Hok2 & Hrq2 & (H1 & H2 & H3 & H4 & H5) & Hs2 & _); [done..|].
  destruct Hf as (_ & _ & Hf1 & Hf2 & Hf3 & Hf4).
  exists st1, st2, m'. split_and!; congruence || done.
Qed.

(** ** Witnesses *)

Lemma demo_live n : n ∈ [SYSTEM; TASK_MM; TASK_PM; 5; 6] -> live demo0 n /\ p_endpoint (procs demo0 n) = n.
Proof.
  intros Hn. unfold live, demo0. rewrite demo_procs.
  repeat (apply elem_of_cons in Hn as [->|Hn]; [by vm_compute|]). by apply elem_of_nil in Hn.
Qed.

Lemma demo_signals_ok n : signals_ok demo0 n.
Proof.
  unfold signals_ok, PST_IS_SET, demo0. rewrite demo_procs. by repeat case_decide.
Qed.

Definition demo_kill : MESSAGE := reset_msg <| m_u := mk_mess3 9 0 0 6 0 0 0 0 [] |>.

Lemma kill_witness :
  exists st', sys_kill 0 demo_kill 5 demo0 = Ret (st', demo_kill, 0) /\ ipc_ok 0 st' (fun _ => []) /\
              signaled demo0 st' 6 9.
Proof.
  apply (kill_reaches_manager 0 demo0 (fun _ => []) demo_kill 5 6).
  - apply demo_state_ok.
  - apply demo_live. set_solver.
  - apply demo_live. set_solver.
  - apply demo_live. set_solver.
  - apply demo_live. set_solver.
  - apply demo_live. set_solver.
  - apply demo_signals_ok.
  - unfold demo0. rewrite demo_procs. reflexivity.
  - unfold demo0. rewrite demo_procs. discriminate.
  - split; [discriminate|reflexivity].
Defined.

Lemma collected_witness :
  exists st' m', sys_getksig 0 demo_kill 5 demo0 = Ret (st', m', 0) /\ ipc_ok 0 st' (fun _ => []).
Proof.
  destruct (signals_collected 0 demo0 (fun _ => []) demo_kill 5) as [(st' & m' & He & Hok & _) _].
  - apply demo_state_ok.
  - apply demo_signals_ok.
  - exists st', m'. split; [exact He|exact Hok].
Defined.


Lemma mm_request_witness :
  exists st1, mm_suspend 0 5 5 4096 80 1 MMREQ_TYPE_SYSCALL demo0 = Ret st1 /\ mm_requests st1 [5].
Proof.
  destruct (mm_request_list 0 demo0 (fun _ => []) [] demo_kill 5 5 4096 80 1 MMREQ_TYPE_SYSCALL)
    as (st1 & st2 & m' & He & _ & Hrq & _).
  - apply demo_state_ok.
  - apply demo_live. set_solver.
  - apply demo_live. set_solver.
  - apply demo_live. set_solver.
  - apply demo_live. set_solver.
  - apply demo_live. set_solver.
  - unfold demo0. rewrite demo_procs. discriminate.
  - unfold PST_IS_SET, demo0. rewrite demo_procs. reflexivity.
  - split; [constructor|reflexivity].
  - exists st1. split; [exact He|exact Hrq].
Defined.
