(* ===== verification/Grant.v ===== *)
(** * Memory grants

    A process lets others copy from or to a part of its memory with an entry of
    its grant table. The table and its entries are kept by the library of the
    granting process (lib/liblyos/mgrant.c); the kernel verifies a grant before
    it copies (kernel/system/sys_safecopy.c) or translates an address
    (kernel/system/sys_umap.c). *)

From S2P Require Import Prelude Kernel Sched Ipc System.

Definition MGF_READ : Z := 1.
Definition MGF_WRITE : Z := 2.
Definition MGF_ACCMODES : Z := Z.lor MGF_READ MGF_WRITE.
Definition MGF_USED : Z := 4.
Definition MGF_DIRECT : Z := 8.
Definition MGF_INDIRECT : Z := 16.
Definition MGF_PROXY : Z := 32.
Definition MGF_VALID : Z := 64.

(** Identifiers: [mgrant_id_t] is an unsigned integer of 32 bits. *)
Definition GRANT_INVALID : Z := wrapu 32 (-1).
Definition GRANT_SHIFT : Z := 20.
Definition GRANT_MAX_SEQ : Z := Z.shiftl 1 (31 - GRANT_SHIFT).
Definition GRANT_MAX_IDX : Z := Z.shiftl 1 GRANT_SHIFT.
Definition GRANT_ID (idx seq : Z) : Z := wrapu 32 (Z.lor (Z.shiftl seq GRANT_SHIFT) idx).
Definition GRANT_SEQ (g : Z) : Z := Z.land (Z.shiftr g GRANT_SHIFT) (GRANT_MAX_SEQ - 1).
Definition GRANT_IDX (g : Z) : Z := Z.land g (GRANT_MAX_IDX - 1).

(** An entry: [flags], [seq] and the union, as the integers at offsets 0 and 4
    and the words at offsets 8 and 16 of it. *)
Record mgrant_t := mk_mgrant {
  mg_flags : Z; mg_seq : Z;
  mg_u0 : Z; mg_u4 : Z; mg_u8 : Z; mg_u16 : Z
}.
#[export] Instance rebuild_mgrant : Rebuild mgrant_t := fun g =>
  mk_mgrant (mg_flags g) (mg_seq g) (mg_u0 g) (mg_u4 g) (mg_u8 g) (mg_u16 g).
Definition sizeof_mgrant : Z := 32.

Definition direct_to (g : mgrant_t) : Z := mg_u0 g.
Definition direct_addr (g : mgrant_t) : Z := mg_u8 g.
Definition direct_len (g : mgrant_t) : Z := mg_u16 g.
Definition indirect_to (g : mgrant_t) : Z := mg_u0 g.
Definition indirect_from (g : mgrant_t) : Z := mg_u4 g.
Definition indirect_grant (g : mgrant_t) : Z := wrapu 32 (mg_u8 g).
Definition proxy_from (g : mgrant_t) : Z := mg_u0 g.
Definition proxy_to (g : mgrant_t) : Z := mg_u4 g.
Definition proxy_addr (g : mgrant_t) : Z := mg_u8 g.
Definition proxy_len (g : mgrant_t) : Z := mg_u16 g.

(** ** Verification of a grant *)

Definition MAX_INDIRECT_DEPTH : nat := 5.
Definition KERNEL_VMA : Z := 0xffffffff80000000.
Definition UMT_GRANT : Z := 1.
Definition UMT_VADDR : Z := 2.

Section verify.
Context {mem : Type} `{!UserMemory mem}.
Implicit Types st : kstate mem.

(** The entry at an address of a process, or of the kernel's own address space
    without one: a read that can fault. *)
Context (read_grant : mem -> option Z -> Z -> option mgrant_t).

(** [data_vir_copy(KERNEL, &grant_entry, granter, a, sizeof(grant_entry))] *)
Definition copy_grant (st : kstate mem) (granter a : Z) : option mgrant_t :=
  match copy_proc st (mk_vir granter a), copy_proc st (mk_vir KERNEL 0) with
  | Some p, Some _ => read_grant (kmem st) p a
  | _, _ => None
  end.

(** The entry a grant stands for, with the privilege structure of its granter,
    or the error. *)
Definition fetch_grant (st : kstate mem) (granter grant : Z) : Z * mgrant_t + Z :=
  if grant =? GRANT_INVALID then inr EINVAL
  else
    match endpt_proc st granter with
    | None => inr EINVAL
    | Some granter_proc =>
        match p_priv (procs st granter_proc) with
        | None => inr EPERM
        | Some id =>
            let granter_priv := privs st id in
            if negb (pr_grant_endpoint granter_priv =? p_endpoint (procs st granter_proc)) then inr EAGAIN
            else if pr_grant_table granter_priv =? 0 then inr EPERM
            else
              let grant_idx := GRANT_IDX grant in
              if pr_grant_entries granter_priv <=? grant_idx then inr EPERM
              else
                match copy_grant st granter
                        (wrapu 64 (pr_grant_table granter_priv + grant_idx * sizeof_mgrant)) with
                | None => inr EPERM
                | Some e =>
                    let live := Z.lor MGF_USED MGF_VALID in
                    if negb (Z.land (mg_flags e) live =? live) then inr EPERM
                    else if negb (mg_seq e =? GRANT_SEQ grant) then inr EPERM
                    else inl (id, e)
                end
        end
    end.

(** [to] may use the grant. *)
Definition granted_to (to grantee : Z) : bool :=
  (to =? grantee) || (grantee =? ANY) || (to =? ANY).

(** The loop over indirect grants, with the number of them that may still
    follow: the last granter, the grantee there, and the entry. *)
Fixpoint grant_loop (depth : nat) (st : kstate mem) (granter grantee grant : Z)
  : Z * Z * Z * mgrant_t + Z :=
  match fetch_grant st granter grant with
  | inr err => inr err
  | inl (id, e) =>
      if has_flag (mg_flags e) MGF_INDIRECT then
        match depth with
        | O => inr ELOOP
        | S depth =>
            if negb (granted_to (indirect_to e) grantee) then inr EPERM
            else grant_loop depth st (indirect_from e) granter (indirect_grant e)
        end
      else inl (granter, grantee, id, e)
  end.

(** The bytes asked for are not in a grant of [len] bytes: the sum is one of
    unsigned words. *)
Definition out_of_grant (offset bytes len : Z) : bool :=
  (wrapu 64 (offset + bytes) <? offset) || (len <? wrapu 64 (offset + bytes)).

(** The checks of the entry the loop ends at: [*voffset] and [*new_granter], or
    the error. *)
Definition check_entry (st : kstate mem) (granter grantee id : Z) (e : mgrant_t) (bytes access offset : Z)
  : Z * Z + Z :=
  if negb (Z.land (mg_flags e) access =? access) then inr EPERM
  else if has_flag (mg_flags e) MGF_DIRECT then
    if wrapu 64 (KERNEL_VMA - direct_len e + 1) <? direct_addr e then inr EPERM
    else if negb (granted_to (direct_to e) grantee) then inr EPERM
    else if out_of_grant offset bytes (direct_len e) then inr EPERM
    else inl (wrapu 64 (direct_addr e + offset), granter)
  else if has_flag (mg_flags e) MGF_PROXY then
    if negb (has_flag (pr_flags (privs st id)) PRF_ALLOW_PROXY_GRANT) then inr EPERM
    else if negb (granted_to (proxy_to e) grantee) then inr EPERM
    else if out_of_grant offset bytes (proxy_len e) then inr EPERM
    else inl (wrapu 64 (proxy_addr e + offset), proxy_from e)
  else inr EPERM.

Definition verify_grant (st : kstate mem) (granter grantee grant bytes access offset : Z) : Z * Z + Z :=
  match grant_loop MAX_INDIRECT_DEPTH st granter grantee grant with
  | inr err => inr err
  | inl (granter, grantee, id, e) => check_entry st granter grantee id e bytes access offset
  end.

(** ** Copies through grants *)

Context (la_la_copy : mem -> option Z -> Z -> option Z -> Z -> Z -> mem * Z).

Definition safecopy (cpu caller granter grantee grant bytes offset a access : Z) (st : kstate mem)
  : res (kstate mem * Z) :=
  if (granter =? NO_TASK) || (grantee =? NO_TASK) then Ret (st, EFAULT)
  else
    match verify_grant st granter grantee grant bytes access offset with
    | inr err => Ret (st, err)
    | inl (voffset, new_granter) =>
        if has_flag access MGF_READ then
          _vir_copy la_la_copy cpu (Some caller) (mk_vir grantee a) (mk_vir new_granter voffset) bytes true st
        else
          _vir_copy la_la_copy cpu (Some caller) (mk_vir new_granter voffset) (mk_vir grantee a) bytes true st
    end.

(** The payload of the calls. *)
Record mess_safecopy := mk_mess_safecopy {
  sc_src_dest : Z; sc_grant : Z; sc_offset : Z; sc_addr : Z; sc_len : Z
}.

Definition sys_safecopyfrom (cpu : Z) (msg : mess_safecopy) (p_proc : Z) (st : kstate mem)
  : res (kstate mem * Z) :=
  safecopy cpu p_proc (sc_src_dest msg) (p_endpoint (procs st p_proc)) (sc_grant msg) (sc_len msg)
    (wrapu 64 (sc_offset msg)) (sc_addr msg) MGF_READ st.

Definition sys_safecopyto (cpu : Z) (msg : mess_safecopy) (p_proc : Z) (st : kstate mem)
  : res (kstate mem * Z) :=
  safecopy cpu p_proc (sc_src_dest msg) (p_endpoint (procs st p_proc)) (sc_grant msg) (sc_len msg)
    (wrapu 64 (sc_offset msg)) (sc_addr msg) MGF_WRITE st.

(** [sys_umap]; [va2pa] walks the page tables of a process. *)
Definition sys_umap (va2pa : kstate mem -> Z -> Z -> Z) (m : MESSAGE) (p : Z) (st : kstate mem)
  : MESSAGE * Z :=
  let ep := if m3i1 (m_u m) =? SELF then p_endpoint (procs st p) else m3i1 (m_u m) in
  let grantee := p_endpoint (procs st p) in
  let offset := m3p1 (m_u m) in
  let answer target src_addr :=
    (m <| m_u ::= fun u => u <| m3p2 := va2pa st (p_endpoint (procs st target)) src_addr |> |>, 0) in
  match endpt_proc st ep with
  | None => (m, EINVAL)
  | Some target_proc =>
      if m3i2 (m_u m) =? UMT_GRANT then
        match verify_grant st (p_endpoint (procs st target_proc)) grantee (wrapu 32 offset)
                (wrapu 64 (m3l1 (m_u m))) 0 0 with
        | inr err => (m, err)
        | inl (new_offset, new_granter) =>
            match endpt_proc st new_granter with
            | None => (m, EFAULT)
            | Some target_proc => answer target_proc new_offset
            end
        end
      else if m3i2 (m_u m) =? UMT_VADDR then answer target_proc offset
      else (m, EINVAL)
  end.
End verify.

(** ** The table of the granting process

    The table is a block of entries: the static one, or one from the heap. The
    free list links entries, which are pairs of a block and an index; the links
    lie in the unions of entries that are not in use, which the model does not
    read otherwise. A pointer into a block that was freed is [BadPtr]. *)

Definition NR_STATIC_GRANTS : Z := 20.
Definition STATIC_BLOCK : Z := 0.
Definition zero_mgrant : mgrant_t := mk_mgrant 0 0 0 0 0 0.

Record mgrants := mk_mgrants {
  mg_blocks : gmap Z (list mgrant_t);
  mg_table : option Z;
  mg_size : Z;
  mg_free : list (Z * Z)
}.
#[export] Instance rebuild_mgrants : Rebuild mgrants := fun s =>
  mk_mgrants (mg_blocks s) (mg_table s) (mg_size s) (mg_free s).

Definition init_mgrants : mgrants :=
  mk_mgrants {[ STATIC_BLOCK := replicate (Z.to_nat NR_STATIC_GRANTS) zero_mgrant ]} None 0 [].

Section library.
(** [malloc] of a number of entries gives a fresh block or nothing; [setgrant]
    is the kernel call. *)
Context (malloc : mgrants -> Z -> option Z) (setgrant : Z -> Z -> Z).

Definition entries_of (s : mgrants) (b : Z) : list mgrant_t := default [] (mg_blocks s !! b).

(** The entries from [size] on are reset and linked, each in front. *)
Definition new_slots (b size new_size : Z) : list (Z * Z) :=
  reverse ((fun i => (b, i)) <$> seqZ size (new_size - size)).

Definition install_grants (b new_size : Z) (s : mgrants) : mgrants :=
  let old := match mg_table s with
             | Some t => take (Z.to_nat (mg_size s)) (entries_of s t)
             | None => []
             end in
  let entries := old ++ replicate (Z.to_nat (new_size - mg_size s)) zero_mgrant in
  let s := s <| mg_blocks ::= <[b := entries]> |> <| mg_free := new_slots b (mg_size s) new_size |> in
  if negb (setgrant b new_size =? 0) then
    if negb (b =? STATIC_BLOCK) then s <| mg_blocks ::= delete b |> else s
  else
    let s := match mg_table s with
             | Some t => if negb (t =? STATIC_BLOCK) then s <| mg_blocks ::= delete t |> else s
             | None => s
             end in
    s <| mg_table := Some b |> <| mg_size := new_size |>.

Definition alloc_grants (count : Z) (s : mgrants) : mgrants :=
  let s := s <| mg_free := [] |> in
  let grow new_size :=
    match malloc s new_size with
    | None => s
    | Some b => install_grants b new_size s
    end in
  if bool_decide (mg_table s = None) && (count <=? NR_STATIC_GRANTS) then
    install_grants STATIC_BLOCK NR_STATIC_GRANTS s
  else if negb (count =? 0) then
    if GRANT_MAX_IDX <=? count then s
    else
      let left := wrapu 64 (GRANT_MAX_IDX - mg_size s) in
      grow (wrapu 64 (mg_size s + (if left <? count then left else count)))
  else grow (wrapu 64 ((1 + mg_size s) * 2)).

Definition alloc_slot (s : mgrants) : mgrants * option (Z * Z) :=
  let s := if bool_decide (mg_free s = []) then alloc_grants 0 s else s in
  match mg_free s with
  | [] => (s, None)
  | g :: rest => (s <| mg_free := rest |>, Some g)
  end.

(** Writes through a pointer to an entry. *)
Definition write_slot (g : Z * Z) (f : mgrant_t -> mgrant_t) (s : mgrants) : res (mgrants * mgrant_t) :=
  match mg_blocks s !! g.1 with
  | None => Crash BadPtr
  | Some l =>
      match l !! Z.to_nat g.2 with
      | None => Crash BadPtr
      | Some e => Ret (s <| mg_blocks ::= <[g.1 := <[Z.to_nat g.2 := f e]> l]> |>, f e)
      end
  end.

(** The common part of the three calls: [g - grants] is defined for a pointer
    into the table. *)
Definition set_grant (f : mgrant_t -> mgrant_t) (s : mgrants) : res (mgrants * Z) :=
  let '(s, g) := alloc_slot s in
  match g with
  | None => Ret (s, GRANT_INVALID)
  | Some g =>
      '(s, e) ← write_slot g f s;
      if bool_decide (mg_table s = Some g.1) then Ret (s, GRANT_ID g.2 (mg_seq e)) else Crash BadPtr
  end.

Definition mgrant_set_direct (to a size access : Z) : mgrants -> res (mgrants * Z) :=
  set_grant (fun g =>
    g <| mg_u0 := to |> <| mg_u8 := a |> <| mg_u16 := size |>
      <| mg_flags := Z.lor (Z.lor (Z.lor MGF_USED MGF_VALID) MGF_DIRECT) (Z.land access MGF_ACCMODES) |>).

Definition mgrant_set_indirect (to from grant : Z) : mgrants -> res (mgrants * Z) :=
  set_grant (fun g =>
    g <| mg_u0 := to |> <| mg_u4 := from |>
      <| mg_u8 ::= fun w => Z.lor (Z.shiftl (Z.shiftr w 32) 32) (wrapu 32 grant) |>
      <| mg_flags := Z.lor (Z.lor MGF_USED MGF_VALID) MGF_INDIRECT |>).

Definition mgrant_set_proxy (to from a size access : Z) : mgrants -> res (mgrants * Z) :=
  set_grant (fun g =>
    g <| mg_u4 := to |> <| mg_u0 := from |> <| mg_u8 := a |> <| mg_u16 := size |>
      <| mg_flags := Z.lor (Z.lor (Z.lor MGF_USED MGF_VALID) MGF_PROXY) (Z.land access MGF_ACCMODES) |>).

(** Linking an entry that is on the list already breaks the list. *)
Definition mgrant_revoke (grant : Z) (s : mgrants) : res (mgrants * Z) :=
  let idx := GRANT_IDX grant in
  match mg_table s with
  | None => Crash NullDeref
  | Some b =>
      '(s, _) ← write_slot (b, idx) (fun g =>
        g <| mg_flags := 0 |>
          <| mg_seq ::= fun q => if q <? GRANT_MAX_SEQ - 1 then q + 1 else 0 |>) s;
      if bool_decide ((b, idx) ∈ mg_free s) then Crash BadPtr
      else Ret (s <| mg_free ::= cons (b, idx) |>, 0)
  end.
End library.

(** ** Identifiers *)

Lemma grant_id_bits idx seq :
  0 <= idx < GRANT_MAX_IDX -> 0 <= seq < GRANT_MAX_SEQ -> GRANT_ID idx seq = seq * 2 ^ 20 + idx.
Proof.
  unfold GRANT_ID, GRANT_MAX_IDX, GRANT_MAX_SEQ, GRANT_SHIFT, wrapu. intros Hi Hs.
  change (Z.shiftl 1 20) with (2 ^ 20) in Hi. change (Z.shiftl 1 (31 - 20)) with 2048 in Hs.
  rewrite lor_shiftl_add by lia. apply Z.mod_small. lia.
Qed.

Lemma grant_id_parts idx seq :
  0 <= idx < GRANT_MAX_IDX -> 0 <= seq < GRANT_MAX_SEQ ->
  GRANT_IDX (GRANT_ID idx seq) = idx /\ GRANT_SEQ (GRANT_ID idx seq) = seq /\
  GRANT_ID idx seq <> GRANT_INVALID.
Proof.
  intros Hi Hs. rewrite grant_id_bits by done. revert Hi Hs. unfold GRANT_IDX, GRANT_SEQ.
  change (GRANT_MAX_IDX - 1) with (Z.ones 20). change (GRANT_MAX_SEQ - 1) with (Z.ones 11).
  change GRANT_MAX_IDX with (2 ^ 20). change GRANT_MAX_SEQ with (2 ^ 11). change GRANT_INVALID with (2 ^ 32 - 1).
  unfold GRANT_SHIFT. intros Hi Hs. rewrite !Z.land_ones, Z.shiftr_div_pow2 by done.
  rewrite Z.add_comm, Z.mod_add, Z.div_add, (Z.div_small idx) by done.
  rewrite !Z.mod_small by lia. split_and!; lia.
Qed.
