(* ===== verification/GrantProps.v ===== *)
(** * Properties of memory grants

    The kernel accepts exactly the grants that a chain of entries justifies,
    what it accepts lies in the memory the last granter offered, and the entries
    the library makes are accepted until they are revoked. *)

From S2P Require Import Prelude Kernel Sched Ipc IpcInv IpcProps System Grant.

Section spec.
Context {mem : Type} `{!UserMemory mem}.
Context (read_grant : mem -> option Z -> Z -> option mgrant_t).
Implicit Types st : kstate mem.

(** ** What a grant allows *)

(** The entry gives [access] to [len] bytes to [grantee], and the bytes from
    [offset] are among them. *)
Definition offers (e : mgrant_t) (access grantee to len offset bytes : Z) : Prop :=
  Z.land (mg_flags e) access = access /\ (to = grantee \/ grantee = ANY \/ to = ANY) /\
  offset + bytes <= len.

(** [granted d granter grantee grant v g]: through [d] indirect grants, [grant]
    of [granter] lets [grantee] access the bytes at [v] of [g]. *)
Inductive granted st (access offset bytes : Z) : nat -> Z -> Z -> Z -> Z -> Z -> Prop :=
| granted_direct granter grantee grant id e :
    fetch_grant read_grant st granter grant = inl (id, e) ->
    has_flag (mg_flags e) MGF_INDIRECT = false -> has_flag (mg_flags e) MGF_DIRECT = true ->
    offers e access grantee (direct_to e) (direct_len e) offset bytes ->
    direct_addr e <= wrapu 64 (KERNEL_VMA - direct_len e + 1) ->
    granted st access offset bytes 0 granter grantee grant (wrapu 64 (direct_addr e + offset)) granter
| granted_proxy granter grantee grant id e :
    fetch_grant read_grant st granter grant = inl (id, e) ->
    has_flag (mg_flags e) MGF_INDIRECT = false -> has_flag (mg_flags e) MGF_DIRECT = false ->
    has_flag (mg_flags e) MGF_PROXY = true ->
    offers e access grantee (proxy_to e) (proxy_len e) offset bytes ->
    has_flag (pr_flags (privs st id)) PRF_ALLOW_PROXY_GRANT = true ->
    granted st access offset bytes 0 granter grantee grant (wrapu 64 (proxy_addr e + offset)) (proxy_from e)
| granted_indirect d granter grantee grant id e v g :
    fetch_grant read_grant st granter grant = inl (id, e) ->
    has_flag (mg_flags e) MGF_INDIRECT = true ->
    (indirect_to e = grantee \/ grantee = ANY \/ indirect_to e = ANY) ->
    granted st access offset bytes d (indirect_from e) granter (indirect_grant e) v g ->
    granted st access offset bytes (S d) granter grantee grant v g.

(** The entries of memory hold words. *)
Definition entry_words (e : mgrant_t) : Prop :=
  0 <= mg_u8 e < 2 ^ 64 /\ 0 <= mg_u16 e < 2 ^ 64.
Definition words_read : Prop :=
  forall m p a e, read_grant m p a = Some e -> entry_words e.

Lemma granted_to_iff to grantee : granted_to to grantee = true <-> to = grantee \/ grantee = ANY \/ to = ANY.
Proof. unfold granted_to. rewrite !orb_true_iff, !Z.eqb_eq. tauto. Qed.

Lemma out_of_grant_iff offset bytes len :
  0 <= offset < 2 ^ 64 -> 0 <= bytes < 2 ^ 64 -> 0 <= len < 2 ^ 64 ->
  out_of_grant offset bytes len = false <-> offset + bytes <= len.
Proof.
  intros Ho Hb Hl. unfold out_of_grant. rewrite orb_false_iff, !Z.ltb_ge. unfold wrapu.
  destruct (Z.lt_ge_cases (offset + bytes) (2 ^ 64)) as [Hlt|Hge].
  - rewrite Z.mod_small by lia. lia.
  - assert ((offset + bytes) mod 2 ^ 64 = offset + bytes - 2 ^ 64) as ->; [|lia].
    symmetry. apply (Z.mod_unique_pos _ _ 1); lia.
Qed.

Lemma fetch_words st granter grant id e :
  words_read -> fetch_grant read_grant st granter grant = inl (id, e) -> entry_words e.
Proof.
  intros Hw. unfold fetch_grant. repeat case_match; try done. intros [= <- <-].
  unfold copy_grant in *. repeat case_match; try done. eauto.
Qed.

(** ** The checks of an entry *)

Lemma check_direct st gr ge id e bytes access offset v g :
  entry_words e -> 0 <= offset < 2 ^ 64 -> 0 <= bytes < 2 ^ 64 ->
  has_flag (mg_flags e) MGF_DIRECT = true ->
  check_entry st gr ge id e bytes access offset = inl (v, g) <->
  offers e access ge (direct_to e) (direct_len e) offset bytes /\
  direct_addr e <= wrapu 64 (KERNEL_VMA - direct_len e + 1) /\
  v = wrapu 64 (direct_addr e + offset) /\ g = gr.
Proof.
  intros [_ Hl] Ho Hb Hd. unfold check_entry, offers. rewrite Hd.
  rewrite <- granted_to_iff, <- (out_of_grant_iff offset bytes (direct_len e)), <- Z.eqb_eq, <- Z.ltb_ge by done.
  destruct (Z.land _ _ =? _), (_ <? _), (granted_to _ _), (out_of_grant _ _ _); cbn; naive_solver.
Qed.

Lemma check_proxy st gr ge id e bytes access offset v g :
  entry_words e -> 0 <= offset < 2 ^ 64 -> 0 <= bytes < 2 ^ 64 ->
  has_flag (mg_flags e) MGF_DIRECT = false ->
  check_entry st gr ge id e bytes access offset = inl (v, g) <->
  has_flag (mg_flags e) MGF_PROXY = true /\
  offers e access ge (proxy_to e) (proxy_len e) offset bytes /\
  has_flag (pr_flags (privs st id)) PRF_ALLOW_PROXY_GRANT = true /\
  v = wrapu 64 (proxy_addr e + offset) /\ g = proxy_from e.
Proof.
  intros [_ Hl] Ho Hb Hd. unfold check_entry, offers. rewrite Hd.
  rewrite <- granted_to_iff, <- (out_of_grant_iff offset bytes (proxy_len e)), <- Z.eqb_eq by done.
  destruct (Z.land _ _ =? _), (has_flag (mg_flags e) MGF_PROXY), (has_flag (pr_flags _) _),
    (granted_to _ _), (out_of_grant _ _ _); cbn; naive_solver.
Qed.

(** ** The loop over indirect grants *)

Lemma grant_loop_sound st access offset bytes n granter grantee grant gr ge id e v g :
  words_read -> 0 <= offset < 2 ^ 64 -> 0 <= bytes < 2 ^ 64 ->
  grant_loop read_grant n st granter grantee grant = inl (gr, ge, id, e) ->
  check_entry st gr ge id e bytes access offset = inl (v, g) ->
  exists d, (d <= n)%nat /\ granted st access offset bytes d granter grantee grant v g.
Proof.
  intros Hw Ho Hb. revert granter grantee grant.
  induction n as [|n IH]; intros granter grantee grant; cbn;
    destruct (fetch_grant read_grant st granter grant) as [[id' e']|] eqn:Hf; try done;
    destruct (has_flag (mg_flags e') MGF_INDIRECT) eqn:Hi; try done.
  2: { destruct (granted_to (indirect_to e') grantee) eqn:Ht; [|done]. cbn. intros Hl Hc.
       apply granted_to_iff in Ht. destruct (IH _ _ _ Hl Hc) as (d & Hd & Hg).
       exists (S d). split; [lia|]. by eapply granted_indirect. }
  all: intros [= <- <- <- <-] Hc; exists 0%nat; (split; [lia|]); pose proof (fetch_words _ _ _ _ _ Hw Hf) as He;
    (destruct (has_flag (mg_flags e') MGF_DIRECT) eqn:Hd;
     [apply check_direct in Hc as (H1 & H2 & -> & ->); [by eapply granted_direct|done..]
     |apply check_proxy in Hc as (H1 & H2 & H3 & -> & ->); [by eapply granted_proxy|done..]]).
Qed.

Lemma grant_loop_complete st access offset bytes d n granter grantee grant v g :
  words_read -> 0 <= offset < 2 ^ 64 -> 0 <= bytes < 2 ^ 64 -> (d <= n)%nat ->
  granted st access offset bytes d granter grantee grant v g ->
  exists gr ge id e, grant_loop read_grant n st granter grantee grant = inl (gr, ge, id, e) /\
    check_entry st gr ge id e bytes access offset = inl (v, g).
Proof.
  intros Hw Ho Hb Hn Hg. revert n Hn.
  induction Hg as [granter grantee grant id e Hf Hi Hd Hof Ha|granter grantee grant id e Hf Hi Hd Hp Hof Ha
    |d granter grantee grant id e v g Hf Hi Ht _ IH]; intros n Hn.
  - exists granter, grantee, id, e. split; [destruct n; cbn; by rewrite Hf, Hi|].
    pose proof (fetch_words _ _ _ _ _ Hw Hf). by apply check_direct.
  - exists granter, grantee, id, e. split; [destruct n; cbn; by rewrite Hf, Hi|].
    pose proof (fetch_words _ _ _ _ _ Hw Hf). by apply check_proxy.
  - destruct n as [|n]; [lia|]. cbn. rewrite Hf, Hi, (proj2 (granted_to_iff _ _) Ht). cbn.
    apply IH. lia.
Qed.

Lemma verify_grant_spec st granter grantee grant bytes access offset v g :
  words_read -> 0 <= offset < 2 ^ 64 -> 0 <= bytes < 2 ^ 64 ->
  verify_grant read_grant st granter grantee grant bytes access offset = inl (v, g) <->
  exists d, (d <= MAX_INDIRECT_DEPTH)%nat /\ granted st access offset bytes d granter grantee grant v g.
Proof.
  intros Hw Ho Hb. unfold verify_grant. split.
  - destruct (grant_loop _ _ _ _ _ _) as [[[[gr ge] id] e]|] eqn:Hl; [|done].
    by apply grant_loop_sound with (gr := gr) (ge := ge) (id := id) (e := e).
  - intros (d & Hd & Hg).
    destruct (grant_loop_complete _ _ _ _ _ _ _ _ _ _ _ Hw Ho Hb Hd Hg) as (gr & ge & id & e & -> & Hc). done.
Qed.

(** ** Bounds *)

(** The entry that gives access to the bytes at [v] of [g]. *)
Lemma granted_region st access offset bytes d granter grantee grant v g :
  granted st access offset bytes d granter grantee grant v g ->
  exists gr ge gt id e, fetch_grant read_grant st gr gt = inl (id, e) /\
    Z.land (mg_flags e) access = access /\
    ((g = gr /\ offers e access ge (direct_to e) (direct_len e) offset bytes /\
      direct_addr e <= wrapu 64 (KERNEL_VMA - direct_len e + 1) /\ v = wrapu 64 (direct_addr e + offset)) \/
     (g = proxy_from e /\ offers e access ge (proxy_to e) (proxy_len e) offset bytes /\
      has_flag (pr_flags (privs st id)) PRF_ALLOW_PROXY_GRANT = true /\
      v = wrapu 64 (proxy_addr e + offset))).
Proof.
  induction 1 as [granter grantee grant id e Hf Hi Hd Hof Ha|granter grantee grant id e Hf Hi Hd Hp Hof Ha|];
    [| |done]; exists granter, grantee, grant, id, e; split_and!; auto; apply Hof.
Qed.

(** A region that ends below [KERNEL_VMA]: the bytes asked for are in it. *)
Lemma region_bounds a len offset bytes :
  0 <= a -> 0 <= offset -> 0 <= bytes -> 0 <= len <= KERNEL_VMA + 1 -> offset + bytes <= len ->
  a <= wrapu 64 (KERNEL_VMA - len + 1) ->
  wrapu 64 (a + offset) = a + offset /\ a + offset + bytes <= a + len <= KERNEL_VMA + 1.
Proof.
  unfold KERNEL_VMA. intros Ha Ho Hb Hl Hob Hk. rewrite wrapu_small in Hk by lia.
  rewrite wrapu_small by lia. lia.
Qed.
End spec.

(** ** The library's table *)

Definition MGF_LIVE : Z := Z.lor MGF_USED MGF_VALID.

(** The table before the first grant, and the one in use: it lies in block [b]
    and holds [tbl]; the free list has the entries that are not in use. *)
Definition mg_fresh (s : mgrants) : Prop :=
  mg_table s = None /\ mg_size s = 0 /\ mg_free s = [] /\ is_Some (mg_blocks s !! STATIC_BLOCK).

Record mg_wf (s : mgrants) (b : Z) (tbl : list mgrant_t) : Prop := {
  mw_table : mg_table s = Some b;
  mw_block : mg_blocks s !! b = Some tbl;
  mw_size : mg_size s = Z.of_nat (length tbl);
  mw_max : mg_size s <= GRANT_MAX_IDX;
  mw_static : is_Some (mg_blocks s !! STATIC_BLOCK);
  mw_nodup : NoDup (mg_free s);
  mw_free g : g ∈ mg_free s ->
    exists i e, g = (b, Z.of_nat i) /\ tbl !! i = Some e /\ mg_flags e = 0;
  mw_used i e : tbl !! i = Some e ->
    0 <= mg_seq e < GRANT_MAX_SEQ /\
    ((b, Z.of_nat i) ∉ mg_free s -> Z.land (mg_flags e) MGF_LIVE = MGF_LIVE)
}.

(** Entry [i] is in use and holds [e]. *)
Definition in_use (s : mgrants) (i : nat) (e : mgrant_t) : Prop :=
  exists b tbl, mg_wf s b tbl /\ tbl !! i = Some e /\ (b, Z.of_nat i) ∉ mg_free s.

(** What the three calls that make a grant do to an entry. *)
Definition makes_grant (f : mgrant_t -> mgrant_t) : Prop :=
  forall e, mg_seq (f e) = mg_seq e /\ Z.land (mg_flags (f e)) MGF_LIVE = MGF_LIVE.

Lemma mg_wf_range s b tbl i e : mg_wf s b tbl -> tbl !! i = Some e -> 0 <= Z.of_nat i < GRANT_MAX_IDX.
Proof.
  intros Hwf Hi%lookup_lt_Some. pose proof (mw_size _ _ _ Hwf). pose proof (mw_max _ _ _ Hwf). lia.
Qed.

(** The entry at the head of the free list is written and taken off the list. *)
Lemma take_slot_spec f s b tbl g rest :
  makes_grant f -> mg_wf s b tbl -> mg_free s = g :: rest ->
  exists i e s', g = (b, Z.of_nat i) /\ tbl !! i = Some e /\
    write_slot g f (s <| mg_free := rest |>) = Ret (s', f e) /\
    mg_table s' = Some b /\ mg_wf s' b (<[i := f e]> tbl) /\ mg_free s' = rest.
Proof.
  intros Hf Hwf Hg. destruct (mw_free _ _ _ Hwf g) as (i & e & -> & Hi & Hfl); [rewrite Hg; by left|].
  exists i, e. unfold write_slot. cbn. rewrite (mw_block _ _ _ Hwf), Nat2Z.id, Hi.
  eexists. split_and!; try done; [apply Hwf|].
  pose proof (mw_nodup _ _ _ Hwf) as Hnd. rewrite Hg in Hnd. apply NoDup_cons in Hnd as [Hni Hnd].
  pose proof (lookup_lt_Some _ _ _ Hi) as Hlt.
  constructor; cbn; try apply Hwf.
  - by rewrite lookup_insert_eq.
  - rewrite length_insert. apply Hwf.
  - rewrite lookup_insert_is_Some'. right. apply Hwf.
  - done.
  - intros g Hin. destruct (mw_free _ _ _ Hwf g) as (j & e' & -> & Hj & Hfl'); [rewrite Hg; by right|].
    exists j, e'. split; [done|]. split; [|done].
    rewrite list_lookup_insert_ne; [done|]. intros <-. by apply Hni.
  - intros j e' Hj. destruct (decide (i = j)) as [<-|Hne].
    + rewrite list_lookup_insert_eq in Hj by done. injection Hj as <-.
      destruct (Hf e) as [Hs Hl]. rewrite Hs. split; [by apply (mw_used _ _ _ Hwf i)|done].
    + rewrite list_lookup_insert_ne in Hj by done. destruct (mw_used _ _ _ Hwf j e' Hj) as [Hs Hl].
      split; [done|]. intros Hn. apply Hl. rewrite Hg. apply not_elem_of_cons. split; [|done].
      intros [= ?]. lia.
Qed.

(** ** Growing the table *)

(** The table is full: [tbl] holds its entries, none before the first grant. *)
Record mg_full (s : mgrants) (tbl : list mgrant_t) : Prop := {
  mf_free : mg_free s = [];
  mf_size : mg_size s = Z.of_nat (length tbl);
  mf_table : match mg_table s with
             | None => tbl = []
             | Some b => mg_blocks s !! b = Some tbl
             end;
  mf_static : is_Some (mg_blocks s !! STATIC_BLOCK);
  mf_used e : e ∈ tbl -> 0 <= mg_seq e < GRANT_MAX_SEQ /\ Z.land (mg_flags e) MGF_LIVE = MGF_LIVE
}.

Lemma mg_wf_full s b tbl : mg_wf s b tbl -> mg_free s = [] -> mg_full s tbl.
Proof.
  intros Hwf Hf. constructor; [done|apply Hwf| |apply Hwf|].
  - rewrite (mw_table _ _ _ Hwf). apply Hwf.
  - intros e [i Hi]%list_elem_of_lookup. destruct (mw_used _ _ _ Hwf i e Hi) as [Hs Hl].
    split; [done|]. apply Hl. rewrite Hf. apply not_elem_of_nil.
Qed.

Lemma mg_fresh_full s : mg_fresh s -> mg_full s [].
Proof.
  intros (Ht & Hs & Hf & Hb). constructor; try done; [by rewrite Ht|]. intros e He.
  by apply elem_of_nil in He.
Qed.

Lemma new_slots_elem b size new_size g :
  g ∈ new_slots b size new_size <-> g.1 = b /\ size <= g.2 < new_size.
Proof.
  unfold new_slots. rewrite elem_of_reverse, list_elem_of_fmap. split.
  - intros (i & -> & Hi%elem_of_seqZ). cbn. lia.
  - destruct g as [b' i]. cbn. intros [-> Hi]. exists i. split; [done|]. apply elem_of_seqZ. lia.
Qed.

Lemma new_slots_NoDup b size new_size : NoDup (new_slots b size new_size).
Proof.
  unfold new_slots. rewrite reverse_Permutation. apply NoDup_fmap_2; [intros ?? [= ->]; done|apply NoDup_seqZ].
Qed.

Section library.
Context (malloc : mgrants -> Z -> option Z) (setgrant : Z -> Z -> Z).

Lemma install_grants_spec s tbl b new_size :
  mg_full s tbl -> setgrant b new_size = 0 -> mg_size s < new_size <= GRANT_MAX_IDX ->
  mg_table s <> Some b -> (b = STATIC_BLOCK \/ mg_blocks s !! b = None) ->
  exists n, (0 < n)%nat /\ Z.of_nat (length tbl + n) = new_size /\
    mg_wf (install_grants setgrant b new_size s) b (tbl ++ replicate n zero_mgrant) /\
    mg_free (install_grants setgrant b new_size s) = new_slots b (mg_size s) new_size.
Proof.
  intros Hfull Hset Hsz Hne Hb. exists (Z.to_nat (new_size - mg_size s)).
  pose proof (mf_size _ _ Hfull) as Hlen. split; [lia|]. split; [lia|].
  set (n := Z.to_nat (new_size - mg_size s)).
  assert (match mg_table s with Some t => take (Z.to_nat (mg_size s)) (entries_of s t) | None => [] end = tbl) as Hold.
  { pose proof (mf_table _ _ Hfull) as Ht. destruct (mg_table s) as [t|]; [|done].
    unfold entries_of. rewrite Ht. cbn. apply take_ge. lia. }
  unfold install_grants. rewrite Hold, Hset. cbn [Z.eqb negb]. fold n. cbn.
  set (s1 := s <| mg_blocks ::= <[b := tbl ++ replicate n zero_mgrant]> |>
               <| mg_free := new_slots b (mg_size s) new_size |>).
  assert (forall s2, mg_blocks s2 !! b = Some (tbl ++ replicate n zero_mgrant) ->
            is_Some (mg_blocks s2 !! STATIC_BLOCK) -> mg_free s2 = new_slots b (mg_size s) new_size ->
            mg_wf (s2 <| mg_table := Some b |> <| mg_size := new_size |>) b (tbl ++ replicate n zero_mgrant) /\
            mg_free (s2 <| mg_table := Some b |> <| mg_size := new_size |>) = new_slots b (mg_size s) new_size) as Hmain.
  { intros s2 Hbl Hst Hfr. split; [|done]. constructor; cbn; try done.
    - rewrite length_app, length_replicate. lia.
    - lia.
    - rewrite Hfr. apply new_slots_NoDup.
    - intros g. rewrite Hfr. rewrite new_slots_elem. intros [Hg1 Hg2]. exists (Z.to_nat g.2), zero_mgrant.
      split; [destruct g; cbn in *; subst; f_equal; lia|]. split; [|done].
      rewrite lookup_app_r by lia. apply lookup_replicate_2. lia.
    - intros i e Hi. rewrite Hfr, new_slots_elem. cbn.
      destruct (decide (i < length tbl)%nat) as [Hlt|Hge].
      + rewrite lookup_app_l in Hi by done. destruct (mf_used _ _ Hfull e) as [Hq Hl]; [|done].
        by eapply list_elem_of_lookup_2.
      + rewrite lookup_app_r in Hi by lia. apply lookup_replicate in Hi as [-> Hi].
        split; [done|]. intros []. split; [done|]. lia. }
  assert (mg_blocks s1 !! b = Some (tbl ++ replicate n zero_mgrant)) as H1 by apply lookup_insert_eq.
  assert (is_Some (mg_blocks s1 !! STATIC_BLOCK)) as H2.
  { apply lookup_insert_is_Some'. right. apply Hfull. }
  assert (mg_free s1 = new_slots b (mg_size s) new_size) as H3 by done.
  destruct (mg_table s) as [t|]; [|by apply Hmain].
  destruct (t =? STATIC_BLOCK) eqn:Ht; cbn [negb]; [by apply Hmain|]. b2p. apply Hmain; cbn; [| |done].
  - rewrite lookup_delete_ne by congruence. apply lookup_insert_eq.
  - by rewrite lookup_delete_ne.
Qed.

Hypothesis malloc_fresh : forall s n b, malloc s n = Some b -> mg_blocks s !! b = None.
Hypothesis setgrant_ok : forall b n, setgrant b n = 0.

Definition mg_ok (s : mgrants) (tbl : list mgrant_t) : Prop :=
  (mg_fresh s /\ tbl = []) \/ exists b, mg_wf s b tbl.

(** An identifier is left: there is a free entry, or the table can grow. *)
Definition room (s : mgrants) : Prop := mg_free s <> [] \/ (1 + mg_size s) * 2 <= GRANT_MAX_IDX.

Lemma alloc_grants_spec s tbl :
  mg_full s tbl -> (1 + mg_size s) * 2 <= GRANT_MAX_IDX ->
  (alloc_grants malloc setgrant 0 s = s /\ malloc s ((1 + mg_size s) * 2) = None) \/
  exists b n rest, mg_wf (alloc_grants malloc setgrant 0 s) b (tbl ++ replicate n zero_mgrant) /\
    mg_free (alloc_grants malloc setgrant 0 s) = rest /\ rest <> [].
Proof.
  intros Hfull Hroom. unfold alloc_grants.
  assert (s <| mg_free := [] |> = s) as -> by (destruct s; cbn; by rewrite <- (mf_free _ _ Hfull)).
  pose proof (mf_size _ _ Hfull) as Hlen.
  assert (forall b new, mg_size s < new -> new_slots b (mg_size s) new <> []) as Hnew.
  { intros b new Hlt Hnil. assert ((b, mg_size s) ∈ new_slots b (mg_size s) new) as Hin
      by (apply new_slots_elem; cbn; lia). rewrite Hnil in Hin. by apply elem_of_nil in Hin. }
  destruct (bool_decide_reflect (mg_table s = None)) as [Hn|Hn]; cbn.
  - right. pose proof (mf_table _ _ Hfull) as Ht. rewrite Hn in Ht. subst tbl. cbn in Hlen.
    destruct (install_grants_spec s [] STATIC_BLOCK NR_STATIC_GRANTS) as (n & Hn0 & Hl & Hwf & Hfr);
      [done|done|rewrite Hlen; by vm_compute|congruence|by left|].
    exists STATIC_BLOCK, n, (new_slots STATIC_BLOCK (mg_size s) NR_STATIC_GRANTS).
    split_and!; [done|done|]. apply Hnew. by rewrite Hlen.
  - rewrite wrapu_small by (change GRANT_MAX_IDX with (2 ^ 20) in Hroom; lia).
    destruct (malloc s ((1 + mg_size s) * 2)) as [b|] eqn:Hm; [right|by left].
    pose proof (malloc_fresh _ _ _ Hm) as Hb.
    destruct (install_grants_spec s tbl b ((1 + mg_size s) * 2)) as (n & Hn0 & Hl & Hwf & Hfr);
      [done|done|lia| |by right|].
    { intros Ht. pose proof (mf_table _ _ Hfull) as Hbt. rewrite Ht in Hbt. congruence. }
    exists b, n, (new_slots b (mg_size s) ((1 + mg_size s) * 2)). split_and!; [done|done|].
    apply Hnew. lia.
Qed.

Lemma alloc_slot_spec s tbl :
  mg_ok s tbl -> room s ->
  (alloc_slot malloc setgrant s = (s, None) /\ mg_free s = []) \/
  exists b n s1 g rest, alloc_slot malloc setgrant s = (s1 <| mg_free := rest |>, Some g) /\
    mg_wf s1 b (tbl ++ replicate n zero_mgrant) /\ mg_free s1 = g :: rest /\
    (mg_free s = [] \/ (s1 = s /\ n = 0%nat)).
Proof.
  intros Hok Hroom. unfold alloc_slot. destruct (bool_decide_reflect (mg_free s = [])) as [Hf|Hf].
  - assert (mg_full s tbl) as Hfull.
    { destruct Hok as [[Hfr ->]|[b Hwf]]; [by apply mg_fresh_full|by eapply mg_wf_full]. }
    destruct Hroom as [|Hroom]; [done|].
    destruct (alloc_grants_spec s tbl Hfull Hroom) as [[Heq _]|(b & n & rest & Hwf & Hfr & Hne)].
    + left. rewrite Heq, Hf. done.
    + right. destruct rest as [|g rest]; [done|]. exists b, n, (alloc_grants malloc setgrant 0 s), g, rest.
      rewrite Hfr. split_and!; auto.
  - right. destruct Hok as [[(_ & _ & Hx & _) _]|[b Hwf]]; [done|].
    destruct (mg_free s) as [|g rest] eqn:Hfr; [done|]. exists b, 0%nat, s, g, rest.
    cbn. rewrite app_nil_r. split_and!; auto.
Qed.

(** The three calls that make a grant: no free entry is left and no memory, or
    an entry that was not in use now holds the grant the identifier is for, and
    every other entry is as it was. *)
Lemma set_grant_spec f s tbl :
  makes_grant f -> mg_ok s tbl -> room s ->
  (set_grant malloc setgrant f s = Ret (s, GRANT_INVALID) /\ mg_free s = []) \/
  exists b n i e s', set_grant malloc setgrant f s = Ret (s', GRANT_ID (Z.of_nat i) (mg_seq e)) /\
    let tbl1 := tbl ++ replicate n zero_mgrant in
    tbl1 !! i = Some e /\ mg_flags e = 0 /\ mg_wf s' b (<[i := f e]> tbl1) /\ (b, Z.of_nat i) ∉ mg_free s'.
Proof.
  intros Hf Hok Hroom.
  destruct (alloc_slot_spec s tbl Hok Hroom) as [[Ha Hnil]|(b & n & s1 & g & rest & Ha & Hwf & Hfr & _)].
  { left. unfold set_grant. by rewrite Ha. }
  right. destruct (take_slot_spec f s1 b _ g rest Hf Hwf Hfr) as (i & e & s' & -> & Hi & Hw & Ht & Hwf' & Hfr').
  exists b, n, i, e, s'. unfold set_grant. rewrite Ha, Hw, res_ret_bind. cbv beta iota.
  rewrite bool_decide_true by done. rewrite (proj1 (Hf e)). cbn [snd].
  split; [done|]. split; [done|]. split; [|split; [done|]].
  - destruct (mw_free _ _ _ Hwf (b, Z.of_nat i)) as (j & e' & [= Hj] & Hje & Hfl); [rewrite Hfr; by left|].
    apply Nat2Z.inj in Hj. subst j. congruence.
  - rewrite Hfr'. pose proof (mw_nodup _ _ _ Hwf) as Hnd. rewrite Hfr in Hnd. by apply NoDup_cons in Hnd as [].
Qed.

Lemma mgrant_revoke_spec s b tbl i e q :
  mg_wf s b tbl -> tbl !! i = Some e -> (b, Z.of_nat i) ∉ mg_free s -> 0 <= q < GRANT_MAX_SEQ ->
  exists s' e', mgrant_revoke (GRANT_ID (Z.of_nat i) q) s = Ret (s', 0) /\ mg_wf s' b (<[i := e']> tbl) /\
    mg_flags e' = 0 /\ mg_seq e' <> mg_seq e.
Proof.
  intros Hwf Hi Hu Hq. unfold mgrant_revoke.
  destruct (grant_id_parts (Z.of_nat i) q (mg_wf_range _ _ _ _ _ Hwf Hi) Hq) as [-> _].
  rewrite (mw_table _ _ _ Hwf). unfold write_slot. cbn [fst snd].
  rewrite (mw_block _ _ _ Hwf), Nat2Z.id, Hi, res_ret_bind. cbv beta iota. cbn [mg_free].
  rewrite bool_decide_false by exact Hu.
  pose proof (mw_used _ _ _ Hwf i e Hi) as [Hs _]. pose proof (lookup_lt_Some _ _ _ Hi) as Hlt.
  set (e' := e <| mg_flags := 0 |> <| mg_seq ::= _ |>). eexists _, e'. split; [reflexivity|].
  assert (0 <= mg_seq e' < GRANT_MAX_SEQ /\ mg_seq e' <> mg_seq e) as [Hq1 Hq2].
  { unfold e'. cbn. change GRANT_MAX_SEQ with 2048 in *. destruct (mg_seq e <? 2048 - 1) eqn:?; b2p; lia. }
  assert (mg_flags e' = 0) as Hfl by done. clearbody e'. split; [|done].
  constructor; cbn; try apply Hwf.
  - by rewrite lookup_insert_eq.
  - rewrite length_insert. apply Hwf.
  - rewrite lookup_insert_is_Some'. right. apply Hwf.
  - constructor; [done|apply Hwf].
  - intros g [->|Hg]%elem_of_cons.
    + exists i, e'. by rewrite list_lookup_insert_eq.
    + destruct (mw_free _ _ _ Hwf g Hg) as (j & ej & -> & Hj & Hfj). exists j, ej.
      split; [done|]. split; [|done]. rewrite list_lookup_insert_ne; [done|]. by intros <-.
  - intros j ej Hj. destruct (decide (i = j)) as [<-|Hne].
    + rewrite list_lookup_insert_eq in Hj by done. injection Hj as <-. split; [done|].
      intros Hn. exfalso. apply Hn. by left.
    + rewrite list_lookup_insert_ne in Hj by done. destruct (mw_used _ _ _ Hwf j ej Hj) as [Hsj Hlj].
      split; [done|]. intros [_ Hn]%not_elem_of_cons. by apply Hlj.
Qed.
End library.

(** ** The library's entries as the kernel sees them *)

Section use.
Context {mem : Type} `{!UserMemory mem}.
Context (read_grant : mem -> option Z -> Z -> option mgrant_t).
Context (malloc : mgrants -> Z -> option Z) (setgrant : Z -> Z -> Z).
Hypothesis malloc_fresh : forall s n b, malloc s n = Some b -> mg_blocks s !! b = None.
Hypothesis setgrant_ok : forall b n, setgrant b n = 0.
Implicit Types st : kstate mem.

(** Process [n] told the kernel of its table, and the kernel reads there what
    the library wrote. *)
Record sees st (n : Z) (s : mgrants) (tbl : list mgrant_t) : Prop := {
  se_endpt : endpt_proc st (p_endpoint (procs st n)) = Some n;
  se_priv : exists id, p_priv (procs st n) = Some id /\
    pr_grant_endpoint (privs st id) = p_endpoint (procs st n) /\
    pr_grant_table (privs st id) <> 0 /\ pr_grant_entries (privs st id) = mg_size s /\
    forall i, (i < length tbl)%nat ->
      copy_grant read_grant st (p_endpoint (procs st n))
        (wrapu 64 (pr_grant_table (privs st id) + Z.of_nat i * sizeof_mgrant)) = tbl !! i
}.

(** The entries of the table the library works with. *)
Definition table_entries (s : mgrants) : list mgrant_t :=
  match mg_table s with Some b => entries_of s b | None => [] end.
Definition published st (n : Z) (s : mgrants) : Prop := sees st n s (table_entries s).

Lemma mg_wf_entries s b tbl : mg_wf s b tbl -> table_entries s = tbl.
Proof.
  intros Hwf. unfold table_entries, entries_of. by rewrite (mw_table _ _ _ Hwf), (mw_block _ _ _ Hwf).
Qed.

Lemma fetch_seen st n s b tbl i e q :
  sees st n s tbl -> mg_wf s b tbl -> tbl !! i = Some e -> 0 <= q < GRANT_MAX_SEQ ->
  exists id, fetch_grant read_grant st (p_endpoint (procs st n)) (GRANT_ID (Z.of_nat i) q) =
    if (Z.land (mg_flags e) MGF_LIVE =? MGF_LIVE) && (mg_seq e =? q) then inl (id, e) else inr EPERM.
Proof.
  intros Hse Hwf Hi Hq. destruct (se_priv _ _ _ _ Hse) as (id & Hid & Hep & Hnz & Hsz & Hr). exists id.
  destruct (grant_id_parts (Z.of_nat i) q (mg_wf_range _ _ _ _ _ Hwf Hi) Hq) as (Hix & Hsq & Hinv).
  pose proof (lookup_lt_Some _ _ _ Hi) as Hlt. pose proof (mw_size _ _ _ Hwf) as Hlen.
  unfold fetch_grant. rewrite (proj2 (Z.eqb_neq _ _) Hinv), (se_endpt _ _ _ _ Hse), Hid. cbv zeta.
  rewrite Hep, Z.eqb_refl, (proj2 (Z.eqb_neq _ _) Hnz), Hix, Hsq, Hsz. cbn [negb].
  rewrite (proj2 (Z.leb_gt _ _)) by lia. rewrite Hr, Hi by done. fold MGF_LIVE.
  destruct (Z.land _ _ =? _), (mg_seq e =? q); done.
Qed.

Lemma direct_flags access acc :
  let flags := Z.lor (Z.lor (Z.lor MGF_USED MGF_VALID) MGF_DIRECT) (Z.land access MGF_ACCMODES) in
  Z.land flags MGF_LIVE = MGF_LIVE /\ has_flag flags MGF_DIRECT = true /\
  has_flag flags MGF_INDIRECT = false /\
  (Z.land (Z.land access MGF_ACCMODES) acc = acc -> Z.land flags acc = acc).
Proof.
  cbv zeta. unfold has_flag. rewrite !Z.land_lor_distr_l, <- !Z.land_assoc.
  change (Z.land MGF_ACCMODES MGF_LIVE) with 0. change (Z.land MGF_ACCMODES MGF_DIRECT) with 0.
  change (Z.land MGF_ACCMODES MGF_INDIRECT) with 0. rewrite !Z.land_0_r, !Z.lor_0_r.
  split_and!; try done. intros ->.
  apply Z.bits_inj'. intros k _. rewrite !Z.lor_spec, !Z.land_spec.
  destruct (Z.testbit acc k); rewrite ?andb_false_r, ?orb_true_r; done.
Qed.

Lemma direct_makes_grant to a len access :
  makes_grant (fun g =>
    g <| mg_u0 := to |> <| mg_u8 := a |> <| mg_u16 := len |>
      <| mg_flags := Z.lor (Z.lor (Z.lor MGF_USED MGF_VALID) MGF_DIRECT) (Z.land access MGF_ACCMODES) |>).
Proof. intros e. split; [done|]. exact (proj1 (direct_flags access 0)). Qed.

Lemma refused_seen st n s b tbl i e q grantee bytes acc offset :
  sees st n s tbl -> mg_wf s b tbl -> tbl !! i = Some e -> 0 <= q < GRANT_MAX_SEQ ->
  mg_flags e = 0 \/ mg_seq e <> q ->
  verify_grant read_grant st (p_endpoint (procs st n)) grantee (GRANT_ID (Z.of_nat i) q) bytes acc offset =
  inr EPERM.
Proof.
  intros Hse Hwf Hi Hq Hno. destruct (fetch_seen st n s b tbl i e q Hse Hwf Hi Hq) as [id Hf].
  unfold verify_grant. cbn [grant_loop MAX_INDIRECT_DEPTH]. rewrite Hf.
  destruct Hno as [->|Hne]; [done|]. rewrite (proj2 (Z.eqb_neq _ _) Hne), andb_false_r. done.
Qed.

Lemma direct_seen st n s b tbl i e q bytes acc offset access :
  sees st n s tbl -> mg_wf s b tbl -> tbl !! i = Some e -> mg_seq e = q -> 0 <= q < GRANT_MAX_SEQ ->
  mg_flags e = Z.lor (Z.lor (Z.lor MGF_USED MGF_VALID) MGF_DIRECT) (Z.land access MGF_ACCMODES) ->
  0 <= direct_addr e -> 0 <= direct_len e <= KERNEL_VMA + 1 -> direct_addr e + direct_len e <= KERNEL_VMA + 1 ->
  0 <= offset -> 0 <= bytes -> offset + bytes <= direct_len e ->
  Z.land (Z.land access MGF_ACCMODES) acc = acc ->
  verify_grant read_grant st (p_endpoint (procs st n)) (direct_to e) (GRANT_ID (Z.of_nat i) q) bytes acc offset =
  inl (direct_addr e + offset, p_endpoint (procs st n)).
Proof.
  intros Hse Hwf Hi Hs Hq Hfl Ha Hlen Hk Ho Hb Hob Hacc.
  destruct (fetch_seen st n s b tbl i e q Hse Hwf Hi Hq) as [id Hf].
  destruct (direct_flags access acc) as (HL & HD & HI & HA). rewrite <- Hfl in *.
  rewrite HL, Hs, !Z.eqb_refl in Hf. cbn in Hf. unfold KERNEL_VMA in *.
  unfold verify_grant. cbn [grant_loop MAX_INDIRECT_DEPTH]. rewrite Hf, HI. unfold check_entry.
  rewrite (HA Hacc), Z.eqb_refl, HD. cbn [negb]. unfold KERNEL_VMA.
  rewrite wrapu_small, (proj2 (Z.ltb_ge _ _)) by lia. unfold granted_to. rewrite Z.eqb_refl. cbn [negb orb].
  unfold out_of_grant. rewrite (wrapu_small 64 (offset + bytes)) by lia.
  rewrite !(proj2 (Z.ltb_ge _ _)) by lia. cbn [orb]. by rewrite wrapu_small by lia.
Qed.

(** A revoked grant, before and after the entry is used again. *)
Lemma revoked_refused s b tbl i e :
  mg_wf s b tbl -> tbl !! i = Some e -> (b, Z.of_nat i) ∉ mg_free s ->
  let refused s' := forall st n grantee bytes acc offset, published st n s' ->
    verify_grant read_grant st (p_endpoint (procs st n)) grantee (GRANT_ID (Z.of_nat i) (mg_seq e))
      bytes acc offset = inr EPERM in
  exists s2, mgrant_revoke (GRANT_ID (Z.of_nat i) (mg_seq e)) s = Ret (s2, 0) /\ refused s2 /\
    forall f, makes_grant f -> exists s3 g, set_grant malloc setgrant f s2 = Ret (s3, g) /\ refused s3.
Proof.
  intros Hwf Hi Hu. cbv zeta. destruct (mw_used _ _ _ Hwf i e Hi) as [Hq _].
  destruct (mgrant_revoke_spec s b tbl i e (mg_seq e) Hwf Hi Hu Hq) as (s2 & e' & Hr & Hwf2 & Hf2 & Hq2).
  pose proof (lookup_lt_Some _ _ _ Hi) as Hlt.
  assert (<[i := e']> tbl !! i = Some e') as Hi2 by (by apply list_lookup_insert_eq).
  exists s2. split; [done|]. split.
  { intros st n grantee bytes acc offset Hse. unfold published in Hse. rewrite (mg_wf_entries _ _ _ Hwf2) in Hse.
    apply (refused_seen st n s2 b _ i e' _ grantee bytes acc offset Hse Hwf2 Hi2 Hq). by left. }
  intros f Hf. assert (mg_free s2 <> []) as Hne.
  { revert Hr. unfold mgrant_revoke. destruct (mg_table s); [|done]. destruct (write_slot _ _ s) as [[]|]; [|done].
    cbn. case_bool_decide; [done|]. by intros [= <-]. }
  destruct (set_grant_spec malloc setgrant malloc_fresh setgrant_ok f s2 (<[i := e']> tbl))
    as [[_ Hx]|(b3 & m & j & ej & s3 & Hs3 & Hj & Hfj & Hwf3 & _)];
    [done|right; by exists b|by left|done|].
  exists s3, (GRANT_ID (Z.of_nat j) (mg_seq ej)). split; [done|]. cbv zeta in *.
  set (tbl1 := <[i := e']> tbl ++ replicate m zero_mgrant) in *.
  intros st n grantee bytes acc offset Hse. unfold published in Hse. rewrite (mg_wf_entries _ _ _ Hwf3) in Hse.
  assert (tbl1 !! i = Some e') as Hi3.
  { unfold tbl1. rewrite lookup_app_l; [done|]. by rewrite length_insert. }
  destruct (decide (j = i)) as [->|Hji].
  - assert (ej = e') as -> by congruence.
    apply (refused_seen st n s3 b3 _ i (f e') _ grantee bytes acc offset Hse Hwf3); [|done|].
    + apply list_lookup_insert_eq. by eapply lookup_lt_Some.
    + right. by rewrite (proj1 (Hf e')).
  - apply (refused_seen st n s3 b3 _ i e' _ grantee bytes acc offset Hse Hwf3); [|done|by left].
    by rewrite list_lookup_insert_ne.
Qed.
End use.

(** C12: [verify_grant] accepts exactly what a chain of at most
    [MAX_INDIRECT_DEPTH] indirect grants, each made for the process that uses
    it, justifies: the grant at its end gives the access, is for the last
    grantee, and has the bytes asked for. *)
Theorem verify_grant_exact {mem} `{!UserMemory mem} read_grant (st : kstate mem) granter grantee grant
    bytes access offset v g :
  words_read read_grant -> 0 <= offset < 2 ^ 64 -> 0 <= bytes < 2 ^ 64 ->
  verify_grant read_grant st granter grantee grant bytes access offset = inl (v, g) <->
  exists d, (d <= MAX_INDIRECT_DEPTH)%nat /\
            granted read_grant st access offset bytes d granter grantee grant v g.
Proof. apply verify_grant_spec. Qed.



(** ** Witnesses *)

(** Process 5 grants process 6 the right to read 64 bytes at 4096. *)
Definition demo_grant : mgrant_t := mk_mgrant 77 0 6 0 4096 64.
Definition demo_table : list mgrant_t := <[19%nat := demo_grant]> (replicate 20 zero_mgrant).
Definition demo_read (_ : demo_mem) (p : option Z) (a : Z) : option mgrant_t :=
  if bool_decide (p = Some 5) then demo_table !! Z.to_nat ((a - 4096) / sizeof_mgrant) else None.
Definition grant_state : kstate demo_mem :=
  upd_priv 9 (fun r => r <| pr_grant_table := 4096 |> <| pr_grant_entries := 20 |>
                         <| pr_grant_endpoint := 5 |>) demo0.

Lemma demo_read_words : words_read demo_read.
Proof.
  intros m p a e. unfold demo_read. case_bool_decide; [|done]. intros He%list_elem_of_lookup_2.
  assert (Forall (fun e => 0 <= mg_u8 e < 2 ^ 64 /\ 0 <= mg_u16 e < 2 ^ 64) demo_table) as Hall by by_decide.
  exact (proj1 (Forall_forall _ _) Hall e He).
Qed.

Lemma verify_grant_witness :
  exists d, (d <= MAX_INDIRECT_DEPTH)%nat /\
            granted demo_read grant_state MGF_READ 8 16 d 5 6 (GRANT_ID 19 0) 4104 5.
Proof.
  apply (verify_grant_exact demo_read grant_state 5 6 (GRANT_ID 19 0) 16 MGF_READ 8 4104 5).
  - exact demo_read_words.
  - split; [discriminate|reflexivity].
  - split; [discriminate|reflexivity].
  - vm_compute. reflexivity.
Defined.


Definition no_malloc (_ : mgrants) (_ : Z) : option Z := None.


(** ** Grants the kernel should refuse *)

Definition huge_read (_ : demo_mem) (_ : option Z) (_ : Z) : option mgrant_t :=
  Some (mk_mgrant 77 0 6 0 0 (2 ^ 64 - 1)).

(** Grants that go wrong. First, the test that keeps a direct grant below
    the kernel is made on unsigned words and wraps for a length above
    [KERNEL_VMA + 1]: a grant of the whole address space is accepted for bytes
    of the kernel. Second, when the kernel refuses a new table, [alloc_grants]
    returns with the entries of that table on the free list; the next grant is
    made in it and its index is computed from a table that is not there. *)
Theorem grant_error_paths :
  (verify_grant huge_read grant_state 5 6 (GRANT_ID 19 0) 16 MGF_READ (KERNEL_VMA + 4096) =
     inl (KERNEL_VMA + 4096, 5)) /\
  (mgrant_set_direct no_malloc (fun _ _ => EPERM) 6 4096 64 MGF_READ init_mgrants = Crash BadPtr).
Proof. vm_compute. split_and!; reflexivity. Qed.
