(* ===== verification/Timer.v ===== *)
(** * Timers

    Lists of timers ordered by the time they expire, and the timers of a process
    (lib/liblyos/timer.c, which is also part of the kernel). The lists are
    sequences of timers, as file ListHead justifies; a timer that [list_del]
    took off its list points to itself. *)

From Stdlib Require Import Sorting.Sorted.
From S2P Require Import Prelude.

Definition TIMER_UNSET : Z := 0xffffffff.

(** The members of the timers that are around, and the two lists a timer can be
    on: the one in order, and the one for timers that are set while others
    expire. *)
Record timers := mk_timers {
  tm_expire : Z -> Z;
  tm_callback : Z -> Z;
  tm_arg : Z -> Z;
  tm_list : list Z;
  tm_expiring : list Z
}.
#[export] Instance rebuild_timers : Rebuild timers := fun s =>
  mk_timers (tm_expire s) (tm_callback s) (tm_arg s) (tm_list s) (tm_expiring s).

(** [timer_add]: the timer goes in front of the first one that does not expire
    before it. *)
Fixpoint timer_add (expire : Z -> Z) (timer : Z) (l : list Z) : list Z :=
  match l with
  | [] => [timer]
  | tp :: l => if expire timer <=? expire tp then timer :: tp :: l else tp :: timer_add expire timer l
  end.

Definition init_timer (timer : Z) (s : timers) : timers :=
  s <| tm_expire ::= <[timer := TIMER_UNSET]> |> <| tm_callback ::= <[timer := 0]> |>
    <| tm_arg ::= <[timer := 0]> |>.

(** [list_del] on whichever list the timer is on. *)
Definition unlink (timer : Z) (s : timers) : timers :=
  s <| tm_list ::= filter (fun x => x <> timer) |> <| tm_expiring ::= filter (fun x => x <> timer) |>.

Definition cancel_timer (timer : Z) (s : timers) : timers * Z :=
  if tm_expire s timer =? TIMER_UNSET then (s, 0)
  else (unlink timer (s <| tm_expire ::= <[timer := TIMER_UNSET]> |>), 1).

(** The time the first timer expires. *)
Definition first_timeout (s : timers) : Z :=
  match tm_list s with
  | [] => TIMER_UNSET
  | t :: _ => tm_expire s t
  end.

(** ** Expiry *)

(** The timer after [x] on the list: none when the list ends there; [x] itself
    when it is not on the list any more. *)
Fixpoint next_of (l : list Z) (x : Z) : option Z :=
  match l with
  | [] => Some x
  | y :: l => if y =? x then head l else next_of l x
  end.

Section expire.
(** What the callbacks work on besides the timers. *)
Context {E : Type} (callback : Z -> E * timers -> res (E * timers)).

(** The loop of [timer_expire], from the timer [pos]. *)
Fixpoint expire_loop (fuel : nat) (pos : option Z) (timestamp : Z) (s : E * timers) : res (E * timers) :=
  match fuel with
  | O => Crash OutOfFuel
  | S fuel =>
      match pos with
      | None => Ret s
      | Some tp =>
          let n := next_of (tm_list s.2) tp in
          s ← (if tm_expire s.2 tp <=? timestamp then
                 callback tp (s.1, fst (cancel_timer tp s.2))
               else Ret s);
          expire_loop fuel n timestamp s
      end
  end.

Definition timer_expire (fuel : nat) (timestamp : Z) (s : E * timers) : res (E * timers) :=
  expire_loop fuel (head (tm_list s.2)) timestamp s.
End expire.

(** ** The timers of a process *)

Record tproc := mk_tproc {
  tp_now : Z;
  tp_in_expiry : bool;
  tp_alarm : Z
}.
#[export] Instance rebuild_tproc : Rebuild tproc := fun s =>
  mk_tproc (tp_now s) (tp_in_expiry s) (tp_alarm s).

Section process.
(** [kernel_alarm(t, 1)] is a kernel call; [tp_alarm] is the last time asked
    for. The uptime that [get_ticks] gives is [tp_now]. *)
Context (kernel_alarm : Z -> Z).

Definition ask_alarm (t : Z) (s : tproc * timers) : res (tproc * timers) :=
  if negb (kernel_alarm t =? 0) then Crash Panic else Ret (s.1 <| tp_alarm := t |>, s.2).

Definition set_timer (timer ticks cb arg : Z) (s : tproc * timers) : res (tproc * timers) :=
  let '(e, t) := s in
  let t := t <| tm_expire ::= <[timer := wrapu 64 (tp_now e + ticks)]> |>
             <| tm_callback ::= <[timer := cb]> |> <| tm_arg ::= <[timer := arg]> |> in
  let prev_timeout := first_timeout t in
  let t := if tp_in_expiry e then t <| tm_expiring ::= cons timer |>
           else t <| tm_list ::= timer_add (tm_expire t) timer |> in
  let next_timeout := first_timeout t in
  if negb (tp_in_expiry e) && ((prev_timeout =? TIMER_UNSET) || negb (prev_timeout =? next_timeout)) then
    ask_alarm next_timeout (e, t)
  else Ret (e, t).

(** The timers that were set meanwhile go to the list in order. *)
Definition requeue_timers (t : timers) : timers :=
  foldl (fun t tp => (unlink tp t) <| tm_list ::= timer_add (tm_expire t) tp |>) t (tm_expiring t).

Definition expire_timer (callback : Z -> tproc * timers -> res (tproc * timers)) (fuel : nat)
    (timestamp : Z) (s : tproc * timers) : res (tproc * timers) :=
  '(e, t) ← timer_expire callback fuel timestamp (s.1 <| tp_in_expiry := true |>, s.2);
  let t := requeue_timers t in
  let s := (e <| tp_in_expiry := false |>, t) in
  if negb (first_timeout t =? TIMER_UNSET) then ask_alarm (first_timeout t) s else Ret s.

Definition timer_expires_remaining (tp : Z) (s : tproc * timers) : Z :=
  let '(e, t) := s in
  if negb (tm_expire t tp =? TIMER_UNSET) && (tp_now e <? tm_expire t tp)
  then wrapu 64 (tm_expire t tp - tp_now e) else 0.
End process.

(** ** Lists in order *)

Definition ordered (expire : Z -> Z) (l : list Z) : Prop :=
  StronglySorted (fun x y => expire x <= expire y) l.

Lemma timer_add_perm expire t l : timer_add expire t l ≡ₚ t :: l.
Proof.
  induction l as [|x l IH]; cbn; [done|]. case_cond; [done|]. rewrite IH. constructor.
Qed.

Lemma timer_add_ordered expire t l : ordered expire l -> ordered expire (timer_add expire t l).
Proof.
  unfold ordered. induction 1 as [|x l Hl IH Hx]; cbn; [repeat constructor|]. case_cond; b2p.
  - constructor; [by constructor|]. constructor; [done|].
    eapply Forall_impl; [exact Hx|]. cbn. lia.
  - constructor; [done|]. rewrite timer_add_perm. constructor; [lia|done].
Qed.

Lemma ordered_ext expire expire' l :
  (forall x, x ∈ l -> expire' x = expire x) -> ordered expire l -> ordered expire' l.
Proof.
  intros Hext. induction 1 as [|x l Hl IH Hx]; [constructor|]. constructor.
  - apply IH. intros y Hy. apply Hext. by right.
  - apply Forall_forall. intros y Hy. rewrite !Hext by (by left || by right).
    by apply (proj1 (Forall_forall _ _) Hx).
Qed.

Lemma ordered_filter (P : Z -> Prop) `{!forall x, Decision (P x)} expire l :
  ordered expire l -> ordered expire (filter P l).
Proof.
  induction 1 as [|x l Hl IH Hx]; [constructor|]. rewrite filter_cons. case_decide; [|done].
  constructor; [done|]. apply Forall_forall. intros y [_ Hy]%list_elem_of_filter.
  by apply (proj1 (Forall_forall _ _) Hx).
Qed.

Lemma ordered_first expire t l x : ordered expire (t :: l) -> x ∈ t :: l -> expire t <= expire x.
Proof.
  intros Ho [->|Hx]%elem_of_cons; [done|]. inversion_clear Ho as [|? ? _ Hall].
  by apply (proj1 (Forall_forall _ _) Hall).
Qed.

Lemma filter_ne_absent (l : list Z) t : t ∉ l -> filter (fun x => x <> t) l = l.
Proof.
  intros Hn. apply list_filter_id. by intros x Hx ->.
Qed.

Lemma filter_ne_middle (pre l : list Z) t :
  t ∉ pre -> t ∉ l -> filter (fun x => x <> t) (pre ++ t :: l) = pre ++ l.
Proof.
  intros Hp Hl. rewrite filter_app, filter_cons_False by (intros Hc; by apply Hc).
  by rewrite !filter_ne_absent.
Qed.

(** ** The walk *)

Lemma next_of_middle pre x l : x ∉ pre -> next_of (pre ++ x :: l) x = head l.
Proof.
  induction pre as [|y pre IH]; cbn; intros Hx.
  - by rewrite Z.eqb_refl.
  - apply not_elem_of_cons in Hx as [Hne Hx]. rewrite (proj2 (Z.eqb_neq y x)) by congruence. by apply IH.
Qed.

Section walk.
Context {E : Type} (callback : Z -> E * timers -> res (E * timers)).

(** The timers of a list expire one after the other. *)
Fixpoint fire_all (l : list Z) (s : E * timers) : res (E * timers) :=
  match l with
  | [] => Ret s
  | t :: l => s ← callback t (s.1, fst (cancel_timer t s.2)); fire_all l s
  end.

(** Callbacks that return in the states of interest and leave the timers that
    are on the list alone. *)
Context (ok : E * timers -> Prop).
Definition well_behaved : Prop :=
  forall t s, ok s -> t ∈ tm_list s.2 -> tm_expire s.2 t < TIMER_UNSET ->
  exists s', callback t (s.1, fst (cancel_timer t s.2)) = Ret s' /\ ok s' /\
    tm_list s'.2 = tm_list (fst (cancel_timer t s.2)) /\
    forall x, x ∈ tm_list s'.2 -> tm_expire s'.2 x = tm_expire (fst (cancel_timer t s.2)) x.
Hypothesis callbacks : well_behaved.

Lemma expire_loop_spec timestamp rest : forall pre s fuel,
  ok s -> NoDup (tm_list s.2) -> tm_list s.2 = pre ++ rest -> timestamp < TIMER_UNSET ->
  (length rest < fuel)%nat ->
  exists s', expire_loop callback fuel (head rest) timestamp s = Ret s' /\ ok s' /\
    fire_all (filter (fun x => tm_expire s.2 x <= timestamp) rest) s = Ret s' /\
    tm_list s'.2 = pre ++ filter (fun x => timestamp < tm_expire s.2 x) rest /\
    forall x, x ∈ tm_list s'.2 -> tm_expire s'.2 x = tm_expire s.2 x.
Proof.
  induction rest as [|t rest IH]; intros pre s fuel Hok Hnd Hl Hts Hfu.
  { destruct fuel as [|fuel]; [cbn in Hfu; lia|]. exists s. split_and!; [done..|by rewrite Hl|done]. }
  destruct fuel as [|fuel]; [cbn in Hfu; lia|]. cbn in Hfu. cbn [expire_loop head].
  pose proof Hnd as Hnd'. rewrite Hl in Hnd. nodup_simpl. rewrite Hl, next_of_middle by done.
  destruct (tm_expire s.2 t <=? timestamp) eqn:Hdue; b2p.
  - destruct (callbacks t s Hok) as (s1 & Hc & Hok1 & Hl1 & He1); [rewrite Hl; set_solver|lia|]. rewrite Hc, res_ret_bind. cbv beta.
    assert (tm_list s1.2 = pre ++ rest /\ forall x, x ∈ pre ++ rest -> tm_expire s1.2 x = tm_expire s.2 x)
      as [Hl1' He1'].
    { rewrite Hl1 in *. unfold cancel_timer, unlink in *. rewrite (proj2 (Z.eqb_neq _ _)) in * by lia. cbn in *.
      rewrite Hl, filter_ne_middle in * by done. split; [done|]. intros x Hx. rewrite He1 by done.
      apply fn_lookup_insert_ne. intros <-. by apply elem_of_app in Hx as []. }
    destruct (IH pre s1 fuel) as (s2 & G1 & G2 & G3 & G4 & G5); [done|by rewrite Hl1'|done|done|lia|].
    exists s2. split; [done|]. split; [done|].
    rewrite filter_cons_True by done. rewrite filter_cons_False by lia. cbn [fire_all].
    rewrite Hc, res_ret_bind. cbv beta.
    rewrite (list_filter_ext _ (fun x => tm_expire s.2 x <= timestamp)) in G3
      by (intros x Hx; by rewrite He1' by (apply elem_of_app; by right)).
    rewrite (list_filter_ext _ (fun x => timestamp < tm_expire s.2 x)) in G4
      by (intros x Hx; by rewrite He1' by (apply elem_of_app; by right)).
    split_and!; [done|done|]. intros x Hx. rewrite G5 by done. apply He1'. rewrite G4 in Hx.
    apply elem_of_app in Hx as [Hx|[_ Hx]%list_elem_of_filter]; apply elem_of_app; auto.
  - destruct (IH (pre ++ [t]) s fuel) as (s2 & G1 & G2 & G3 & G4 & G5);
      [done|done|by rewrite <- app_assoc|done|lia|].
    exists s2. rewrite res_ret_bind. cbv beta. rewrite filter_cons_False by lia.
    rewrite filter_cons_True by lia. rewrite <- app_assoc in G4. done.
Qed.
End walk.

(** ** The timers of a process *)

(** The timers that are linked, each on one list and with a time. *)
Record linked (t : timers) : Prop := {
  li_nodup : NoDup (tm_list t ++ tm_expiring t);
  li_ordered : ordered (tm_expire t) (tm_list t);
  li_set x : x ∈ tm_list t ++ tm_expiring t -> tm_expire t x < TIMER_UNSET
}.

Lemma requeue_spec t :
  linked t -> linked (requeue_timers t) /\ tm_expiring (requeue_timers t) = [] /\
    tm_list (requeue_timers t) ≡ₚ tm_list t ++ tm_expiring t /\ tm_expire (requeue_timers t) = tm_expire t.
Proof.
  unfold requeue_timers. remember (tm_expiring t) as l eqn:Hl. revert t Hl.
  induction l as [|x l IH]; intros t Hl Hli; cbn [foldl].
  { rewrite app_nil_r. done. }
  destruct Hli as [Hnd Hord Hset]. rewrite <- Hl in *. nodup_simpl.
  assert (x ∉ tm_list t ++ l) as Hx by (apply not_elem_of_app; done).
  set (t1 := (unlink x t) <| tm_list ::= timer_add (tm_expire t) x |>).
  assert (tm_list t1 = timer_add (tm_expire t) x (tm_list t)) as G1.
  { unfold t1. cbn. by rewrite filter_ne_absent. }
  assert (tm_expiring t1 = l) as G2.
  { unfold t1. cbn. rewrite <- Hl, filter_cons_False by (intros Hc; by apply Hc). by rewrite filter_ne_absent. }
  assert (tm_expire t1 = tm_expire t) as G3 by done. clearbody t1.
  destruct (IH t1) as (Hli & Hnil & Hp & He); [done| |].
  - constructor; rewrite ?G1, ?G2, ?G3.
    + rewrite timer_add_perm. cbn. by constructor.
    + by apply timer_add_ordered.
    + intros y. rewrite timer_add_perm. intros Hy. apply Hset. rewrite <- Permutation_middle. exact Hy.
  - split; [done|]. split; [done|]. split; [|by rewrite He].
    rewrite Hp, G1, timer_add_perm, <- Permutation_middle. done.
Qed.

Section firing.
Context (kernel_alarm : Z -> Z) (callback : Z -> tproc * timers -> res (tproc * timers)).
Hypothesis alarm_ok : forall t, kernel_alarm t = 0.

(** The states in which callbacks run. *)
Definition in_expiry (now : Z) (s : tproc * timers) : Prop :=
  tp_in_expiry s.1 = true /\ tp_now s.1 = now /\ linked s.2.

Lemma expire_timer_spec timestamp e t fuel :
  well_behaved callback (in_expiry (tp_now e)) -> linked t -> timestamp < TIMER_UNSET ->
  (length (tm_list t) < fuel)%nat ->
  exists e1 t1 e' t', expire_timer kernel_alarm callback fuel timestamp (e, t) = Ret (e', t') /\
    fire_all callback (filter (fun x => tm_expire t x <= timestamp) (tm_list t))
      (e <| tp_in_expiry := true |>, t) = Ret (e1, t1) /\
    tm_list t1 = filter (fun x => timestamp < tm_expire t x) (tm_list t) /\
    linked t' /\ tm_expiring t' = [] /\ tm_list t' ≡ₚ tm_list t1 ++ tm_expiring t1 /\
    (forall x, x ∈ tm_list t1 -> tm_expire t' x = tm_expire t x) /\
    tp_in_expiry e' = false /\ (tm_list t' <> [] -> tp_alarm e' = first_timeout t').
Proof.
  intros Hcb Hli Hts Hfu. unfold expire_timer, timer_expire. cbn [fst snd].
  destruct (expire_loop_spec callback (in_expiry (tp_now e)) Hcb timestamp (tm_list t) [] (e <| tp_in_expiry := true |>, t) fuel)
    as ([e1 t1] & Hr & (Hex & _ & Hli1) & Hf & Hl1 & He1); [done| |done|done|done|].
  { exact (proj1 (proj1 (NoDup_app _ _) (li_nodup _ Hli))). }
  cbn [snd] in *. rewrite Hr, res_ret_bind. cbv beta iota zeta.
  destruct (requeue_spec t1 Hli1) as (Hli2 & Hnil & Hp & He). set (t2 := requeue_timers t1) in *.
  assert (exists e', (if negb (first_timeout t2 =? TIMER_UNSET)
            then ask_alarm kernel_alarm (first_timeout t2) (e1 <| tp_in_expiry := false |>, t2)
            else Ret (e1 <| tp_in_expiry := false |>, t2)) = Ret (e', t2) /\
          tp_in_expiry e' = false /\ (tm_list t2 <> [] -> tp_alarm e' = first_timeout t2)) as (e' & Ha & Ha1 & Ha2).
  { unfold ask_alarm. rewrite alarm_ok. cbn [Z.eqb negb]. destruct (first_timeout t2 =? TIMER_UNSET) eqn:Hu; cbn [negb].
    - eexists. split; [done|]. split; [done|]. intros Hne. b2p. unfold first_timeout in Hu.
      destruct (tm_list t2) as [|x l] eqn:Hx; [done|].
      assert (tm_expire t2 x < TIMER_UNSET) by (apply (li_set _ Hli2); rewrite Hx; by left). lia.
    - eexists. split; [done|]. done. }
  exists e1, t1, e', t2. split_and!; try done.
  intros x Hx. rewrite He. by apply He1.
Qed.

(** A timer that is set again from a callback, for [ticks] from now on. *)
Lemma linked_cancel t x : linked t -> tm_expire t x < TIMER_UNSET -> linked (fst (cancel_timer x t)).
Proof.
  intros [Hnd Hord Hset] Hx. unfold cancel_timer. rewrite (proj2 (Z.eqb_neq _ _)) by lia. cbn [fst].
  constructor; cbn; rewrite <- ?filter_app.
  - by apply NoDup_filter.
  - apply (ordered_ext (tm_expire t)); [|by apply ordered_filter]. intros y [Hy _]%list_elem_of_filter.
    by rewrite fn_lookup_insert_ne.
  - intros y [Hy Hin]%list_elem_of_filter. rewrite fn_lookup_insert_ne by done. by apply Hset.
Qed.

Lemma cancelled_unlinked t x :
  tm_expire t x < TIMER_UNSET ->
  x ∉ tm_list (fst (cancel_timer x t)) ++ tm_expiring (fst (cancel_timer x t)).
Proof.
  intros Hx. unfold cancel_timer. rewrite (proj2 (Z.eqb_neq _ _)) by lia. cbn. rewrite <- filter_app.
  by intros [Hne _]%list_elem_of_filter.
Qed.

Lemma rearm_well_behaved now ticks cb arg :
  0 <= now + ticks < TIMER_UNSET ->
  well_behaved (fun x => set_timer kernel_alarm x ticks cb arg) (in_expiry now).
Proof.
  intros Hn x [e t] (Hex & Hnow & Hli) Hin Hx. cbn [fst snd] in *.
  pose proof (linked_cancel t x Hli Hx) as [Hnd Hord Hset]. pose proof (cancelled_unlinked t x Hx) as Hun.
  set (t1 := fst (cancel_timer x t)) in *. clearbody t1.
  unfold set_timer. rewrite Hex, Hnow. cbn [negb andb]. eexists. split; [reflexivity|]. cbn.
  rewrite not_elem_of_app in Hun. destruct Hun as [Hu1 Hu2].
  rewrite wrapu_small by (unfold TIMER_UNSET in *; lia). split; [|split; [done|]].
  - split; [done|]. split; [done|]. constructor; cbn.
    + rewrite <- Permutation_middle. constructor; [by apply not_elem_of_app|done].
    + apply (ordered_ext (tm_expire t1)); [|done]. intros y Hy. apply fn_lookup_insert_ne. by intros <-.
    + intros y. rewrite <- Permutation_middle. intros [->|Hy]%elem_of_cons.
      * rewrite fn_lookup_insert. lia.
      * rewrite fn_lookup_insert_ne; [by apply Hset|]. intros <-. by apply elem_of_app in Hy as [].
  - intros y Hy. apply fn_lookup_insert_ne. by intros <-.
Qed.
End firing.

(** Every timer that is due fires, once and in order. With callbacks that
    return and leave the other timers on the list alone, [expire_timer] ends;
    it has run the callbacks of exactly the timers whose time has come, in the
    order of the list; the others keep their times, the timers that were set
    meanwhile are on the list, which is in order again, and the kernel is asked
    for an alarm at the first of them. *)
Theorem expire_timer_fires kernel_alarm callback timestamp e t fuel :
  (forall t, kernel_alarm t = 0) ->
  well_behaved callback (in_expiry (tp_now e)) -> linked t -> timestamp < TIMER_UNSET ->
  (length (tm_list t) < fuel)%nat ->
  exists e1 t1 e' t', expire_timer kernel_alarm callback fuel timestamp (e, t) = Ret (e', t') /\
    fire_all callback (filter (fun x => tm_expire t x <= timestamp) (tm_list t))
      (e <| tp_in_expiry := true |>, t) = Ret (e1, t1) /\
    tm_list t1 = filter (fun x => timestamp < tm_expire t x) (tm_list t) /\
    linked t' /\ tm_expiring t' = [] /\ tm_list t' ≡ₚ tm_list t1 ++ tm_expiring t1 /\
    (forall x, x ∈ tm_list t1 -> tm_expire t' x = tm_expire t x) /\
    tp_in_expiry e' = false /\ (tm_list t' <> [] -> tp_alarm e' = first_timeout t').
Proof. intros Ha. by apply expire_timer_spec. Qed.

(** Timers 1, 2 and 3 expire at 10, 20 and 30. *)
Definition demo_timers : timers :=
  mk_timers (fun x => if (1 <=? x) && (x <=? 3) then 10 * x else TIMER_UNSET) (fun _ => 0) (fun _ => 0) [1; 2; 3] [].

Lemma demo_timers_linked : linked demo_timers.
Proof.
  constructor.
  - by_decide.
  - repeat constructor; by vm_compute.
  - intros x Hx. cbn in Hx. repeat (apply elem_of_cons in Hx as [->|Hx]; [done|]). by apply elem_of_nil in Hx.
Qed.

(** The callback sets its timer again, for 25 ticks later. *)
Lemma expire_timer_witness :
  exists e' t', expire_timer (fun _ => 0) (fun x => set_timer (fun _ => 0) x 25 0 0) 10 20
                  (mk_tproc 20 false 0, demo_timers) = Ret (e', t') /\
                tp_alarm e' = 30 /\ tm_list t' = [3; 1; 2].
Proof.
  destruct (expire_timer_fires (fun _ => 0) (fun x => set_timer (fun _ => 0) x 25 0 0) 20
              (mk_tproc 20 false 0) demo_timers 10)
    as (e1 & t1 & e' & t' & He & _).
  - reflexivity.
  - apply rearm_well_behaved. split; [discriminate|reflexivity].
  - exact demo_timers_linked.
  - reflexivity.
  - cbn. lia.
  - exists e', t'. split; [exact He|]. vm_compute in He. injection He as <- <-. split; reflexivity.
Defined.

(** ** A callback that cancels the next timer *)

Lemma self_linked_loops {E} (callback : Z -> E * timers -> res (E * timers)) fuel x timestamp s :
  x ∉ tm_list s.2 -> timestamp < tm_expire s.2 x ->
  expire_loop callback fuel (Some x) timestamp s = Crash OutOfFuel.
Proof.
  intros Hx Ht. assert (next_of (tm_list s.2) x = Some x) as Hn.
  { induction (tm_list s.2) as [|y l IH]; [done|]. apply not_elem_of_cons in Hx as [Hne Hx]. cbn.
    rewrite (proj2 (Z.eqb_neq y x)) by congruence. by apply IH. }
  induction fuel as [|fuel IH]; [done|]. cbn. rewrite Hn, (proj2 (Z.leb_gt _ _)) by done. exact IH.
Qed.

Definition cancel_second (x : Z) (s : tproc * timers) : res (tproc * timers) :=
  Ret (s.1, if x =? 1 then fst (cancel_timer 2 s.2) else s.2).

(** [timer_expire] remembers the next timer before it runs a callback. When
    the callback cancels that timer, it points to itself afterwards, and the
    loop goes on for ever, whatever the fuel. *)
Theorem cancel_in_callback_loops fuel :
  timer_expire cancel_second fuel 15 (mk_tproc 15 true 0, demo_timers) = Crash OutOfFuel.
Proof.
  destruct fuel as [|fuel]; [done|].
  change (timer_expire cancel_second (S fuel) 15 (mk_tproc 15 true 0, demo_timers))
    with (expire_loop cancel_second fuel (Some 2) 15
            (mk_tproc 15 true 0, fst (cancel_timer 2 (fst (cancel_timer 1 demo_timers))))).
  apply self_linked_loops; [|done]. by_decide.
Qed.
