(* ===== verification/Clock.v ===== *)
(** * The clock

    The clock interrupt, alarms of processes and the accounting of time
    (kernel/clock.c, kernel/system/sys_alarm.c, sys_times.c and sys_stime.c), on
    the boot processor. The timer of a process is named by its privilege
    structure. *)

From S2P Require Import Prelude Bitmap Kernel Sched Ipc IpcInv Rendezvous Receive IpcProps System SystemProps Timer.

Definition MAX_TICKS : Z := 0x7FFFABCD.
Definition SIG_ALARM : Z := 1.
(** [++] on a [clock_t]. *)
Definition tick (x : Z) : Z := wrapu 64 (x + 1).

(** [timer_list], [next_timeout], [kclockinfo] and [idle_ticks]. *)
Record kclock := mk_kclock {
  ck_timers : timers;
  ck_next_timeout : Z;
  ck_realtime : Z;
  ck_uptime : Z;
  ck_boottime : Z;
  ck_hz : Z;
  ck_idle_ticks : Z
}.
#[export] Instance rebuild_kclock : Rebuild kclock := fun c =>
  mk_kclock (ck_timers c) (ck_next_timeout c) (ck_realtime c) (ck_uptime c) (ck_boottime c) (ck_hz c)
            (ck_idle_ticks c).

(** ** Kernel timers *)

Definition set_sys_timer (timer : Z) (c : kclock) : kclock :=
  let t := ck_timers c in
  let t := if negb (tm_expire t timer =? TIMER_UNSET) then unlink timer t else t in
  let t := t <| tm_list ::= timer_add (tm_expire t) timer |> in
  c <| ck_timers := t |> <| ck_next_timeout := first_timeout t |>.

Definition reset_sys_timer (timer : Z) (c : kclock) : kclock :=
  let t := fst (cancel_timer timer (ck_timers c)) in
  c <| ck_timers := t |> <| ck_next_timeout := first_timeout t |>.

Definition set_boottime (time : Z) (c : kclock) : kclock := c <| ck_boottime := time |>.

Section clock.
Context {mem : Type} `{!UserMemory mem}.
Implicit Types st : kstate mem.

(** [sig_alarm], the callback of every timer of the kernel. *)
Definition sig_alarm (cpu timer : Z) (s : kstate mem * timers) : res (kstate mem * timers) :=
  '(st, _) ← msg_notify cpu CLOCK (tm_arg s.2 timer) s.1;
  Ret (st, s.2).

Definition sys_alarm (m : MESSAGE) (p_proc : Z) (st : kstate mem) (c : kclock)
  : res (kclock * MESSAGE * Z) :=
  id ← proc_priv st p_proc;
  if negb (has_flag (pr_flags (privs st id)) PRF_PRIV_PROC) then Ret (c, m, EPERM)
  else
    let expire_time := m3l1 (m_u m) in
    let absolute_time := m3i2 (m_u m) in
    let t := ck_timers c in
    let t := t <| tm_arg ::= <[id := p_endpoint (procs st p_proc)]> |>
               <| tm_callback ::= <[id := SIG_ALARM]> |> in
    let left :=
      if negb (tm_expire t id =? TIMER_UNSET) && (jiffies st <? tm_expire t id)
      then wrapu 64 (tm_expire t id - jiffies st) else 0 in
    let m := m <| m_u ::= fun u => u <| m3l1 := left |> |> in
    if expire_time =? 0 then Ret (reset_sys_timer id (c <| ck_timers := t |>), m, 0)
    else
      let t := t <| tm_expire ::= <[id := if negb (absolute_time =? 0) then expire_time
                                          else wrapu 64 (jiffies st + expire_time)]> |> in
      Ret (set_sys_timer id (c <| ck_timers := t |>), m, 0).

Definition sys_times (m : MESSAGE) (st : kstate mem) (c : kclock) : MESSAGE * Z :=
  (m <| m_u ::= fun u => u <| m3l1 := wrapu 64 (jiffies st) |> <| m3l2 := ck_idle_ticks c |> |>, 0).

Definition sys_stime (boot_time : Z) (c : kclock) : kclock * Z := (set_boottime boot_time c, 0).

(** ** The clock interrupt *)

(** The timers that are due, under the lock of the timers. *)
Definition run_timers (cpu : Z) (st : kstate mem) (c : kclock) : res (kstate mem * kclock) :=
  if (ck_next_timeout c <=? jiffies st) && negb (ck_next_timeout c =? TIMER_UNSET) then
    '(st, t) ← timer_expire (sig_alarm cpu) (S (length (tm_list (ck_timers c)))) (jiffies st) (st, ck_timers c);
    Ret (st, c <| ck_timers := t |> <| ck_next_timeout := first_timeout t |>)
  else Ret (st, c).

(** [clock_handler]; the idle process is [None], and its own entry, which no
    table has, is not part of the state. *)
Definition clock_handler (cpu : Z) (st : kstate mem) (c : kclock) : res (kstate mem * kclock) :=
  let c := c <| ck_realtime ::= tick |> <| ck_uptime ::= tick |> in
  let j := jiffies st + 1 in
  let st := st <| jiffies := if MAX_TICKS <=? j then 0 else j |> in
  let c := match proc_ptr st cpu with
           | None => c <| ck_idle_ticks ::= tick |>
           | Some _ => c
           end in
  let st := match proc_ptr st cpu with
            | None => st
            | Some p => upd_proc p (fun r => r <| p_user_time ::= tick |>) st
            end in
  '(st, c) ← run_timers cpu st c;
  Ret (match proc_ptr st cpu with
       | None => st
       | Some p => sched_clock p st
       end, c).

Definition init_time (st : kstate mem) (c : kclock) : kstate mem * kclock :=
  (st <| jiffies := 0 |>,
   c <| ck_realtime := 0 |> <| ck_uptime := 0 |> <| ck_boottime := 0 |> <| ck_hz := system_hz st |>).

(** ** Accounting of time

    [stop_context]: the processor's counter advanced to [cycle] since the last
    context switch. The number of cycles of a process is not part of its entry
    in the model. *)
Definition stop_context (cyc2ns : Z -> Z) (p cycle context_switch_clock : Z) (st : kstate mem)
  : kstate mem * Z :=
  let nsec := cyc2ns (wrapu 64 (cycle - context_switch_clock)) in
  let st :=
    if 0 <=? p_endpoint (procs st p) then
      upd_proc p (fun r => r <| p_counter_ns ::= fun c => if nsec <? c then c - nsec else 0 |>) st
    else st in
  (st, cycle).
End clock.

(** ** Notifications of the clock *)

Section tick.
Context {mem : Type} `{!UserMemory mem}.
Implicit Types st : kstate mem.

(** Process [p] has the clock's notification, or it waits for [p]. *)
Definition notified st (p : Z) : Prop :=
  (exists msg, has_message st p msg /\ m_source msg = CLOCK /\ m_type msg = NOTIFY_MSG) \/
  (exists sid, p_priv (procs st CLOCK) = Some sid /\ notify_pending st p (pr_id (privs st sid))).

(** The clock task is there. *)
Definition clock_task st : Prop := live st CLOCK /\ p_endpoint (procs st CLOCK) = CLOCK.

Lemma ipc_ok_same cpu st st' Q :
  procs st' = procs st -> privs st' = privs st -> run_queues st' = run_queues st ->
  run_queue_bitmap st' = run_queue_bitmap st -> proc_ptr st' = proc_ptr st ->
  ipc_ok cpu st Q -> ipc_ok cpu st' Q.
Proof.
  intros Hp Hv Hq Hb Hc [Hwf Hsch Hr Hpr]. assert (ipc_wf st' Q) as Hwf' by (by apply (ipc_wf_procs st)).
  constructor; [done|..].
  - apply (sched_wf_ext cpu st); [intros n; by rewrite Hp|done|done|by rewrite Hc|done].
  - intros k. unfold PST_IS_SET. rewrite Hp. apply Hr.
  - eapply priv_ok_ext; [exact Hwf|exact Hwf'|..|done]; intros; by rewrite ?Hp, ?Hv.
Qed.

Lemma set_notify_clock dest st st' msg :
  set_notify_msg dest CLOCK st = Ret (st', msg) ->
  st' = st /\ m_source msg = CLOCK /\ m_type msg = NOTIFY_MSG.
Proof. unfold set_notify_msg. cbn. intros [= <- <-]. done. Qed.

Lemma waits_receiving st p ep : waits_for_msg st p ep = true -> PST_IS_SET st p PST_RECEIVING = true.
Proof. unfold waits_for_msg. intros H. by b2p. Qed.

Lemma set_notify_env dest src st st' msg :
  set_notify_msg dest src st = Ret (st', msg) -> jiffies st' = jiffies st /\ proc_ptr st' = proc_ptr st.
Proof.
  unfold set_notify_msg, proc_priv.
  destruct (src =? INTERRUPT), (src =? SYSTEM), (src =? CLOCK), (p_priv (procs st dest));
    cbn; intros [=]; by subst.
Qed.

Lemma notify_env cpu sender dest st st' r :
  msg_notify cpu sender dest st = Ret (st', r) -> jiffies st' = jiffies st /\ proc_ptr st' = proc_ptr st.
Proof.
  unfold msg_notify. destruct (endpt_proc st dest) as [d|]; [|by intros [= <- _]].
  destruct (waits_for_msg st d _).
  - destruct (set_notify_msg d _ st) as [[st1 msg]|] eqn:Hn; [|done].
    apply set_notify_env in Hn as [<- <-]. rewrite res_ret_bind. cbv beta iota zeta. intros [= <- _].
    unfold PST_UNSET_LOCKED. by case_cond.
  - unfold proc_priv. destruct (p_priv (procs st d)), (p_priv (procs st sender)); cbn; try done.
    by intros [= <- _].
Qed.

(** What a notification of the clock leaves of those that came before. *)
Lemma notified_persists cpu st Q dest st' r p :
  ipc_ok cpu st Q -> clock_task st -> msg_notify cpu CLOCK dest st = Ret (st', r) ->
  notified st p -> notified st' p.
Proof.
  intros Hok [Hl He]. unfold msg_notify. destruct (endpt_proc st dest) as [d|] eqn:Hd; [|by intros [= <- _]].
  destruct (ok_priv _ _ _ Hok _ _ Hd) as (pid & Hpid & _ & Hb & _).
  destruct (ok_priv _ _ _ Hok _ _ (live_endpt _ _ Hl)) as (sid & Hsid & Hrg & _).
  rewrite He. destruct (waits_for_msg st d CLOCK) eqn:Hw.
  - destruct (set_notify_msg d CLOCK st) as [[st1 msg]|] eqn:Hn; [|done].
    apply set_notify_clock in Hn as (-> & _ & _). rewrite res_ret_bind. cbv beta iota zeta. intros [= <- _].
    apply waits_receiving in Hw. set (st2 := PST_UNSET_LOCKED _ _ _ _).
    assert (forall n, n <> d -> procs st2 n = procs st n) as Hne.
    { intros n Hn. unfold st2. by rewrite procs_PST_UNSET, decide_False, procs_upd_proc_ne. }
    assert (forall n, p_priv (procs st2 n) = p_priv (procs st n)) as Hpp.
    { intros n. unfold st2. rewrite procs_PST_UNSET, !procs_upd_proc. repeat case_decide; by subst. }
    assert (privs st2 = privs st) as Hpv by exact (proj2 (proj2 (env_PST_UNSET _ _ _ _))). clearbody st2.
    intros [(m & (Hm1 & Hm2 & Hm3) & Hm)|(sid' & Hs' & id & Hid & Hr & Ht)].
    + assert (p <> d) by (intros ->; congruence). left. exists m.
      unfold has_message, PST_IS_SET in *. by rewrite Hne.
    + right. exists sid'. rewrite Hpp, Hpv. split; [done|]. exists id. by rewrite Hpp, Hpv.
  - unfold proc_priv. rewrite Hpid, Hsid. cbn [deref]. rewrite !res_ret_bind. cbv zeta. intros [= <- _].
    intros [Hm|(sid' & Hs' & id & Hid & Hr & Ht)]; [by left|right].
    exists sid'. split; [done|]. cbn. assert (sid' = sid) as -> by congruence.
    assert (pr_id (alter (fun r => r <| pr_notify_pending ::= fun b => SET_BIT b (pr_id (privs st sid)) |>) pid (privs st) sid)
            = pr_id (privs st sid)) as Hpr.
    { unfold alter, fn_alter. case_decide; by subst. }
    rewrite Hpr. exists id. split; [done|]. split; [done|]. cbn. unfold alter, fn_alter.
    destruct (decide (pid = id)) as [<-|]; [|done]. cbn.
    rewrite (test_bit_SET_BIT _ NR_PRIV_PROCS) by (done || lia). by case_decide.
Qed.

Lemma msg_notify_clock cpu st Q dest :
  ipc_ok cpu st Q -> clock_task st ->
  exists st' r, msg_notify cpu CLOCK dest st = Ret (st', r) /\ ipc_ok cpu st' Q /\ notify_frame st st' /\
    clock_task st' /\ (forall p, endpt_proc st dest = Some p -> notified st' p).
Proof.
  intros Hok [Hl He]. destruct (msg_notify_spec cpu st Q CLOCK dest Hok Hl) as (st' & r & Hn & Hok' & Ho).
  pose proof (msg_notify_frame _ _ _ _ _ _ Hn) as Hf.
  exists st', r. split; [done|]. split; [done|]. split; [done|]. split.
  { split; [|by rewrite (nf_ep _ _ Hf)].
    apply (live_ext st); [apply Hf| |exact (iw_free _ _ (ok_ipc _ _ _ Hok) CLOCK)|done].
    by apply (nf_pst _ _ Hf). }
  intros p Hp. rewrite Hp in Ho. destruct Ho as (_ & [(_ & msg & (Hs & Ht & _) & Hm)|(Hw & sid & Hsid & Hnp)]).
  - left. exists msg. rewrite He in Hs. done.
  - right. destruct (msg_notify_keeps_sigs cpu CLOCK dest p st st' r Hp Hw Hn) as [Hpp Hpr].
    exists sid. rewrite Hpp. split; [done|]. by rewrite (proj2 (Hpr sid)).
Qed.

(** ** The timers at a tick *)

Definition alarm_state cpu Q (s : kstate mem * timers) : Prop :=
  ipc_ok cpu s.1 Q /\ clock_task s.1 /\ linked s.2 /\ tm_expiring s.2 = [].

Lemma sig_alarm_well_behaved cpu Q : well_behaved (sig_alarm (mem := mem) cpu) (alarm_state cpu Q).
Proof.
  intros x [st t] (Hok & Hc & Hli & Hnil) Hin Hx. unfold sig_alarm. cbn [fst snd].
  destruct (msg_notify_clock cpu st Q (tm_arg (fst (cancel_timer x t)) x) Hok Hc)
    as (st' & r & -> & Hok' & _ & Hc' & _).
  rewrite res_ret_bind. cbv beta iota. eexists. split; [reflexivity|]. cbn [fst snd]. split; [|done].
  split; [done|]. split; [done|]. split; [by apply linked_cancel|].
  cbn in Hnil. unfold cancel_timer. case_cond; cbn; by rewrite Hnil.
Qed.

Lemma tm_arg_cancel x t : tm_arg (fst (cancel_timer x t)) = tm_arg t.
Proof. unfold cancel_timer. by case_cond. Qed.

Lemma endpt_frame cpu st st' Q ep :
  ipc_ok cpu st Q -> ipc_ok cpu st' Q -> notify_frame st st' -> endpt_proc st' ep = endpt_proc st ep.
Proof.
  intros Hok Hok' Hf. apply endpt_proc_ext; [apply Hf| |..].
  - intros n. by apply (nf_pst _ _ Hf).
  - exact (iw_free _ _ (ok_ipc _ _ _ Hok)).
  - exact (iw_free _ _ (ok_ipc _ _ _ Hok')).
Qed.

(** Every timer of the list notifies the process it is for. *)
Lemma fire_all_notifies cpu Q l : forall st t st' t',
  ipc_ok cpu st Q -> clock_task st -> fire_all (sig_alarm cpu) l (st, t) = Ret (st', t') ->
  (forall p, notified st p -> notified st' p) /\
  (forall x p, x ∈ l -> endpt_proc st (tm_arg t x) = Some p -> notified st' p) /\
  jiffies st' = jiffies st /\ proc_ptr st' = proc_ptr st /\
  clock_task st' /\ (forall ep, endpt_proc st' ep = endpt_proc st ep) /\ tm_arg t' = tm_arg t.
Proof.
  induction l as [|x l IH]; intros st t st' t' Hok Hc; cbn [fire_all fst snd].
  { intros [= <- <-]. split_and!; try done. intros x p Hx. by apply elem_of_nil in Hx. }
  set (t1 := fst (cancel_timer x t)). assert (tm_arg t1 = tm_arg t) as Ht1 by apply tm_arg_cancel.
  clearbody t1. change (sig_alarm cpu x (st, t1)) with
    ('(st, _) ← msg_notify cpu CLOCK (tm_arg t1 x) st; Ret (st, t1)). rewrite Ht1.
  destruct (msg_notify_clock cpu st Q (tm_arg t x) Hok Hc) as (st1 & r & Hn & Hok1 & Hf & Hc1 & Hnew).
  rewrite Hn, !res_ret_bind. cbv beta iota. intros Hr.
  destruct (IH _ _ _ _ Hok1 Hc1 Hr) as (H1 & H2 & H3 & H4 & H5 & H6 & H7).
  pose proof (fun ep => endpt_frame cpu st st1 Q ep Hok Hok1 Hf) as He1.
  destruct (notify_env _ _ _ _ _ _ Hn) as [Hj Hpp].
  split_and!; [| |congruence|congruence|done|intros ep; congruence|congruence].
  - intros p Hp. apply H1. exact (notified_persists cpu st Q _ _ _ p Hok Hc Hn Hp).
  - intros y p [->|Hy]%elem_of_cons Hp; [by apply H1, Hnew|].
    apply (H2 y); [done|]. rewrite Ht1. by rewrite He1.
Qed.

(** The kernel's timers: in order, and the next timeout is that of the first. *)
Record clock_wf (c : kclock) : Prop := {
  cw_linked : linked (ck_timers c);
  cw_expiring : tm_expiring (ck_timers c) = [];
  cw_next : ck_next_timeout c = first_timeout (ck_timers c)
}.

(** No timer is due before the next timeout. *)
Lemma none_due t j :
  linked t -> first_timeout t = TIMER_UNSET \/ j < first_timeout t ->
  forall x, x ∈ tm_list t -> j < tm_expire t x.
Proof.
  intros Hli Hj x Hx. unfold first_timeout in Hj. destruct (tm_list t) as [|y l] eqn:Hl; [by apply elem_of_nil in Hx|].
  assert (tm_expire t y < TIMER_UNSET) by (apply (li_set _ Hli); rewrite Hl; by left).
  destruct Hj as [|Hj]; [lia|]. pose proof (li_ordered _ Hli) as Ho. rewrite Hl in Ho.
  pose proof (ordered_first _ _ _ _ Ho Hx). lia.
Qed.

(** What a tick does to the timers: those that are due are off the list and
    their processes have been notified. *)
Record fired st (c : kclock) st' (c' : kclock) (j : Z) : Prop := {
  fi_list : tm_list (ck_timers c') = filter (fun x => j < tm_expire (ck_timers c) x) (tm_list (ck_timers c));
  fi_expire x : x ∈ tm_list (ck_timers c') -> tm_expire (ck_timers c') x = tm_expire (ck_timers c) x;
  fi_due x p : x ∈ tm_list (ck_timers c) -> tm_expire (ck_timers c) x <= j ->
    endpt_proc st (tm_arg (ck_timers c) x) = Some p -> notified st' p;
  fi_arg : tm_arg (ck_timers c') = tm_arg (ck_timers c);
  fi_endpt ep : endpt_proc st' ep = endpt_proc st ep
}.

Lemma run_timers_spec cpu st Q c :
  ipc_ok cpu st Q -> clock_task st -> clock_wf c -> jiffies st < TIMER_UNSET ->
  exists st' c', run_timers cpu st c = Ret (st', c') /\ ipc_ok cpu st' Q /\ clock_wf c' /\
    fired st c st' c' (jiffies st) /\ jiffies st' = jiffies st /\ clock_task st'.
Proof.
  intros Hok Hc [Hli Hnil Hnx] Hj. unfold run_timers. rewrite Hnx.
  destruct ((first_timeout (ck_timers c) <=? jiffies st) && negb (first_timeout (ck_timers c) =? TIMER_UNSET))%bool eqn:Hd.
  - unfold timer_expire. cbn [snd].
    destruct (expire_loop_spec (sig_alarm cpu) (alarm_state cpu Q) (sig_alarm_well_behaved cpu Q) (jiffies st)
                (tm_list (ck_timers c)) [] (st, ck_timers c) (S (length (tm_list (ck_timers c)))))
      as ([st' t'] & -> & (Hok' & _ & Hli' & Hnil') & Hf & Hl & He).
    { done. } { exact (proj1 (proj1 (NoDup_app _ _) (li_nodup _ Hli))). } { done. } { done. } { lia. }
    cbn [fst snd] in *. rewrite res_ret_bind. cbv beta iota.
    destruct (fire_all_notifies _ _ _ _ _ _ _ Hok Hc Hf) as (_ & Hn & Hj' & _ & Hc' & He' & Ha').
    do 2 eexists. split; [reflexivity|]. split_and!; try done.
    constructor; cbn; [done|done| |done|done]. intros x p Hx Hdx. apply Hn. by apply list_elem_of_filter.
  - assert (forall x, x ∈ tm_list (ck_timers c) -> jiffies st < tm_expire (ck_timers c) x) as Hnone.
    { apply none_due; [done|]. apply andb_false_iff in Hd as [Hd|Hd]; b2p; [right; lia|by left]. }
    exists st, c. split_and!; try done. constructor; [|done| |done|done].
    + symmetry. by apply list_filter_id.
    + intros x p Hx Hdx. apply Hnone in Hx. lia.
Qed.

(** Members of a process that only the accounting of time touches. *)
Definition time_only (f : proc -> proc) : Prop := forall p,
  unseen p (f p) /\ p_deliver_msg (f p) = p_deliver_msg p /\ p_flags (f p) = p_flags p.

Lemma ipc_ok_time cpu n f st Q : time_only f -> ipc_ok cpu st Q -> ipc_ok cpu (upd_proc n f st) Q.
Proof.
  intros Hf Hok. destruct (Hf (procs st n)) as (Hu & _ & Hfl). apply ipc_ok_upd; [done| |done].
  rewrite Hfl. apply Hok.
Qed.

Lemma time_only_procs n f st k : time_only f ->
  p_deliver_msg (procs (upd_proc n f st) k) = p_deliver_msg (procs st k) /\
  p_flags (procs (upd_proc n f st) k) = p_flags (procs st k) /\
  p_state (procs (upd_proc n f st) k) = p_state (procs st k) /\
  p_endpoint (procs (upd_proc n f st) k) = p_endpoint (procs st k) /\
  p_priv (procs (upd_proc n f st) k) = p_priv (procs st k).
Proof.
  intros Hf. rewrite procs_upd_proc. case_decide; [|done]. subst k.
  destruct (Hf (procs st n)) as ([Hi [Hs _] Hv] & Hd & Hfl). split_and!; try done. apply Hi.
Qed.

Lemma notified_time n f st p : time_only f -> notified st p -> notified (upd_proc n f st) p.
Proof.
  intros Hf. pose proof (time_only_procs n f st) as Ht.
  assert (privs (upd_proc n f st) = privs st) as Hpv by done. set (st' := upd_proc n f st) in *. clearbody st'.
  unfold notified, has_message, notify_pending, PST_IS_SET. rewrite Hpv.
  destruct (Ht p Hf) as (-> & -> & -> & _ & ->). destruct (Ht CLOCK Hf) as (_ & _ & _ & _ & ->). done.
Qed.

Lemma tick_time_only : time_only (fun r => r <| p_user_time ::= tick |>).
Proof. intros p. by repeat split. Qed.
Lemma deadline_time_only d : time_only (fun r => r <| p_deadline := d |>).
Proof. intros p. by repeat split. Qed.

Lemma time_state cpu n f st Q :
  time_only f -> ipc_ok cpu st Q -> clock_task st ->
  ipc_ok cpu (upd_proc n f st) Q /\ clock_task (upd_proc n f st) /\
  forall ep, endpt_proc (upd_proc n f st) ep = endpt_proc st ep.
Proof.
  intros Hf Hok Hc. assert (ipc_ok cpu (upd_proc n f st) Q) as Hok' by (by apply ipc_ok_time).
  pose proof (fun k => time_only_procs n f st k Hf) as Ht. set (st' := upd_proc n f st) in *. clearbody st'.
  split; [done|]. split.
  - unfold clock_task, live. destruct (Ht CLOCK) as (_ & _ & -> & -> & _). exact Hc.
  - intros ep. apply endpt_proc_ext; [apply Ht| |exact (iw_free _ _ (ok_ipc _ _ _ Hok))
      |exact (iw_free _ _ (ok_ipc _ _ _ Hok'))]. intros k. by destruct (Ht k) as (_ & _ & -> & _).
Qed.

(** The state in which the timers of a tick run: the same but for the time. *)
Lemma tick_state cpu st Q j :
  ipc_ok cpu st Q -> clock_task st ->
  let st1 := st <| jiffies := j |> in
  let st2 := match proc_ptr st1 cpu with
             | None => st1
             | Some p => upd_proc p (fun r => r <| p_user_time ::= tick |>) st1
             end in
  ipc_ok cpu st2 Q /\ clock_task st2 /\ jiffies st2 = j /\ forall ep, endpt_proc st2 ep = endpt_proc st ep.
Proof.
  intros Hok Hc. cbv zeta. set (st1 := st <| jiffies := j |>).
  assert (ipc_ok cpu st1 Q) as Hok1 by (by apply (ipc_ok_same cpu st)).
  assert (clock_task st1) as Hc1 by exact Hc. assert (jiffies st1 = j) as Hj1 by done.
  assert (forall ep, endpt_proc st1 ep = endpt_proc st ep) as He1 by done. clearbody st1.
  destruct (proc_ptr st1 cpu) as [p|]; [|done].
  destruct (time_state cpu p _ st1 Q tick_time_only Hok1 Hc1) as (G1 & G2 & G3).
  split_and!; [done|done|done|]. intros ep. by rewrite G3.
Qed.

Lemma clock_handler_spec cpu st Q c :
  ipc_ok cpu st Q -> clock_task st -> clock_wf c -> 0 <= jiffies st -> jiffies st + 1 < MAX_TICKS ->
  exists st' c', clock_handler cpu st c = Ret (st', c') /\ ipc_ok cpu st' Q /\ clock_wf c' /\
    fired st c st' c' (jiffies st + 1) /\ jiffies st' = jiffies st + 1 /\ clock_task st'.
Proof.
  intros Hok Hc Hcw Hj0 Hj. unfold clock_handler. rewrite (proj2 (Z.leb_gt _ _)) by done. cbv zeta.
  change (proc_ptr (st <| jiffies := jiffies st + 1 |>) cpu) with (proc_ptr st cpu).
  destruct (tick_state cpu st Q (jiffies st + 1) Hok Hc) as (Hok2 & Hc2 & Hj2 & Hep2). cbv zeta in *.
  change (proc_ptr (st <| jiffies := jiffies st + 1 |>) cpu) with (proc_ptr st cpu) in *.
  set (st2 := match proc_ptr st cpu with None => _ | Some p => upd_proc p _ _ end) in *.
  set (c1 := match proc_ptr st cpu with None => _ | Some _ => _ end).
  assert (ck_timers c1 = ck_timers c) as Ht1 by (unfold c1; by destruct (proc_ptr st cpu)).
  assert (clock_wf c1) as Hcw1.
  { destruct Hcw as [W1 W2 W3]. constructor; rewrite Ht1; [done|done|]. unfold c1. by destruct (proc_ptr st cpu). }
  clearbody st2 c1.
  destruct (run_timers_spec cpu st2 Q c1 Hok2 Hc2 Hcw1) as (st' & c' & -> & Hok' & Hcw' & Hfi & Hj' & Hc').
  { rewrite Hj2. unfold MAX_TICKS, TIMER_UNSET in *. lia. }
  rewrite res_ret_bind. cbv beta iota. do 2 eexists. split; [reflexivity|].
  destruct Hfi as [F1 F2 F3 F4 F5]. rewrite Ht1, Hj2 in *.
  destruct (proc_ptr st' cpu) as [p|].
  - unfold sched_clock. destruct (time_state cpu p (fun r => r <| p_deadline := next_deadline st' p |>) st' Q)
      as (T1 & T2 & T3); [apply deadline_time_only|done..|].
    split_and!; [done|done| |exact Hj'|done]. constructor; [done|done| |done|].
    + intros x q Hx Hd He. apply notified_time; [apply deadline_time_only|].
      eapply F3; [done|done|]. by rewrite Hep2.
    + intros ep. by rewrite T3, F5.
  - split_and!; [done|done| |congruence|done]. constructor; [done|done| |done|].
    + intros x q Hx Hd He. eapply F3; [done|done|]. by rewrite Hep2.
    + intros ep. by rewrite F5.
Qed.

(** ** Setting an alarm *)

Lemma linked_unlink t x : linked t -> linked (unlink x t).
Proof.
  intros [Hnd Hord Hset]. constructor; cbn; rewrite <- ?filter_app.
  - by apply NoDup_filter.
  - by apply ordered_filter.
  - intros y [_ Hy]%list_elem_of_filter. by apply Hset.
Qed.

(** The timers but for the one that is set: they keep their place and time. *)
Lemma set_sys_timer_spec id c exp c0 :
  clock_wf c0 -> ck_timers c = (ck_timers c0) <| tm_expire ::= <[id := exp]> |> \/
    (exists a b, ck_timers c = (ck_timers c0) <| tm_arg ::= <[id := a]> |> <| tm_callback ::= <[id := b]> |>
                                              <| tm_expire ::= <[id := exp]> |>) ->
  exp < TIMER_UNSET ->
  clock_wf (set_sys_timer id c) /\ id ∈ tm_list (ck_timers (set_sys_timer id c)) /\
  tm_expire (ck_timers (set_sys_timer id c)) id = exp /\
  tm_arg (ck_timers (set_sys_timer id c)) = tm_arg (ck_timers c).
Proof.
  intros [Hli Hnil _] Hc Hexp. set (t0 := ck_timers c0) in *.
  assert (tm_expire (ck_timers c) = <[id := exp]> (tm_expire t0) /\ tm_list (ck_timers c) = tm_list t0 /\
          tm_expiring (ck_timers c) = []) as (He & Hl & Hx).
  { destruct Hc as [->|(a & b & ->)]; done. }
  unfold set_sys_timer. rewrite He, fn_lookup_insert, (proj2 (Z.eqb_neq _ _)) by lia. cbn [negb].
  destruct (linked_unlink t0 id Hli) as [Hnd Hord Hset]. cbn in Hnd, Hord, Hset. rewrite Hnil in Hnd, Hset.
  change (filter (fun x : Z => x <> id) []) with (@nil Z) in *. rewrite app_nil_r in *.
  set (l := filter (fun x => x <> id) (tm_list t0)) in *.
  assert (forall x, x ∈ l -> <[id := exp]> (tm_expire t0) x = tm_expire t0 x) as Hext.
  { intros x [Hx' _]%list_elem_of_filter. by apply fn_lookup_insert_ne. }
  assert (ordered (<[id := exp]> (tm_expire t0)) l) as Hord' by (by apply (ordered_ext (tm_expire t0))).
  split_and!; cbn; rewrite ?Hl, ?He.
  - constructor; cbn; rewrite ?Hl, ?He, ?Hx; [|done|done]. constructor; cbn; rewrite ?Hl, ?He, ?Hx; fold l.
    + change (filter (fun x : Z => x <> id) []) with (@nil Z). rewrite app_nil_r, timer_add_perm. constructor; [|done].
      by intros [Hx' _]%list_elem_of_filter.
    + by apply timer_add_ordered.
    + change (filter (fun x : Z => x <> id) []) with (@nil Z). rewrite app_nil_r. intros x. rewrite timer_add_perm.
      intros [->|Hin]%elem_of_cons; [by rewrite fn_lookup_insert|]. rewrite Hext by done. by apply Hset.
  - rewrite timer_add_perm. by left.
  - by rewrite fn_lookup_insert.
  - done.
Qed.

Lemma sys_alarm_spec m p st c id :
  clock_wf c -> p_priv (procs st p) = Some id -> has_flag (pr_flags (privs st id)) PRF_PRIV_PROC = true ->
  m3i2 (m_u m) = 0 -> 0 < m3l1 (m_u m) -> 0 <= jiffies st -> jiffies st + m3l1 (m_u m) < TIMER_UNSET ->
  exists c' m', sys_alarm m p st c = Ret (c', m', 0) /\ clock_wf c' /\ id ∈ tm_list (ck_timers c') /\
    tm_expire (ck_timers c') id = jiffies st + m3l1 (m_u m) /\
    tm_arg (ck_timers c') id = p_endpoint (procs st p).
Proof.
  intros Hcw Hid Hpf Habs Hpos Hj Hlt. unfold sys_alarm, proc_priv. rewrite Hid. cbn [deref].
  rewrite res_ret_bind. cbv beta. rewrite Hpf. cbn [negb]. cbv zeta.
  rewrite (proj2 (Z.eqb_neq _ 0)) by lia. rewrite Habs. cbn [Z.eqb negb].
  rewrite (wrapu_small 64 (jiffies st + _)) by (unfold TIMER_UNSET in *; lia).
  do 2 eexists. split; [reflexivity|].
  set (c1 := c <| ck_timers := _ |>).
  destruct (set_sys_timer_spec id c1 (jiffies st + m3l1 (m_u m)) c Hcw) as (H1 & H2 & H3 & H4).
  { right. do 2 eexists. reflexivity. }
  { done. }
  split_and!; try done. rewrite H4. unfold c1. cbn. apply fn_lookup_insert.
Qed.

(** ** Alarms are delivered *)

(** [n] ticks of the clock. *)
Fixpoint ticks (cpu : Z) (n : nat) (st : kstate mem) (c : kclock) : res (kstate mem * kclock) :=
  match n with
  | O => Ret (st, c)
  | S n => '(st, c) ← clock_handler cpu st c; ticks cpu n st c
  end.

Lemma ticks_spec cpu Q id p n : forall st c,
  ipc_ok cpu st Q -> clock_task st -> clock_wf c -> 0 <= jiffies st ->
  jiffies st + Z.of_nat (S n) < MAX_TICKS ->
  id ∈ tm_list (ck_timers c) -> tm_expire (ck_timers c) id = jiffies st + Z.of_nat (S n) ->
  endpt_proc st (tm_arg (ck_timers c) id) = Some p ->
  exists st' c', ticks cpu (S n) st c = Ret (st', c') /\ ipc_ok cpu st' Q /\ notified st' p.
Proof.
  induction n as [|n IH]; intros st c Hok Hc Hcw Hj Hlt Hin He Hp.
  - destruct (clock_handler_spec cpu st Q c Hok Hc Hcw Hj ltac:(lia)) as (st' & c' & Hh & Hok' & _ & Hfi & _).
    cbn [ticks]. rewrite Hh, res_ret_bind. cbv beta iota. exists st', c'. split; [done|]. split; [done|].
    apply (fi_due _ _ _ _ _ Hfi id); [done|lia|done].
  - destruct (clock_handler_spec cpu st Q c Hok Hc Hcw Hj ltac:(lia))
      as (st' & c' & Hh & Hok' & Hcw' & Hfi & Hj' & Hc').
    cbn [ticks]. rewrite Hh, res_ret_bind. cbv beta iota.
    assert (id ∈ tm_list (ck_timers c')) as Hin'.
    { rewrite (fi_list _ _ _ _ _ Hfi). apply list_elem_of_filter. split; [lia|done]. }
    apply IH; [done|done|done|lia|lia|done| |].
    + rewrite (fi_expire _ _ _ _ _ Hfi) by done. lia.
    + by rewrite (fi_endpt _ _ _ _ _ Hfi), (fi_arg _ _ _ _ _ Hfi).
Qed.
End tick.

(** C15: alarms are delivered. A process that may set alarms asks for one in
    [k] ticks; [sys_alarm] succeeds, and [k] clock interrupts later, none of
    which fails, the process has the notification of the clock or it waits for
    the process. The invariants of message passing hold. *)
Theorem alarm_delivered {mem} `{!UserMemory mem} cpu (st : kstate mem) Q c m p id k :
  ipc_ok cpu st Q -> clock_task st -> clock_wf c -> live st p ->
  p_priv (procs st p) = Some id -> has_flag (pr_flags (privs st id)) PRF_PRIV_PROC = true ->
  m3i2 (m_u m) = 0 -> m3l1 (m_u m) = Z.of_nat (S k) -> 0 <= jiffies st ->
  jiffies st + Z.of_nat (S k) < MAX_TICKS ->
  exists c1 m1 st' c', sys_alarm m p st c = Ret (c1, m1, 0) /\
    ticks cpu (S k) st c1 = Ret (st', c') /\ ipc_ok cpu st' Q /\ notified st' p.
Proof.
  intros Hok Hc Hcw Hl Hid Hpf Habs Hk Hj Hlt.
  destruct (sys_alarm_spec m p st c id) as (c1 & m1 & Ha & Hcw1 & Hin & He & Harg);
    [done..|lia|done|unfold MAX_TICKS, TIMER_UNSET in *; lia|].
  destruct (ticks_spec cpu Q id p k st c1) as (st' & c' & Ht & Hok' & Hn); [done..|congruence| |].
  { rewrite Harg. by apply live_endpt. }
  exists c1, m1, st', c'. done.
Qed.

(** A clock interrupt runs exactly the timers that are due. It returns and
    keeps the invariants; the timers whose time has come are off the list and
    the processes they are for have been notified, the others are on the list
    with the times they had, and the next timeout is that of the first. *)
Theorem tick_runs_due_timers {mem} `{!UserMemory mem} cpu (st : kstate mem) Q c :
  ipc_ok cpu st Q -> clock_task st -> clock_wf c -> 0 <= jiffies st -> jiffies st + 1 < MAX_TICKS ->
  exists st' c', clock_handler cpu st c = Ret (st', c') /\ ipc_ok cpu st' Q /\ clock_wf c' /\
    fired st c st' c' (jiffies st + 1) /\ jiffies st' = jiffies st + 1 /\ clock_task st'.
Proof. apply clock_handler_spec. Qed.

(** ** Witnesses *)

Definition demo_clock : kclock :=
  mk_kclock (mk_timers (fun _ => TIMER_UNSET) (fun _ => 0) (fun _ => 0) [] []) TIMER_UNSET 0 0 0 100 0.

Lemma demo_clock_wf : clock_wf demo_clock.
Proof.
  constructor; [|done|done]. constructor; cbn; [constructor|constructor|].
  intros x Hx. by apply elem_of_nil in Hx.
Qed.

Lemma demo_clock_task : clock_task demo0.
Proof. unfold clock_task, live, demo0. rewrite demo_procs. by vm_compute. Qed.

Lemma alarm_witness :
  exists st' c', ticks 0 3 demo0 c' = Ret st' /\ notified (fst st') 5.
Proof.
  destruct (alarm_delivered 0 demo0 (fun _ => []) demo_clock
              (reset_msg <| m_u := mk_mess3 0 0 0 0 3 0 0 0 [] |>) 5 9 2)
    as (c1 & m1 & st' & c' & _ & Ht & _ & Hn).
  - apply demo_state_ok.
  - exact demo_clock_task.
  - exact demo_clock_wf.
  - apply demo_live. set_solver.
  - unfold demo0. rewrite demo_procs. reflexivity.
  - reflexivity.
  - reflexivity.
  - reflexivity.
  - discriminate.
  - reflexivity.
  - exists (st', c'), c1. split; [exact Ht|exact Hn].
Defined.

Lemma tick_witness :
  exists st' c', clock_handler 0 demo0 demo_clock = Ret (st', c') /\ jiffies st' = 1.
Proof.
  destruct (tick_runs_due_timers 0 demo0 (fun _ => []) demo_clock) as (st' & c' & He & _ & _ & _ & Hj & _).
  - apply demo_state_ok.
  - exact demo_clock_task.
  - exact demo_clock_wf.
  - discriminate.
  - reflexivity.
  - exists st', c'. split; [exact He|exact Hj].
Defined.
