(* ===== verification/ClockEvent.v ===== *)
(** * Clock sources and clock event devices

    Conversion between nanoseconds and ticks of the hardware: the clock sources
    the kernel reads (kernel/clocksource.c) and the devices it programs for the
    next interrupt (kernel/clockevent.c, the tick devices of kernel/clock.c). *)

From S2P Require Import Prelude Bitmap.

Definition NSEC_PER_SEC : Z := 1000000000.

(** ** Factors *)

(** The first loop of [calc_clock_mul_shift]: one bit less of accuracy for each
    bit of [tmp]. *)
Fixpoint acc_loop (n : nat) (tmp sftacc : Z) : Z :=
  match n with
  | O => sftacc
  | S n => if tmp =? 0 then sftacc else acc_loop n (Z.shiftr tmp 1) (sftacc - 1)
  end.

(** [tmp] for a shift: [to << sft] divided by [from] and rounded. *)
Definition scaled (from to sft : Z) : Z := (wrapu 64 (Z.shiftl to sft) + from / 2) / from.

(** The second loop, with [sft] counting down: the last [tmp] and the shift. *)
Fixpoint shift_loop (sft : nat) (from to sftacc : Z) : Z * Z :=
  match sft with
  | O => (scaled from to 1, 0)
  | S n =>
      let tmp := scaled from to (Z.of_nat sft) in
      if Z.shiftr tmp sftacc =? 0 then (tmp, Z.of_nat sft) else shift_loop n from to sftacc
  end.

(** [calc_clock_mul_shift]: [*mul] and [*shift]. [tmp] has 32 bits at first, so
    that the first loop makes at most 32 turns. *)
Definition calc_clock_mul_shift (from to maxsec : Z) : Z * Z :=
  let sftacc := acc_loop 32 (Z.shiftr (maxsec * from) 32) 32 in
  let '(tmp, sft) := shift_loop 32 from to sftacc in
  (wrapu 32 tmp, sft).

(** ** Clock sources *)

Record clocksource := mk_clocksource { cs_mul : Z; cs_shift : Z; cs_mask : Z; cs_rating : Z }.
#[export] Instance rebuild_clocksource : Rebuild clocksource := fun c =>
  mk_clocksource (cs_mul c) (cs_shift c) (cs_mask c) (cs_rating c).

(** [cycles * mul] is a product of words of 64 bits. *)
Definition clocksource_cyc2ns (cs : clocksource) (cycles : Z) : Z :=
  Z.shiftr (wrapu 64 (cycles * cs_mul cs)) (cs_shift cs).

Definition NSEC_PER_JIFFY (DEFAULT_HZ : Z) : Z := NSEC_PER_SEC / DEFAULT_HZ.
Definition JIFFY_SHIFT : Z := 8.
Definition jiffies_clocksource (DEFAULT_HZ : Z) : clocksource :=
  mk_clocksource (wrapu 32 (Z.shiftl (NSEC_PER_JIFFY DEFAULT_HZ) JIFFY_SHIFT)) JIFFY_SHIFT 0xffffffff 1.

(** The loop of [clocksource_select]. *)
Definition select_loop (l : list clocksource) : Z * option clocksource :=
  foldl (fun '(rating, selected) cs =>
    if rating <? cs_rating cs then (cs_rating cs, Some cs) else (rating, selected)) (0, None) l.
Definition clocksource_select (l : list clocksource) : option clocksource := snd (select_loop l).

(** [clocksource_register]: the list and the selected source. *)
Definition clocksource_register (cs : clocksource) (l : list clocksource)
  : list clocksource * option clocksource := (cs :: l, clocksource_select (cs :: l)).

(** The seconds a counter runs before it wraps, less an eighth. *)
Definition counter_seconds (max : Z) (sec : Z) : Z :=
  if sec =? 0 then 1 else if (600 <? sec) && (0xffffffff <? max) then 600 else sec.

Definition update_clocksource_freq (cs : clocksource) (scale freq : Z) : clocksource :=
  let sec := (cs_mask cs - Z.shiftr (cs_mask cs) 3) / scale / freq in
  let sec := counter_seconds (cs_mask cs) sec in
  let '(mul, shift) := calc_clock_mul_shift freq (NSEC_PER_SEC / scale) (wrapu 32 (sec * scale)) in
  cs <| cs_mul := mul |> <| cs_shift := shift |>.

Definition clocksource_register_scale (cs : clocksource) (scale freq : Z) (l : list clocksource)
  : list clocksource * option clocksource :=
  clocksource_register (update_clocksource_freq cs scale freq) l.
Definition clocksource_register_hz (cs : clocksource) (hz : Z) (l : list clocksource)
  : list clocksource * option clocksource := clocksource_register_scale cs 1 hz l.
Definition clocksource_register_khz (cs : clocksource) (khz : Z) (l : list clocksource)
  : list clocksource * option clocksource := clocksource_register_scale cs 1000 khz l.

(** ** Clock event devices *)

Inductive clock_event_state :=
| CLOCK_EVT_STATE_DETACHED
| CLOCK_EVT_STATE_SHUTDOWN
| CLOCK_EVT_STATE_PERIODIC
| CLOCK_EVT_STATE_ONESHOT
| CLOCK_EVT_STATE_ONESHOT_STOPPED.
#[export] Instance clock_event_state_eq_dec : EqDecision clock_event_state.
Proof. solve_decision. Defined.

(** A device; the operations it has are those [ce_ops] maps to their result,
    that of [set_next_event] is in [ce_set_next]. *)
Record clock_event_device := mk_ced {
  ce_max_delta_ns : Z;
  ce_min_delta_ns : Z;
  ce_mult : Z;
  ce_shift : Z;
  ce_state : clock_event_state;
  ce_min_delta_ticks : Z;
  ce_max_delta_ticks : Z;
  ce_cpumask : bitmap;
  ce_rating : Z;
  ce_ops : clock_event_state -> option Z
}.
#[export] Instance rebuild_ced : Rebuild clock_event_device := fun d =>
  mk_ced (ce_max_delta_ns d) (ce_min_delta_ns d) (ce_mult d) (ce_shift d) (ce_state d)
         (ce_min_delta_ticks d) (ce_max_delta_ticks d) (ce_cpumask d) (ce_rating d) (ce_ops d).

(** [cev_delta2ns] *)
Definition cev_delta2ns (evt : clock_event_device) (delta : Z) (ismax : bool) : Z :=
  let clc := wrapu 64 (Z.shiftl delta (ce_shift evt)) in
  let rnd := wrapu 64 (ce_mult evt - 1) in
  let all := 2 ^ 64 - 1 in
  let clc := if negb (Z.shiftr clc (ce_shift evt) =? delta) then all else clc in
  let clc :=
    if (rnd <? all - clc) && (negb ismax || (ce_mult evt <=? wrapu 64 (Z.shiftl 1 (ce_shift evt))))
    then clc + rnd else clc in
  let clc := clc / ce_mult evt in
  if 1000 <? clc then clc else 1000.

Definition clockevent_delta2ns (evt : clock_event_device) (delta : Z) : Z := cev_delta2ns evt delta false.

Definition clockevents_config (dev : clock_event_device) (freq : Z) : clock_event_device :=
  let sec := counter_seconds (ce_max_delta_ticks dev) (ce_max_delta_ticks dev / freq) in
  let '(mult, shift) := calc_clock_mul_shift NSEC_PER_SEC freq (wrapu 32 sec) in
  let dev := dev <| ce_mult := mult |> <| ce_shift := shift |> in
  let dev := dev <| ce_min_delta_ns := cev_delta2ns dev (ce_min_delta_ticks dev) false |> in
  dev <| ce_max_delta_ns := cev_delta2ns dev (ce_max_delta_ticks dev) true |>.

(** [__clockevents_switch_state]: a device that is detached is shut down. *)
Definition switch_op (dev : clock_event_device) (state : clock_event_state) : Z :=
  let op := match state with
            | CLOCK_EVT_STATE_DETACHED => CLOCK_EVT_STATE_SHUTDOWN
            | s => s
            end in
  default 0 (ce_ops dev op).

Definition clockevents_switch_state (dev : clock_event_device) (state : clock_event_state)
  : clock_event_device :=
  if bool_decide (ce_state dev = state) then dev
  else if negb (switch_op dev state =? 0) then dev
  else dev <| ce_state := state |>.

Definition clockevents_shutdown (dev : clock_event_device) : clock_event_device :=
  clockevents_switch_state dev CLOCK_EVT_STATE_SHUTDOWN.

Definition clockevents_exchange_device (old new : option clock_event_device)
  : option clock_event_device * option clock_event_device :=
  ((fun d => clockevents_switch_state d CLOCK_EVT_STATE_DETACHED) <$> old, clockevents_shutdown <$> new).

(** [clockevents_program_delta]: the ticks that [set_next_event] is called
    with, none when the device is shut down. *)
Definition clockevents_program_delta (dev : clock_event_device) (delta_ns : Z) : option Z :=
  if bool_decide (ce_state dev = CLOCK_EVT_STATE_SHUTDOWN) then None
  else
    let delta := Z.min (wraps 64 delta_ns) (wraps 64 (ce_max_delta_ns dev)) in
    let delta := Z.max delta (wraps 64 (ce_min_delta_ns dev)) in
    Some (Z.shiftr (wrapu 64 (delta * ce_mult dev)) (ce_shift dev)).

(** ** Tick devices *)

Section tick.
(** The CPU and the mask that has only its bit. *)
Context (cpuid : Z) (cpumask_of : bitmap).
Definition NR_CPUMASK_BITS : Z := 8.

Definition cpumask_test_cpu (mask : bitmap) (cpu : Z) : bool := negb (GET_BIT mask cpu =? 0).
Definition cpumask_equal (m1 m2 : bitmap) : bool := bitmap_equal m1 m2 NR_CPUMASK_BITS.

Definition check_tick_device_replacement (curdev : option clock_event_device) (newdev : clock_event_device)
  : bool :=
  if negb (cpumask_test_cpu (ce_cpumask newdev) cpuid) then false
  else if negb (cpumask_equal (ce_cpumask newdev) cpumask_of) &&
          match curdev with Some d => cpumask_equal (ce_cpumask d) cpumask_of | None => false end
  then false
  else
    match curdev with
    | None => true
    | Some d => (ce_rating d <? ce_rating newdev) || negb (cpumask_equal (ce_cpumask d) (ce_cpumask newdev))
    end.

(** [tick_check_new_device]: the device the ticks come from afterwards. *)
Definition tick_check_new_device (curdev : option clock_event_device) (newdev : clock_event_device)
  : option clock_event_device :=
  if negb (check_tick_device_replacement curdev newdev) then curdev
  else
    let '(_, new) := clockevents_exchange_device curdev (Some newdev) in
    (fun d => clockevents_switch_state d CLOCK_EVT_STATE_ONESHOT) <$> new.
End tick.

(** ** The factors do not overflow *)

Lemma acc_loop_spec n : forall tmp a, 0 <= tmp < 2 ^ Z.of_nat n ->
  exists k, 0 <= k <= Z.of_nat n /\ acc_loop n tmp a = a - k /\ tmp < 2 ^ k.
Proof.
  induction n as [|n IH]; intros tmp a Ht; cbn.
  { exists 0. change (2 ^ Z.of_nat 0) with 1 in Ht. split_and!; lia. }
  rewrite Nat2Z.inj_succ, Z.pow_succ_r in Ht by lia. destruct (tmp =? 0) eqn:H0; b2p.
  { exists 0. split_and!; lia. }
  rewrite Z.shiftr_div_pow2 by lia. change (2 ^ 1) with 2.
  destruct (IH (tmp / 2) (a - 1)) as (k & Hk & -> & Hlt).
  { split; [apply Z.div_pos; lia|]. apply Z.div_lt_upper_bound; lia. }
  exists (Z.succ k). rewrite Z.pow_succ_r by lia. pose proof (Z.div_mod tmp 2 ltac:(lia)).
  pose proof (Z.mod_pos_bound tmp 2 ltac:(lia)). split_and!; lia.
Qed.

Lemma scaled_nonneg from to sft : 0 < from -> 0 <= scaled from to sft.
Proof.
  intros Hf. unfold scaled. apply Z.div_pos; [|lia].
  pose proof (wrapu_range 64 (Z.shiftl to sft) ltac:(lia)). pose proof (Z.div_pos from 2). lia.
Qed.

Lemma shift_loop_spec n from to sftacc :
  0 < from -> 0 <= sftacc ->
  let '(tmp, sft) := shift_loop n from to sftacc in
  0 < sft -> 0 < sft <= Z.of_nat n /\ tmp = scaled from to sft /\ 0 <= tmp < 2 ^ sftacc.
Proof.
  intros Hf Ha. induction n as [|n IH]; cbn -[scaled Z.of_nat]; [lia|].
  destruct (Z.shiftr (scaled from to (Z.of_nat (S n))) sftacc =? 0) eqn:Hs; b2p.
  - intros _. split; [lia|]. split; [done|]. pose proof (scaled_nonneg from to (Z.of_nat (S n)) Hf).
    split; [done|]. rewrite Z.shiftr_div_pow2 in Hs by lia. apply Z.div_small_iff in Hs; lia.
  - destruct (shift_loop n from to sftacc) as [tmp sft]. intros Hpos. destruct (IH Hpos) as (H1 & H2 & H3).
    split; [lia|]. split; [done|]. lia.
Qed.

Lemma calc_clock_spec from to maxsec :
  0 < from < 2 ^ 32 -> 0 <= to < 2 ^ 32 -> 0 <= maxsec < 2 ^ 32 ->
  let '(mul, sft) := calc_clock_mul_shift from to maxsec in
  0 < sft ->
  0 <= mul < 2 ^ 32 /\ sft <= 32 /\ mul = scaled from to sft /\
  forall cycles, 0 <= cycles <= maxsec * from -> cycles * mul < 2 ^ 64.
Proof.
  intros Hf Ht Hm. unfold calc_clock_mul_shift.
  assert (0 <= maxsec * from < 2 ^ 64) as Hp by nia.
  destruct (acc_loop_spec 32 (Z.shiftr (maxsec * from) 32) 32) as (k & Hk & -> & Hlt).
  { rewrite Z.shiftr_div_pow2 by lia. split; [apply Z.div_pos; lia|].
    apply Z.div_lt_upper_bound; [lia|]. change (2 ^ 32 * 2 ^ Z.of_nat 32) with (2 ^ 64). lia. }
  pose proof (shift_loop_spec 32 from to (32 - k) ltac:(lia) ltac:(lia)) as Hs.
  destruct (shift_loop 32 from to (32 - k)) as [tmp sft]. intros Hpos.
  destruct (Hs Hpos) as (H1 & H2 & H3).
  assert (2 ^ (32 - k) <= 2 ^ 32) by (apply Z.pow_le_mono_r; lia).
  rewrite wrapu_small by lia. split; [lia|]. split; [lia|]. split; [done|]. intros cycles Hc.
  assert (maxsec * from < 2 ^ (32 + k)) as Hmax.
  { rewrite Z.shiftr_div_pow2 in Hlt by lia. rewrite Z.pow_add_r by lia.
    pose proof (Z.div_mod (maxsec * from) (2 ^ 32) ltac:(lia)).
    pose proof (Z.mod_pos_bound (maxsec * from) (2 ^ 32) ltac:(lia)). nia. }
  assert (2 ^ 64 = 2 ^ (32 + k) * 2 ^ (32 - k)) as -> by (rewrite <- Z.pow_add_r by lia; f_equal; lia).
  assert (0 < 2 ^ (32 + k)) by lia. nia.
Qed.

(** [mul] is [to * 2 ^ sft / from], rounded. *)
Lemma scaled_rounds from to sft :
  0 < from -> 0 <= to < 2 ^ 32 -> 0 <= sft <= 32 ->
  2 * Z.abs (scaled from to sft * from - to * 2 ^ sft) <= from.
Proof.
  intros Hf Ht Hs. unfold scaled. rewrite Z.shiftl_mul_pow2 by lia.
  assert (2 ^ sft <= 2 ^ 32) by (apply Z.pow_le_mono_r; lia).
  assert (0 < 2 ^ sft) by lia.
  assert (to * 2 ^ sft <= (2 ^ 32 - 1) * 2 ^ 32) by nia.
  rewrite wrapu_small by nia. set (T := to * 2 ^ sft) in *.
  pose proof (Z.div_mod (T + from / 2) from ltac:(lia)). pose proof (Z.mod_pos_bound (T + from / 2) from Hf).
  pose proof (Z.div_mod from 2 ltac:(lia)). pose proof (Z.mod_pos_bound from 2 ltac:(lia)). nia.
Qed.

(** ** The ticks a device is programmed with *)

(** [ns] stands for at least [delta] ticks, when nothing overflows. *)
Lemma delta2ns_lower dev delta :
  0 < ce_mult dev < 2 ^ 32 -> 0 <= ce_shift dev -> 0 <= delta ->
  delta * 2 ^ ce_shift dev + ce_mult dev < 2 ^ 64 ->
  delta * 2 ^ ce_shift dev <= cev_delta2ns dev delta false * ce_mult dev.
Proof.
  intros Hm Hs Hd Hov. unfold cev_delta2ns. cbv zeta. rewrite Z.shiftl_mul_pow2 by done.
  assert (0 < 2 ^ ce_shift dev) by lia. set (T := delta * 2 ^ ce_shift dev) in *.
  assert (0 <= T) by nia. rewrite !wrapu_small by lia.
  assert (Z.shiftr T (ce_shift dev) = delta) as ->.
  { rewrite Z.shiftr_div_pow2 by done. apply Z.div_mul. lia. }
  rewrite Z.eqb_refl. cbn [negb orb]. rewrite (proj2 (Z.ltb_lt (ce_mult dev - 1) (2 ^ 64 - 1 - T))) by lia. cbn [andb].
  pose proof (Z.div_mod (T + (ce_mult dev - 1)) (ce_mult dev) ltac:(lia)).
  pose proof (Z.mod_pos_bound (T + (ce_mult dev - 1)) (ce_mult dev) ltac:(lia)).
  case_cond; b2p; nia.
Qed.

(** [ns] stands for at most [delta] ticks, above the least value of 1000. *)
Lemma delta2ns_upper dev delta :
  0 < ce_mult dev < 2 ^ 32 -> 0 <= ce_shift dev <= 32 -> 0 <= delta ->
  delta * 2 ^ ce_shift dev < 2 ^ 64 -> 1000 < cev_delta2ns dev delta true ->
  cev_delta2ns dev delta true * ce_mult dev < (delta + 1) * 2 ^ ce_shift dev.
Proof.
  intros Hm Hs Hd Hov. unfold cev_delta2ns. cbv zeta. rewrite !Z.shiftl_mul_pow2 by lia.
  assert (0 < 2 ^ ce_shift dev <= 2 ^ 32) by (split; [lia|apply Z.pow_le_mono_r; lia]).
  assert (0 <= delta * 2 ^ ce_shift dev) by nia.
  rewrite (wrapu_small 64 (delta * _)), (wrapu_small 64 (1 * _)), (wrapu_small 64 (_ - 1)) by lia.
  assert (Z.shiftr (delta * 2 ^ ce_shift dev) (ce_shift dev) = delta) as ->.
  { rewrite Z.shiftr_div_pow2 by lia. apply Z.div_mul. lia. }
  rewrite Z.eqb_refl. cbn [negb orb]. set (T := delta * 2 ^ ce_shift dev) in *.
  match goal with |- context [if ?b then T + ?x else T] => set (c := if b then T + x else T) end.
  assert (c < T + 2 ^ ce_shift dev) as Hc.
  { unfold c. case_cond; [|lia]. b2p. lia. }
  clearbody c. destruct (1000 <? c / ce_mult dev); [|lia]. intros _.
  pose proof (Z.div_mod c (ce_mult dev) ltac:(lia)). pose proof (Z.mod_pos_bound c (ce_mult dev) ltac:(lia)). nia.
Qed.

(** The device as [clockevents_config] leaves it, with values in range. *)
Record configured (dev : clock_event_device) : Prop := {
  cg_mult : 0 < ce_mult dev < 2 ^ 32;
  cg_shift : 0 <= ce_shift dev <= 32;
  cg_ticks : 0 <= ce_min_delta_ticks dev <= ce_max_delta_ticks dev;
  cg_room : (ce_max_delta_ticks dev + 1) * 2 ^ ce_shift dev + ce_mult dev < 2 ^ 64;
  cg_min : ce_min_delta_ns dev = cev_delta2ns dev (ce_min_delta_ticks dev) false;
  cg_max : ce_max_delta_ns dev = cev_delta2ns dev (ce_max_delta_ticks dev) true;
  cg_order : 1000 < ce_max_delta_ns dev /\ ce_min_delta_ns dev <= ce_max_delta_ns dev < 2 ^ 63
}.

Lemma program_delta_spec dev delta_ns :
  configured dev -> 0 <= delta_ns < 2 ^ 63 -> ce_state dev <> CLOCK_EVT_STATE_SHUTDOWN ->
  exists k, clockevents_program_delta dev delta_ns = Some k /\
            ce_min_delta_ticks dev <= k <= ce_max_delta_ticks dev.
Proof.
  intros [Hm Hs Ht Hr Hmin Hmax Ho] Hd Hst. unfold clockevents_program_delta.
  rewrite bool_decide_false by done. cbv zeta.
  assert (0 < 2 ^ ce_shift dev) as Hpow by lia. set (P := 2 ^ ce_shift dev) in *.
  assert (ce_min_delta_ticks dev * P <= ce_min_delta_ns dev * ce_mult dev) as Hlo.
  { rewrite Hmin. apply delta2ns_lower; [done|lia|lia|fold P; nia]. }
  assert (ce_max_delta_ns dev * ce_mult dev < (ce_max_delta_ticks dev + 1) * P) as Hup.
  { rewrite Hmax. apply delta2ns_upper; [done|lia|lia|fold P; nia|rewrite <- Hmax; lia]. }
  assert (0 <= ce_min_delta_ns dev) as Hmn.
  { rewrite Hmin. unfold cev_delta2ns. case_cond; b2p; lia. }
  rewrite !(wraps_small 64) by lia. set (d := Z.max _ _).
  assert (ce_min_delta_ns dev <= d <= ce_max_delta_ns dev) as Hdr by lia. clearbody d.
  assert (d * ce_mult dev < (ce_max_delta_ticks dev + 1) * P) as H1 by nia.
  assert (ce_min_delta_ticks dev * P <= d * ce_mult dev) as H2 by nia.
  eexists. split; [reflexivity|]. rewrite wrapu_small by nia.
  rewrite Z.shiftr_div_pow2 by lia. fold P. split.
  - apply Z.div_le_lower_bound; lia.
  - apply Z.lt_succ_r, Z.div_lt_upper_bound; lia.
Qed.

(** A clock source does not overflow in the time it was set up for. The
    factors [calc_clock_mul_shift] gives are the rounded quotient, and no number
    of cycles of up to [maxsec] seconds makes their product exceed 64 bits; the
    loop over the shifts must have found one. *)
Theorem cycles_do_not_overflow from to maxsec mul sft cycles :
  0 < from < 2 ^ 32 -> 0 <= to < 2 ^ 32 -> 0 <= maxsec < 2 ^ 32 ->
  calc_clock_mul_shift from to maxsec = (mul, sft) -> 0 < sft -> 0 <= cycles <= maxsec * from ->
  clocksource_cyc2ns (mk_clocksource mul sft 0 0) cycles = cycles * mul / 2 ^ sft /\
  2 * Z.abs (mul * from - to * 2 ^ sft) <= from.
Proof.
  intros Hf Ht Hm Hc Hs Hcy. pose proof (calc_clock_spec from to maxsec Hf Ht Hm) as Hsp.
  rewrite Hc in Hsp. destruct (Hsp Hs) as (H1 & H2 & -> & H4). split.
  - unfold clocksource_cyc2ns. cbn. rewrite wrapu_small, Z.shiftr_div_pow2 by (try lia; pose proof (H4 cycles Hcy); nia).
    done.
  - apply scaled_rounds; lia.
Qed.

Lemma cycles_witness :
  calc_clock_mul_shift 2400000000 1000000000 600 = (6990507, 24) /\
  clocksource_cyc2ns (mk_clocksource 6990507 24 0 0) 2400000000 = 2400000000 * 6990507 / 2 ^ 24.
Proof.
  split; [vm_compute; reflexivity|].
  apply (cycles_do_not_overflow 2400000000 1000000000 600 6990507 24 2400000000); try lia.
  vm_compute. reflexivity.
Defined.

(** A device is programmed within its limits. Whatever the time asked for,
    a device that was configured with values in range is programmed with a
    number of ticks between the least and the greatest it supports. *)
Theorem programmed_within_limits dev delta_ns :
  configured dev -> 0 <= delta_ns < 2 ^ 63 -> ce_state dev <> CLOCK_EVT_STATE_SHUTDOWN ->
  exists k, clockevents_program_delta dev delta_ns = Some k /\
            ce_min_delta_ticks dev <= k <= ce_max_delta_ticks dev.
Proof. apply program_delta_spec. Qed.

(** The programmable interval timer. *)
Definition demo_device : clock_event_device :=
  clockevents_config
    (mk_ced 0 0 0 0 CLOCK_EVT_STATE_ONESHOT 15 32767 [1] 110 (fun _ => Some 0)) 1193182.

Lemma programmed_witness :
  exists k, clockevents_program_delta demo_device 10000000 = Some k /\ 15 <= k <= 32767.
Proof.
  apply (programmed_within_limits demo_device 10000000).
  - constructor; vm_compute; intuition (reflexivity || discriminate).
  - split; [discriminate|reflexivity].
  - discriminate.
Defined.

