(* ===== verification/Irq.v ===== *)
(** * Interrupt lines

    kernel/interrupt.c: the handlers of an interrupt line, masking and
    unmasking it, allocation of interrupt numbers, interrupt domains; and the
    kernel call on interrupts (kernel/system/sys_irqctl.c) with the handler
    that notifies a driver. Hooks are numbered as in [irq_hooks]; a line holds
    the first of its hooks, which are linked by [hk_next]. What the chip of a
    line is told is kept in a log. *)

From S2P Require Import Prelude Bitmap Kernel Ipc.

Definition NR_IRQ : Z := 64.
Definition NR_HWIRQ : Z := 128.
Definition NR_IRQ_DOMAIN : Z := 4.
Definition NR_IRQ_HOOKS : Z := 64.
Definition IRQ_DOMAIN_NONE : Z := 2 ^ 32 - 1.
Definition IRQ_TYPE_NONE : Z := 0.
Definition IRQ_TYPE_SENSE_MASK : Z := 15.
Definition IRQCTL_IRQ_SPEC_PARAMS : Z := 8.

Definition IRQ_SETPOLICY : Z := 1.
Definition IRQ_ENABLE : Z := 2.
Definition IRQ_DISABLE : Z := 3.
Definition IRQ_MAP_FWSPEC : Z := 5.
Definition IRQ_ALLOC : Z := 6.
Definition IRQ_ALLOC_MSI : Z := 7.
Definition IRQ_REENABLE : Z := 1.

Record irq_hook := mk_hook {
  hk_irq : Z; hk_id : Z; hk_handler : Z; hk_next : option Z;
  hk_proc_ep : Z; hk_notify_id : Z; hk_policy : Z
}.
#[export] Instance rebuild_hook : Rebuild irq_hook := fun h =>
  mk_hook (hk_irq h) (hk_id h) (hk_handler h) (hk_next h) (hk_proc_ep h) (hk_notify_id h) (hk_policy h).

(** Which operations the chip of a line has. *)
Record irq_chip := mk_chip { irq_mask : bool; irq_unmask : bool; irq_eoi : bool; irq_used : bool; irq_not_used : bool }.

Inductive chip_op := ChipMask | ChipUnmask | ChipEoi | ChipUsed | ChipNotUsed.

Definition no_irq_chip : irq_chip := mk_chip false false false false false.

(** The handlers of a whole line. *)
Inductive flow := handle_bad_irq | handle_simple_irq_flow | handle_chained (n : Z).

(** [struct irq_desc] with its [irq_data]. *)
Record irq_desc := mk_desc {
  de_hwirq : Z; de_chip : irq_chip; de_domain : option Z;
  de_handle_irq : flow; de_handler : option Z; de_active_ids : Z
}.
#[export] Instance rebuild_desc : Rebuild irq_desc := fun d =>
  mk_desc (de_hwirq d) (de_chip d) (de_domain d) (de_handle_irq d) (de_handler d) (de_active_ids d).

(** [struct irq_domain]; [dm_ops] names its operations and [dm_revmap] gives
    the interrupt of a hardware number. *)
Record irq_domain := mk_domain { dm_fwid : Z; dm_ops : Z; dm_hwirq_max : Z; dm_revmap : Z -> option Z }.
#[export] Instance rebuild_domain : Rebuild irq_domain := fun d =>
  mk_domain (dm_fwid d) (dm_ops d) (dm_hwirq_max d) (dm_revmap d).

Record irqs := mk_irqs {
  irq_hooks : Z -> irq_hook; irq_descs : Z -> irq_desc; irq_domains : Z -> irq_domain;
  allocated_irqs : bitmap; chip_log : list (Z * chip_op)
}.
#[export] Instance rebuild_irqs : Rebuild irqs := fun s =>
  mk_irqs (irq_hooks s) (irq_descs s) (irq_domains s) (allocated_irqs s) (chip_log s).

Definition upd_hook (h : Z) (f : irq_hook -> irq_hook) (s : irqs) : irqs := s <| irq_hooks ::= alter f h |>.
Definition upd_desc (d : Z) (f : irq_desc -> irq_desc) (s : irqs) : irqs := s <| irq_descs ::= alter f d |>.

(** ** Lines and their chips *)

Definition irq_to_desc (irq : Z) : option Z := let irq := wrapu 32 irq in if NR_IRQ <=? irq then None else Some irq.

Definition desc_set_defaults (d : irq_desc) : irq_desc :=
  d <| de_handle_irq := handle_simple_irq_flow |> <| de_chip := no_irq_chip |>.

(** The chip of line [d] is told [op] if it has the operation. *)
Definition chip_call (has : irq_chip -> bool) (op : chip_op) (d : Z) (s : irqs) : irqs :=
  if has (de_chip (irq_descs s d)) then s <| chip_log ::= cons (d, op) |> else s.

Definition mask_irq : Z -> irqs -> irqs := chip_call irq_mask ChipMask.
Definition unmask_irq : Z -> irqs -> irqs := chip_call irq_unmask ChipUnmask.

Definition irq_set_chip (irq : Z) (chip : option irq_chip) (s : irqs) : irqs * Z :=
  match irq_to_desc irq with
  | None => (s, EINVAL)
  | Some d => (upd_desc d (fun r => r <| de_chip := default no_irq_chip chip |>) s, 0)
  end.

Definition irq_set_handler (irq : Z) (handler : option flow) (is_chained : bool) (s : irqs) : irqs :=
  match irq_to_desc irq with
  | None => s
  | Some d =>
      let handler := default handle_bad_irq handler in
      let s := upd_desc d (fun r => r <| de_handle_irq := handler |>) s in
      match handler with
      | handle_bad_irq => s
      | _ => if is_chained then unmask_irq d s else s
      end
  end.

Definition early_init_irq (s : irqs) : irqs :=
  s <| irq_hooks := fun i => if (0 <=? i) && (i <? NR_IRQ_HOOKS)
                             then (irq_hooks s i) <| hk_proc_ep := NO_TASK |> else irq_hooks s i |>
    <| irq_descs := fun i => if (0 <=? i) && (i <? NR_IRQ) then desc_set_defaults (irq_descs s i) else irq_descs s i |>
    <| irq_domains := fun i => if (0 <=? i) && (i <? NR_IRQ_DOMAIN)
                               then (irq_domains s i) <| dm_fwid := IRQ_DOMAIN_NONE |> else irq_domains s i |>.

(** ** Handlers of a line *)

(** A chain is never longer than the table of hooks. *)
Definition HOOK_FUEL : nat := S (Z.to_nat NR_IRQ_HOOKS).

(** [*line = hook], where [line] points to the link of hook [line] or to the
    first hook of line [d]. *)
Definition set_line (d : Z) (line hook : option Z) (s : irqs) : irqs :=
  match line with
  | Some h => upd_hook h (fun r => r <| hk_next := hook |>) s
  | None => upd_desc d (fun r => r <| de_handler := hook |>) s
  end.

(** The first loop of [put_irq_handler]: nothing when the hook is found,
    otherwise the end of the chain and the identifiers in use. *)
Fixpoint put_walk (fuel : nat) (s : irqs) (p line : option Z) (hook used_ids : Z) : res (option (option Z * Z)) :=
  match fuel with
  | O => Crash OutOfFuel
  | S fuel =>
      match p with
      | None => Ret (Some (line, used_ids))
      | Some q =>
          if hook =? q then Ret None
          else put_walk fuel s (hk_next (irq_hooks s q)) p hook (Z.lor used_ids (hk_id (irq_hooks s q)))
      end
  end.

(** The first free identifier; 0 when the bit has been shifted out. *)
Fixpoint free_id (n : nat) (id used_ids : Z) : Z :=
  match n with
  | O => 0
  | S n => if Z.land used_ids id =? 0 then id else free_id n (Z.shiftl id 1) used_ids
  end.

Definition put_irq_handler (irq hook handler : Z) (s : irqs) : res irqs :=
  d ← deref (irq_to_desc irq);
  found ← put_walk HOOK_FUEL s (de_handler (irq_descs s d)) None hook 0;
  match (found : option (option Z * Z)) with
  | None => Ret s
  | Some (line, used_ids) =>
      let id := free_id 64 1 used_ids in
      if id =? 0 then Crash Panic
      else
        let s := upd_hook hook (fun r =>
          r <| hk_next := None |> <| hk_handler := handler |> <| hk_id := id |> <| hk_irq := irq |>) s in
        let s := set_line d line (Some hook) s in
        let s := upd_desc d (fun r => r <| de_active_ids ::= fun a => Z.land a (notu 64 id) |>) s in
        Ret (if de_active_ids (irq_descs s d) =? 0
             then unmask_irq d (chip_call irq_used ChipUsed d s) else s)
  end.

(** The loop of [rm_irq_handler]. *)
Fixpoint rm_walk (fuel : nat) (d id : Z) (p line : option Z) (s : irqs) : res irqs :=
  match fuel with
  | O => Crash OutOfFuel
  | S fuel =>
      match p with
      | None => Ret s
      | Some q =>
          let next := hk_next (irq_hooks s q) in
          if hk_id (irq_hooks s q) =? id then
            let s := set_line d line next s in
            let s := if negb (Z.land (de_active_ids (irq_descs s d)) id =? 0)
                     then upd_desc d (fun r => r <| de_active_ids ::= fun a => Z.land a (notu 64 id) |>) s else s in
            rm_walk fuel d id next line s
          else rm_walk fuel d id next p s
      end
  end.

Definition rm_irq_handler (hook : Z) (s : irqs) : res irqs :=
  let irq := hk_irq (irq_hooks s hook) in
  let id := hk_id (irq_hooks s hook) in
  d ← deref (irq_to_desc irq);
  s ← rm_walk HOOK_FUEL d id (de_handler (irq_descs s d)) None s;
  match de_handler (irq_descs s d) with
  | None => Ret (chip_call irq_not_used ChipNotUsed d (mask_irq d s))
  | Some _ => Ret (if de_active_ids (irq_descs s d) =? 0 then unmask_irq d s else s)
  end.

Definition enable_irq (hook : Z) (s : irqs) : res irqs :=
  d ← deref (irq_to_desc (hk_irq (irq_hooks s hook)));
  let s := upd_desc d (fun r => r <| de_active_ids ::= fun a => Z.land a (notu 64 (hk_id (irq_hooks s hook))) |>) s in
  Ret (if de_active_ids (irq_descs s d) =? 0 then unmask_irq d s else s).

Definition disable_irq (hook : Z) (s : irqs) : res (irqs * bool) :=
  d ← deref (irq_to_desc (hk_irq (irq_hooks s hook)));
  if negb (Z.land (de_active_ids (irq_descs s d)) (hk_id (irq_hooks s hook)) =? 0) then Ret (s, false)
  else
    let s := upd_desc d (fun r => r <| de_active_ids ::= fun a => Z.lor a (hk_id (irq_hooks s hook)) |>) s in
    Ret (mask_irq d s, true).

Section handle.
(** What the handlers work on, and the call of the handler of a hook: it gets
    the hook, and its result tells whether to enable the line again. *)
Context {A : Type} (call : Z -> Z -> irq_hook -> A -> res (A * Z)).

(** The loop of [handle_simple_irq]. *)
Fixpoint handle_loop (fuel : nat) (d : Z) (p : option Z) (s : irqs) (a : A) : res (irqs * A) :=
  match fuel with
  | O => Crash OutOfFuel
  | S fuel =>
      match p with
      | None => Ret (s, a)
      | Some h =>
          let hook := irq_hooks s h in
          let s := upd_desc d (fun r => r <| de_active_ids ::= fun x => Z.lor x (hk_id hook) |>) s in
          '(a, reenable) ← call (hk_handler hook) h hook a;
          let s := if negb (reenable =? 0)
                   then upd_desc d (fun r => r <| de_active_ids ::= fun x => Z.land x (notu 64 (hk_id hook)) |>) s
                   else s in
          handle_loop fuel d (hk_next hook) s a
      end
  end.

Definition handle_simple_irq (d : Z) (s : irqs) (a : A) : res (irqs * A) :=
  let hook := de_handler (irq_descs s d) in
  '(s, a) ← handle_loop HOOK_FUEL d hook (mask_irq d s) a;
  let s := if de_active_ids (irq_descs s d) =? 0 then unmask_irq d s else s in
  Ret (chip_call irq_eoi ChipEoi d s, a).

(** [chained] are the line handlers of other controllers. *)
Context (chained : Z -> Z -> irqs -> A -> res (irqs * A)).

Definition handle_irq_desc (desc : option Z) (s : irqs) (a : A) : res (irqs * A) :=
  match desc with
  | None => Ret (s, a)
  | Some d =>
      match de_handle_irq (irq_descs s d) with
      | handle_bad_irq => Ret (s, a)
      | handle_simple_irq_flow => handle_simple_irq d s a
      | handle_chained n => chained n d s a
      end
  end.

Definition generic_handle_irq (irq : Z) (s : irqs) (a : A) : res (irqs * A) := handle_irq_desc (irq_to_desc irq) s a.
End handle.

(** ** Interrupt numbers *)

Definition irq_alloc_descs (irq from cnt : Z) (s : irqs) : res (irqs * Z) :=
  if cnt =? 0 then Ret (s, - EINVAL)
  else if (0 <=? irq) && (irq <? from) then Ret (s, - EINVAL)
  else
    let from := if 0 <=? irq then irq else from in
    match bitmap_find_next_zero_area (allocated_irqs s) NR_IRQ from cnt with
    | None => Crash OutOfFuel
    | Some start =>
        if (0 <=? irq) && negb (start =? irq) then Ret (s, - EEXIST)
        else if NR_IRQ <? wrapu 32 (start + cnt) then Ret (s, - ENOMEM)
        else Ret (s <| allocated_irqs ::= fun b => foldl SET_BIT b (seqZ start cnt) |>, start)
    end.

Definition irq_domain_alloc_descs (virq cnt hwirq : Z) (s : irqs) : res (irqs * Z) :=
  if 0 <=? virq then irq_alloc_descs virq virq cnt s
  else
    let hint := let h := hwirq mod NR_IRQ in if h =? 0 then h + 1 else h in
    '(s, virq) ← irq_alloc_descs (-1) hint cnt s;
    if (virq <=? 0) && (1 <? hint) then irq_alloc_descs (-1) 1 cnt s else Ret (s, virq).

Definition irq_alloc_from (from nr_irqs : Z) (s : irqs) : res (irqs * Z) :=
  if NR_IRQ <=? from then Ret (s, - EINVAL) else irq_alloc_descs (-1) from nr_irqs s.

(** ** Interrupt domains *)

Record irq_fwspec := mk_fwspec { fw_fwid : Z; fw_param_count : Z; fw_param : list Z }.

Definition param (fw : irq_fwspec) (i : nat) : Z := default 0 (fw_param fw !! i).

Definition find_domain (P : irq_domain -> bool) (s : irqs) : option Z :=
  list_find (fun i => P (irq_domains s i)) (seqZ 0 NR_IRQ_DOMAIN) ≫= (fun x => Some x.2).

Definition alloc_irq_domain (fwid : Z) (s : irqs) : irqs * option Z :=
  match find_domain (fun d => dm_fwid d =? IRQ_DOMAIN_NONE) s with
  | None => (s, None)
  | Some i => (s <| irq_domains ::= alter (fun d => d <| dm_fwid := fwid |>) i |>, Some i)
  end.

Definition irq_domain_add (fwid hwirq_max ops : Z) (s : irqs) : irqs * option Z :=
  if NR_HWIRQ <? hwirq_max then (s, None)
  else
    let '(s, domain) := alloc_irq_domain fwid s in
    match domain with
    | None => (s, None)
    | Some i => (s <| irq_domains ::= alter (fun d => d <| dm_ops := ops |> <| dm_hwirq_max := hwirq_max |>) i |>, Some i)
    end.

Definition irq_find_matching_fwspec (fw : irq_fwspec) (s : irqs) : option Z :=
  find_domain (fun d => dm_fwid d =? fw_fwid fw) s.

(** [irq_resolve_mapping]: the interrupt of a hardware number, which is not
    compared with the size of the table. *)
Definition irq_resolve_mapping (domain : option Z) (hwirq : Z) (s : irqs) : res (option Z) :=
  match domain with
  | None => Ret None
  | Some d => if (0 <=? hwirq) && (hwirq <? NR_HWIRQ) then Ret (dm_revmap (irq_domains s d) hwirq) else Crash BadPtr
  end.

Definition irq_find_mapping (domain : option Z) (hwirq : Z) (s : irqs) : res Z :=
  irq ← irq_resolve_mapping domain hwirq s;
  Ret (default 0 irq).

(** [irq_domain_get_irq_data]; no interrupt has a parent. *)
Definition irq_domain_get_irq_data (domain : option Z) (virq : Z) (s : irqs) : option Z :=
  match irq_to_desc virq with
  | Some d => if bool_decide (de_domain (irq_descs s d) = domain) then Some d else None
  | None => None
  end.

Definition irq_domain_set_hwirq_and_chip (domain : option Z) (virq hwirq : Z) (chip : option irq_chip) (s : irqs)
  : irqs * Z :=
  match irq_domain_get_irq_data domain virq s with
  | None => (s, - ENOENT)
  | Some d =>
      (upd_desc d (fun r => r <| de_hwirq := hwirq |> <| de_chip := default no_irq_chip chip |>) s, 0)
  end.

Definition irq_domain_set_info (domain : option Z) (virq hwirq : Z) (chip : option irq_chip) (handler : option flow)
    (s : irqs) : irqs :=
  irq_set_handler virq handler false (irq_domain_set_hwirq_and_chip domain virq hwirq chip s).1.

(** The functions of the domains: allocation, and the translation of a
    specification: an error or a hardware number. *)
Definition irq_domain_translate_onecell (fw : irq_fwspec) : Z + Z * Z :=
  if fw_param_count fw <? 1 then inl (- EINVAL) else inr (param fw 0, IRQ_TYPE_NONE).

Definition irq_domain_translate_twocell (fw : irq_fwspec) : Z + Z * Z :=
  if fw_param_count fw <? 2 then inl (- EINVAL)
  else inr (param fw 0, Z.land (param fw 1) IRQ_TYPE_SENSE_MASK).

Definition irq_domain_translate_onetwocell (fw : irq_fwspec) : Z + Z * Z :=
  if fw_param_count fw <? 1 then inl (- EINVAL)
  else inr (param fw 0, if 1 <? fw_param_count fw then Z.land (param fw 1) IRQ_TYPE_SENSE_MASK else IRQ_TYPE_NONE).

Section domain.
Context (ops_alloc : Z -> option (Z -> Z -> Z -> irq_fwspec -> irqs -> irqs * Z)).
Context (ops_translate : Z -> option (irq_fwspec -> Z + Z * Z)).

Definition irq_domain_alloc_irq_data (domain : Z) (virqs : list Z) (s : irqs) : irqs :=
  foldl (fun s v => upd_desc v (fun r => r <| de_domain := Some domain |>) s) s virqs.

(** The interrupts [virqs] enter the table of the domain; the hardware numbers
    are not compared with its size. *)
Fixpoint enter_revmap (domain : Z) (virqs : list Z) (s : irqs) : res irqs :=
  match virqs with
  | [] => Ret s
  | v :: virqs =>
      let hwirq := de_hwirq (irq_descs s v) in
      if (0 <=? hwirq) && (hwirq <? NR_HWIRQ) then
        enter_revmap domain virqs (s <| irq_domains ::= alter (fun d => d <| dm_revmap ::= <[hwirq := Some v]> |>) domain |>)
      else Crash BadPtr
  end.

Definition __irq_domain_alloc_irqs (domain : option Z) (irq_base nr_irqs : Z) (arg : irq_fwspec) (s : irqs) : res (irqs * Z) :=
  match domain with
  | None => Ret (s, - EINVAL)
  | Some dm =>
      '(s, virq) ← irq_domain_alloc_descs irq_base nr_irqs 0 s;
      if virq <? 0 then Ret (s, virq)
      else
        let virqs := seqZ virq nr_irqs in
        let s := irq_domain_alloc_irq_data dm virqs s in
        let '(s, ret) := match ops_alloc (dm_ops (irq_domains s dm)) with
                         | None => (s, - ENOSYS)
                         | Some alloc => alloc dm virq nr_irqs arg s
                         end in
        if ret <? 0 then Ret (s, ret) else s ← enter_revmap dm virqs s; Ret (s, virq)
  end.

Definition irq_domain_translate (domain : Z) (fw : irq_fwspec) (s : irqs) : Z + Z * Z :=
  match ops_translate (dm_ops (irq_domains s domain)) with
  | Some f => f fw
  | None => inr (param fw 0, IRQ_TYPE_NONE)
  end.

Definition irq_create_fwspec_mapping (fw : irq_fwspec) (s : irqs) : res (irqs * Z) :=
  match irq_find_matching_fwspec fw s with
  | None => Ret (s, 0)
  | Some domain =>
      match irq_domain_translate domain fw s with
      | inl e => if negb (e =? 0) then Ret (s, 0) else Crash BadPtr
      | inr (hwirq, _) =>
          virq ← irq_find_mapping (Some domain) hwirq s;
          if negb (virq =? 0) then Ret (s, virq)
          else
            '(s, virq) ← __irq_domain_alloc_irqs (Some domain) (-1) 1 fw s;
            if virq <=? 0 then Ret (s, 0) else Ret (s, virq)
      end
  end.

(** ** The kernel call *)

(** [struct irqctl_request]. *)
Record irqctl_request := mk_irqctl {
  rq_request : Z; rq_irq : Z; rq_policy : Z; rq_hook_id : Z; rq_fwspec : irq_fwspec
}.
Definition set_irq (irq : Z) (r : irqctl_request) : irqctl_request :=
  mk_irqctl (rq_request r) irq (rq_policy r) (rq_hook_id r) (rq_fwspec r).
Definition set_hook_id (id : Z) (r : irqctl_request) : irqctl_request :=
  mk_irqctl (rq_request r) (rq_irq r) (rq_policy r) id (rq_fwspec r).

Definition find_hook (P : irq_hook -> bool) (s : irqs) : option Z :=
  list_find (fun i => P (irq_hooks s i)) (seqZ 0 NR_IRQ_HOOKS) ≫= (fun x => Some x.2).

(** The name of [generic_irq_handler] among the handlers. *)
Definition GENERIC_HANDLER : Z := 0.

(** [arch_setup_msi_irq] for one interrupt after the other. *)
Fixpoint setup_msi (arch_setup_msi_irq : Z -> irqs -> irqs * Z) (l : list Z) (s : irqs) : irqs * Z :=
  match l with
  | [] => (s, 0)
  | i :: l =>
      let '(s, retval) := arch_setup_msi_irq i s in
      if negb (retval =? 0) then (s, - retval) else setup_msi arch_setup_msi_irq l s
  end.

(** The request as it goes back, and the result of the call. *)
Definition sys_irqctl (arch_setup_msi_irq : Z -> irqs -> irqs * Z) (ep : Z) (req : irqctl_request) (s : irqs)
  : res (irqs * irqctl_request * Z) :=
  let irq := rq_irq req in
  let hook_id := rq_hook_id req - 1 in
  let notify_id := rq_hook_id req in
  let r := rq_request req in
  if (r =? IRQ_ENABLE) || (r =? IRQ_DISABLE) then
    if (hook_id <? 0) || (NR_IRQ_HOOKS <=? hook_id) || (hk_proc_ep (irq_hooks s hook_id) =? NO_TASK)
    then Ret (s, req, EINVAL)
    else if negb (hk_proc_ep (irq_hooks s hook_id) =? ep) then Ret (s, req, EPERM)
    else if r =? IRQ_ENABLE then s ← enable_irq hook_id s; Ret (s, req, 0)
    else '(s, _) ← disable_irq hook_id s; Ret (s, req, 0)
  else if r =? IRQ_SETPOLICY then
    if (irq <? 0) || (NR_IRQ <=? irq) then Ret (s, req, EINVAL)
    else
      let mine := find_hook (fun h => (hk_proc_ep h =? ep) && (hk_notify_id h =? wrapu 64 notify_id)) s in
      match (match mine with Some h => Some h | None => find_hook (fun h => hk_proc_ep h =? NO_TASK) s end) with
      | None => Ret (s, req, ENOSPC)
      | Some h =>
          let s := upd_hook h (fun k =>
            k <| hk_proc_ep := ep |> <| hk_notify_id := wrapu 64 notify_id |> <| hk_policy := wrapu 64 (rq_policy req) |>) s in
          s ← put_irq_handler irq h GENERIC_HANDLER s;
          Ret (s, set_hook_id (h + 1) req, 0)
      end
  else if r =? IRQ_MAP_FWSPEC then
    if IRQCTL_IRQ_SPEC_PARAMS <? fw_param_count (rq_fwspec req) then Ret (s, req, EINVAL)
    else if fw_param_count (rq_fwspec req) <? 0 then Crash BadPtr
    else
      '(s, irq) ← irq_create_fwspec_mapping (rq_fwspec req) s;
      if irq =? 0 then Ret (s, req, EINVAL) else Ret (s, set_irq irq req, 0)
  else if r =? IRQ_ALLOC then
    if rq_policy req <=? 0 then Ret (s, req, EINVAL)
    else
      '(s, irq) ← irq_alloc_from (wrapu 32 (rq_irq req)) (rq_policy req) s;
      if irq <? 0 then Ret (s, req, - irq) else Ret (s, set_irq irq req, 0)
  else if r =? IRQ_ALLOC_MSI then
    if rq_policy req <=? 0 then Ret (s, req, EINVAL)
    else
      '(s, irq) ← irq_alloc_from (wrapu 32 (rq_irq req)) (rq_policy req) s;
      if irq <? 0 then Ret (s, req, - irq)
      else
        let '(s, retval) := setup_msi arch_setup_msi_irq (seqZ irq (rq_policy req)) s in
        if negb (retval =? 0) then Ret (s, req, retval) else Ret (s, set_irq irq req, 0)
  else Ret (s, req, EINVAL).
End domain.

(** [generic_irq_handler]: the driver is notified. The bit is an [int] that is
    widened; the model of a shift by 32 or more is 0. *)
Definition generic_irq_handler {mem : Type} `{!UserMemory mem} (cpu : Z) (hook : irq_hook) (st : kstate mem)
  : res (kstate mem * Z) :=
  match endpt_proc st (hk_proc_ep hook) with
  | None => Crash Panic
  | Some p =>
      id ← proc_priv st p;
      let bit := wrapu 64 (wraps 32 (Z.shiftl 1 (hk_notify_id hook))) in
      let st := upd_priv id (fun r => r <| pr_int_pending ::= fun x => Z.lor x bit |>) st in
      '(st, _) ← msg_notify cpu INTERRUPT (hk_proc_ep hook) st;
      Ret (st, Z.land (hk_policy hook) IRQ_REENABLE)
  end.
