(* ===== verification/IrqProps.v ===== *)
(** * Interrupt lines: what they guarantee

    The handlers of a line as a sequence, the invariant that a line is masked
    exactly while one of its handlers has work to do, its preservation by the
    operations of kernel/interrupt.c, and what an interrupt does. *)

From S2P Require Import Prelude Bitmap Kernel Ipc Irq.

(** ** Identifiers as bits *)

Lemma testbit_pow2 k j : 0 <= k -> Z.testbit (2 ^ k) j = (j =? k).
Proof. intros Hk. rewrite Z.pow2_bits_eqb by done. apply Z.eqb_sym. Qed.

Lemma testbit_without a k j : 0 <= a < 2 ^ 64 -> 0 <= k < 64 -> 0 <= j ->
  Z.testbit (Z.land a (notu 64 (2 ^ k))) j = Z.testbit a j && negb (j =? k).
Proof.
  intros Ha Hk Hj. rewrite Z.land_spec. destruct (Z.ltb_spec j 64) as [Hlt|Hge].
  - rewrite testbit_notu, testbit_pow2 by lia. done.
  - rewrite (testbit_above 64 a j) by lia. done.
Qed.

Lemma testbit_with a k j : 0 <= k -> Z.testbit (Z.lor a (2 ^ k)) j = Z.testbit a j || (j =? k).
Proof. intros Hk. by rewrite Z.lor_spec, testbit_pow2. Qed.

Lemma land_notu_bounds a x : 0 <= a < 2 ^ 64 -> 0 <= Z.land a (notu 64 x) < 2 ^ 64.
Proof.
  intros Ha. assert (0 <= notu 64 x < 2 ^ 64) as Hn by (apply Z.mod_pos_bound; lia).
  assert (0 <= Z.land a (notu 64 x)) as H0 by (apply Z.land_nonneg; lia). split; [done|].
  apply bits_range; [lia|done|]. intros j Hj. rewrite Z.land_spec, (testbit_above 64 a j) by lia. done.
Qed.

Lemma lor_pow2_bounds a k : 0 <= a < 2 ^ 64 -> 0 <= k < 64 -> 0 <= Z.lor a (2 ^ k) < 2 ^ 64.
Proof.
  intros Ha Hk. assert (0 <= Z.lor a (2 ^ k)) as H0 by (apply Z.lor_nonneg; split; [lia|apply Z.pow_nonneg; lia]).
  split; [done|]. apply bits_range; [lia|done|]. intros j Hj. rewrite testbit_with, (testbit_above 64 a j) by lia. lia.
Qed.

Lemma no_bits a : 0 <= a -> (forall j, 0 <= j -> Z.testbit a j = false) -> a = 0.
Proof. intros Ha H. apply Z.bits_inj'. intros j Hj. rewrite Z.bits_0. by apply H. Qed.

Lemma land_pow2_zero a k : 0 <= k -> (Z.land a (2 ^ k) =? 0) = negb (Z.testbit a k).
Proof. intros Hk. rewrite <- (land_pow2_testbit a k Hk), Z.shiftl_1_l, negb_involutive. done. Qed.

(** [free_id] finds the first bit that is not set. *)
Lemma free_id_spec n used : forall k, 0 <= k -> k + Z.of_nat n = 64 ->
  (exists j, k <= j < 64 /\ free_id n (2 ^ k) used = 2 ^ j /\ Z.testbit used j = false) \/
  (free_id n (2 ^ k) used = 0 /\ forall j, k <= j < 64 -> Z.testbit used j = true).
Proof.
  induction n as [|n IH]; intros k Hk Hn; cbn [free_id]; [right; split; [done|lia]|].
  rewrite land_pow2_zero by done. destruct (Z.testbit used k) eqn:Ht; cbn [negb].
  - assert (Z.shiftl (2 ^ k) 1 = 2 ^ (k + 1)) as -> by (rewrite Z.shiftl_mul_pow2, Z.pow_add_r by lia; lia).
    destruct (IH (k + 1)) as [(j & Hj & He & Hf)|[He Hf]]; [lia|lia|left; exists j; split; [lia|done]|].
    right. split; [done|]. intros j Hj. destruct (decide (j = k)) as [->|]; [done|]. apply Hf. lia.
  - left. exists k. split; [lia|done].
Qed.

(** ** Chains of hooks *)

Fixpoint chain (nx : Z -> option Z) (p : option Z) (l : list Z) : Prop :=
  match l with
  | [] => p = None
  | x :: l => p = Some x /\ chain nx (nx x) l
  end.

Lemma chain_frame nx nx' p l : (forall x, x ∈ l -> nx' x = nx x) -> chain nx p l -> chain nx' p l.
Proof.
  revert p. induction l as [|x l IH]; intros p Hx Hc; [done|]. destruct Hc as [-> Hc]. split; [done|].
  rewrite (Hx x) by left. apply IH; [|done]. intros y Hy. apply Hx. by right.
Qed.

Lemma chain_unique nx p l1 l2 : chain nx p l1 -> chain nx p l2 -> l1 = l2.
Proof.
  revert p l2. induction l1 as [|x l1 IH]; intros p [|y l2] H1 H2; cbn in *; [done|naive_solver..|].
  destruct H1 as [-> H1], H2 as [[= <-] H2]. f_equal. by eapply IH.
Qed.

(** The link at the end of [l1] is changed: what follows is another chain. *)
Lemma chain_relink nx p l1 r v r' :
  chain nx p (l1 ++ r) -> NoDup l1 -> (forall x, x ∈ r' -> x ∉ l1) -> chain nx v r' ->
  match last l1 with
  | None => chain nx v (l1 ++ r')
  | Some x => chain (<[x := v]> nx) p (l1 ++ r')
  end.
Proof.
  revert p. induction l1 as [|x [|y l1] IH]; intros p Hc Hnd Hdis Hv; [done|..].
  - destruct Hc as [-> _]. cbn. rewrite fn_lookup_insert. split; [done|]. eapply chain_frame; [|exact Hv].
    intros z Hz. rewrite fn_lookup_insert_ne; [done|]. intros ->. apply (Hdis z Hz). left.
  - destruct Hc as [-> Hc]. apply NoDup_cons in Hnd as [Hx Hnd].
    assert (forall z, z ∈ r' -> z ∉ y :: l1) as Hdis' by (intros z Hz Hin; apply (Hdis z Hz); by right).
    specialize (IH (nx x) Hc Hnd Hdis' Hv).
    change (last (x :: y :: l1)) with (last (y :: l1)). destruct (last (y :: l1)) as [z|] eqn:Hl; [|by apply last_None in Hl].
    split; [done|]. rewrite fn_lookup_insert_ne; [exact IH|]. intros ->. apply Hx. by apply last_Some_elem_of.
Qed.

(** The state as the operations see it. *)
Definition next_of (s : irqs) (h : Z) : option Z := hk_next (irq_hooks s h).
Definition id_of (s : irqs) (h : Z) : Z := hk_id (irq_hooks s h).
Definition active (s : irqs) (d : Z) : Z := de_active_ids (irq_descs s d).

(** The last thing the chip was told about masking line [d]; a line is masked
    at first. *)
Fixpoint masked (d : Z) (log : list (Z * chip_op)) : bool :=
  match log with
  | [] => true
  | (d', ChipMask) :: log => if d' =? d then true else masked d log
  | (d', ChipUnmask) :: log => if d' =? d then false else masked d log
  | _ :: log => masked d log
  end.

(** The hooks of line [d] are [l]. *)
Record line_core (s : irqs) (d : Z) (l : list Z) : Prop := {
  ln_chain : chain (next_of s) (de_handler (irq_descs s d)) l;
  ln_nodup : NoDup l;
  ln_hooks h : h ∈ l -> 0 <= h < NR_IRQ_HOOKS /\ hk_irq (irq_hooks s h) = d;
  ln_ids h : h ∈ l -> exists k, 0 <= k < 64 /\ id_of s h = 2 ^ k;
  ln_distinct h h' : h ∈ l -> h' ∈ l -> id_of s h = id_of s h' -> h = h';
  ln_bounds : 0 <= active s d < 2 ^ 64;
  ln_active k : 0 <= k -> Z.testbit (active s d) k = true -> exists h, h ∈ l /\ id_of s h = 2 ^ k;
  ln_chip : irq_mask (de_chip (irq_descs s d)) = true /\ irq_unmask (de_chip (irq_descs s d)) = true
}.

(** And the line is masked exactly while one of them has work to do. *)
Definition line_ok (s : irqs) (d : Z) (l : list Z) : Prop :=
  line_core s d l /\ (l <> [] -> masked d (chip_log s) = negb (active s d =? 0)).

Definition valid_irq (d : Z) : Prop := 0 <= d < NR_IRQ.

(** Every line is in order. *)
Definition irq_ok (s : irqs) : Prop := forall d, valid_irq d -> exists l, line_ok s d l.

(** Hook [h] is a handler of its line. *)
Definition installed (s : irqs) (h : Z) : Prop :=
  valid_irq (hk_irq (irq_hooks s h)) /\
  exists l, chain (next_of s) (de_handler (irq_descs s (hk_irq (irq_hooks s h)))) l /\ h ∈ l.

Lemma irq_to_desc_valid d : valid_irq d -> irq_to_desc d = Some d.
Proof.
  unfold valid_irq, irq_to_desc, NR_IRQ. intros Hd. rewrite wrapu_small by lia. cbv zeta.
  by assert ((64 <=? d) = false) as -> by lia.
Qed.

(** The rest of the state is as before: other lines, and hooks out of [l]. *)
Definition only_line (d : Z) (l : list Z) (s s' : irqs) : Prop :=
  (forall d', d' <> d -> irq_descs s' d' = irq_descs s d' /\ masked d' (chip_log s') = masked d' (chip_log s)) /\
  (forall h, h ∉ l -> irq_hooks s' h = irq_hooks s h).

(** Lines without these hooks do not change. *)
Lemma line_frame d l s s' d' l' : only_line d l s s' -> d' <> d -> (forall h, h ∈ l' -> h ∉ l) ->
  line_ok s d' l' -> line_ok s' d' l'.
Proof.
  intros [Hd Hh] Hne Hdis [[L1 L2 L3 L4 L5 L6 L7 L8] L9]. destruct (Hd d' Hne) as [Ed Em].
  assert (forall h, h ∈ l' -> irq_hooks s' h = irq_hooks s h) as Hl by (intros h Hin; by apply Hh, Hdis).
  split; [|unfold active; by rewrite Ed, Em]. constructor; unfold active, id_of in *; rewrite ?Ed; try done.
  - eapply chain_frame; [|exact L1]. intros h Hin. unfold next_of. by rewrite Hl.
  - intros h Hin. rewrite Hl by done. by apply L3.
  - intros h Hin. rewrite Hl by done. by apply L4.
  - intros h h' Hin Hin'. rewrite !Hl by done. by apply L5.
  - intros k Hk Ht. destruct (L7 k Hk Ht) as (h & Hin & He). exists h. by rewrite Hl.
Qed.

(** If the operation keeps its line in order, all lines are. *)
Lemma irq_ok_step s s' d l' touched :
  irq_ok s -> only_line d touched s s' -> line_ok s' d l' ->
  (forall h, h ∈ touched -> forall d' l, valid_irq d' -> d' <> d -> line_ok s d' l -> h ∉ l) -> irq_ok s'.
Proof.
  intros Hok Honly Hl Ht d' Hd'. destruct (decide (d' = d)) as [->|Hne]; [eauto|].
  destruct (Hok d' Hd') as [l Hl0]. exists l. eapply line_frame; [done|done| |done].
  intros h Hin Htouch. by apply (Ht h Htouch d' l).
Qed.

(** A hook of one line is on no other. *)
Lemma line_only s d l d' l' h : line_ok s d l -> line_ok s d' l' -> d' <> d -> h ∈ l -> h ∉ l'.
Proof.
  intros [H1 _] [H2 _] Hne Hin Hin'. apply Hne. rewrite <- (proj2 (ln_hooks _ _ _ H1 h Hin)). symmetry. by apply H2.
Qed.

(** ** The pieces of the operations *)

Lemma only_line_refl d s : only_line d [] s s.
Proof. done. Qed.

Lemma only_line_trans d l s1 s2 s3 : only_line d l s1 s2 -> only_line d l s2 s3 -> only_line d l s1 s3.
Proof.
  intros [D1 H1] [D2 H2]. split.
  - intros d' Hd. destruct (D1 d' Hd) as [<- <-]. by apply D2.
  - intros h Hh. rewrite <- H1 by done. by apply H2.
Qed.

Lemma only_line_weaken d l l' s s' : (forall h, h ∈ l -> h ∈ l') -> only_line d l s s' -> only_line d l' s s'.
Proof. intros Hl [D H]. split; [done|]. intros h Hh. apply H. intros Hin. by apply Hh, Hl. Qed.

Lemma chip_call_frame has op d s : irq_hooks (chip_call has op d s) = irq_hooks s /\
  irq_descs (chip_call has op d s) = irq_descs s.
Proof. unfold chip_call. destruct (has _); by destruct s. Qed.

Lemma chip_call_masked has op d s d' : (d' <> d \/ (op <> ChipMask /\ op <> ChipUnmask)) ->
  masked d' (chip_log (chip_call has op d s)) = masked d' (chip_log s).
Proof.
  intros Hd. unfold chip_call. destruct (has _); [|done].
  change (masked d' ((d, op) :: chip_log s) = masked d' (chip_log s)).
  destruct op; cbn; try done; (destruct (d =? d') eqn:E; b2p; [destruct Hd as [|[? ?]]; done|done]).
Qed.

Lemma chip_call_only has op d s : only_line d [] s (chip_call has op d s).
Proof.
  destruct (chip_call_frame has op d s) as [E1 E2]. split.
  - intros d' Hd. rewrite E2. split; [done|]. apply chip_call_masked. by left.
  - intros h _. by rewrite E1.
Qed.

(** A line stays in order when its chip is called. *)
Lemma chip_call_core has op d s l : line_core s d l -> line_core (chip_call has op d s) d l.
Proof.
  destruct (chip_call_frame has op d s) as [E1 E2]. intros [L1 L2 L3 L4 L5 L6 L7 L8].
  constructor; unfold active, id_of, next_of in *; rewrite ?E1, ?E2; done.
Qed.

Lemma mask_masked s d : irq_mask (de_chip (irq_descs s d)) = true -> masked d (chip_log (mask_irq d s)) = true.
Proof. intros Hc. unfold mask_irq, chip_call. rewrite Hc. cbn. by rewrite Z.eqb_refl. Qed.

Lemma unmask_unmasked s d : irq_unmask (de_chip (irq_descs s d)) = true -> masked d (chip_log (unmask_irq d s)) = false.
Proof. intros Hc. unfold unmask_irq, chip_call. rewrite Hc. cbn. by rewrite Z.eqb_refl. Qed.

(** The end of the operations: the line is unmasked when nothing is active. *)
Definition settle (d : Z) (s : irqs) : irqs := if de_active_ids (irq_descs s d) =? 0 then unmask_irq d s else s.

Lemma settle_ok s d l : line_core s d l ->
  (active s d <> 0 -> l <> [] -> masked d (chip_log s) = true) -> line_ok (settle d s) d l /\ only_line d [] s (settle d s).
Proof.
  intros Hc Hm. unfold settle. change (de_active_ids (irq_descs s d)) with (active s d).
  destruct (active s d =? 0) eqn:Ha; b2p.
  - split; [|apply chip_call_only]. split; [by apply chip_call_core|]. intros _.
    rewrite unmask_unmasked by apply Hc. unfold active. destruct (chip_call_frame irq_unmask ChipUnmask d s) as [_ E].
    unfold unmask_irq. rewrite E. unfold active in Ha. by rewrite Ha.
  - split; [|done]. split; [done|]. intros Hl. rewrite Hm by done. by assert ((active s d =? 0) = false) as -> by lia.
Qed.

(** The active identifiers of line [d] become [f] of them. *)
Definition set_active (d : Z) (f : Z -> Z) (s : irqs) : irqs := upd_desc d (fun r => r <| de_active_ids ::= f |>) s.

Lemma set_active_frame d f s : irq_hooks (set_active d f s) = irq_hooks s /\ chip_log (set_active d f s) = chip_log s /\
  (forall d', d' <> d -> irq_descs (set_active d f s) d' = irq_descs s d') /\
  active (set_active d f s) d = f (active s d) /\
  de_handler (irq_descs (set_active d f s) d) = de_handler (irq_descs s d) /\
  de_chip (irq_descs (set_active d f s) d) = de_chip (irq_descs s d).
Proof.
  unfold set_active, upd_desc, active. destruct s as [hk de dm al lg]. cbn. split_and!; try done.
  - intros d' Hd. by rewrite fn_lookup_alter_ne.
  - by rewrite fn_lookup_alter.
  - by rewrite fn_lookup_alter.
  - by rewrite fn_lookup_alter.
Qed.

Lemma set_active_only d f s : only_line d [] s (set_active d f s).
Proof.
  destruct (set_active_frame d f s) as (E1 & E2 & E3 & _). split.
  - intros d' Hd. by rewrite E2, E3.
  - intros h _. by rewrite E1.
Qed.

Lemma set_active_core d f s l : line_core s d l -> 0 <= f (active s d) < 2 ^ 64 ->
  (forall k, 0 <= k -> Z.testbit (f (active s d)) k = true -> exists h, h ∈ l /\ id_of s h = 2 ^ k) ->
  line_core (set_active d f s) d l.
Proof.
  destruct (set_active_frame d f s) as (E1 & E2 & E3 & E4 & E5 & E6). intros [L1 L2 L3 L4 L5 L6 L7 L8] Hb Ht.
  constructor; rewrite ?E4, ?E5, ?E6; unfold id_of, next_of in *; rewrite ?E1; done.
Qed.

(** Clearing and setting the bit of one hook. *)
Lemma clear_core d h s l : line_core s d l -> h ∈ l ->
  line_core (set_active d (fun a => Z.land a (notu 64 (id_of s h))) s) d l.
Proof.
  intros Hc Hh. pose proof (ln_bounds _ _ _ Hc) as Hb. apply set_active_core; [done|by apply land_notu_bounds|].
  intros k Hk Ht. rewrite Z.land_spec in Ht. apply andb_true_iff in Ht as [Ht _]. by apply (ln_active _ _ _ Hc).
Qed.

Lemma set_core d h s l : line_core s d l -> h ∈ l ->
  line_core (set_active d (fun a => Z.lor a (id_of s h)) s) d l.
Proof.
  intros Hc Hh. pose proof (ln_bounds _ _ _ Hc) as Hb. destruct (ln_ids _ _ _ Hc h Hh) as (j & Hj & Hid). rewrite Hid.
  apply set_active_core; [done|by apply lor_pow2_bounds|]. intros k Hk Ht. rewrite testbit_with in Ht by lia.
  apply orb_true_iff in Ht as [Ht|Ht]; [by apply (ln_active _ _ _ Hc)|]. assert (k = j) as -> by lia. by exists h.
Qed.

(** ** Enabling and disabling *)

(** Hook [h] has work to do. *)
Definition pending (s : irqs) (d h : Z) : bool := negb (Z.land (active s d) (id_of s h) =? 0).

Lemma pending_testbit s d l h k : line_core s d l -> id_of s h = 2 ^ k -> 0 <= k ->
  pending s d h = Z.testbit (active s d) k.
Proof. intros _ Hid Hk. unfold pending. by rewrite Hid, land_pow2_zero, negb_involutive. Qed.

Lemma installed_line s h : irq_ok s -> installed s h ->
  let d := hk_irq (irq_hooks s h) in exists l, line_ok s d l /\ h ∈ l /\ irq_to_desc d = Some d.
Proof.
  intros Hok (Hd & l & Hc & Hh) d. destruct (Hok d Hd) as [l' Hl]. exists l'.
  rewrite <- (chain_unique _ _ _ _ Hc (ln_chain _ _ _ (proj1 Hl))). split_and!; [|done|by apply irq_to_desc_valid].
  by rewrite (chain_unique _ _ _ _ Hc (ln_chain _ _ _ (proj1 Hl))).
Qed.

Lemma no_hooks_touched (h : Z) (P : Prop) : h ∈ ([] : list Z) -> P.
Proof. by intros ?%elem_of_nil. Qed.

Lemma enable_ok s h : irq_ok s -> installed s h -> exists s', enable_irq h s = Ret s' /\ irq_ok s'.
Proof.
  intros Hok Hi. destruct (installed_line s h Hok Hi) as (l & Hl & Hh & Hd). set (d := hk_irq (irq_hooks s h)) in *.
  unfold enable_irq. fold d. rewrite Hd. cbn [deref]. rewrite res_ret_bind.
  set (s1 := set_active d (fun a => Z.land a (notu 64 (id_of s h))) s).
  exists (settle d s1). split; [done|]. destruct Hl as [Hc Hm]. pose proof (clear_core d h s l Hc Hh) as Hc1.
  destruct (set_active_frame d (fun a => Z.land a (notu 64 (id_of s h))) s) as (_ & E2 & _ & E4 & _). fold s1 in Hc1, E2, E4.
  destruct (settle_ok s1 d l Hc1) as [Hl Honly].
  { intros Ha Hne. rewrite E2, Hm by done. destruct (active s d =? 0) eqn:E; [|done]. b2p. rewrite E4, E in Ha. done. }
  eapply (irq_ok_step s _ d l []); [done| |done|intros; by eapply no_hooks_touched].
  eapply only_line_trans; [apply set_active_only|exact Honly].
Qed.

Lemma disable_ok s h : irq_ok s -> installed s h -> exists s' r, disable_irq h s = Ret (s', r) /\ irq_ok s'.
Proof.
  intros Hok Hi. destruct (installed_line s h Hok Hi) as (l & [Hc Hm] & Hh & Hd). set (d := hk_irq (irq_hooks s h)) in *.
  unfold disable_irq. fold d. rewrite Hd. cbn [deref]. rewrite res_ret_bind.
  destruct (negb (Z.land (de_active_ids _) _ =? 0)) eqn:Hp; [by exists s, false|]. set (s1 := set_active d (fun a => Z.lor a (id_of s h)) s).
  exists (mask_irq d s1), true. split; [done|]. pose proof (set_core d h s l Hc Hh) as Hc1. fold s1 in Hc1.
  destruct (set_active_frame d (fun a => Z.lor a (id_of s h)) s) as (_ & E2 & _ & E4 & _). fold s1 in E2, E4.
  assert (active s1 d <> 0) as Ha.
  { rewrite E4. destruct (ln_ids _ _ _ Hc h Hh) as (k & Hk & ->). intros H0.
    assert (Z.testbit (Z.lor (active s d) (2 ^ k)) k = true) as Ht by (rewrite testbit_with by lia; lia).
    rewrite H0, Z.bits_0 in Ht. done. }
  eapply (irq_ok_step s _ d l []); [done| | |intros; by eapply no_hooks_touched].
  - eapply only_line_trans; [apply set_active_only|apply chip_call_only].
  - split; [by apply chip_call_core|]. intros _. rewrite mask_masked by apply Hc1.
    unfold active, mask_irq in *. destruct (chip_call_frame irq_mask ChipMask d s1) as [_ ->]. by assert ((de_active_ids (irq_descs s1 d) =? 0) = false) as -> by lia.
Qed.

(** ** An interrupt *)

Section handle.
Context {A : Type} (call : Z -> Z -> irq_hook -> A -> res (A * Z)).

(** The handlers of the hooks [l], one after the other, and their results. *)
Fixpoint run_handlers (s : irqs) (l : list Z) (a : A) : res (A * list Z) :=
  match l with
  | [] => Ret (a, [])
  | h :: l =>
      '(a, r) ← call (hk_handler (irq_hooks s h)) h (irq_hooks s h) a;
      '(a, rs) ← run_handlers s l a;
      Ret (a, r :: rs)
  end.

(** The loop over the hooks: line [d] keeps its hooks and its mask, the
    handlers run, and those that return 0 stay active. *)
Record handled (d : Z) (l l2 : list Z) (rs : list Z) (s s' : irqs) : Prop := {
  hd_core : line_core s' d l;
  hd_only : only_line d [] s s';
  hd_hooks : irq_hooks s' = irq_hooks s;
  hd_log : chip_log s' = chip_log s;
  hd_others h : h ∈ l -> h ∉ l2 -> pending s' d h = pending s d h;
  hd_results : Forall2 (fun h r => pending s' d h = (r =? 0)) l2 rs
}.

Lemma run_handlers_hooks s s' l a : irq_hooks s' = irq_hooks s -> run_handlers s' l a = run_handlers s l a.
Proof.
  intros Hh. revert a. induction l as [|h l IH]; intros a; cbn [run_handlers]; [done|]. rewrite Hh.
  destruct (call _ h _ a) as [[a1 r]|]; [|done]. rewrite !res_ret_bind. by rewrite IH.
Qed.

(** One handler: its bit is set, and cleared again if it asks for that. *)
Definition one_handled (d h r : Z) (s : irqs) : irqs :=
  let s1 := set_active d (fun x => Z.lor x (id_of s h)) s in
  if negb (r =? 0) then set_active d (fun x => Z.land x (notu 64 (id_of s h))) s1 else s1.

Lemma one_handled_ok d h r s l : line_core s d l -> h ∈ l -> handled d l [h] [r] s (one_handled d h r s).
Proof.
  intros Hc Hh. pose proof (set_core d h s l Hc Hh) as Hc1. destruct (ln_ids _ _ _ Hc h Hh) as (k & Hk & Hid).
  destruct (set_active_frame d (fun x => Z.lor x (id_of s h)) s) as (E1 & E2 & E3 & E4 & _).
  pose proof (set_active_only d (fun x => Z.lor x (id_of s h)) s) as Ho1.
  unfold one_handled. cbv zeta. set (s1 := set_active d _ s) in *.
  assert (id_of s1 h = id_of s h) as Hids by (unfold id_of; by rewrite E1).
  pose proof (clear_core d h s1 l Hc1 Hh) as Hc2. rewrite Hids in Hc2.
  destruct (set_active_frame d (fun x => Z.land x (notu 64 (id_of s h))) s1) as (F1 & F2 & F3 & F4 & _).
  pose proof (set_active_only d (fun x => Z.land x (notu 64 (id_of s h))) s1) as Ho2.
  set (s2 := set_active d (fun x => Z.land _ _) s1) in *.
  set (s' := if negb (r =? 0) then s2 else s1).
  assert (line_core s' d l /\ only_line d [] s s' /\ irq_hooks s' = irq_hooks s /\ chip_log s' = chip_log s) as (G1 & G2 & G3 & G4).
  { unfold s'. destruct (negb _); split_and!; try done; [by eapply only_line_trans|congruence..]. }
  assert (forall j, 0 <= j -> Z.testbit (active s' d) j = if j =? k then r =? 0 else Z.testbit (active s d) j) as Hbits.
  { intros j Hj. unfold s'. destruct (r =? 0); cbn [negb].
    - rewrite E4, Hid, testbit_with by lia. destruct (j =? k); [by rewrite orb_true_r|by rewrite orb_false_r].
    - rewrite F4, Hid, testbit_without; [|apply Hc1|lia|done]. rewrite E4, Hid, testbit_with by lia.
      destruct (j =? k); [by rewrite andb_false_r|by rewrite andb_true_r, orb_false_r]. }
  assert (forall x j, id_of s x = 2 ^ j -> 0 <= j -> pending s' d x = if j =? k then r =? 0 else pending s d x) as Hp.
  { intros x j Hx Hj. rewrite (pending_testbit s d l x j Hc Hx Hj), (pending_testbit s' d l x j G1), Hbits; try done.
    unfold id_of. by rewrite G3. }
  clearbody s'. constructor; try done.
  - intros x Hx Hxh. destruct (ln_ids _ _ _ Hc x Hx) as (j & Hj & Hxid). rewrite (Hp x j) by (done || lia).
    destruct (j =? k) eqn:E; [|done]. b2p. exfalso. apply Hxh. apply list_elem_of_singleton. apply (ln_distinct _ _ _ Hc); congruence || done.
  - constructor; [|constructor]. rewrite (Hp h k) by (done || lia). by rewrite Z.eqb_refl.
Qed.

Lemma handle_loop_spec d l : forall fuel l2 p s a a' rs,
  line_core s d l -> chain (next_of s) p l2 -> (forall h, h ∈ l2 -> h ∈ l) -> NoDup l2 -> (length l2 < fuel)%nat ->
  run_handlers s l2 a = Ret (a', rs) ->
  exists s', handle_loop call fuel d p s a = Ret (s', a') /\ handled d l l2 rs s s'.
Proof.
  induction fuel as [|fuel IH]; intros l2 p s a a' rs Hc Hch Hin Hnd Hf Hr; [lia|]. destruct l2 as [|h l2].
  { cbn in Hch. subst p. injection Hr as <- <-. exists s. split; [done|]. constructor; done || constructor. }
  destruct Hch as [-> Hch]. apply NoDup_cons in Hnd as [Hh Hnd]. cbn [length] in Hf.
  cbn [run_handlers] in Hr. cbn [handle_loop].
  destruct (call _ h _ a) as [[a1 r]|] eqn:Hcall; [|done]. rewrite res_ret_bind in Hr.
  destruct (run_handlers s l2 a1) as [[a2 rs2]|] eqn:Hrun; [|done]. rewrite res_ret_bind in Hr. injection Hr as <- <-.
  assert (h ∈ l) as Hhl by (apply Hin; left).
  destruct (one_handled_ok d h r s l Hc Hhl) as [H1 H2 H3 H4 H5 H6].
  destruct (IH l2 (hk_next (irq_hooks s h)) (one_handled d h r s) a1 a2 rs2) as (s' & He & [K1 K2 K3 K4 K5 K6]); try done.
  - eapply chain_frame; [|exact Hch]. intros x _. unfold next_of. by rewrite H3.
  - intros x Hx. apply Hin. by right.
  - lia.
  - by rewrite (run_handlers_hooks s).
  - exists s'. split; [by rewrite res_ret_bind|]. constructor; try done.
    + by eapply only_line_trans.
    + congruence.
    + congruence.
    + intros x Hx [Hxh Hxl]%not_elem_of_cons. rewrite K5 by done. apply H5; [done|]. by intros ->%list_elem_of_singleton.
    + constructor; [|done]. rewrite K5 by done. by apply Forall2_cons in H6 as [? _].
Qed.
End handle.

Lemma line_length s d l : line_core s d l -> (length l <= Z.to_nat NR_IRQ_HOOKS)%nat.
Proof.
  intros Hc. rewrite <- (length_seqZ 0 NR_IRQ_HOOKS). apply submseteq_length, NoDup_submseteq; [apply Hc|].
  intros h Hh. apply elem_of_seqZ. destruct (ln_hooks _ _ _ Hc h Hh). lia.
Qed.

Lemma pending_some s d l : line_core s d l -> (active s d =? 0) = negb (existsb (pending s d) l).
Proof.
  intros Hc. destruct (existsb _ l) eqn:He.
  - apply existsb_exists in He as (h & Hh & Hp). apply list_elem_of_In in Hh. cbn.
    destruct (active s d =? 0) eqn:H0; [|done]. b2p. unfold pending in Hp. by rewrite H0 in Hp.
  - cbn. apply Z.eqb_eq, no_bits; [apply (ln_bounds _ _ _ Hc)|]. intros j Hj. destruct (Z.testbit _ j) eqn:Ht; [|done]. exfalso.
    destruct (ln_active _ _ _ Hc j Hj Ht) as (h & Hh & Hid). apply not_true_iff_false in He. apply He, existsb_exists.
    exists h. split; [by apply list_elem_of_In|]. by rewrite (pending_testbit s d l h j).
Qed.

Section interrupt.
Context {A : Type} (call : Z -> Z -> irq_hook -> A -> res (A * Z)).

Lemma handle_ok d s l a a' rs : irq_ok s -> valid_irq d -> line_ok s d l -> run_handlers call s l a = Ret (a', rs) ->
  exists s', handle_simple_irq call d s a = Ret (s', a') /\ irq_ok s' /\ line_ok s' d l /\
    Forall2 (fun h r => pending s' d h = (r =? 0)) l rs.
Proof.
  intros Hok Hd [Hc _] Hr. unfold handle_simple_irq.
  destruct (chip_call_frame irq_mask ChipMask d s) as [E1 E2]. pose proof (chip_call_core irq_mask ChipMask d s l Hc) as Hc1.
  pose proof (mask_masked s d (proj1 (ln_chip _ _ _ Hc))) as Hm. pose proof (chip_call_only irq_mask ChipMask d s) as Ho1.
  unfold mask_irq in *. set (s1 := chip_call irq_mask ChipMask d s) in *. clearbody s1.
  destruct (handle_loop_spec call d l HOOK_FUEL l (de_handler (irq_descs s d)) s1 a a' rs Hc1) as (s2 & -> & [K1 K2 K3 K4 _ K6]);
    try done.
  { rewrite <- E2. apply Hc1. } { apply Hc. } { pose proof (line_length _ _ _ Hc). unfold HOOK_FUEL. lia. }
  { by rewrite (run_handlers_hooks call s). }
  rewrite res_ret_bind. cbv beta iota zeta. change (if _ =? 0 then unmask_irq d s2 else s2) with (settle d s2).
  destruct (settle_ok s2 d l K1) as [[Hc3 Hm3] Ho3]; [by rewrite K4|].
  assert (active (settle d s2) d = active s2 d /\ irq_hooks (settle d s2) = irq_hooks s2) as [Ha3 Hh3].
  { unfold settle, active. destruct (de_active_ids (irq_descs s2 d) =? 0); [|done]. unfold unmask_irq.
    by destruct (chip_call_frame irq_unmask ChipUnmask d s2) as [-> ->]. }
  set (s3 := settle d s2) in *. clearbody s3.
  destruct (chip_call_frame irq_eoi ChipEoi d s3) as [F1 F2]. pose proof (chip_call_core irq_eoi ChipEoi d s3 l Hc3) as Hc4.
  assert (masked d (chip_log (chip_call irq_eoi ChipEoi d s3)) = masked d (chip_log s3)) as Hm4.
  { apply chip_call_masked. by right. }
  pose proof (chip_call_only irq_eoi ChipEoi d s3) as Ho4. set (s4 := chip_call irq_eoi ChipEoi d s3) in *. clearbody s4.
  assert (line_ok s4 d l) as Hl4.
  { split; [done|]. intros Hne. rewrite Hm4, Hm3 by done. unfold active. by rewrite F2. }
  exists s4. split_and!; [done| |done|].
  - eapply (irq_ok_step s s4 d l []); [done| |done|intros; by eapply no_hooks_touched].
    do 3 (eapply only_line_trans; [eassumption|]). done.
  - eapply Forall2_impl; [exact K6|]. intros h r Hp. rewrite <- Hp. unfold pending, id_of.
    rewrite F1, Hh3. unfold active in *. by rewrite F2, Ha3.
Qed.
End interrupt.

(** ** Installing and removing handlers *)

Lemma set_line_frame d line v s :
  (forall h, next_of (set_line d line v s) h = match line with Some x => (<[x := v]> (next_of s)) h | None => next_of s h end) /\
  (forall h, id_of (set_line d line v s) h = id_of s h /\ hk_irq (irq_hooks (set_line d line v s) h) = hk_irq (irq_hooks s h)) /\
  (forall h, line <> Some h -> irq_hooks (set_line d line v s) h = irq_hooks s h) /\
  de_handler (irq_descs (set_line d line v s) d) = match line with Some _ => de_handler (irq_descs s d) | None => v end /\
  active (set_line d line v s) d = active s d /\ de_chip (irq_descs (set_line d line v s) d) = de_chip (irq_descs s d) /\
  chip_log (set_line d line v s) = chip_log s /\
  (forall d', d' <> d -> irq_descs (set_line d line v s) d' = irq_descs s d').
Proof.
  destruct s as [hk de dm al lg]. unfold set_line, upd_hook, upd_desc, active, next_of, id_of. destruct line as [x|]; cbn.
  - split_and!; try done.
    + intros h. destruct (decide (h = x)) as [->|]; [by rewrite fn_lookup_alter, fn_lookup_insert|].
      by rewrite fn_lookup_alter_ne, fn_lookup_insert_ne.
    + intros h. destruct (decide (h = x)) as [->|]; [by rewrite fn_lookup_alter|by rewrite fn_lookup_alter_ne].
    + intros h Hh. rewrite fn_lookup_alter_ne; [done|]. congruence.
  - split_and!; try done; try (by rewrite fn_lookup_alter). intros d' Hd. by rewrite fn_lookup_alter_ne.
Qed.

Lemma rm_walk_pass fuel d id s : forall l p line,
  chain (next_of s) p l -> (forall x, x ∈ l -> id_of s x <> id) -> (length l < fuel)%nat ->
  rm_walk fuel d id p line s = Ret s.
Proof.
  induction fuel as [|fuel IH]; intros l p line Hc Hid Hf; [lia|]. destruct l as [|x l]; cbn [rm_walk].
  { cbn in Hc. by subst p. }
  destruct Hc as [-> Hc]. cbn [length] in Hf. assert ((hk_id (irq_hooks s x) =? id) = false) as ->.
  { apply Z.eqb_neq, (Hid x). left. }
  eapply IH; [exact Hc| |lia]. intros y Hy. apply Hid. by right.
Qed.

(** What [rm_walk] does where it finds the hook. *)
Definition unlink (d id : Z) (line next : option Z) (s : irqs) : irqs :=
  let s := set_line d line next s in
  if negb (Z.land (de_active_ids (irq_descs s d)) id =? 0) then set_active d (fun a => Z.land a (notu 64 id)) s else s.

Lemma unlink_frame d k line v s : 0 <= k < 64 -> 0 <= active s d < 2 ^ 64 ->
  let s' := unlink d (2 ^ k) line v s in
  irq_hooks s' = irq_hooks (set_line d line v s) /\
  de_handler (irq_descs s' d) = de_handler (irq_descs (set_line d line v s) d) /\
  de_chip (irq_descs s' d) = de_chip (irq_descs s d) /\ chip_log s' = chip_log s /\
  (forall d', d' <> d -> irq_descs s' d' = irq_descs s d') /\
  0 <= active s' d < 2 ^ 64 /\
  (forall j, 0 <= j -> Z.testbit (active s' d) j = Z.testbit (active s d) j && negb (j =? k)).
Proof.
  intros Hk Hb s'. destruct (set_line_frame d line v s) as (_ & _ & _ & E4 & E5 & E6 & E7 & E8).
  set (s1 := set_line d line v s) in *.
  destruct (set_active_frame d (fun a => Z.land a (notu 64 (2 ^ k))) s1) as (F1 & F2 & F3 & F4 & F5 & F6). rewrite E5 in F4.
  assert (s' = if Z.testbit (active s d) k then set_active d (fun a => Z.land a (notu 64 (2 ^ k))) s1 else s1) as ->.
  { rewrite <- E5, <- (negb_involutive (Z.testbit _ k)), <- land_pow2_zero by lia. done. }
  destruct (Z.testbit (active s d) k) eqn:Ht.
  - rewrite F1, F2, F5, F6, E6, E7, F4. split_and!; try done.
    + intros d' Hd. by rewrite F3, E8.
    + by apply land_notu_bounds.
    + by apply land_notu_bounds.
    + intros j Hj. by apply testbit_without.
  - rewrite E5. split_and!; try done; try lia. intros j Hj. destruct (j =? k) eqn:Ej; [|by rewrite andb_true_r].
    b2p. subst j. by rewrite Ht.
Qed.

Lemma rm_walk_find fuel d k s h : forall l1 l2 p line,
  0 <= k < 64 -> 0 <= active s d < 2 ^ 64 ->
  chain (next_of s) p (l1 ++ h :: l2) -> id_of s h = 2 ^ k -> (forall x, x ∈ l1 ++ l2 -> id_of s x <> 2 ^ k) ->
  (forall x, line = Some x -> x ∉ l1 ++ l2) -> NoDup (l1 ++ l2) -> (length (l1 ++ h :: l2) < fuel)%nat ->
  rm_walk fuel d (2 ^ k) p line s =
  Ret (unlink d (2 ^ k) (match last l1 with Some x => Some x | None => line end) (next_of s h) s).
Proof.
  induction fuel as [|fuel IH]; intros l1 l2 p line Hk Hb Hc Hid Hne Hline Hnd Hf; [lia|].
  destruct l1 as [|x l1]; cbn [app length] in *; destruct Hc as [-> Hc]; cbn [rm_walk].
  - change (hk_id (irq_hooks s h)) with (id_of s h). rewrite Hid, Z.eqb_refl. cbn [last].
    change (rm_walk fuel d (2 ^ k) (next_of s h) line (unlink d (2 ^ k) line (next_of s h) s) =
            Ret (unlink d (2 ^ k) line (next_of s h) s)).
    destruct (unlink_frame d k line (next_of s h) s Hk Hb) as (E1 & _).
    destruct (set_line_frame d line (next_of s h) s) as (N1 & N2 & _).
    apply (rm_walk_pass fuel d (2 ^ k) _ l2); [| |lia].
    + eapply chain_frame; [|exact Hc]. intros y Hy. unfold next_of at 1. rewrite E1.
      etransitivity; [apply N1|]. destruct line as [z|]; [|done]. rewrite fn_lookup_insert_ne; [done|].
      intros ->. by apply (Hline _ eq_refl).
    + intros y Hy. unfold id_of. rewrite E1. intros He. apply (Hne y Hy). rewrite <- He. symmetry. apply N2.
  - assert ((hk_id (irq_hooks s x) =? 2 ^ k) = false) as -> by (apply Z.eqb_neq, Hne; left).
    apply NoDup_cons in Hnd as [Hx Hnd].
    rewrite (IH l1 l2 (hk_next (irq_hooks s x)) (Some x)); try done; [|intros y Hy; apply Hne; by right|by intros y [= <-]|lia].
    do 2 f_equal. destruct l1 as [|y l1]; [done|]. change (last (x :: y :: l1)) with (last (y :: l1)).
    destruct (last (y :: l1)) eqn:E; [done|by apply last_None in E].
Qed.

(** The line without hook [h]. *)
Lemma unlink_core s d l1 h l2 k : line_core s d (l1 ++ h :: l2) -> id_of s h = 2 ^ k -> 0 <= k < 64 ->
  let s' := unlink d (2 ^ k) (last l1) (next_of s h) s in
  line_core s' d (l1 ++ l2) /\ only_line d l1 s s' /\ (active s' d <> 0 -> active s d <> 0) /\ chip_log s' = chip_log s.
Proof.
  intros Hc Hid Hk s'. pose proof (ln_bounds _ _ _ Hc) as Hb. pose proof (ln_nodup _ _ _ Hc) as Hnd.
  assert (h ∉ l1 ++ l2 /\ NoDup (l1 ++ l2)) as [Hh Hnd'].
  { rewrite <- Permutation_middle in Hnd. by apply NoDup_cons in Hnd. }
  assert (forall x, x ∈ l1 ++ l2 -> x ∈ l1 ++ h :: l2 /\ x <> h) as Hsub.
  { intros x Hx. split; [rewrite elem_of_app, elem_of_cons; apply elem_of_app in Hx; tauto|]. by intros ->. }
  destruct (unlink_frame d k (last l1) (next_of s h) s Hk Hb) as (E1 & E2 & E3 & E4 & E5 & E6 & E7). fold s' in E1, E2, E3, E4, E5, E6, E7.
  destruct (set_line_frame d (last l1) (next_of s h) s) as (N1 & N2 & N3 & N4 & _).
  assert (forall x, id_of s' x = id_of s x /\ hk_irq (irq_hooks s' x) = hk_irq (irq_hooks s x)) as Hx.
  { intros x. unfold id_of. rewrite E1. apply N2. }
  destruct Hc as [L1 L2 L3 L4 L5 L6 L7 L8]. split_and!.
  - constructor.
    + rewrite E2, N4. pose proof (NoDup_app l1 (h :: l2)) as [Happ _]. destruct (Happ Hnd) as (Hnd1 & Hdis & _).
      assert (chain (next_of s) (next_of s h) l2) as Htail.
      { clear -L1. revert L1. generalize (de_handler (irq_descs s d)). induction l1 as [|x l1 IH]; intros p; [by intros [_ ?]|].
        intros [_ H]. by eapply IH. }
      pose proof (chain_relink (next_of s) _ l1 (h :: l2) (next_of s h) l2 L1 Hnd1) as Hre.
      specialize (Hre ltac:(intros x Hx2 Hx1; apply (Hdis x Hx1); by right) Htail).
      destruct (last l1) as [z|]; (eapply chain_frame; [|exact Hre]); intros x _; unfold next_of at 1; rewrite E1; apply N1.
    + done.
    + intros x Hin. rewrite (proj2 (Hx x)). apply L3. by apply Hsub.
    + intros x Hin. rewrite (proj1 (Hx x)). apply L4. by apply Hsub.
    + intros x y Hin Hin'. rewrite (proj1 (Hx x)), (proj1 (Hx y)). apply L5; by apply Hsub.
    + done.
    + intros j Hj Ht. rewrite E7 in Ht by done. apply andb_true_iff in Ht as [Ht Hjk].
      destruct (L7 j Hj Ht) as (x & Hin & Hxid). exists x. rewrite (proj1 (Hx x)). split; [|done].
      rewrite elem_of_app, elem_of_cons in Hin. rewrite elem_of_app. destruct Hin as [?|[->|?]]; [by left| |by right].
      exfalso. rewrite Hid in Hxid. apply Z.pow_inj_r in Hxid; lia.
    + by rewrite E3.
  - split; [intros d' Hd; by rewrite E4, E5|]. intros x Hin. rewrite E1. apply N3. intros Hl. apply Hin. by apply last_Some_elem_of.
  - intros Ha H0. apply Ha. apply no_bits; [lia|]. intros j Hj. by rewrite E7, H0, Z.bits_0.
  - done.
Qed.

Lemma rm_ok s h : irq_ok s -> installed s h ->
  exists s' l1 l2, rm_irq_handler h s = Ret s' /\ irq_ok s' /\
    line_ok s (hk_irq (irq_hooks s h)) (l1 ++ h :: l2) /\ line_ok s' (hk_irq (irq_hooks s h)) (l1 ++ l2).
Proof.
  intros Hok Hi. destruct (installed_line s h Hok Hi) as (l & Hl & Hh & Hd).
  unfold rm_irq_handler. cbv zeta. set (d := hk_irq (irq_hooks s h)) in *. rewrite Hd. cbn [deref]. rewrite res_ret_bind.
  apply list_elem_of_split in Hh as (l1 & l2 & ->). pose proof Hl as [Hc Hm].
  assert (h ∈ l1 ++ h :: l2) as Hh by (rewrite elem_of_app, elem_of_cons; auto).
  destruct (ln_ids _ _ _ Hc h Hh) as (k & Hk & Hid). change (hk_id (irq_hooks s h)) with (id_of s h). rewrite Hid.
  pose proof (ln_nodup _ _ _ Hc) as Hnd. rewrite <- Permutation_middle in Hnd. apply NoDup_cons in Hnd as [Hn Hnd].
  rewrite (rm_walk_find HOOK_FUEL d k s h l1 l2); try done; [|apply Hc|apply Hc| |].
  2: { intros x Hx Hxid. apply Hn. replace h with x; [done|]. apply (ln_distinct _ _ _ Hc); [|done|congruence].
       rewrite elem_of_app, elem_of_cons. apply elem_of_app in Hx. tauto. }
  2: { pose proof (line_length _ _ _ Hc). unfold HOOK_FUEL. lia. }
  rewrite res_ret_bind. replace (match last l1 with Some x => Some x | None => None end) with (last l1) by (by destruct (last l1)).
  destruct (unlink_core s d l1 h l2 k Hc Hid Hk) as (Hc1 & Ho1 & Ha1 & Hg1).
  set (s1 := unlink d (2 ^ k) (last l1) (next_of s h) s) in *. clearbody s1.
  assert (forall s', only_line d [] s1 s' -> line_ok s' d (l1 ++ l2) -> irq_ok s') as Hstep.
  { intros s' Ho' Hl'. eapply (irq_ok_step s s' d (l1 ++ l2) l1); [done| |done|].
    - eapply only_line_trans; [done|]. eapply only_line_weaken; [|done]. intros x. by eapply no_hooks_touched.
    - intros x Hx d' l' Hd' Hne Hl0. eapply (line_only s d _ d' l'); [exact Hl|done|done|]. apply elem_of_app. by left. }
  destruct (de_handler (irq_descs s1 d)) eqn:Hhd.
  - destruct (settle_ok s1 d (l1 ++ l2) Hc1) as [Hl2 Ho2].
    { intros Ha _. rewrite Hg1, Hm by (by destruct l1). specialize (Ha1 Ha). by assert ((active s d =? 0) = false) as -> by lia. }
    exists (settle d s1), l1, l2. split_and!; [done|by apply Hstep|done|done].
  - assert (l1 ++ l2 = []) as Hnil.
    { pose proof (ln_chain _ _ _ Hc1) as Hch. rewrite Hhd in Hch. destruct (l1 ++ l2); [done|by destruct Hch]. }
    exists (chip_call irq_not_used ChipNotUsed d (mask_irq d s1)), l1, l2.
    assert (line_ok (chip_call irq_not_used ChipNotUsed d (mask_irq d s1)) d (l1 ++ l2)) as Hl2.
    { split; [by do 2 apply chip_call_core|]. by rewrite Hnil. }
    split_and!; [done| |done|done]. apply Hstep; [|done]. eapply only_line_trans; apply chip_call_only.
Qed.

(** The first loop of [put_irq_handler] on a chain without the hook. *)
Lemma put_walk_spec fuel s hook : forall l p line used,
  chain (next_of s) p l -> hook ∉ l -> (length l < fuel)%nat ->
  put_walk fuel s p line hook used =
  Ret (Some (match last l with Some x => Some x | None => line end, foldl Z.lor used (id_of s <$> l))).
Proof.
  induction fuel as [|fuel IH]; intros l p line used Hc Hh Hf; [lia|]. destruct l as [|x l]; cbn [put_walk].
  { cbn in Hc. by subst p. }
  destruct Hc as [-> Hc]. apply not_elem_of_cons in Hh as [Hx Hh]. cbn [length] in Hf.
  assert ((hook =? x) = false) as -> by lia. rewrite (IH l) by (done || lia). do 3 f_equal.
  destruct l as [|y l]; [done|]. change (last (x :: y :: l)) with (last (y :: l)).
  destruct (last (y :: l)) eqn:E; [done|by apply last_None in E].
Qed.

Lemma lor_bits l : forall used j, Z.testbit (foldl Z.lor used l) j = Z.testbit used j || existsb (fun x => Z.testbit x j) l.
Proof.
  induction l as [|x l IH]; intros used j; cbn; [by rewrite orb_false_r|]. by rewrite IH, Z.lor_spec, orb_assoc.
Qed.

(** There is an identifier left for one more hook of the table. *)
Lemma free_id_found s d l hook : line_core s d l -> 0 <= hook < NR_IRQ_HOOKS -> hook ∉ l ->
  exists j, 0 <= j < 64 /\ free_id 64 1 (foldl Z.lor 0 (id_of s <$> l)) = 2 ^ j /\ (forall h, h ∈ l -> id_of s h <> 2 ^ j).
Proof.
  intros Hc Hr Hh. set (used := foldl Z.lor 0 (id_of s <$> l)).
  assert (forall j, 0 <= j -> Z.testbit used j = true <-> exists h, h ∈ l /\ id_of s h = 2 ^ j) as Hbits.
  { intros j Hj. unfold used. rewrite lor_bits, Z.bits_0, orb_false_l, existsb_exists. split.
    - intros (x & Hx & Ht). apply list_elem_of_In, list_elem_of_fmap in Hx as (h & -> & Hin). exists h. split; [done|].
      destruct (ln_ids _ _ _ Hc h Hin) as (k & Hk & He). rewrite He, testbit_pow2 in Ht by lia. b2p. congruence.
    - intros (h & Hin & He). exists (id_of s h). split; [apply list_elem_of_In, list_elem_of_fmap; eauto|].
      rewrite He, testbit_pow2 by done. lia. }
  destruct (free_id_spec 64 used 0) as [(j & Hj & He & Hf)|[_ Hall]]; [lia|lia|..].
  - exists j. change 1 with (2 ^ 0). split_and!; [lia|lia|done|]. intros h Hin Hid.
    assert (Z.testbit used j = true) as Ht by (apply Hbits; [lia|eauto]). congruence.
  - exfalso. assert (length ((fun j : Z => (2 ^ j)%Z) <$> seqZ 0 64) <= length (id_of s <$> l))%nat as Hlen.
    { apply submseteq_length, NoDup_submseteq.
      - apply NoDup_fmap_2_strong; [|apply NoDup_seqZ]. intros x y Hx%elem_of_seqZ Hy%elem_of_seqZ Hxy.
        apply Z.pow_inj_r in Hxy; lia.
      - intros x (j & -> & Hj%elem_of_seqZ)%list_elem_of_fmap. destruct (proj1 (Hbits j ltac:(lia)) (Hall j ltac:(lia))) as (h & Hin & <-).
        apply list_elem_of_fmap. eauto. }
    rewrite !length_fmap, length_seqZ in Hlen.
    assert (length (hook :: l) <= Z.to_nat NR_IRQ_HOOKS)%nat as Hlen2.
    { rewrite <- (length_seqZ 0 NR_IRQ_HOOKS). apply submseteq_length, NoDup_submseteq; [apply NoDup_cons; split; [done|apply Hc]|].
      intros x [->|Hx]%elem_of_cons; apply elem_of_seqZ; [lia|]. destruct (ln_hooks _ _ _ Hc x Hx). lia. }
    cbn [length] in Hlen2. unfold NR_IRQ_HOOKS in Hlen2. lia.
Qed.

(** The new hook of [put_irq_handler]. *)
Definition with_hook (d hook handler j : Z) (l : list Z) (s : irqs) : irqs :=
  set_active d (fun a => Z.land a (notu 64 (2 ^ j)))
    (set_line d (last l) (Some hook)
       (upd_hook hook (fun r =>
          r <| hk_next := None |> <| hk_handler := handler |> <| hk_id := 2 ^ j |> <| hk_irq := d |>) s)).

Lemma with_hook_core s d l hook handler j :
  line_core s d l -> 0 <= hook < NR_IRQ_HOOKS -> hook ∉ l -> 0 <= j < 64 -> (forall h, h ∈ l -> id_of s h <> 2 ^ j) ->
  let s' := with_hook d hook handler j l s in
  line_core s' d (l ++ [hook]) /\ only_line d (hook :: l) s s' /\ (active s' d <> 0 -> active s d <> 0) /\
  chip_log s' = chip_log s.
Proof.
  intros Hc Hr Hh Hj Hid s'.
  set (s1 := upd_hook hook (fun r => r <| hk_next := None |> <| hk_handler := handler |> <| hk_id := 2 ^ j |> <| hk_irq := d |>) s).
  assert (irq_descs s1 = irq_descs s /\ chip_log s1 = chip_log s /\ (forall h, h <> hook -> irq_hooks s1 h = irq_hooks s h) /\
          next_of s1 hook = None /\ id_of s1 hook = 2 ^ j /\ hk_irq (irq_hooks s1 hook) = d) as (A1 & A2 & A3 & A4 & A5 & A6).
  { unfold s1, upd_hook, next_of, id_of. destruct s as [hk de dm al lg]. cbn. rewrite fn_lookup_alter. split_and!; try done.
    intros h Hne. by rewrite fn_lookup_alter_ne. }
  destruct (set_line_frame d (last l) (Some hook) s1) as (N1 & N2 & N3 & N4 & N5 & N6 & N7 & N8).
  destruct (set_active_frame d (fun a => Z.land a (notu 64 (2 ^ j))) (set_line d (last l) (Some hook) s1)) as (F1 & F2 & F3 & F4 & F5 & F6).
  unfold with_hook in s'. fold s1 in s'. fold s' in F1, F2, F3, F4, F5, F6. clearbody s1 s'.
  rewrite N5 in F4. assert (active s1 d = active s d) as Hact by (unfold active; by rewrite A1). rewrite Hact in F4.
  assert (forall x, id_of s' x = id_of s1 x /\ hk_irq (irq_hooks s' x) = hk_irq (irq_hooks s1 x)) as Hx.
  { intros x. unfold id_of. rewrite F1. apply N2. }
  assert (forall x, x ∈ l -> irq_hooks s1 x = irq_hooks s x) as Hold by (intros x Hin; apply A3; by intros ->).
  assert (forall x, x ∈ l -> id_of s' x = id_of s x) as Hids.
  { intros x Hin. rewrite (proj1 (Hx x)). unfold id_of. by rewrite Hold. }
  assert (id_of s' hook = 2 ^ j) as Hnew by (rewrite (proj1 (Hx hook)); done).
  destruct Hc as [L1 L2 L3 L4 L5 L6 L7 L8]. split_and!.
  - constructor.
    + rewrite F5, N4. assert (chain (next_of s1) (de_handler (irq_descs s d)) (l ++ [])) as Hch.
      { rewrite app_nil_r. eapply chain_frame; [|exact L1]. intros x Hin. unfold next_of. by rewrite Hold. }
      pose proof (chain_relink (next_of s1) _ l [] (Some hook) [hook] Hch L2) as Hre.
      specialize (Hre ltac:(by intros x ->%list_elem_of_singleton) ltac:(by split)).
      rewrite A1. destruct (last l) as [z|]; (eapply chain_frame; [|exact Hre]); intros x _; unfold next_of at 1; rewrite F1; apply N1.
    + apply NoDup_app. split_and!; [done|by intros x Hin ->%list_elem_of_singleton|by apply NoDup_singleton].
    + intros x [Hin| ->%list_elem_of_singleton]%elem_of_app; rewrite (proj2 (Hx _)); [rewrite Hold by done; by apply L3|done].
    + intros x [Hin| ->%list_elem_of_singleton]%elem_of_app; [rewrite Hids by done; by apply L4|exists j; done].
    + intros x y [Hin| ->%list_elem_of_singleton]%elem_of_app [Hin'| ->%list_elem_of_singleton]%elem_of_app; try done.
      * rewrite !Hids by done. by apply L5.
      * rewrite Hids, Hnew by done. intros He. by destruct (Hid x).
      * rewrite (Hids y), Hnew by done. intros He. by destruct (Hid y).
    + rewrite F4. by apply land_notu_bounds.
    + intros k Hk Ht. rewrite F4, testbit_without in Ht by done. apply andb_true_iff in Ht as [Ht _].
      destruct (L7 k Hk Ht) as (x & Hin & Hxid). exists x. rewrite Hids by done. split; [apply elem_of_app; by left|done].
    + rewrite F6, N6, A1. done.
  - split; [intros d' Hd; by rewrite F2, N7, A2, F3, N8, A1|].
    intros x [Hne Hin]%not_elem_of_cons. rewrite F1, N3; [by apply A3|]. intros Hl. apply Hin. by apply last_Some_elem_of.
  - intros Ha H0. apply Ha. by rewrite F4, H0.
  - congruence.
Qed.

Lemma put_ok s d hook handler : irq_ok s -> valid_irq d -> 0 <= hook < NR_IRQ_HOOKS ->
  (forall d' l, valid_irq d' -> line_ok s d' l -> hook ∉ l) ->
  exists s' l, put_irq_handler d hook handler s = Ret s' /\ irq_ok s' /\ line_ok s d l /\ line_ok s' d (l ++ [hook]).
Proof.
  intros Hok Hd Hr Hfree. destruct (Hok d Hd) as [l Hl]. pose proof Hl as [Hc Hm]. pose proof (Hfree d l Hd Hl) as Hh.
  unfold put_irq_handler. rewrite irq_to_desc_valid by done. cbn [deref]. rewrite res_ret_bind.
  rewrite (put_walk_spec HOOK_FUEL s hook l); [|apply Hc|done|pose proof (line_length _ _ _ Hc); unfold HOOK_FUEL; lia].
  rewrite res_ret_bind. cbv beta iota zeta.
  replace (match last l with Some x => Some x | None => None end) with (last l) by (by destruct (last l)).
  destruct (free_id_found s d l hook Hc Hr Hh) as (j & Hj & -> & Hid).
  assert ((2 ^ j =? 0) = false) as -> by (pose proof (Z.pow_pos_nonneg 2 j ltac:(lia) ltac:(lia)); lia).
  destruct (with_hook_core s d l hook handler j Hc Hr Hh Hj Hid) as (Hc1 & Ho1 & Ha1 & Hg1). cbv zeta in *.
  change (upd_desc d _ (set_line d (last l) (Some hook) _)) with (with_hook d hook handler j l s).
  set (s1 := with_hook d hook handler j l s) in *. clearbody s1.
  assert (forall s', only_line d [] s1 s' -> line_ok s' d (l ++ [hook]) -> irq_ok s') as Hstep.
  { intros s' Ho' Hl'. eapply (irq_ok_step s s' d (l ++ [hook]) (hook :: l)); [done| |done|].
    - eapply only_line_trans; [done|]. eapply only_line_weaken; [|done]. intros x. by eapply no_hooks_touched.
    - intros x [->|Hx]%elem_of_cons d' l' Hd' Hne Hl0; [by eapply Hfree|]. by eapply (line_only s d _ d' l'). }
  change (de_active_ids (irq_descs s1 d)) with (active s1 d). destruct (active s1 d =? 0) eqn:Ha; b2p.
  - set (s2 := chip_call irq_used ChipUsed d s1).
    pose proof (chip_call_core irq_used ChipUsed d s1 _ Hc1) as Hc2. fold s2 in Hc2.
    assert (active s2 d = 0) as Ha2.
    { unfold active, s2. destruct (chip_call_frame irq_used ChipUsed d s1) as [_ ->]. exact Ha. }
    destruct (settle_ok s2 d (l ++ [hook]) Hc2) as [Hl2 Ho2]; [done|].
    assert (settle d s2 = unmask_irq d s2) as Es. { unfold settle. unfold active in Ha2. by rewrite Ha2. }
    rewrite Es in Hl2, Ho2. eexists _, l. split; [reflexivity|]. split_and!; [|done|done].
    apply Hstep; [|done]. eapply only_line_trans; [apply chip_call_only|done].
  - assert (line_ok s1 d (l ++ [hook])) as Hl1.
    { split; [done|]. intros _. rewrite Hg1. specialize (Ha1 Ha). rewrite Hm.
      - by assert ((active s d =? 0) = false) as -> by lia; assert ((active s1 d =? 0) = false) as -> by lia.
      - intros ->. apply Ha1. apply no_bits; [apply (ln_bounds _ _ _ Hc)|]. intros k Hk.
        destruct (Z.testbit _ k) eqn:Ht; [|done]. by destruct (ln_active _ _ _ Hc k Hk Ht) as (x & Hx%elem_of_nil & _). }
    exists s1, l. split_and!; [done|by apply Hstep|done|done].
Qed.

(** ** Claims *)

(** A machine whose lines have a chip and no handlers yet. *)
Definition demo_chip : irq_chip := mk_chip true true true true true.
Definition demo_irqs : irqs :=
  mk_irqs (fun _ => mk_hook 0 0 0 None NO_TASK 0 0)
    (fun _ => mk_desc 0 demo_chip None handle_simple_irq_flow None 0)
    (fun i => mk_domain i 0 NR_HWIRQ (fun _ => None)) [0] [].

Lemma demo_irqs_ok : irq_ok demo_irqs.
Proof.
  intros d Hd. exists []. split; [|done]. constructor; try done; [by apply NoDup_nil|..]; try (by intros h ?%elem_of_nil).
  - by intros h h' ?%elem_of_nil.
  - intros k _ Ht. cbn in Ht. by rewrite Z.bits_0 in Ht.
Qed.

Lemma installed_in s d l h : valid_irq d -> line_ok s d l -> h ∈ l -> installed s h.
Proof.
  intros Hd [Hc _] Hh. destruct (ln_hooks _ _ _ Hc h Hh) as [_ Hi]. unfold installed. rewrite Hi. split; [done|].
  exists l. split; [apply Hc|done].
Qed.




(** A line with one handler that has more to do. *)
Definition one_line : irqs :=
  match put_irq_handler 3 0 7 demo_irqs with Ret s => s | Crash _ => demo_irqs end.

Lemma one_line_ok : irq_ok one_line /\ line_ok one_line 3 [0].
Proof.
  destruct (put_ok demo_irqs 3 0 7 demo_irqs_ok) as (s' & l & Hp & Hok & [Hl _] & Hl');
    [unfold valid_irq, NR_IRQ; lia|unfold NR_IRQ_HOOKS; lia| |].
  { intros d' l Hd [Hc _]. pose proof (ln_chain _ _ _ Hc) as Hch. destruct l; [by intros ?%elem_of_nil|]. by destruct Hch. }
  pose proof (ln_chain _ _ _ Hl) as Hch. destruct l; [|by destruct Hch]. unfold one_line. rewrite Hp. done.
Qed.

