(* ===== verification/KernelErrors.v ===== *)
(** * Inputs and states that kernel calls mishandle

    Runs of the kernel calls and of the interrupt calls on concrete states, with
    the failures they lead to. *)

From S2P Require Import Prelude SigSet Bitmap Kernel Sched Ipc IpcInv Rendezvous Receive IpcProps System SystemProps Irq IrqProps.

(** The kernel as process 5 sees it: it may make every call, and an earlier
    call of it, a kill of process 6, went through [resume_sys_call]. *)
Definition NR_GETINFO : Z := 4.
Definition NR_KILL : Z := 16.
Definition replay_state : kstate demo_mem :=
  upd_priv 9 (fun r => r <| pr_syscall_mask := [2 ^ 64 - 1] |>)
    (upd_proc 5 (fun p => p <| p_mm_request ::= fun r =>
       r <| saved_reqmsg := demo_kill <| m_type := NR_KILL |> |> |>) demo0).

(** The copy out of the kernel faults on the caller's buffer. *)
Definition replay_table (nr : Z) : option (sys_call_handler_t (mem := demo_mem)) :=
  if nr =? NR_GETINFO then
    Some (sys_getinfo (fun m _ _ _ _ _ => (m, EFAULT_DEST)) 0 (fun _ => (4096, 8)))
  else if nr =? NR_KILL then Some (sys_kill 0)
  else None.

(** The hooks of a line as the kernel finds them. *)
Fixpoint hooks_from (fuel : nat) (s : irqs) (p : option Z) : list Z :=
  match fuel, p with
  | S fuel, Some h => h :: hooks_from fuel s (hk_next (irq_hooks s h))
  | _, _ => []
  end.
Definition hooks_of (s : irqs) (d : Z) : list Z := hooks_from HOOK_FUEL s (de_handler (irq_descs s d)).

Definition setpolicy (irq notify_id ep : Z) (s : irqs) : res irqs :=
  '(s, _, _) ← sys_irqctl (fun _ => None) (fun _ => None) (fun _ s => (s, - ENOSYS)) ep
     (mk_irqctl IRQ_SETPOLICY irq 0 notify_id (mk_fwspec 0 0 [])) s;
  Ret s.

Definition map_fwspec (fw : irq_fwspec) (s : irqs) : res Z :=
  '(_, _, r) ← sys_irqctl (fun _ => None) (fun _ => None) (fun _ s => (s, - ENOSYS)) 5
     (mk_irqctl IRQ_MAP_FWSPEC 0 0 0 fw) s;
  Ret r.

(** What is left of a process that was cleared. *)
Lemma slot_reuse_errors :
  ((let clear6 := reset_msg <| m_u := mk_mess3 0 0 0 6 0 0 0 0 [] |> in
      '(st, _) ← msg_send 0 5 6 (UPtr 8) 0 demo0;
      '(st, _, r) ← sys_clear 0 clear6 1 st;
      '(st, _) ← msg_send 0 7 5 (UPtr 8) 0 st;
      Ret r) = Crash NullDeref) /\
  ((let kfi := mk_kfork 5 20 0 0 0 in
      '(st, ep1, _) ← sys_fork 0 0 kfi demo0;
      '(st, _, _) ← sys_clear 0 (reset_msg <| m_u := mk_mess3 0 0 0 (default 0 ep1) 0 0 0 0 [] |>) 1 st;
      '(st, ep2, _) ← sys_fork 0 0 kfi st;
      Ret (ep1, ep2)) = Ret (Some (make_endpoint 1 20), Some (make_endpoint 1 20))).
Proof. vm_compute. split_and!; reflexivity. Qed.

(** Signals and copies that are lost. *)
Lemma kernel_call_faults :
  ('(st, _, r1) ← sys_kill 0 (reset_msg <| m_u := mk_mess3 9 0 0 252 0 0 0 0 [] |>) 1 demo0;
   '(_, m, r2) ← sys_getksig 0 reset_msg 1 st;
   Ret (r1, r2, m3i4 (m_u m), PST_IS_SET st 252 PST_SIGNALED)) = Ret (0, 0, NO_TASK, true) /\
  ('(st, r) ← handle_sys_call 0 replay_table NR_GETINFO 8 5 replay_state;
   '(st2, _, _) ← vmctl_reply_mmreq 0 5 reset_msg st;
   '(st3, r3) ← resume_sys_call 0 replay_table 5 st2;
   Ret (r, PST_IS_SET st 5 PST_MMREQUEST, p_sig_pending (procs st2 6), r3,
        sigismember (p_sig_pending (procs st3 6)) 9)) = Ret (0, true, 0, 0, true).
Proof. vm_compute. split; reflexivity. Qed.

(** Interrupts that are lost, and accesses out of bounds. *)
Lemma irq_faults :
  (exists b s', test_bit b 61 = true /\ irq_alloc_from 0 2 (demo_irqs <| allocated_irqs := b |>) = Ret (s', 60)) /\
  (s1 ← setpolicy 3 1 5 demo_irqs; s2 ← setpolicy 3 1 6 s1; s3 ← setpolicy 5 1 5 s2;
   Ret (hooks_of s2 3, hooks_of s3 3, hooks_of s3 5)) = Ret ([0; 1], [0], [0]) /\
  map_fwspec (mk_fwspec 0 1 [200]) demo_irqs = Crash BadPtr /\
  map_fwspec (mk_fwspec 0 (-1) []) demo_irqs = Crash BadPtr.
Proof.
  split_and!; [|vm_compute; reflexivity..].
  exists [0xaaaaaaaaaaaaaaaa]. eexists. split; [reflexivity|]. vm_compute. reflexivity.
Qed.

