(* ===== verification/HoleAlloc.v ===== *)
(** * Physical and virtual memory of the memory manager

    The lists of holes from which the memory manager allocates physical memory
    (servers/mm/alloc.c) and virtual memory of the kernel's address space
    (servers/mm/vmalloc.c). A list of holes is the sequence of those between
    [hole_head] and the end; the other slots of the table are on the list of
    free slots, so that their number is what is left of [NR_HOLES]. *)

From S2P Require Import Prelude.

Definition NR_HOLES : Z := 2048.
Definition ARCH_PG_SHIFT : Z := 12.
Definition APF_ALIGN16K : Z := 2.

Record phys_hole := mk_hole { h_base : Z; h_len : Z }.
#[export] Instance rebuild_hole : Rebuild phys_hole := fun h => mk_hole (h_base h) (h_len h).

(** The holes and [mem_info.mem_free]. *)
Record memory := mk_memory { mm_holes : list phys_hole; mm_free : Z }.
#[export] Instance rebuild_memory : Rebuild memory := fun m => mk_memory (mm_holes m) (mm_free m).

(** ** Allocation *)

(** The loop of [alloc_mem]: the base of the block and the list without it. *)
Fixpoint alloc_loop (memsize : Z) (l : list phys_hole) : option (Z * list phys_hole) :=
  match l with
  | [] => None
  | hp :: l =>
      if memsize <=? h_len hp then
        let hp' := mk_hole (wrapu 64 (h_base hp + memsize)) (h_len hp - memsize) in
        Some (h_base hp, if h_len hp' =? 0 then l else hp' :: l)
      else
        match alloc_loop memsize l with
        | Some (base, l) => Some (base, hp :: l)
        | None => None
        end
  end.

(** [alloc_mem]: 0 when there is no hole that is big enough. *)
Definition alloc_mem (memsize : Z) (m : memory) : memory * Z :=
  match alloc_loop memsize (mm_holes m) with
  | Some (base, l) => (m <| mm_holes := l |> <| mm_free ::= fun f => wrapu 64 (f - memsize) |>, base)
  | None => (m, 0)
  end.

(** What [alloc_pages] leaves out in front of a block. *)
Definition alignment_of (page_align base : Z) : Z :=
  if negb (base mod page_align =? 0) then page_align - base mod page_align else 0.

(** The loop of [alloc_pages]; the list in the result starts with [prev_ptr]. *)
Fixpoint pages_loop (memsize page_align : Z) (prev : option phys_hole) (l : list phys_hole)
  : option (Z * list phys_hole) :=
  let back prev l := match prev with Some p => p :: l | None => l end in
  match l with
  | [] => None
  | hp :: l =>
      let alignment := alignment_of page_align (h_base hp) in
      let size := wrapu 64 (memsize + alignment) in
      if size <=? h_len hp then
        let old_base := wrapu 64 (h_base hp + alignment) in
        let hp' := mk_hole (wrapu 64 (h_base hp + size)) (h_len hp - size) in
        let prev := match prev with
                    | Some p => Some (if wrapu 64 (h_base p + h_len p) =? old_base
                                      then p <| h_len ::= fun n => wrapu 64 (n + alignment) |> else p)
                    | None => None
                    end in
        Some (old_base, back prev (if h_len hp' =? 0 then l else hp' :: l))
      else
        match pages_loop memsize page_align (Some hp) l with
        | Some (base, l) => Some (base, back prev l)
        | None => None
        end
  end.

Definition alloc_pages (nr_pages memflags : Z) (m : memory) : memory * Z :=
  let memsize := wrapu 64 (nr_pages * ARCH_PG_SIZE) in
  let page_align := if has_flag memflags APF_ALIGN16K then 0x4000 else ARCH_PG_SIZE in
  match pages_loop memsize page_align None (mm_holes m) with
  | Some (base, l) => (m <| mm_holes := l |> <| mm_free ::= fun f => wrapu 64 (f - memsize) |>, base)
  | None => (m, 0)
  end.

(** ** Freeing *)

(** Two holes become one when the second starts where the first ends. *)
Definition join (l : list phys_hole) : list phys_hole :=
  match l with
  | hp :: next :: l =>
      if wrapu 64 (h_base hp + h_len hp) =? h_base next then (hp <| h_len ::= fun n => wrapu 64 (n + h_len next) |>) :: l
      else hp :: next :: l
  | _ => l
  end.

(** [merge_hole] on the list from [hp] on. *)
Definition merge_hole (l : list phys_hole) : list phys_hole :=
  match l with
  | hp :: next :: rest =>
      if wrapu 64 (h_base hp + h_len hp) =? h_base next then join ((hp <| h_len ::= fun n => wrapu 64 (n + h_len next) |>) :: rest)
      else hp :: join (next :: rest)
  | _ => l
  end.

(** The search for the place of a hole that is not the first. *)
Fixpoint insert_hole (new : phys_hole) (l : list phys_hole) : list phys_hole :=
  match l with
  | [] => [new]
  | prev :: rest =>
      match rest with
      | next :: _ =>
          if h_base next <? h_base new then prev :: insert_hole new rest
          else merge_hole (prev :: new :: rest)
      | [] => merge_hole [prev; new]
      end
  end.

(** The list with the hole in its place. *)
Definition add_hole (new : phys_hole) (l : list phys_hole) : list phys_hole :=
  match l with
  | [] => merge_hole [new]
  | hp :: _ => if h_base new <=? h_base hp then merge_hole (new :: l) else insert_hole new l
  end.

Definition free_mem (base len : Z) (m : memory) : res (memory * Z) :=
  if len =? 0 then Ret (m, EINVAL)
  else if NR_HOLES <=? Z.of_nat (length (mm_holes m)) then Crash Panic
  else
    Ret (m <| mm_holes ::= add_hole (mk_hole base len) |> <| mm_free ::= fun f => wrapu 64 (f + len) |>, 0).

Definition mem_init (mem_start free_mem_size : Z) (m : memory) : res memory :=
  '(m, _) ← free_mem mem_start free_mem_size (m <| mm_holes := [] |>);
  Ret m.

(** ** Virtual memory *)

(** The holes of the virtual memory, [mem_info.vmalloc_used] and
    [pt_init_done]. *)
Record vmemory := mk_vmemory { vm_holes : list phys_hole; vm_used : Z; vm_pt_done : bool }.
#[export] Instance rebuild_vmemory : Rebuild vmemory := fun m =>
  mk_vmemory (vm_holes m) (vm_used m) (vm_pt_done m).

Section vmalloc.
Context (VMALLOC_START VMALLOC_END : Z).

Definition alloc_vmpages (nr_pages : Z) (m : vmemory) : res (vmemory * Z) :=
  let memsize := wrapu 64 (Z.shiftl nr_pages ARCH_PG_SHIFT) in
  match pages_loop memsize ARCH_PG_SIZE None (vm_holes m) with
  | Some (base, l) => Ret (m <| vm_holes := l |> <| vm_used ::= fun u => wrapu 64 (u + memsize) |>, base)
  | None => Crash Panic
  end.

(** [free_vmpages]; the second component tells whether the range was unmapped. *)
Definition free_vmpages (base nr_pages : Z) (m : vmemory) : res (vmemory * bool) :=
  if nr_pages =? 0 then Ret (m, false)
  else
    let len := wrapu 64 (Z.shiftl nr_pages ARCH_PG_SHIFT) in
    if (base <? VMALLOC_START) || (VMALLOC_END <? wrapu 64 (base + len)) then Ret (m, false)
    else if NR_HOLES <=? Z.of_nat (length (vm_holes m)) then Crash Panic
    else
      Ret (m <| vm_holes ::= add_hole (mk_hole base len) |> <| vm_used ::= fun u => wrapu 64 (u - len) |>, vm_pt_done m).

Definition pages_of (bytes : Z) : Z :=
  Z.shiftr bytes ARCH_PG_SHIFT + (if negb (bytes mod ARCH_PG_SIZE =? 0) then 1 else 0).

Definition vmem_init (mem_start free_mem_size : Z) (m : vmemory) : res vmemory :=
  '(m, _) ← free_vmpages mem_start (pages_of free_mem_size) (m <| vm_holes := [] |>);
  Ret m.

(** [free_vmem]: [pgd_va2pa] gives the physical page of an address, if any. *)
Fixpoint free_pages_loop (pgd_va2pa : Z -> option Z) (n : nat) (addr : Z) (m : memory) : res memory :=
  match n with
  | O => Ret m
  | S n =>
      m ← (match pgd_va2pa addr with
           | Some phys => '(m, _) ← free_mem phys ARCH_PG_SIZE m; Ret m
           | None => Ret m
           end);
      free_pages_loop pgd_va2pa n (wrapu 64 (addr + ARCH_PG_SIZE)) m
  end.

Definition free_vmem (pgd_va2pa : Z -> option Z) (base len : Z) (m : memory) (v : vmemory)
  : res (memory * vmemory) :=
  if negb (vm_pt_done v) then Ret (m, v)
  else
    m ← free_pages_loop pgd_va2pa (Z.to_nat (pages_of len)) base m;
    '(v, _) ← free_vmpages base (pages_of len) v;
    Ret (m, v).

(** ** Pages before the page tables *)

Record bootstrap_page := mk_bpage { bp_used : bool; bp_phys : Z; bp_vir : Z }.
#[export] Instance rebuild_bpage : Rebuild bootstrap_page := fun b =>
  mk_bpage (bp_used b) (bp_phys b) (bp_vir b).

(** The first page that is not used, or the number of pages. *)
Fixpoint first_unused (l : list bootstrap_page) : nat :=
  match l with
  | [] => 0
  | b :: l => if bp_used b then S (first_unused l) else 0
  end.

(** The bootstrap path of [alloc_vmem]: the pages and the addresses of the
    first one. *)
Definition alloc_bootstrap (pages : nat) (l : list bootstrap_page) : res (list bootstrap_page * Z * Z) :=
  let i := first_unused l in
  if (length l <=? i + pages)%nat then Crash Panic
  else
    match l !! i with
    | None => Crash Panic
    | Some b =>
        Ret (take i l ++ ((fun b => b <| bp_used := true |>) <$> take pages (drop i l)) ++ drop (i + pages) l,
             bp_phys b, bp_vir b)
    end.

(** The state of [alloc_vmem]: [level], the bootstrap pages, the physical and
    the virtual memory. *)
Record vmalloc_state := mk_vms {
  vs_level : Z; vs_boot : list bootstrap_page; vs_mem : memory; vs_vmem : vmemory
}.
#[export] Instance rebuild_vms : Rebuild vmalloc_state := fun s =>
  mk_vms (vs_level s) (vs_boot s) (vs_mem s) (vs_vmem s).

(** [alloc_vmem]: the physical and the virtual address. [pt_writemap phys vir
    len] stands for the update of the page table, which may allocate pages
    itself. *)
Definition alloc_vmem (pt_writemap : Z -> Z -> Z -> vmalloc_state -> res vmalloc_state) (memsize : Z)
    (s : vmalloc_state) : res (vmalloc_state * Z * Z) :=
  let pages := pages_of memsize in
  let s := s <| vs_level ::= fun n => n + 1 |> in
  if (1 <? vs_level s) || negb (vm_pt_done (vs_vmem s)) then
    let s := s <| vs_level ::= fun n => n - 1 |> in
    '(boot, phys, vir) ← alloc_bootstrap (Z.to_nat pages) (vs_boot s);
    Ret (s <| vs_boot := boot |>, phys, vir)
  else
    let '(m, phys_pages) := alloc_pages (wraps 32 pages) 0 (vs_mem s) in
    '(v, vir_pages) ← alloc_vmpages pages (vs_vmem s);
    s ← pt_writemap phys_pages vir_pages (wrapu 64 (pages * ARCH_PG_SIZE))
          (s <| vs_mem := m |> <| vs_vmem := v |>);
    Ret (s <| vs_level ::= fun n => n - 1 |>, phys_pages, vir_pages).
End vmalloc.

(** ** The memory that is free *)

(** The holes are not empty, in order, and do not touch each other. *)
Fixpoint holes_wf (lo : Z) (l : list phys_hole) : Prop :=
  match l with
  | [] => True
  | h :: l => lo <= h_base h /\ 0 < h_len h /\ h_base h + h_len h < 2 ^ 64 /\
              holes_wf (h_base h + h_len h + 1) l
  end.

Definition in_hole (h : phys_hole) (a : Z) : Prop := h_base h <= a < h_base h + h_len h.

(** Address [a] is in a hole. *)
Definition is_free (l : list phys_hole) (a : Z) : Prop := exists h, h ∈ l /\ in_hole h a.

Fixpoint total (l : list phys_hole) : Z :=
  match l with [] => 0 | h :: l => h_len h + total l end.

Lemma is_free_cons h l a : is_free (h :: l) a <-> in_hole h a \/ is_free l a.
Proof.
  unfold is_free. setoid_rewrite elem_of_cons. split.
  - intros (x & [->|Hx] & Ha); [by left|right; eauto].
  - intros [Ha|(x & Hx & Ha)]; [exists h; auto|exists x; auto].
Qed.

Lemma is_free_nil a : ~ is_free [] a.
Proof. intros (h & Hh & _). by apply elem_of_nil in Hh. Qed.

Lemma holes_wf_weaken lo lo' l : lo' <= lo -> holes_wf lo l -> holes_wf lo' l.
Proof. destruct l as [|h l]; cbn; [done|]. intros Hle (H1 & H2). split; [lia|done]. Qed.

Lemma is_free_above lo l a : holes_wf lo l -> is_free l a -> lo <= a.
Proof.
  revert lo. induction l as [|h l IH]; intros lo Hwf Hf; [by apply is_free_nil in Hf|].
  destruct Hwf as (H1 & H2 & H3 & H4). apply is_free_cons in Hf as [Hf|Hf]; [unfold in_hole in Hf; lia|].
  specialize (IH _ H4 Hf). lia.
Qed.

(** A list of holes is determined by the memory that is free. *)
Lemma holes_unique l1 : forall l2 lo1 lo2,
  holes_wf lo1 l1 -> holes_wf lo2 l2 -> (forall a, is_free l1 a <-> is_free l2 a) -> l1 = l2.
Proof.
  assert (forall h l lo, holes_wf lo (h :: l) -> is_free (h :: l) (h_base h)) as Hbase.
  { intros h l lo (_ & Hlen & _). apply is_free_cons. left. unfold in_hole. lia. }
  induction l1 as [|h1 l1 IH]; intros [|h2 l2] lo1 lo2 Hw1 Hw2 Heq; [done|..].
  - destruct (is_free_nil (h_base h2)). apply Heq. by eapply Hbase.
  - destruct (is_free_nil (h_base h1)). apply Heq. by eapply Hbase.
  - pose proof (proj1 (Heq _) (Hbase _ _ _ Hw1)) as Hf1. pose proof (proj2 (Heq _) (Hbase _ _ _ Hw2)) as Hf2.
    destruct Hw1 as (_ & Hp1 & _ & Hw1), Hw2 as (_ & Hp2 & _ & Hw2).
    assert (h_base h1 = h_base h2) as Hb.
    { apply is_free_cons in Hf1 as [Hf1|Hf1], Hf2 as [Hf2|Hf2]; unfold in_hole in *;
        try apply (is_free_above _ _ _ Hw2) in Hf1; try apply (is_free_above _ _ _ Hw1) in Hf2; lia. }
    assert (forall h h' l l', h_base h = h_base h' -> 0 < h_len h -> 0 < h_len h' ->
              holes_wf (h_base h + h_len h + 1) l ->
              (forall a, is_free (h' :: l') a -> is_free (h :: l) a) -> h_len h' <= h_len h) as Hlen.
    { intros h h' l l' Hbb Hp Hp' Hw Hi. destruct (Z.le_gt_cases (h_len h') (h_len h)) as [|Hgt]; [done|].
      assert (is_free (h :: l) (h_base h + h_len h)) as Hx.
      { apply Hi, is_free_cons. left. unfold in_hole. lia. }
      apply is_free_cons in Hx as [Hx|Hx]; [unfold in_hole in Hx; lia|].
      apply (is_free_above _ _ _ Hw) in Hx. lia. }
    assert (h_len h1 = h_len h2) as Hl.
    { apply Z.le_antisymm; [apply (Hlen h2 h1 l2 l1)|apply (Hlen h1 h2 l1 l2)]; try done; intros a; apply Heq. }
    assert (h1 = h2) as <- by (destruct h1, h2; cbn in *; congruence).
    f_equal. apply (IH l2 (h_base h1 + h_len h1 + 1) (h_base h1 + h_len h1 + 1)); [done|done|].
    intros a. specialize (Heq a). rewrite !is_free_cons in Heq. unfold in_hole in Heq.
    split; intros Hf; [pose proof (is_free_above _ _ _ Hw1 Hf)|pose proof (is_free_above _ _ _ Hw2 Hf)];
      intuition lia.
Qed.

(** ** Allocation takes free memory *)

(** The block at [b] of [n] bytes leaves the holes. *)
Record taken (lo : Z) (l : list phys_hole) (b n : Z) (l' : list phys_hole) : Prop := {
  tk_wf : holes_wf lo l';
  tk_lo : lo <= b;
  tk_end : b + n < 2 ^ 64;
  tk_free a : is_free l a <-> is_free l' a \/ b <= a < b + n;
  tk_gone a : b <= a < b + n -> ~ is_free l' a;
  tk_total : total l' = total l - n;
  tk_length : (length l' <= length l)%nat
}.

Lemma alloc_loop_spec memsize l : forall lo,
  holes_wf lo l -> 0 <= lo -> 0 < memsize ->
  match alloc_loop memsize l with
  | Some (b, l') => taken lo l b memsize l'
  | None => forall h, h ∈ l -> h_len h < memsize
  end.
Proof.
  induction l as [|h l IH]; intros lo Hwf Hlo Hn; cbn [alloc_loop].
  { intros h Hh. by apply elem_of_nil in Hh. }
  destruct Hwf as (H1 & H2 & H3 & H4). destruct (memsize <=? h_len h) eqn:Hfit; b2p.
  - rewrite wrapu_small by lia. cbn [h_len].
    assert (forall a, h_base h <= a < h_base h + memsize -> ~ is_free l a) as Hl.
    { intros a Ha Hf. apply (is_free_above _ _ _ H4) in Hf. lia. }
    destruct (h_len h - memsize =? 0) eqn:Hz; b2p.
    + constructor; try (cbn; lia); [eapply holes_wf_weaken, H4; lia| |done].
      intros a. rewrite is_free_cons. unfold in_hole. replace (h_len h) with memsize by lia. tauto.
    + constructor; try (cbn; lia).
      * cbn. split_and!; try lia. by replace (h_base h + memsize + (h_len h - memsize)) with (h_base h + h_len h) by lia.
      * intros a. rewrite !is_free_cons. unfold in_hole. cbn. intuition lia.
      * intros a Ha. rewrite is_free_cons. unfold in_hole. cbn. intros [Hx|Hx]; [lia|by apply (Hl a)].
  - specialize (IH _ H4 ltac:(lia) Hn). destruct (alloc_loop memsize l) as [[b l']|].
    + destruct IH as [T1 T2 T3 T4 T5 T6 T7]. constructor; try lia; cbn.
      * done.
      * intros a. rewrite !is_free_cons, T4. tauto.
      * intros a Ha. rewrite is_free_cons. unfold in_hole. intros [Hx|Hx]; [lia|by apply (T5 a)].
      * lia.
      * lia.
    + intros x [->|Hx]%elem_of_cons; [lia|by apply IH].
Qed.

(** ** Freeing gives memory back *)

(** The block at [b] of [n] bytes joins the holes. *)
Record given (lo : Z) (l : list phys_hole) (b n : Z) (l' : list phys_hole) : Prop := {
  gv_wf : holes_wf lo l';
  gv_free a : is_free l' a <-> is_free l a \/ b <= a < b + n;
  gv_total : total l' = total l + n;
  gv_length : (length l' <= S (length l))%nat;
  gv_bases : forall h, h ∈ l' -> h_base h = b \/ exists h', h' ∈ l /\ h_base h = h_base h'
}.

Lemma grow_hole h k : 0 <= h_base h -> 0 <= h_len h + k -> h_base h + (h_len h + k) < 2 ^ 64 ->
  h <| h_len ::= fun n => wrapu 64 (n + k) |> = mk_hole (h_base h) (h_len h + k).
Proof.
  intros Hb Hl He. destruct h as [b n]. cbn in Hb, Hl, He.
  change (mk_hole b (wrapu 64 (n + k)) = mk_hole b (n + k)). f_equal. apply wrapu_small. lia.
Qed.

Lemma join_spec lo b n l :
  0 <= lo -> lo <= b -> 0 < n -> b + n < 2 ^ 64 -> holes_wf (b + n) l -> given lo l b n (join (mk_hole b n :: l)).
Proof.
  intros Hlo Hb Hn Hend Hwf.
  destruct l as [|h l]; cbn [join].
  { constructor; cbn; try lia; [intros a; rewrite is_free_cons; unfold in_hole; cbn; tauto|].
    intros h [->|Hh]%elem_of_cons; [by left|by apply elem_of_nil in Hh]. }
  destruct Hwf as (H1 & H2 & H3 & H4). cbn [h_base h_len]. rewrite wrapu_small by lia.
  destruct (b + n =? h_base h) eqn:He; b2p.
  - rewrite grow_hole by (cbn; lia). constructor; cbn; try lia.
    + split_and!; try lia. by replace (b + (n + h_len h)) with (h_base h + h_len h) by lia.
    + intros a. rewrite !is_free_cons. unfold in_hole. cbn. intuition lia.
    + intros x [->|Hx]%elem_of_cons; [by left|]. right. exists x. split; [by constructor|done].
  - constructor; cbn; try lia; [split_and!; try lia; done| |].
    + intros a. rewrite (is_free_cons (mk_hole b n)). unfold in_hole. cbn. tauto.
    + intros x [->|Hx]%elem_of_cons; [by left|]. right. exists x. done.
Qed.

Lemma given_cons lo h l b n l' :
  lo <= h_base h -> 0 < h_len h -> h_base h + h_len h < 2 ^ 64 ->
  given (h_base h + h_len h + 1) l b n l' -> given lo (h :: l) b n (h :: l').
Proof.
  intros H1 H2 H3 [G1 G2 G3 G4 G5]. constructor; cbn; try lia; [done| |].
  - intros a. rewrite !is_free_cons, G2. tauto.
  - intros x [->|Hx]%elem_of_cons; [right; exists h; split; [by constructor|done]|].
    destruct (G5 x Hx) as [?|(y & Hy & ?)]; [by left|]. right. exists y. split; [by constructor|done].
Qed.

(** A hole that is already in order keeps its neighbour apart. *)
Lemma join_apart lo h l : 0 <= lo -> holes_wf lo (h :: l) -> join (h :: l) = h :: l.
Proof.
  intros Hlo (H1 & H2 & H3 & H4). destruct l as [|x l]; [done|]. cbn [join]. rewrite wrapu_small by lia.
  destruct H4 as (H4 & _). destruct (_ =? _) eqn:He; b2p; [lia|done].
Qed.

(** The block goes after hole [h]. *)
Lemma merge_after lo h b n l :
  0 <= lo -> lo <= h_base h -> 0 < h_len h -> h_base h + h_len h <= b -> 0 < n -> b + n < 2 ^ 64 ->
  holes_wf (b + n) l -> given lo (h :: l) b n (merge_hole (h :: mk_hole b n :: l)).
Proof.
  intros Hlo H1 H2 H3 Hn Hend Hwf. cbn [merge_hole h_base h_len]. rewrite wrapu_small by lia.
  destruct (_ =? b) eqn:He; b2p.
  - rewrite grow_hole by lia.
    destruct (join_spec lo (h_base h) (h_len h + n) l) as [G1 G2 G3 G4 G5]; try lia.
    { by replace (h_base h + (h_len h + n)) with (b + n) by lia. }
    revert G1 G2 G3 G4 G5. generalize (join (mk_hole (h_base h) (h_len h + n) :: l)). intros l' G1 G2 G3 G4 G5.
    constructor; cbn; try lia; [done| |].
    + intros a. rewrite G2, is_free_cons. unfold in_hole. intuition lia.
    + intros x Hx. right. destruct (G5 x Hx) as [?|(y & Hy & ?)];
        [exists h|exists y]; split; try done; by constructor.
  - apply given_cons; try lia. apply join_spec; try done; lia.
Qed.

(** The block goes in front. *)
Lemma merge_front lo b n l :
  0 <= lo -> lo <= b -> 0 < n -> b + n < 2 ^ 64 -> holes_wf (b + n) l ->
  given lo l b n (merge_hole (mk_hole b n :: l)).
Proof.
  intros Hlo H1 Hn Hend Hwf. pose proof (join_spec lo b n l) as Hj. destruct l as [|h l]; [by apply Hj|].
  specialize (Hj Hlo H1 Hn Hend Hwf). cbn [merge_hole]. cbn [join] in Hj. cbn [h_base h_len] in *.
  rewrite wrapu_small in Hj |- * by lia.
  destruct (b + n =? h_base h) eqn:He; b2p.
  - rewrite (join_apart lo); [done|done|apply gv_wf in Hj; exact Hj].
  - rewrite (join_apart (b + n)); [done|lia|exact Hwf].
Qed.

Definition apart (l : list phys_hole) (b n : Z) : Prop := forall a, b <= a < b + n -> ~ is_free l a.

(** A block apart from a hole is before or after it. *)
Lemma apart_head h l b n : apart (h :: l) b n -> 0 < n -> 0 < h_len h ->
  b + n <= h_base h \/ h_base h + h_len h <= b.
Proof.
  intros Ha Hn Hh. destruct (Z.le_gt_cases (b + n) (h_base h)); [by left|right].
  destruct (Z.le_gt_cases (h_base h + h_len h) b); [done|]. exfalso.
  apply (Ha (Z.max b (h_base h))); [lia|]. apply is_free_cons. left. unfold in_hole. lia.
Qed.

Lemma apart_tail h l b n : apart (h :: l) b n -> apart l b n.
Proof. intros Ha a Hin Hf. apply (Ha a Hin), is_free_cons. by right. Qed.

Lemma insert_hole_spec b n l : forall lo h,
  0 <= lo -> holes_wf lo (h :: l) -> 0 < n -> b + n < 2 ^ 64 -> apart (h :: l) b n ->
  h_base h + h_len h <= b -> given lo (h :: l) b n (insert_hole (mk_hole b n) (h :: l)).
Proof.
  induction l as [|x l IH]; intros lo h Hlo (H1 & H2 & H3 & H4) Hn Hend Hap Hafter.
  { apply merge_after; try done; lia. }
  change (insert_hole (mk_hole b n) (h :: x :: l)) with
    (if h_base x <? b then h :: insert_hole (mk_hole b n) (x :: l)
     else merge_hole (h :: mk_hole b n :: x :: l)).
  pose proof (apart_tail _ _ _ _ Hap) as Hap'. pose proof H4 as (H5 & H6 & _).
  destruct (apart_head _ _ _ _ Hap' Hn H6) as [Hside|Hside]; destruct (h_base x <? b) eqn:Hx; b2p; try lia.
  - apply merge_after; try done. cbn. split_and!; done || apply H4.
  - apply given_cons; try done. apply IH; try done. lia.
Qed.

Lemma add_hole_spec lo b n l :
  0 <= lo -> holes_wf lo l -> lo <= b -> 0 < n -> b + n < 2 ^ 64 -> apart l b n ->
  given lo l b n (add_hole (mk_hole b n) l).
Proof.
  intros Hlo Hwf Hb Hn Hend Hap. destruct l as [|h l]; [by apply merge_front|].
  cbn [add_hole]. cbn [h_base]. pose proof Hwf as (H1 & H2 & H3 & H4).
  destruct (apart_head _ _ _ _ Hap Hn H2) as [Hside|Hside]; destruct (b <=? h_base h) eqn:Hx; b2p; try lia.
  - by apply merge_front.
  - by apply insert_hole_spec.
Qed.

(** Giving back the block just taken restores the holes. *)
Lemma add_hole_taken lo l b n l' :
  0 <= lo -> 0 < n -> holes_wf lo l -> taken lo l b n l' -> add_hole (mk_hole b n) l' = l.
Proof.
  intros Hlo Hn Hwf [T1 T2 T3 T4 T5 T6 T7].
  destruct (add_hole_spec lo b n l') as [G1 G2 G3 G4 G5]; try done.
  apply (holes_unique _ _ lo lo); [done..|]. intros a. rewrite G2, T4. done.
Qed.

(** ** Pages *)

Definition aligned (align : Z) (l : list phys_hole) : Prop := Forall (fun h => h_base h mod align = 0) l.

Lemma alignment_of_aligned align b : b mod align = 0 -> alignment_of align b = 0.
Proof. intros H. unfold alignment_of. by rewrite H. Qed.

(** On aligned holes the loop of [alloc_pages] is that of [alloc_mem]. *)
Lemma pages_loop_aligned ms al l : forall lo prev,
  0 <= lo -> 0 <= ms < 2 ^ 64 -> holes_wf lo l -> aligned al l ->
  (forall p, prev = Some p -> 0 <= h_len p < 2 ^ 64) ->
  pages_loop ms al prev l =
  match alloc_loop ms l with
  | Some (b, l') => Some (b, match prev with Some p => p :: l' | None => l' end)
  | None => None
  end.
Proof.
  induction l as [|h l IH]; intros lo prev Hlo Hms Hwf Hal Hprev; [done|].
  apply Forall_cons in Hal as [Ha Hal]. destruct Hwf as (H1 & H2 & H3 & H4).
  cbn [pages_loop alloc_loop]. rewrite (alignment_of_aligned _ _ Ha), !Z.add_0_r, (wrapu_small 64 ms) by done.
  rewrite (wrapu_small 64 (h_base h)) by lia. destruct (ms <=? h_len h); cbn zeta.
  - f_equal. destruct prev as [p|]; [|done]. f_equal. f_equal.
    destruct (_ =? _); [|done]. destruct p as [pb pl]. specialize (Hprev _ eq_refl). cbn in Hprev.
    change (mk_hole pb (wrapu 64 (pl + 0)) = mk_hole pb pl). f_equal. rewrite Z.add_0_r. by apply wrapu_small.
  - rewrite (IH (h_base h + h_len h + 1) (Some h)); [|lia|done|done|done|intros p [= <-]; lia].
    by destruct (alloc_loop ms l) as [[b l']|], prev.
Qed.

Lemma alloc_loop_aligned al ms l b l' :
  0 < al -> ms mod al = 0 -> (al | 2 ^ 64) -> aligned al l -> alloc_loop ms l = Some (b, l') ->
  b mod al = 0 /\ aligned al l'.
Proof.
  intros Hal Hms Hdiv. revert b l'. induction l as [|h l IH]; intros b l' Hl Hr; cbn [alloc_loop] in Hr; [done|].
  apply Forall_cons in Hl as [Ha Hl]. destruct (ms <=? h_len h).
  - injection Hr as <- <-. split; [done|]. destruct (_ =? 0); [done|]. constructor; [|done].
    cbn [h_base]. unfold wrapu. rewrite <- Znumtheory.Zmod_div_mod by (done || lia).
    by rewrite Z.add_mod, Ha, Hms by lia.
  - destruct (alloc_loop ms l) as [[b1 l1]|]; [|done]. injection Hr as <- <-.
    destruct (IH _ _ Hl eq_refl). split; [done|by constructor].
Qed.

Lemma total_le lo l : holes_wf lo l -> 0 <= total l /\ (total l = 0 \/ lo + total l < 2 ^ 64).
Proof.
  revert lo. induction l as [|h l IH]; intros lo Hwf; cbn; [lia|].
  destruct Hwf as (H1 & H2 & H3 & H4). specialize (IH _ H4). lia.
Qed.

(** The state the physical memory is in: page-aligned holes in order, none at
    address 0, and [mem_free] their total. *)
Record mem_ok (m : memory) : Prop := {
  mo_wf : holes_wf 1 (mm_holes m);
  mo_aligned : aligned ARCH_PG_SIZE (mm_holes m);
  mo_free : mm_free m = total (mm_holes m);
  mo_length : Z.of_nat (length (mm_holes m)) <= NR_HOLES
}.

Lemma pg_divides : (ARCH_PG_SIZE | 2 ^ 64).
Proof. exists (2 ^ 52). reflexivity. Qed.

(** What [alloc_pages] does on such a state. *)
Definition got_pages (m : memory) (n : Z) (m' : memory) (b : Z) : Prop :=
  mem_ok m' /\
  ((b = 0 /\ m' = m /\ forall h, h ∈ mm_holes m -> h_len h < n) \/
   (0 < b /\ b mod ARCH_PG_SIZE = 0 /\ taken 1 (mm_holes m) b n (mm_holes m') /\ mm_free m' = mm_free m - n)).

Lemma alloc_pages_got m nr : mem_ok m -> 0 < nr < 2 ^ 31 ->
  got_pages m (nr * ARCH_PG_SIZE) (alloc_pages nr 0 m).1 (alloc_pages nr 0 m).2.
Proof.
  intros Hok Hnr. unfold alloc_pages. cbn [has_flag]. change (if has_flag 0 APF_ALIGN16K then 0x4000 else ARCH_PG_SIZE) with ARCH_PG_SIZE.
  rewrite (wrapu_small 64 (nr * ARCH_PG_SIZE)) by (unfold ARCH_PG_SIZE; lia).
  rewrite (pages_loop_aligned _ _ _ 1);
    [|lia|unfold ARCH_PG_SIZE; lia|apply (mo_wf _ Hok)|apply (mo_aligned _ Hok)|done].
  pose proof (alloc_loop_spec (nr * ARCH_PG_SIZE) (mm_holes m) 1 (mo_wf _ Hok) ltac:(lia)
                ltac:(unfold ARCH_PG_SIZE; lia)) as Hspec.
  destruct (alloc_loop _ _) as [[b l']|] eqn:Hl; [|split; [done|by left]].
  destruct (alloc_loop_aligned ARCH_PG_SIZE _ _ _ _ ltac:(done) (Z_mod_mult _ _) pg_divides (mo_aligned _ Hok) Hl) as [Hb Hal].
  pose proof (total_le _ _ (mo_wf _ Hok)) as Ht. pose proof (total_le _ _ (tk_wf _ _ _ _ _ Hspec)) as Ht'.
  pose proof (tk_total _ _ _ _ _ Hspec) as Htot. pose proof (tk_lo _ _ _ _ _ Hspec). pose proof (tk_length _ _ _ _ _ Hspec).
  destruct Hok as [W1 W2 W3 W4]. destruct m as [hs fr]. cbn in *.
  assert (wrapu 64 (fr - nr * ARCH_PG_SIZE) = total l') as Hw by (rewrite wrapu_small; lia).
  set (m' := _ <| mm_free ::= _ |>). assert (mm_holes m' = l') as Eh by done.
  assert (mm_free m' = wrapu 64 (fr - nr * ARCH_PG_SIZE)) as Ef by done. clearbody m'.
  split; [constructor|right; cbn [mm_holes mm_free]; split_and!]; rewrite ?Eh, ?Ef; apply Hspec || done || lia.
Qed.

Lemma free_mem_gives m b n : mem_ok m -> 0 < b -> 0 < n -> b + n < 2 ^ 64 -> b mod ARCH_PG_SIZE = 0 ->
  apart (mm_holes m) b n -> Z.of_nat (length (mm_holes m)) < NR_HOLES ->
  exists m', free_mem b n m = Ret (m', 0) /\ mem_ok m' /\ given 1 (mm_holes m) b n (mm_holes m') /\
             mm_holes m' = add_hole (mk_hole b n) (mm_holes m) /\ mm_free m' = mm_free m + n.
Proof.
  intros [W1 W2 W3 W4] Hb Hn Hend Hal Hap Hlen.
  pose proof (add_hole_spec 1 b n (mm_holes m) ltac:(lia) W1 ltac:(lia) Hn Hend Hap) as Hg.
  pose proof (total_le _ _ (gv_wf _ _ _ _ _ Hg)) as Ht. pose proof (total_le _ _ W1) as Ht0.
  pose proof (gv_total _ _ _ _ _ Hg) as Htot. pose proof (gv_length _ _ _ _ _ Hg) as Hle.
  unfold free_mem. destruct (n =? 0) eqn:Hn0; b2p; [lia|]. destruct (NR_HOLES <=? _) eqn:Hfull; b2p; [lia|].
  eexists. split; [reflexivity|]. destruct m as [hs fr]. cbn [mm_holes mm_free] in *.
  assert (wrapu 64 (fr + n) = total (add_hole (mk_hole b n) hs)) as Hw by (rewrite wrapu_small; lia).
  set (m' := _ <| mm_free ::= _ |>).
  assert (mm_holes m' = add_hole (mk_hole b n) hs) as Eh by done.
  assert (mm_free m' = wrapu 64 (fr + n)) as Ef by done. clearbody m'. rewrite Eh, Ef.
  split_and!; [|done|done|lia].
  constructor; rewrite ?Eh, ?Ef; [apply Hg| |done|lia].
  apply Forall_forall. intros h Hh. destruct (gv_bases _ _ _ _ _ Hg h Hh) as [->|(y & Hy & ->)]; [done|].
  revert y Hy. by apply Forall_forall.
Qed.

(** ** A client of the physical memory *)

(** The blocks a client holds: base and length. *)
Inductive client_step : memory * list (Z * Z) -> memory * list (Z * Z) -> Prop :=
  | step_alloc nr m m' b bs :
      0 < nr < 2 ^ 31 -> alloc_pages nr 0 m = (m', b) -> b <> 0 ->
      client_step (m, bs) (m', (b, nr * ARCH_PG_SIZE) :: bs)
  | step_free m m' b n bs1 bs2 :
      free_mem b n m = Ret (m', 0) -> client_step (m, bs1 ++ (b, n) :: bs2) (m', bs1 ++ bs2).

(** How many of the blocks address [a] is in. *)
Definition owners (bs : list (Z * Z)) (a : Z) : nat := length (filter (fun x => x.1 <= a < x.1 + x.2) bs).

Lemma owners_middle bs1 bs2 b n a :
  owners (bs1 ++ (b, n) :: bs2) a =
  ((if decide (b <= a < b + n)%Z then 1 else 0) + owners (bs1 ++ bs2) a)%nat.
Proof.
  unfold owners. rewrite !filter_app, filter_cons, !length_app. cbn [fst snd].
  destruct (decide _); cbn [length]; lia.
Qed.

(** Every address of the memory is free or in exactly one block. *)
Record conserved (l0 : list phys_hole) (s : memory * list (Z * Z)) : Prop := {
  cs_ok : mem_ok s.1;
  cs_one a : (owners s.2 a <= 1)%nat;
  cs_excl a : is_free (mm_holes s.1) a -> owners s.2 a = 0%nat;
  cs_all a : is_free l0 a <-> is_free (mm_holes s.1) a \/ owners s.2 a = 1%nat;
  cs_blocks x : x ∈ s.2 -> 0 < x.1 /\ 0 < x.2 /\ x.1 + x.2 < 2 ^ 64 /\ x.1 mod ARCH_PG_SIZE = 0
}.

Lemma conserved_alloc l0 m bs nr :
  conserved l0 (m, bs) -> 0 < nr < 2 ^ 31 -> (alloc_pages nr 0 m).2 <> 0 ->
  conserved l0 ((alloc_pages nr 0 m).1, ((alloc_pages nr 0 m).2, nr * ARCH_PG_SIZE) :: bs).
Proof.
  intros [C1 C2 C3 C4 C5] Hnr Hb. cbn [fst snd] in *.
  destruct (alloc_pages_got m nr C1 Hnr) as [Hok [[? _]|(Hpos & Hal & T & _)]]; [done|].
  destruct (alloc_pages nr 0 m) as [m' b]. cbn [fst snd] in *.
  assert (forall a, owners ((b, nr * ARCH_PG_SIZE) :: bs) a =
            ((if decide (b <= a < b + nr * ARCH_PG_SIZE)%Z then 1 else 0) + owners bs a)%nat) as Ho.
  { intros a. apply (owners_middle []). }
  pose proof (fun a => tk_free _ _ _ _ _ T a) as Tf. pose proof (fun a => tk_gone _ _ _ _ _ T a) as Tg.
  constructor; cbn [fst snd]; [done|..].
  - intros a. rewrite Ho. specialize (C3 a). specialize (C2 a). specialize (Tf a). destruct (decide _); intuition lia.
  - intros a Ha. rewrite Ho. specialize (C3 a). specialize (Tf a). specialize (Tg a). destruct (decide _); intuition lia.
  - intros a. rewrite Ho, C4, Tf. specialize (C3 a). specialize (Tf a). specialize (Tg a).
    destruct (decide _); intuition lia.
  - intros x [->|Hx]%elem_of_cons; [|by apply C5]. cbn. pose proof (tk_end _ _ _ _ _ T).
    unfold ARCH_PG_SIZE in *. split_and!; done || lia.
Qed.

(** A block the client holds is apart from the holes. *)
Lemma held_apart l0 m bs1 b n bs2 : conserved l0 (m, bs1 ++ (b, n) :: bs2) -> apart (mm_holes m) b n.
Proof.
  intros [_ _ C3 _ _] a Ha Hf. specialize (C3 a Hf). cbn [snd] in C3.
  rewrite owners_middle in C3. destruct (decide _); [lia|done].
Qed.

Lemma conserved_free l0 m m' b n bs1 bs2 :
  conserved l0 (m, bs1 ++ (b, n) :: bs2) -> free_mem b n m = Ret (m', 0) -> conserved l0 (m', bs1 ++ bs2).
Proof.
  intros C Hf. pose proof (held_apart _ _ _ _ _ _ C) as Hap. destruct C as [C1 C2 C3 C4 C5]. cbn [fst snd] in *.
  destruct (C5 (b, n)) as (B1 & B2 & B3 & B4); [apply elem_of_app; right; by constructor|]. cbn [fst snd] in *.
  assert (Z.of_nat (length (mm_holes m)) < NR_HOLES) as Hlen.
  { unfold free_mem in Hf. destruct (n =? 0) eqn:E; [done|]. destruct (NR_HOLES <=? _) eqn:E'; b2p; [done|lia]. }
  destruct (free_mem_gives m b n C1 B1 B2 B3 B4 Hap Hlen) as (m1 & Hm1 & Hok & G & _).
  rewrite Hm1 in Hf. injection Hf as <-. pose proof (fun a => gv_free _ _ _ _ _ G a) as Gf.
  constructor; cbn [fst snd]; [done|..].
  - intros a. specialize (C2 a). rewrite owners_middle in C2. lia.
  - intros a Ha. specialize (C2 a). specialize (C3 a). rewrite owners_middle in C2, C3. rewrite Gf in Ha.
    destruct (decide _); intuition lia.
  - intros a. specialize (C2 a). specialize (C3 a). rewrite owners_middle in C2, C3. rewrite Gf, C4, owners_middle.
    destruct (decide _); intuition lia.
  - intros x Hx. apply C5. rewrite elem_of_app, elem_of_cons. apply elem_of_app in Hx. tauto.
Qed.

Lemma conserved_steps l0 s s' : conserved l0 s -> rtc client_step s s' -> conserved l0 s'.
Proof.
  intros Hc Hs. induction Hs as [|s1 s2 s3 Hstep _ IH]; [done|]. apply IH. clear IH.
  destruct Hstep as [nr m m' b bs Hnr Ha Hb|m m' b n bs1 bs2 Hf]; [|by eapply conserved_free].
  pose proof (conserved_alloc l0 m bs nr Hc Hnr) as H. rewrite Ha in H. by apply H.
Qed.

Lemma conserved_init m : mem_ok m -> conserved (mm_holes m) (m, []).
Proof.
  intros Hok. constructor; cbn; [done|intros; lia|done|intros a|intros x Hx; by apply elem_of_nil in Hx].
  split; [by left|intros [H|H]; done].
Qed.

(** The virtual memory: page-aligned holes in order inside the arena. *)
Record vmem_ok (start last : Z) (v : vmemory) : Prop := {
  vo_wf : holes_wf start (vm_holes v);
  vo_aligned : aligned ARCH_PG_SIZE (vm_holes v);
  vo_end a : is_free (vm_holes v) a -> a < last;
  vo_used : 0 <= vm_used v < 2 ^ 64
}.

Lemma vmpages_restored start last v v' nr b :
  vmem_ok start last v -> 0 <= start -> last < 2 ^ 64 -> 0 < nr < 2 ^ 52 ->
  Z.of_nat (length (vm_holes v)) < NR_HOLES ->
  alloc_vmpages nr v = Ret (v', b) -> free_vmpages start last b nr v' = Ret (v, vm_pt_done v).
Proof.
  intros [V1 V2 V3 V4] Hs Hlast Hnr Hlen Ha. unfold alloc_vmpages in Ha.
  assert (wrapu 64 (Z.shiftl nr ARCH_PG_SHIFT) = nr * ARCH_PG_SIZE) as Hsz.
  { rewrite Z.shiftl_mul_pow2 by done. unfold ARCH_PG_SHIFT, ARCH_PG_SIZE. apply wrapu_small. lia. }
  rewrite Hsz, (pages_loop_aligned _ _ _ start) in Ha; [|done|unfold ARCH_PG_SIZE; lia|done|done|done].
  pose proof (alloc_loop_spec (nr * ARCH_PG_SIZE) (vm_holes v) start V1 Hs ltac:(unfold ARCH_PG_SIZE; lia)) as T.
  destruct (alloc_loop _ _) as [[b0 l']|]; [|done]. injection Ha as <- <-.
  assert (0 < nr * ARCH_PG_SIZE) as Hn by (unfold ARCH_PG_SIZE; lia).
  pose proof (add_hole_taken start _ _ _ _ Hs Hn V1 T) as Hback.
  assert (b0 + nr * ARCH_PG_SIZE - 1 < last) as Hin.
  { apply V3, (tk_free _ _ _ _ _ T). right. lia. }
  pose proof (tk_lo _ _ _ _ _ T). pose proof (tk_length _ _ _ _ _ T). pose proof (tk_end _ _ _ _ _ T).
  unfold free_vmpages. rewrite Hsz. set (n := nr * ARCH_PG_SIZE) in *. clearbody n.
  destruct v as [hs us pd]. cbn [vm_holes vm_used vm_pt_done] in *.
  set (w := _ <| vm_used ::= _ |>). assert (w = mk_vmemory l' (wrapu 64 (us + n)) pd) as -> by done.
  cbn [vm_holes vm_pt_done]. rewrite (wrapu_small 64 (b0 + n)) by lia.
  assert ((nr =? 0) = false) as -> by lia.
  assert ((b0 <? start) || (last <? b0 + n) = false) as -> by lia.
  assert ((NR_HOLES <=? Z.of_nat (length l')) = false) as -> by lia.
  change (Ret (mk_vmemory (add_hole (mk_hole b0 n) l') (wrapu 64 (wrapu 64 (us + n) - n)) pd, pd) =
          Ret (mk_vmemory hs us pd, pd)).
  rewrite Hback. do 3 f_equal. unfold wrapu.
  rewrite Zminus_mod_idemp_l. replace (us + n - n) with us by lia. by apply Z.mod_small.
Qed.

(** Two pages of a memory of sixteen, one given back. *)
Definition demo_memory : memory := mk_memory [mk_hole 0x1000 0x10000] 0x10000.

Lemma demo_memory_ok : mem_ok demo_memory.
Proof. constructor; cbn; [lia|repeat constructor|done|done]. Qed.



(** Giving pages back undoes their allocation: the list of holes and the
    count of free memory are what they were, for the physical memory and for
    the virtual memory of the manager. *)
Theorem pages_roundtrip (m m' : memory) (v v' : vmemory) (start last nr b c : Z) :
  0 < nr < 2 ^ 31 ->
  mem_ok m -> Z.of_nat (length (mm_holes m)) < NR_HOLES -> alloc_pages nr 0 m = (m', b) -> b <> 0 ->
  vmem_ok start last v -> 0 <= start -> last < 2 ^ 64 -> Z.of_nat (length (vm_holes v)) < NR_HOLES ->
  alloc_vmpages nr v = Ret (v', c) ->
  free_mem b (nr * ARCH_PG_SIZE) m' = Ret (m, 0) /\ free_vmpages start last c nr v' = Ret (v, vm_pt_done v).
Proof.
  intros Hnr Hok Hlen Ha Hb Hv Hs Hl Hlen' Hva. split; [|by apply (vmpages_restored start last v v'); try lia].
  pose proof (alloc_pages_got m nr Hok Hnr) as Hgot. rewrite Ha in Hgot. cbn [fst snd] in Hgot.
  destruct Hgot as [Hok' [[? _]|(Hpos & Hal & T & Hf)]]; [done|].
  pose proof (tk_length _ _ _ _ _ T). set (n := nr * ARCH_PG_SIZE) in *.
  assert (0 < n) as Hn by (unfold n, ARCH_PG_SIZE; lia).
  destruct (free_mem_gives m' b n Hok' Hpos Hn (tk_end _ _ _ _ _ T) Hal (tk_gone _ _ _ _ _ T)) as
    (m1 & Hm1 & _ & _ & Hh & Hf1); [lia|].
  rewrite Hm1. do 2 f_equal. rewrite (add_hole_taken 1 (mm_holes m)) in Hh; try done; [|apply Hok].
  destruct m as [h f], m1 as [h1 f1]. cbn in *. f_equal; [done|lia].
Qed.

Lemma pages_roundtrip_witness :
  free_mem 0x1000 0x2000 (mk_memory [mk_hole 0x3000 0xe000] 0xe000) = Ret (demo_memory, 0) /\
  free_vmpages 0x1000 0x11000 0x1000 2 (mk_vmemory [mk_hole 0x3000 0xe000] 0x2000 true) =
    Ret (mk_vmemory [mk_hole 0x1000 0x10000] 0 true, true).
Proof.
  apply (pages_roundtrip demo_memory _ (mk_vmemory [mk_hole 0x1000 0x10000] 0 true) _ 0x1000 0x11000 2 0x1000 0x1000);
    try lia; try reflexivity; [exact demo_memory_ok|].
  constructor; cbn; [lia|repeat constructor| |lia].
  intros a [Ha|Ha]%is_free_cons; [unfold in_hole in Ha; cbn in Ha; lia|by apply is_free_nil in Ha].
Defined.

(** Two paths lose track of memory. [alloc_pages] with 16K alignment takes
    the bytes it skips out of the hole and counts them as free, but no hole
    has them. And [alloc_vmem] maps the physical page 0 when there is no
    physical memory left. *)
Theorem alloc_error_paths :
  (forall b n, 0 < b -> b mod 0x4000 <> 0 -> b + n < 2 ^ 64 -> 0x8000 <= n ->
     let '(m', p) := alloc_pages 1 APF_ALIGN16K (mk_memory [mk_hole b n] n) in
     b < p /\ (forall a, b <= a < p -> ~ is_free (mm_holes m') a) /\
     mm_free m' = total (mm_holes m') + (p - b)) /\
  (forall v v' vir boot, vm_pt_done v = true -> alloc_vmpages 1 v = Ret (v', vir) ->
     alloc_vmem (fun _ _ _ s => Ret s) 0x1000 (mk_vms 0 boot (mk_memory [] 0) v) =
     Ret (mk_vms 0 boot (mk_memory [] 0) v', 0, vir)).
Proof.
  split.
  - intros b n Hb Hmod Hend Hn. unfold alloc_pages.
    change (if has_flag APF_ALIGN16K APF_ALIGN16K then 0x4000 else ARCH_PG_SIZE) with 0x4000.
    change (wrapu 64 (1 * ARCH_PG_SIZE)) with 0x1000. cbn [mm_holes pages_loop h_base h_len].
    pose proof (Z.mod_pos_bound b 0x4000 ltac:(lia)) as Hm.
    assert (alignment_of 0x4000 b = 0x4000 - b mod 0x4000) as ->.
    { unfold alignment_of. destruct (_ =? 0) eqn:E; b2p; [lia|done]. }
    set (k := 0x4000 - b mod 0x4000) in *. assert (0 < k < 0x4000) as Hk by lia. clearbody k.
    rewrite !wrapu_small by lia. destruct (_ <=? n) eqn:Hfit; b2p; [|lia].
    destruct (n - (0x1000 + k) =? 0) eqn:E; b2p; [lia|]. cbv zeta iota beta.
    set (m' := _ <| mm_free ::= _ |>).
    assert (mm_holes m' = [mk_hole (b + (0x1000 + k)) (n - (0x1000 + k))]) as Eh by done.
    assert (mm_free m' = wrapu 64 (n - 0x1000)) as Ef by done. clearbody m'. rewrite Eh, Ef.
    rewrite wrapu_small by lia. split_and!; [lia| |cbn; lia].
    intros a Ha. rewrite is_free_cons. unfold in_hole. cbn. intros [H|H]; [lia|by apply is_free_nil in H].
  - intros v v' vir boot Hpt Hv. unfold alloc_vmem. change (pages_of 0x1000) with 1.
    set (s := (mk_vms 0 boot (mk_memory [] 0) v) <| vs_level ::= _ |>).
    assert (s = mk_vms 1 boot (mk_memory [] 0) v) as -> by done.
    cbn [vs_level vs_vmem vs_mem]. rewrite Hpt. cbn [negb orb Z.ltb Z.compare Pos.compare Pos.compare_cont].
    change (alloc_pages (wraps 32 1) 0 (mk_memory [] 0)) with (mk_memory [] 0, 0). cbv beta iota zeta.
    rewrite Hv, res_ret_bind. cbv beta iota zeta. by rewrite res_ret_bind.
Qed.
