(* ===== verification/Coro.v ===== *)
(** * Cooperative threads

    The locks of the coroutine library (lib/libcoro: queue.c, scheduler.c,
    mutex.c, condvar.c, rwlock.c) on which the worker threads of the servers
    run. A thread gives up the processor only in [coro_suspend], so that a
    call of the library is a sequence of pieces between suspensions; [point]
    records in which piece a thread is. Pointers to thread control blocks are
    the identifiers of the threads, [None] being NULL; the queues are linked
    through the [next] field of the control blocks. *)

From S2P Require Import Prelude.

Definition MAIN_THREAD : Z := -1.
Definition NO_THREAD : Z := -2.

Inductive coro_state := CR_DEAD | CR_BLOCKED | CR_RUNNABLE | CR_EXITING.

Record coro_queue := mk_queue { q_head : option Z; q_tail : option Z }.
#[export] Instance rebuild_queue : Rebuild coro_queue := fun q => mk_queue (q_head q) (q_tail q).

(** The globals of the library and the fields of the control blocks. *)
Record coro := mk_coro {
  current_thread : Z; nr_threads : Z; run_queue : coro_queue;
  tcb_next : Z -> option Z; tcb_state : Z -> coro_state
}.
#[export] Instance rebuild_coro : Rebuild coro := fun s =>
  mk_coro (current_thread s) (nr_threads s) (run_queue s) (tcb_next s) (tcb_state s).

Definition is_valid_id (s : coro) (id : Z) : bool :=
  (id =? MAIN_THREAD) || ((0 <=? id) && (id <? nr_threads s)).

Definition coro_find_tcb (s : coro) (thread : Z) : res Z :=
  if is_valid_id s thread then Ret thread else Crash Panic.

(** ** Queues *)

Definition coro_queue_init : coro_queue := mk_queue None None.

Definition coro_queue_empty (q : coro_queue) : bool := match q_head q with None => true | Some _ => false end.

Definition coro_queue_enqueue (s : coro) (q : coro_queue) (thread : Z) : res (coro * coro_queue) :=
  last ← coro_find_tcb s thread;
  if coro_queue_empty q then Ret (s, mk_queue (Some last) (Some last))
  else
    tail ← deref (q_tail q);
    Ret (s <| tcb_next ::= <[tail := Some last]> |>, q <| q_tail := Some last |>).

Definition coro_queue_dequeue (s : coro) (q : coro_queue) : coro * coro_queue * Z :=
  match q_head q with
  | None => (s, q, NO_THREAD)
  | Some tcb =>
      let q := if bool_decide (q_head q = q_tail q) then mk_queue None None
               else q <| q_head := tcb_next s tcb |> in
      (s <| tcb_next ::= <[tcb := None]> |>, q, tcb)
  end.

(** ** Scheduler *)

(** [coro_schedule]; the boolean tells whether another context was entered. *)
Definition coro_schedule (s : coro) : res (coro * bool) :=
  let old_thread := current_thread s in
  let switch (s : coro) :=
    _ ← coro_find_tcb s (current_thread s);
    _ ← coro_find_tcb s old_thread;
    Ret (s, true) in
  if coro_queue_empty (run_queue s) then
    if old_thread =? MAIN_THREAD then Ret (s, false)
    else switch (s <| current_thread := MAIN_THREAD |>)
  else
    let '(s, q, t) := coro_queue_dequeue s (run_queue s) in
    switch (s <| run_queue := q |> <| current_thread := t |>).

Definition coro_suspend (state : coro_state) (s : coro) : res (coro * bool) :=
  tcb ← coro_find_tcb s (current_thread s);
  coro_schedule (s <| tcb_state ::= <[tcb := state]> |>).

Definition coro_unsuspend (thread : Z) (s : coro) : res coro :=
  tcb ← coro_find_tcb s thread;
  let s := s <| tcb_state ::= <[tcb := CR_RUNNABLE]> |> in
  '(s, q) ← coro_queue_enqueue s (run_queue s) thread;
  Ret (s <| run_queue := q |>).

Definition coro_yield (s : coro) : res (coro * Z) :=
  if coro_queue_empty (run_queue s) || (current_thread s =? NO_THREAD) then Ret (s, -1)
  else
    '(s, q) ← coro_queue_enqueue s (run_queue s) (current_thread s);
    '(s, _) ← coro_suspend CR_RUNNABLE (s <| run_queue := q |>);
    Ret (s, 0).

(** ** Mutexes and condition variables *)

Record coro_mutex := mk_mutex { m_owner : Z; m_queue : coro_queue }.
#[export] Instance rebuild_mutex : Rebuild coro_mutex := fun m => mk_mutex (m_owner m) (m_queue m).

Definition coro_mutex_init : coro_mutex := mk_mutex NO_THREAD coro_queue_init.

Definition coro_mutex_trylock (s : coro) (m : coro_mutex) : coro_mutex * Z :=
  if m_owner m =? current_thread s then (m, EDEADLK)
  else if m_owner m =? NO_THREAD then (m <| m_owner := current_thread s |>, 0)
  else (m, EBUSY).

(** [coro_mutex_lock]: no result when the thread was suspended; it returns 0
    when it goes on. *)
Definition coro_mutex_lock (s : coro) (m : coro_mutex) : res (coro * coro_mutex * option Z) :=
  let '(m, retval) := coro_mutex_trylock s m in
  if retval =? EBUSY then
    '(s, q) ← coro_queue_enqueue s (m_queue m) (current_thread s);
    '(s, switched) ← coro_suspend CR_BLOCKED s;
    Ret (s, m <| m_queue := q |>, if (switched : bool) then None else Some 0)
  else Ret (s, m, Some retval).

Definition coro_mutex_unlock (s : coro) (m : coro_mutex) : res (coro * coro_mutex * Z) :=
  if negb (m_owner m =? current_thread s) then Ret (s, m, EPERM)
  else
    let '(s, q, t) := coro_queue_dequeue s (m_queue m) in
    s ← (if negb (t =? NO_THREAD) then coro_unsuspend t s else Ret s);
    Ret (s, mk_mutex t q, 0).

Definition coro_cond_signal (s : coro) (c : coro_queue) : res (coro * coro_queue * Z) :=
  let '(s, c, thread) := coro_queue_dequeue s c in
  s ← (if negb (thread =? NO_THREAD) then coro_unsuspend thread s else Ret s);
  Ret (s, c, 0).

(** The loop of [coro_cond_broadcast]. *)
Fixpoint broadcast_loop (fuel : nat) (s : coro) (c : coro_queue) : res (coro * coro_queue) :=
  match fuel with
  | O => Crash OutOfFuel
  | S fuel =>
      if coro_queue_empty c then Ret (s, c)
      else
        let '(s, c, thread) := coro_queue_dequeue s c in
        s ← (if negb (thread =? NO_THREAD) then coro_unsuspend thread s else Ret s);
        broadcast_loop fuel s c
  end.

Definition coro_cond_broadcast (s : coro) (c : coro_queue) : res (coro * coro_queue * Z) :=
  '(s, c) ← broadcast_loop (Z.to_nat (nr_threads s) + 2) s c;
  Ret (s, c, 0).

(** Where [coro_cond_wait] stopped. *)
Inductive waiting := Returned (retval : Z) | Waits | Relocks.

(** [coro_cond_wait] after the suspension. *)
Definition cond_wait_again (s : coro) (m : coro_mutex) : res (coro * coro_mutex * waiting) :=
  '(s, m, retval) ← coro_mutex_lock s m;
  Ret (s, m, match (retval : option Z) with Some r => Returned r | None => Relocks end).

Definition coro_cond_wait (s : coro) (c : coro_queue) (m : coro_mutex)
  : res (coro * coro_queue * coro_mutex * waiting) :=
  '(s, m, retval) ← coro_mutex_unlock s m;
  if negb (retval =? 0) then Ret (s, c, m, Returned retval)
  else
    '(s, c) ← coro_queue_enqueue s c (current_thread s);
    '(s, switched) ← coro_suspend CR_BLOCKED s;
    if (switched : bool) then Ret (s, c, m, Waits)
    else '(s, m, w) ← cond_wait_again s m; Ret (s, c, m, w).

(** ** Read-write locks *)

Record coro_rwlock := mk_rwlock {
  readers : Z; writer : Z; reader_queue : coro_mutex; rw_mutex : coro_mutex; writer_queue : coro_queue
}.
#[export] Instance rebuild_rwlock : Rebuild coro_rwlock := fun l =>
  mk_rwlock (readers l) (writer l) (reader_queue l) (rw_mutex l) (writer_queue l).

Definition coro_rwlock_init : coro_rwlock :=
  mk_rwlock 0 NO_THREAD coro_mutex_init coro_mutex_init coro_queue_init.

(** What a thread is doing: outside of the lock, inside, or suspended in
    [coro_rwlock_rdlock], in one of the three places of [coro_rwlock_wrlock],
    or in [coro_rwlock_unlock]. *)
Inductive point :=
  | Idle | Reading | Writing
  | InRdlock | InWrlock | InWrlockMutex | InWrlockWait | InWrlockRelock | InUnlock.
#[export] Instance point_eq_dec : EqDecision point.
Proof. solve_decision. Defined.

(** [th_result] is what the last call of each thread returned, none while the
    call goes on. *)
Record threads := mk_threads {
  th_coro : coro; th_lock : coro_rwlock; th_point : Z -> point; th_result : Z -> option Z
}.
#[export] Instance rebuild_threads : Rebuild threads := fun s =>
  mk_threads (th_coro s) (th_lock s) (th_point s) (th_result s).

(** The call of thread [t] stops at [p] and leaves the state so: it returned
    [r], or it is suspended. *)
Definition leave (t : Z) (p : point) (r : option Z) (c : coro) (l : coro_rwlock) (s : threads) : threads :=
  mk_threads c l (<[t := p]> (th_point s)) (<[t := r]> (th_result s)).

(** [coro_rwlock_rdlock] from the second statement on. *)
Definition rdlock_locked (t : Z) (c : coro) (l : coro_rwlock) (s : threads) : res threads :=
  '(c, m, retval) ← coro_mutex_unlock c (reader_queue l);
  let l := l <| reader_queue := m |> in
  if negb (retval =? 0) then Ret (leave t Idle (Some retval) c l s)
  else Ret (leave t Reading (Some 0) c (l <| readers ::= fun n => wrapu 64 (n + 1) |>) s).

Definition coro_rwlock_rdlock (s : threads) : res threads :=
  let t := current_thread (th_coro s) in
  '(c, m, retval) ← coro_mutex_lock (th_coro s) (reader_queue (th_lock s));
  let l := (th_lock s) <| reader_queue := m |> in
  match (retval : option Z) with
  | None => Ret (leave t InRdlock None c l s)
  | Some r => if negb (r =? 0) then Ret (leave t Idle (Some r) c l s) else rdlock_locked t c l s
  end.

(** [coro_rwlock_wrlock] when [coro_cond_wait] has come so far. *)
Definition wrlock_waited (t : Z) (c : coro) (l : coro_rwlock) (w : waiting) (s : threads) : res threads :=
  match w with
  | Waits => Ret (leave t InWrlockWait None c l s)
  | Relocks => Ret (leave t InWrlockRelock None c l s)
  | Returned r =>
      '(c, m, retval) ← coro_mutex_unlock c (rw_mutex l);
      let l := l <| rw_mutex := m |> in
      if negb (r =? 0) then Ret (leave t Idle (Some r) c l s)
      else Ret (leave t (if negb (retval =? 0) then Idle else Writing) (Some retval) c l s)
  end.

(** [coro_rwlock_wrlock] when [mutex] is locked. *)
Definition wrlock_wait (t : Z) (c : coro) (l : coro_rwlock) (s : threads) : res threads :=
  '(c, q, m, w) ← coro_cond_wait c (writer_queue l) (rw_mutex l);
  wrlock_waited t c (l <| writer_queue := q |> <| rw_mutex := m |>) w s.

(** [coro_rwlock_wrlock] when [reader_queue] is locked. *)
Definition wrlock_locked (t : Z) (c : coro) (l : coro_rwlock) (s : threads) : res threads :=
  let l := l <| writer := current_thread c |> in
  if 0 <? readers l then
    '(c, m, retval) ← coro_mutex_lock c (rw_mutex l);
    let l := l <| rw_mutex := m |> in
    match (retval : option Z) with
    | None => Ret (leave t InWrlockMutex None c l s)
    | Some r => if negb (r =? 0) then Ret (leave t Idle (Some r) c l s) else wrlock_wait t c l s
    end
  else Ret (leave t Writing (Some 0) c l s).

Definition coro_rwlock_wrlock (s : threads) : res threads :=
  let t := current_thread (th_coro s) in
  '(c, m, retval) ← coro_mutex_lock (th_coro s) (reader_queue (th_lock s));
  let l := (th_lock s) <| reader_queue := m |> in
  match (retval : option Z) with
  | None => Ret (leave t InWrlock None c l s)
  | Some r => if negb (r =? 0) then Ret (leave t Idle (Some r) c l s) else wrlock_locked t c l s
  end.

(** [coro_rwlock_unlock] when [mutex] is locked. *)
Definition unlock_signal (t : Z) (c : coro) (l : coro_rwlock) (s : threads) : res threads :=
  '(c, q, r) ← coro_cond_signal c (writer_queue l);
  '(c, m, retval) ← coro_mutex_unlock c (rw_mutex l);
  Ret (leave t Idle (Some (if negb (r =? 0) then r else retval)) c (l <| writer_queue := q |> <| rw_mutex := m |>) s).

Definition coro_rwlock_unlock (s : threads) : res threads :=
  let c := th_coro s in
  let l := th_lock s in
  let t := current_thread c in
  if writer l =? t then
    let l := l <| writer := NO_THREAD |> in
    '(c, m, retval) ← coro_mutex_unlock c (reader_queue l);
    Ret (leave t Idle (Some retval) c (l <| reader_queue := m |>) s)
  else if (readers l =? 0) && negb (writer l =? NO_THREAD) && negb (writer l =? t) then
    Ret (leave t (th_point s t) (Some EPERM) c l s)
  else if readers l =? 0 then Ret (leave t (th_point s t) (Some EPERM) c l s)
  else
    let l := l <| readers ::= fun n => n - 1 |> in
    if (readers l =? 0) && negb (writer l =? NO_THREAD) then
      '(c, m, retval) ← coro_mutex_lock c (rw_mutex l);
      let l := l <| rw_mutex := m |> in
      match (retval : option Z) with
      | None => Ret (leave t InUnlock None c l s)
      | Some r => if negb (r =? 0) then Ret (leave t Idle (Some r) c l s) else unlock_signal t c l s
      end
    else Ret (leave t Idle (Some 0) c l s).

(** A suspended thread goes on where it was. *)
Definition resume (s : threads) : res threads :=
  let c := th_coro s in
  let l := th_lock s in
  let t := current_thread c in
  match th_point s t with
  | InRdlock => rdlock_locked t c l s
  | InWrlock => wrlock_locked t c l s
  | InWrlockMutex => wrlock_wait t c l s
  | InWrlockWait =>
      '(c, m, w) ← cond_wait_again c (rw_mutex l);
      wrlock_waited t c (l <| rw_mutex := m |>) w s
  | InWrlockRelock => wrlock_waited t c l (Returned 0) s
  | InUnlock => unlock_signal t c l s
  | Idle | Reading | Writing => Ret s
  end.

(** What a thread may do next. *)
Inductive action := Rdlock | Wrlock | Unlock | Yield.

(** The running thread goes on; outside of a call it takes the action if it
    is one it may take. The main thread does not lock. *)
Definition run (a : action) (s : threads) : res threads :=
  let t := current_thread (th_coro s) in
  match th_point s t with
  | Idle =>
      match a with
      | Yield => '(c, _) ← coro_yield (th_coro s); Ret (s <| th_coro := c |>)
      | Rdlock => if t =? MAIN_THREAD then Ret s else coro_rwlock_rdlock s
      | Wrlock => if t =? MAIN_THREAD then Ret s else coro_rwlock_wrlock s
      | Unlock => Ret s
      end
  | Reading | Writing =>
      match a with
      | Yield => '(c, _) ← coro_yield (th_coro s); Ret (s <| th_coro := c |>)
      | Unlock => coro_rwlock_unlock s
      | Rdlock | Wrlock => Ret s
      end
  | _ => resume s
  end.

Fixpoint exec (l : list action) (s : threads) : res threads :=
  match l with
  | [] => Ret s
  | a :: l => s ← run a s; exec l s
  end.

(** [n] threads that were made runnable one after the other, and a lock. *)
Fixpoint unsuspend_all (l : list Z) (c : coro) : res coro :=
  match l with
  | [] => Ret c
  | t :: l => c ← coro_unsuspend t c; unsuspend_all l c
  end.

Definition started (n : Z) : res threads :=
  c ← unsuspend_all (seqZ 0 n)
        (mk_coro MAIN_THREAD n coro_queue_init (fun _ => None) (fun _ => CR_DEAD));
  Ret (mk_threads c coro_rwlock_init (fun _ => Idle) (fun _ => None)).

(** ** Queues as sequences *)

(** The control blocks of [l] are linked one to the next. *)
Fixpoint linked (nx : Z -> option Z) (l : list Z) : Prop :=
  match l with
  | t :: (u :: _) as l' => nx t = Some u /\ linked nx l'
  | _ => True
  end.

(** Queue [q] holds the threads [l]. *)
Definition queue_is (nx : Z -> option Z) (q : coro_queue) (l : list Z) : Prop :=
  match l with
  | [] => q_head q = None
  | t :: _ => q_head q = Some t /\ q_tail q = last l /\ linked nx l
  end.

Lemma linked_frame nx nx' l : (forall t, t ∈ l -> nx' t = nx t) -> linked nx l -> linked nx' l.
Proof.
  induction l as [|t [|u l] IH]; intros Heq Hl; [done..|]. destruct Hl as [Ht Hl]. split.
  - rewrite Heq by (by constructor). done.
  - apply IH; [|done]. intros v Hv. apply Heq. by constructor.
Qed.

(** A queue does not depend on the links of other threads. *)
Lemma queue_frame nx nx' q l : (forall t, t ∈ l -> nx' t = nx t) -> queue_is nx q l -> queue_is nx' q l.
Proof. destruct l as [|t l]; [done|]. intros Heq (H1 & H2 & H3). split_and!; [done|done|by eapply linked_frame]. Qed.

Lemma linked_snoc nx l x t : linked nx (l ++ [x]) -> t ∉ l ++ [x] -> NoDup (l ++ [x]) ->
  linked (<[x := Some t]> nx) ((l ++ [x]) ++ [t]).
Proof.
  induction l as [|y l IH]; cbn [app]; intros Hl Ht Hnd.
  { cbn. by rewrite fn_lookup_insert. }
  apply not_elem_of_cons in Ht as [_ Ht]. apply NoDup_cons in Hnd as [Hy Hnd].
  assert (x <> y) as Hxy by (intros ->; apply Hy, elem_of_app; right; by constructor).
  destruct l as [|z l]; cbn [app] in *.
  - destruct Hl as [Hl _]. cbn. rewrite fn_lookup_insert, fn_lookup_insert_ne by done. done.
  - destruct Hl as [Hyz Hl]. split; [by rewrite fn_lookup_insert_ne|]. by apply IH.
Qed.

Lemma queue_is_snoc nx q l t : queue_is nx q l -> NoDup l -> t ∉ l -> l <> [] ->
  exists x, q_tail q = Some x /\ x ∈ l /\ queue_is (<[x := Some t]> nx) (q <| q_tail := Some t |>) (l ++ [t]).
Proof.
  intros Hq Hnd Ht Hne. destruct (exists_last Hne) as (l' & x & ->). exists x.
  assert (q_tail q = Some x) as Htail.
  { destruct l'; cbn in Hq; destruct Hq as (_ & -> & _); [done|].
    exact (last_snoc x (z :: l')). }
  split_and!; [done|apply elem_of_app; right; by constructor|].
  assert (linked nx (l' ++ [x])) as Hlink by (destruct l'; apply Hq).
  pose proof (linked_snoc _ _ _ _ Hlink Ht Hnd) as Hlink'.
  destruct l' as [|y l']; cbn [app] in *; (split; [apply Hq|split; [|exact Hlink']]); [done|].
  symmetry. exact (last_snoc t (y :: l' ++ [x])).
Qed.

Definition valid (n t : Z) : Prop := t = MAIN_THREAD \/ 0 <= t < n.

Lemma find_valid s t : valid (nr_threads s) t -> coro_find_tcb s t = Ret t.
Proof.
  intros Hv. unfold coro_find_tcb, is_valid_id. destruct Hv as [->|Hv]; [done|].
  assert ((0 <=? t) && (t <? nr_threads s) = true) as -> by lia. by rewrite orb_true_r.
Qed.

Lemma queue_is_empty nx q l : queue_is nx q l -> coro_queue_empty q = bool_decide (l = []).
Proof. unfold coro_queue_empty. destruct l; cbn; [by intros ->|by intros (-> & _)]. Qed.

Lemma enqueue_spec s q t l :
  valid (nr_threads s) t -> queue_is (tcb_next s) q l -> NoDup l -> t ∉ l ->
  exists nx q', coro_queue_enqueue s q t = Ret (s <| tcb_next := nx |>, q') /\
    queue_is nx q' (l ++ [t]) /\ (forall u, u ∉ l -> nx u = tcb_next s u).
Proof.
  intros Hv Hq Hnd Ht. unfold coro_queue_enqueue. rewrite find_valid, res_ret_bind by done.
  rewrite (queue_is_empty _ _ _ Hq). destruct l as [|x l].
  - exists (tcb_next s), (mk_queue (Some t) (Some t)). destruct s. done.
  - destruct (queue_is_snoc _ _ _ _ Hq Hnd Ht) as (y & Hy & Hin & Hq'); [done|].
    exists (<[y := Some t]> (tcb_next s)), (q <| q_tail := Some t |>).
    rewrite bool_decide_eq_false_2 by done. rewrite Hy. split_and!; [by destruct s|done|].
    intros u Hu. rewrite fn_lookup_insert_ne; [done|]. by intros ->.
Qed.

Lemma dequeue_nil s q : queue_is (tcb_next s) q [] -> coro_queue_dequeue s q = (s, q, NO_THREAD).
Proof. unfold coro_queue_dequeue. cbn. by intros ->. Qed.

Lemma dequeue_spec s q t l :
  queue_is (tcb_next s) q (t :: l) -> NoDup (t :: l) ->
  exists nx q', coro_queue_dequeue s q = (s <| tcb_next := nx |>, q', t) /\
    queue_is nx q' l /\ (forall u, u <> t -> nx u = tcb_next s u).
Proof.
  intros (Hh & Ht & Hl) Hnd. apply NoDup_cons in Hnd as [Hnt Hnd].
  unfold coro_queue_dequeue. rewrite Hh, Ht. eexists _, _. split; [by destruct s|]. split.
  - destruct l as [|u l].
    + by rewrite bool_decide_eq_true_2.
    + rewrite bool_decide_eq_false_2.
      * split_and!; [apply Hl|exact Ht|].
        eapply linked_frame; [|apply Hl]. intros v Hv. rewrite fn_lookup_insert_ne; [done|]. by intros ->.
      * intros Hx. apply Hnt. symmetry in Hx. change (last (t :: u :: l)) with (last (u :: l)) in Hx.
        by apply last_Some_elem_of in Hx.
  - intros u Hu. by rewrite fn_lookup_insert_ne.
Qed.
