(* ===== verification/CoroProps.v ===== *)
(** * Cooperative threads: what the locks guarantee

    The read-write lock of the coroutine library under every sequence of
    calls: an invariant of the lock as the threads see it, its preservation by
    each operation on the linked queues, and the claims that follow. *)

From S2P Require Import Prelude Coro.

(** ** The lock as seen by the threads *)

Section lock.
(** All the threads; the main one does not lock. *)
Context (ts : list Z) (Hts : NoDup ts) (Hnone : NO_THREAD ∉ ts).

Definition nreading (p : Z -> point) : Z := Z.of_nat (length (filter (fun t => p t = Reading) ts)).

(** Owner [o] of [reader_queue], writer [w], number of readers [k], points
    [p], running thread [t], and the three queues. *)
Record lock_ok (o w k : Z) (p : Z -> point) (t : Z) (R Q W : list Z) : Prop := {
  lk_all : t :: R ++ Q ++ W ≡ₚ ts;
  lk_main : MAIN_THREAD ∈ t :: R /\ p MAIN_THREAD = Idle;
  lk_readers : k = nreading p;
  lk_queued u : u ∈ Q -> (p u = InRdlock \/ p u = InWrlock) /\ o <> NO_THREAD;
  lk_waiting u : u ∈ W -> p u = InWrlockWait /\ w = u /\ 0 < k;
  lk_running u : u ∈ t :: R ->
    p u = Idle \/ p u = Reading \/ p u = Writing \/ ((p u = InRdlock \/ p u = InWrlock) /\ o = u) \/
    (p u = InWrlockWait /\ w = u /\ k = 0);
  lk_writing u : u ∈ ts -> p u = Writing -> w = u /\ k = 0;
  lk_writer : w <> NO_THREAD -> o = w /\ w ∈ ts /\ (p w = InWrlockWait \/ p w = Writing);
  lk_owner : o <> NO_THREAD -> o = w \/ (o ∈ t :: R /\ (p o = InRdlock \/ p o = InWrlock))
}.

(** [p'] is [p] with [x] at [t]. *)
Definition moved (p : Z -> point) (t : Z) (x : point) (p' : Z -> point) : Prop :=
  p' t = x /\ forall u, u <> t -> p' u = p u.

Lemma moved_insert p t x : moved p t x (<[t := x]> p).
Proof. split; [apply fn_lookup_insert|]. intros u Hu. by rewrite fn_lookup_insert_ne. Qed.

Definition is_reading (x : point) : Z := if decide (x = Reading) then 1 else 0.

Ltac count_readers := unfold is_reading; repeat destruct (decide _); try lia; intuition congruence.

Lemma nreading_moved p t x p' : moved p t x p' -> t ∈ ts ->
  nreading p' = nreading p - is_reading (p t) + is_reading x.
Proof.
  intros [Hx Hp] Hin. unfold nreading, is_reading. clear Hnone. induction ts as [|y l IH]; [by apply elem_of_nil in Hin|].
  apply NoDup_cons in Hts as [Hy Hnd]. rewrite !filter_cons.
  assert (y = t \/ y <> t) as [->|Hne] by lia.
  - rewrite (list_filter_ext (fun u => p' u = Reading) (fun u => p u = Reading) l).
    + rewrite Hx. repeat destruct (decide _); cbn [length]; lia.
    + intros u Hu. rewrite Hp; [done|]. by intros ->.
  - rewrite Hp by done. apply elem_of_cons in Hin as [->|Hin]; [done|]. specialize (IH Hnd Hin).
    destruct (decide (p y = Reading)); cbn [length]; lia.
Qed.

Lemma nreading_pos p t : t ∈ ts -> p t = Reading -> 0 < nreading p.
Proof.
  intros Hin Hp. unfold nreading.
  assert (t ∈ filter (fun t => p t = Reading) ts) as Hf by (by apply list_elem_of_filter).
  destruct (filter _ ts); [by apply elem_of_nil in Hf|]. cbn [length]. lia.
Qed.

Section facts.
Context (o w k : Z) (p : Z -> point) (t : Z) (R Q W : list Z) (Hok : lock_ok o w k p t R Q W).

Lemma lk_nodup : NoDup (t :: R ++ Q ++ W).
Proof. by rewrite (lk_all _ _ _ _ _ _ _ _ Hok). Qed.

Lemma lk_in u : u ∈ ts <-> u ∈ t :: R \/ u ∈ Q \/ u ∈ W.
Proof. rewrite <- (lk_all _ _ _ _ _ _ _ _ Hok), app_comm_cons, !elem_of_app. done. Qed.

Lemma lk_some u : u ∈ ts -> u <> NO_THREAD.
Proof. by intros Hu ->. Qed.

Lemma lk_cur : t ∈ ts.
Proof. apply lk_in. left. by constructor. Qed.

Lemma lk_no_writer : w = NO_THREAD -> W = [].
Proof.
  intros Hw. apply elem_of_nil_inv. intros u Hu.
  destruct (lk_waiting _ _ _ _ _ _ _ _ Hok u Hu) as (_ & Hwu & _).
  destruct (lk_some u); [|congruence]. apply lk_in. auto.
Qed.

(** Without an owner nobody writes or waits. *)
Lemma lk_unowned : o = NO_THREAD -> w = NO_THREAD /\ Q = [] /\ W = [].
Proof.
  intros Ho. assert (w = NO_THREAD) as Hw.
  { destruct (decide (w = NO_THREAD)) as [|Hne]; [done|].
    destruct (lk_writer _ _ _ _ _ _ _ _ Hok Hne) as [? _]. congruence. }
  split_and!; [done|..].
  - apply elem_of_nil_inv. intros u Hu. by destruct (lk_queued _ _ _ _ _ _ _ _ Hok u Hu) as [_ ?].
  - by apply lk_no_writer.
Qed.

(** A thread that was given the lock has no writer besides it. *)
Lemma lk_granted : (p t = InRdlock \/ p t = InWrlock) -> o = t /\ w = NO_THREAD /\ W = [].
Proof.
  intros Hp. assert (o = t) as Ho.
  { destruct (lk_running _ _ _ _ _ _ _ _ Hok t) as [H|[H|[H|[[_ H]|[H _]]]]]; [by left|intuition congruence..]. }
  assert (w = NO_THREAD) as Hw.
  { destruct (decide (w = NO_THREAD)) as [|Hne]; [done|].
    destruct (lk_writer _ _ _ _ _ _ _ _ Hok Hne) as (H1 & H2 & H3). intuition congruence. }
  split_and!; [done|done|by apply lk_no_writer].
Qed.
End facts.

(** The free lock goes to the running thread. *)
Lemma grant_ok w k p t R Q W x p' :
  lock_ok NO_THREAD w k p t R Q W -> p t = Idle -> t <> MAIN_THREAD -> x = InRdlock \/ x = InWrlock ->
  moved p t x p' -> lock_ok t w k p' t R Q W.
Proof.
  intros Hok Hp Hmain Hx Hm. pose proof (lk_cur _ _ _ _ _ _ _ _ Hok) as Ht.
  pose proof (nreading_moved _ _ _ _ Hm Ht) as Hk. destruct Hm as [Hpt Hpu].
  destruct (lk_unowned _ _ _ _ _ _ _ _ Hok eq_refl) as (-> & -> & ->).
  pose proof (fun u => lk_some u) as Hs. pose proof (lk_in _ _ _ _ _ _ _ _ Hok) as Hin.
  destruct Hok as [K1 K2 K3 K4 K5 K6 K7 K8 K9]. constructor; [done|..].
  - split; [apply K2|]. rewrite Hpu by done. apply K2.
  - rewrite Hk, Hp, K3. count_readers.
  - by intros u ?%elem_of_nil.
  - by intros u ?%elem_of_nil.
  - intros u Hu. destruct (decide (u = t)) as [->|Hne]; [rewrite Hpt; tauto|]. rewrite Hpu by done.
    destruct (K6 u Hu) as [?|[?|[?|[[_ ?]|(_ & ? & _)]]]]; [by auto..| |]; destruct (Hs u); try done; apply Hin; auto.
  - intros u Hu Hw. destruct (decide (u = t)) as [->|Hne]; [intuition congruence|]. rewrite Hpu in Hw by done.
    destruct (K7 u Hu Hw) as [? _]. by destruct (Hs u).
  - done.
  - intros _. right. split; [by left|]. by rewrite Hpt.
Qed.

(** The running thread waits for the lock. *)
Lemma block_ok o w k p t r R Q W x p' :
  lock_ok o w k p t (r :: R) Q W -> p t = Idle -> t <> MAIN_THREAD -> o <> NO_THREAD ->
  x = InRdlock \/ x = InWrlock -> moved p t x p' -> lock_ok o w k p' r R (Q ++ [t]) W.
Proof.
  intros Hok Hp Hmain Ho Hx Hm. pose proof (lk_cur _ _ _ _ _ _ _ _ Hok) as Ht.
  pose proof (nreading_moved _ _ _ _ Hm Ht) as Hk. destruct Hm as [Hpt Hpu].
  pose proof (lk_nodup _ _ _ _ _ _ _ _ Hok) as Hnd. apply NoDup_cons in Hnd as [Hnt _].
  rewrite !elem_of_app in Hnt.
  destruct Hok as [K1 K2 K3 K4 K5 K6 K7 K8 K9]. constructor.
  - rewrite <- K1. solve_Permutation.
  - rewrite Hpu by done. split; [|apply K2]. destruct K2 as [K2 _]. apply elem_of_cons in K2 as [?|?]; done.
  - rewrite Hk, Hp, K3. count_readers.
  - intros u [Hu| ->%list_elem_of_singleton]%elem_of_app; [|by rewrite Hpt].
    rewrite Hpu; [by apply K4|]. intros ->. tauto.
  - intros u Hu. rewrite Hpu; [by apply K5|]. intros ->. tauto.
  - intros u Hu. rewrite Hpu; [apply K6; by right|]. intros ->. tauto.
  - intros u Hu Hw. destruct (decide (u = t)) as [->|Hne]; [intuition congruence|]. rewrite Hpu in Hw by done. by apply K7.
  - intros Hw. destruct (K8 Hw) as (? & ? & H). rewrite Hpu; [done|]. intros ->. intuition congruence.
  - intros _. destruct (K9 Ho) as [?|[Hin Hpo]]; [by left|right].
    assert (o <> t) as Hot by (intros ->; intuition congruence). rewrite Hpu by done.
    split; [|done]. apply elem_of_cons in Hin as [?|?]; done.
Qed.

(** The owner gives the lock to the first in the queue. *)
Lemma release_ok w k p t R Q x p' :
  lock_ok t w k p t R Q [] -> w = NO_THREAD \/ w = t -> x = Reading \/ x = Idle -> t <> MAIN_THREAD ->
  moved p t x p' ->
  lock_ok (default NO_THREAD (head Q)) NO_THREAD (nreading p') p' t (R ++ take 1 Q) (tail Q) [].
Proof.
  intros Hok Hw Hx Hmain Hm. pose proof (lk_nodup _ _ _ _ _ _ _ _ Hok) as Hnd.
  apply NoDup_cons in Hnd as [Hnt Hnd]. rewrite !elem_of_app in Hnt. destruct Hm as [Hpt Hpu].
  pose proof (lk_in _ _ _ _ _ _ _ _ Hok) as Hin.
  destruct Hok as [K1 K2 K3 K4 K5 K6 K7 K8 K9].
  assert (forall u, u ∈ Q -> p' u = InRdlock \/ p' u = InWrlock) as HQ.
  { intros u Hu. rewrite Hpu; [by apply K4|]. intros ->. tauto. }
  assert (forall u, u ∈ ts -> u <> NO_THREAD) as Hs by (intros u; apply lk_some).
  assert (head Q = None \/ exists q, head Q = Some q /\ q ∈ Q /\ q ∈ R ++ take 1 Q) as Hhead.
  { destruct Q as [|q Q']; [by left|right]. exists q. split_and!; [done|by left|].
    cbn. apply elem_of_app. right. left. }
  constructor.
  - rewrite <- K1. destruct Q as [|q Q']; cbn; [by rewrite !app_nil_r|solve_Permutation].
  - rewrite Hpu by done. split; [|apply K2]. destruct K2 as [K2 _]. apply elem_of_cons in K2 as [?|?]; [done|].
    right. apply elem_of_app. by left.
  - done.
  - intros u Hu. split; [apply HQ; destruct Q; [done|by right]|].
    destruct Hhead as [Hh|(q & -> & Hq & _)]; [destruct Q; [by apply elem_of_nil in Hu|done]|].
    cbn. apply Hs, Hin. auto.
  - by intros u ?%elem_of_nil.
  - intros u [->|[Hu|Hu]%elem_of_app]%elem_of_cons; [rewrite Hpt; tauto| |].
    + assert (u <> t) as Hne by (intros ->; tauto). rewrite Hpu by done.
      destruct (K6 u) as [?|[?|[?|[[_ ?]|(_ & ? & _)]]]]; [by right|by auto..| |]; [congruence|].
      destruct Hw; [|congruence]. destruct (Hs u); [|congruence]. apply Hin. left. by right.
    + destruct Q as [|q Q']; [by apply elem_of_nil in Hu|]. cbn in Hu. apply elem_of_cons in Hu as [->|Hu];
        [|by apply elem_of_nil in Hu]. do 3 right. left. split; [apply HQ; left|done].
  - intros u Hu Hwr. destruct (decide (u = t)) as [->|Hne]; [intuition congruence|]. rewrite Hpu in Hwr by done.
    destruct (K7 u Hu Hwr) as [Hwu _]. destruct Hw; [|congruence]. destruct (Hs u); congruence.
  - done.
  - intros Hne. destruct Hhead as [Hh|(q & Hh & Hq & HR)]; [by rewrite Hh in Hne|]. rewrite Hh. right. cbn.
    split; [by right|by apply HQ].
Qed.

(** The owner writes: at once, or when the readers have left. *)
Lemma writing_ok o w p t R Q W p' :
  lock_ok o w 0 p t R Q W -> p t = InWrlock \/ (p t = InWrlockWait /\ w = t) ->
  t <> MAIN_THREAD -> moved p t Writing p' -> lock_ok o t 0 p' t R Q [].
Proof.
  intros Hok Hp Hmain Hm. pose proof (lk_cur _ _ _ _ _ _ _ _ Hok) as Ht.
  pose proof (nreading_moved _ _ _ _ Hm Ht) as Hk. destruct Hm as [Hpt Hpu].
  assert (W = [] /\ o = t /\ (w = NO_THREAD \/ w = t)) as (-> & -> & Hw).
  { split.
    - apply elem_of_nil_inv. intros u Hu. destruct (lk_waiting _ _ _ _ _ _ _ _ Hok u Hu). lia.
    - destruct Hp as [Hp|[Hp ->]].
      + destruct (lk_granted _ _ _ _ _ _ _ _ Hok) as (-> & -> & _); auto.
      + destruct (lk_writer _ _ _ _ _ _ _ _ Hok) as (-> & _); [by apply lk_some|auto]. }
  pose proof (lk_nodup _ _ _ _ _ _ _ _ Hok) as Hnd. apply NoDup_cons in Hnd as [Hnt _].
  rewrite !elem_of_app in Hnt. pose proof (lk_in _ _ _ _ _ _ _ _ Hok) as Hin.
  assert (forall u, u ∈ ts -> u <> NO_THREAD) as Hs by (intros u; apply lk_some).
  destruct Hok as [K1 K2 K3 K4 K5 K6 K7 K8 K9]. constructor; [done|..].
  - rewrite Hpu by done. apply K2.
  - rewrite Hk, <- K3. count_readers.
  - intros u Hu. rewrite Hpu; [by apply K4|]. intros ->. tauto.
  - by intros u ?%elem_of_nil.
  - intros u Hu. destruct (decide (u = t)) as [->|Hne]; [tauto|]. rewrite Hpu by done.
    destruct (K6 u Hu) as [?|[?|[?|[[_ ?]|(_ & ? & _)]]]]; [by auto..| |]; [congruence|].
    destruct Hw; [|congruence]. destruct (Hs u); [|congruence]. apply Hin. auto.
  - intros u Hu Hwr. destruct (decide (u = t)) as [->|Hne]; [done|]. rewrite Hpu in Hwr by done.
    destruct (K7 u Hu Hwr) as [Hwu _]. destruct Hw; [|congruence]. destruct (Hs u); congruence.
  - intros _. split_and!; [done|done|by right].
  - by left.
Qed.

(** The owner waits for the readers to leave. *)
Lemma wait_ok o w k p t r R Q W p' :
  lock_ok o w k p t (r :: R) Q W -> p t = InWrlock -> 0 < k -> t <> MAIN_THREAD ->
  moved p t InWrlockWait p' -> lock_ok o t k p' r R Q (W ++ [t]).
Proof.
  intros Hok Hp Hpos Hmain Hm. pose proof (lk_cur _ _ _ _ _ _ _ _ Hok) as Ht.
  pose proof (nreading_moved _ _ _ _ Hm Ht) as Hk. destruct Hm as [Hpt Hpu].
  destruct (lk_granted _ _ _ _ _ _ _ _ Hok) as (-> & -> & ->); [by auto|].
  pose proof (lk_nodup _ _ _ _ _ _ _ _ Hok) as Hnd. apply NoDup_cons in Hnd as [Hnt _].
  rewrite !elem_of_app in Hnt. pose proof (lk_in _ _ _ _ _ _ _ _ Hok) as Hin.
  assert (forall u, u ∈ ts -> u <> NO_THREAD) as Hs by (intros u; apply lk_some).
  destruct Hok as [K1 K2 K3 K4 K5 K6 K7 K8 K9]. constructor.
  - rewrite <- K1. cbn. solve_Permutation.
  - rewrite Hpu by done. split; [|apply K2]. destruct K2 as [K2 _]. apply elem_of_cons in K2 as [?|?]; done.
  - rewrite Hk, Hp, <- K3. count_readers.
  - intros u Hu. rewrite Hpu; [by apply K4|]. intros ->. tauto.
  - intros u ->%list_elem_of_singleton. done.
  - intros u Hu. assert (u <> t) as Hne by (intros ->; tauto). rewrite Hpu by done.
    destruct (K6 u) as [?|[?|[?|[[_ ?]|(_ & ? & _)]]]]; [by right|by auto..| |]; [congruence|].
    destruct (Hs u); [|congruence]. apply Hin. left. by right.
  - intros u Hu Hwr. destruct (decide (u = t)) as [->|Hne]; [congruence|]. rewrite Hpu in Hwr by done.
    destruct (K7 u Hu Hwr) as [Hwu _]. destruct (Hs u); congruence.
  - intros _. split_and!; [done|done|by left].
  - by left.
Qed.

(** With readers inside, the writer is in its queue. *)
Lemma writer_waits o w k p t R Q W : lock_ok o w k p t R Q W -> 0 < k -> w <> NO_THREAD -> W = [w].
Proof.
  intros Hok Hk Hw. destruct (lk_writer _ _ _ _ _ _ _ _ Hok Hw) as (_ & Hin & Hpw).
  pose proof (lk_nodup _ _ _ _ _ _ _ _ Hok) as Hnd.
  assert (w ∈ W) as HW.
  { assert (p w = InWrlockWait) as Hp.
    { destruct Hpw as [|Hpw]; [done|]. destruct (lk_writing _ _ _ _ _ _ _ _ Hok w Hin Hpw). lia. }
    apply (lk_in _ _ _ _ _ _ _ _ Hok) in Hin as [Hin|[Hin|Hin]]; [..|done].
    - destruct (lk_running _ _ _ _ _ _ _ _ Hok w Hin) as [?|[?|[?|[[? _]|(_ & _ & ?)]]]]; [intuition congruence..|lia].
    - destruct (lk_queued _ _ _ _ _ _ _ _ Hok w Hin) as [? _]. intuition congruence. }
  pose proof (lk_waiting _ _ _ _ _ _ _ _ Hok) as Hall. clear Hok.
  destruct W as [|u [|v W']]; [by apply elem_of_nil in HW|..].
  - f_equal. by apply list_elem_of_singleton in HW.
  - destruct (Hall u) as (_ & Hu & _); [left|]. destruct (Hall v) as (_ & Hv & _); [right; left|].
    exfalso. rewrite !app_comm_cons, app_assoc in Hnd. apply NoDup_app in Hnd as (_ & _ & Hnd).
    apply NoDup_cons in Hnd as [Hnd _]. apply Hnd. replace u with v by congruence. left.
Qed.

(** A reader leaves; the last one wakes the writer. *)
Lemma read_unlock_ok o w k p t R Q W p' :
  lock_ok o w k p t R Q W -> p t = Reading -> t <> MAIN_THREAD -> moved p t Idle p' ->
  if (k - 1 =? 0) && negb (w =? NO_THREAD) then lock_ok o w (k - 1) p' t (R ++ W) Q []
  else lock_ok o w (k - 1) p' t R Q W.
Proof.
  intros Hok Hp Hmain Hm. pose proof (lk_cur _ _ _ _ _ _ _ _ Hok) as Ht.
  assert (0 < k) as Hpos by (rewrite (lk_readers _ _ _ _ _ _ _ _ Hok); by apply nreading_pos with t).
  pose proof (nreading_moved _ _ _ _ Hm Ht) as Hk. destruct Hm as [Hpt Hpu].
  pose proof (writer_waits _ _ _ _ _ _ _ _ Hok Hpos) as Hww.
  pose proof (lk_no_writer _ _ _ _ _ _ _ _ Hok) as Hnw.
  pose proof (lk_nodup _ _ _ _ _ _ _ _ Hok) as Hnd. apply NoDup_cons in Hnd as [Hnt _].
  rewrite !elem_of_app in Hnt.
  destruct Hok as [K1 K2 K3 K4 K5 K6 K7 K8 K9].
  assert (k - 1 = nreading p') as Hk' by (rewrite Hk, Hp, K3; count_readers).
  assert (p' MAIN_THREAD = Idle) as HM by (rewrite Hpu by done; apply K2).
  assert (forall u, u ∈ Q -> (p' u = InRdlock \/ p' u = InWrlock) /\ o <> NO_THREAD) as HQ.
  { intros u Hu. rewrite Hpu; [by apply K4|]. intros ->. tauto. }
  assert (forall u, u ∈ t :: R ->
    p' u = Idle \/ p' u = Reading \/ p' u = Writing \/ ((p' u = InRdlock \/ p' u = InWrlock) /\ o = u) \/
    (p' u = InWrlockWait /\ w = u /\ k - 1 = 0)) as HR.
  { intros u Hu. destruct (decide (u = t)) as [->|Hne]; [auto|]. rewrite Hpu by done.
    destruct (K6 u Hu) as [?|[?|[?|[?|(_ & _ & ?)]]]]; [by auto..|lia]. }
  assert (forall u, u ∈ ts -> p' u = Writing -> w = u /\ k - 1 = 0) as Hwr.
  { intros u Hu Hwr. destruct (decide (u = t)) as [->|Hne]; [congruence|]. rewrite Hpu in Hwr by done.
    destruct (K7 u Hu Hwr). lia. }
  assert (w <> NO_THREAD -> o = w /\ w ∈ ts /\ (p' w = InWrlockWait \/ p' w = Writing)) as Hwt.
  { intros Hw. destruct (K8 Hw) as (? & ? & ?). rewrite Hpu; [done|]. intros ->. intuition congruence. }
  assert (o <> NO_THREAD -> o = w \/ (o ∈ t :: R /\ (p' o = InRdlock \/ p' o = InWrlock))) as Ho.
  { intros Hne. destruct (K9 Hne) as [?|[? ?]]; [by left|right]. rewrite Hpu; [done|]. intros ->. intuition congruence. }
  destruct (_ && _) eqn:Hlast.
  - assert (w <> NO_THREAD) as Hw by lia. assert (k - 1 = 0) as Hk0 by lia. specialize (Hww Hw). rewrite Hww in *. constructor; try done.
    + rewrite <- K1. solve_Permutation.
    + split; [|done]. rewrite app_comm_cons, elem_of_app. left. apply K2.
    + by intros u ?%elem_of_nil.
    + intros u. rewrite app_comm_cons, elem_of_app. intros [Hu| ->%list_elem_of_singleton]; [by apply HR|].
      do 4 right. destruct (K5 w) as (? & _); [left|]. rewrite Hpu; [done|]. intros ->. congruence.
    + intros Hne. rewrite app_comm_cons, elem_of_app. destruct (Ho Hne); tauto.
  - constructor; try done; [by split; [apply K2|]|].
    intros u Hu. destruct (K5 u Hu) as (? & Hwu & _). assert (u <> t) as Hne by (intros ->; tauto).
    rewrite Hpu by done. split_and!; [done|done|].
    destruct (decide (w = NO_THREAD)) as [E|E]; [rewrite (Hnw E) in Hu; by apply elem_of_nil in Hu|]. lia.
Qed.

(** The running thread goes to the end of the queue. *)
Lemma yield_ok o w k p t r R Q W : lock_ok o w k p t (r :: R) Q W -> lock_ok o w k p r (R ++ [t]) Q W.
Proof.
  intros [K1 K2 K3 K4 K5 K6 K7 K8 K9].
  assert (forall u, u ∈ r :: R ++ [t] <-> u ∈ t :: r :: R) as Hin.
  { intros u. rewrite !elem_of_cons, elem_of_app, list_elem_of_singleton. tauto. }
  constructor; try done.
  - rewrite <- K1. solve_Permutation.
  - by rewrite Hin.
  - intros u Hu. apply K6. by rewrite <- Hin.
  - by rewrite Hin.
Qed.

(** When nothing can run and nobody is inside, nobody waits. *)
Lemma nobody_forgotten o w k p Q W : lock_ok o w k p MAIN_THREAD [] Q W ->
  (forall u, u ∈ ts -> p u <> Reading /\ p u <> Writing) -> forall u, u ∈ ts -> p u = Idle.
Proof.
  intros Hok Hout. assert (k = 0) as Hk.
  { rewrite (lk_readers _ _ _ _ _ _ _ _ Hok). unfold nreading.
    rewrite (elem_of_nil_inv (filter _ ts)); [done|]. intros u [Hu Hin]%list_elem_of_filter. by destruct (Hout u). }
  assert (w = NO_THREAD) as Hw.
  { destruct (decide (w = NO_THREAD)) as [|Hw]; [done|]. destruct (lk_writer _ _ _ _ _ _ _ _ Hok Hw) as (_ & Hin & Hp).
    destruct (Hout w Hin) as [_ Hnw]. destruct Hp as [Hp|]; [|done].
    apply (lk_in _ _ _ _ _ _ _ _ Hok) in Hin as [->%list_elem_of_singleton|[Hin|Hin]].
    - pose proof (lk_main _ _ _ _ _ _ _ _ Hok) as [_ Hm]. congruence.
    - destruct (lk_queued _ _ _ _ _ _ _ _ Hok w Hin) as [? _]. intuition congruence.
    - destruct (lk_waiting _ _ _ _ _ _ _ _ Hok w Hin) as (_ & _ & ?). lia. }
  assert (o = NO_THREAD) as Ho.
  { destruct (decide (o = NO_THREAD)) as [|Ho]; [done|]. destruct (lk_owner _ _ _ _ _ _ _ _ Hok Ho) as [|[Hin Hp]]; [congruence|].
    apply list_elem_of_singleton in Hin as ->. pose proof (lk_main _ _ _ _ _ _ _ _ Hok) as [_ Hm]. intuition congruence. }
  destruct (lk_unowned _ _ _ _ _ _ _ _ Hok Ho) as (_ & -> & ->).
  intros u Hu. apply (lk_in _ _ _ _ _ _ _ _ Hok) in Hu as [->%list_elem_of_singleton|[Hu|Hu]];
    [apply (lk_main _ _ _ _ _ _ _ _ Hok)|by apply elem_of_nil in Hu..].
Qed.
End lock.

(** ** The operations on the queues *)

(** The rest of the state is as before, apart from the links of [l]. *)
Definition same_but (l : list Z) (c c' : coro) : Prop :=
  nr_threads c' = nr_threads c /\ forall u, u ∉ l -> tcb_next c' u = tcb_next c u.

Lemma wake_spec c t R :
  valid (nr_threads c) t -> queue_is (tcb_next c) (run_queue c) R -> NoDup R -> t ∉ R ->
  exists c', coro_unsuspend t c = Ret c' /\ current_thread c' = current_thread c /\ same_but R c c' /\
    queue_is (tcb_next c') (run_queue c') (R ++ [t]).
Proof.
  intros Hv Hq Hnd Ht. unfold coro_unsuspend. rewrite find_valid, res_ret_bind by done.
  set (c1 := c <| tcb_state ::= _ |>).
  assert (tcb_next c1 = tcb_next c /\ run_queue c1 = run_queue c /\ nr_threads c1 = nr_threads c /\
          current_thread c1 = current_thread c) as (E1 & E2 & E3 & E4) by (by destruct c).
  clearbody c1. destruct (enqueue_spec c1 (run_queue c1) t R) as (nx & q' & He & Hq' & Hf);
    [by rewrite E3|by rewrite E1, E2|done|done|].
  rewrite He, res_ret_bind. eexists. split; [reflexivity|]. destruct c1. cbn in *. subst. by split_and!.
Qed.

Lemma schedule_spec c r R :
  valid (nr_threads c) (current_thread c) -> valid (nr_threads c) r ->
  queue_is (tcb_next c) (run_queue c) (r :: R) -> NoDup (r :: R) ->
  exists c', coro_schedule c = Ret (c', true) /\ current_thread c' = r /\ same_but [r] c c' /\
    queue_is (tcb_next c') (run_queue c') R.
Proof.
  intros Hv Hr Hq Hnd. unfold coro_schedule. rewrite (queue_is_empty _ _ _ Hq), bool_decide_eq_false_2 by done.
  destruct (dequeue_spec _ _ _ _ Hq Hnd) as (nx & q' & Hd & Hq' & Hf). rewrite Hd. cbv beta iota zeta.
  set (c' := _ <| current_thread := r |>).
  assert (current_thread c' = r /\ nr_threads c' = nr_threads c /\ tcb_next c' = nx /\ run_queue c' = q')
    as (E1 & E2 & E3 & E4) by (by destruct c).
  clearbody c'. exists c'. rewrite !find_valid, !res_ret_bind by congruence. rewrite E3, E4.
  split_and!; try done. split; [done|]. intros u Hu. rewrite E3. apply Hf. intros ->. apply Hu. left.
Qed.

Lemma suspend_spec st c r R :
  valid (nr_threads c) (current_thread c) -> valid (nr_threads c) r ->
  queue_is (tcb_next c) (run_queue c) (r :: R) -> NoDup (r :: R) ->
  exists c', coro_suspend st c = Ret (c', true) /\ current_thread c' = r /\ same_but [r] c c' /\
    queue_is (tcb_next c') (run_queue c') R.
Proof.
  intros Hv Hr Hq Hnd. unfold coro_suspend. rewrite find_valid, res_ret_bind by done.
  destruct (schedule_spec (c <| tcb_state ::= <[current_thread c := st]> |>) r R) as (c' & Hs & Hc & Hsame & Hq');
    [by destruct c..|].
  exists c'. split_and!; [done|done|by destruct c|done].
Qed.

(** The running thread joins queue [q] and the first of the run queue runs. *)
Lemma block_spec c q L r R :
  (forall u, u ∈ current_thread c :: r :: R ++ L -> valid (nr_threads c) u) ->
  queue_is (tcb_next c) (run_queue c) (r :: R) -> queue_is (tcb_next c) q L ->
  NoDup (current_thread c :: r :: R ++ L) ->
  exists c1 c' q', coro_queue_enqueue c q (current_thread c) = Ret (c1, q') /\
    coro_suspend CR_BLOCKED c1 = Ret (c', true) /\ current_thread c' = r /\ same_but (r :: L) c c' /\
    queue_is (tcb_next c') (run_queue c') R /\ queue_is (tcb_next c') q' (L ++ [current_thread c]).
Proof.
  intros Hv Hrun Hq Hnd. apply NoDup_cons in Hnd as [Hc Hnd]. rewrite app_comm_cons in Hnd, Hc.
  apply NoDup_app in Hnd as (HndR & Hdis & HndL). apply not_elem_of_app in Hc as [HcR HcL].
  destruct (enqueue_spec c q (current_thread c) L) as (nx & q' & He & Hq' & Hf); [apply Hv; left|done..|].
  set (c1 := c <| tcb_next := nx |>) in *.
  assert (tcb_next c1 = nx /\ run_queue c1 = run_queue c /\ nr_threads c1 = nr_threads c /\
          current_thread c1 = current_thread c) as (E1 & E2 & E3 & E4) by (by destruct c). clearbody c1.
  destruct (suspend_spec CR_BLOCKED c1 r R) as (c' & Hs & Hcur & Hsame & Hrun'); rewrite ?E1, ?E2, ?E3, ?E4; try done.
  { apply Hv. left. } { apply Hv. right; left. }
  { eapply queue_frame; [|exact Hrun]. intros u Hu. by apply Hf, Hdis. }
  destruct Hsame as [Hnr Hnx]. exists c1, c', q'. split_and!; try done.
  - split; [congruence|]. intros u [Hur HuL]%not_elem_of_cons. rewrite Hnx, E1; [by apply Hf|].
    by intros ->%list_elem_of_singleton.
  - eapply queue_frame; [|exact Hq']. intros u Hu. rewrite Hnx, E1; [done|]. intros ->%list_elem_of_singleton.
    apply elem_of_app in Hu as [Hu|Hu%list_elem_of_singleton]; [apply (Hdis r); [left|done]|].
    apply HcR. rewrite <- Hu. left.
Qed.

(** The first of queue [q], if any, becomes runnable. *)
Lemma hand_spec c q L R :
  (forall u, u ∈ L -> valid (nr_threads c) u) ->
  queue_is (tcb_next c) (run_queue c) R -> queue_is (tcb_next c) q L -> NoDup (R ++ L) ->
  exists c1 c' q', coro_queue_dequeue c q = (c1, q', default NO_THREAD (head L)) /\
    (if negb (default NO_THREAD (head L) =? NO_THREAD) then coro_unsuspend (default NO_THREAD (head L)) c1 else Ret c1)
      = Ret c' /\
    current_thread c' = current_thread c /\ same_but (R ++ L) c c' /\
    queue_is (tcb_next c') (run_queue c') (R ++ take 1 L) /\ queue_is (tcb_next c') q' (tail L).
Proof.
  intros Hv Hrun Hq Hnd. apply NoDup_app in Hnd as (HndR & Hdis & HndL). destruct L as [|t L].
  { exists c, c, q. rewrite (dequeue_nil _ _ Hq), !app_nil_r. done. }
  destruct (dequeue_spec c q t L Hq HndL) as (nx & q' & Hd & Hq' & Hf). apply NoDup_cons in HndL as [HtL HndL].
  set (c1 := c <| tcb_next := nx |>) in *.
  assert (tcb_next c1 = nx /\ run_queue c1 = run_queue c /\ nr_threads c1 = nr_threads c /\
          current_thread c1 = current_thread c) as (E1 & E2 & E3 & E4) by (by destruct c). clearbody c1.
  assert (valid (nr_threads c) t) as Hvt by (apply Hv; left).
  assert (t ∉ R) as HtR by (intros Hin; apply (Hdis t Hin); left).
  destruct (wake_spec c1 t R) as (c' & Hw & Hcur & [Hnr Hnx] & Hrun'); rewrite ?E1, ?E2, ?E3; try done.
  { eapply queue_frame; [|exact Hrun]. intros u Hu. apply Hf. by intros ->. }
  exists c1, c', q'. change (default NO_THREAD (head (t :: L))) with t. change (tail (t :: L)) with L.
  assert ((t =? NO_THREAD) = false) as Ht by (destruct Hvt; unfold MAIN_THREAD, NO_THREAD in *; lia).
  rewrite Ht. split_and!; try done; [congruence|split; [congruence|]|].
  - intros u [HuR HuL]%not_elem_of_app. rewrite Hnx, E1 by done. apply Hf. intros ->. apply HuL. left.
  - eapply queue_frame; [|exact Hq']. intros u Hu. rewrite Hnx, E1; [done|]. intros HuR. apply (Hdis u HuR). by right.
Qed.

Lemma unlock_spec c m L R :
  m_owner m = current_thread c -> (forall u, u ∈ L -> valid (nr_threads c) u) ->
  queue_is (tcb_next c) (run_queue c) R -> queue_is (tcb_next c) (m_queue m) L -> NoDup (R ++ L) ->
  exists c' q', coro_mutex_unlock c m = Ret (c', mk_mutex (default NO_THREAD (head L)) q', 0) /\
    current_thread c' = current_thread c /\ same_but (R ++ L) c c' /\
    queue_is (tcb_next c') (run_queue c') (R ++ take 1 L) /\ queue_is (tcb_next c') q' (tail L).
Proof.
  intros Ho Hv Hrun Hq Hnd. destruct (hand_spec c (m_queue m) L R Hv Hrun Hq Hnd) as (c1 & c' & q' & Hd & Hw & H).
  exists c', q'. split; [|done]. unfold coro_mutex_unlock. rewrite Ho, Z.eqb_refl. cbn [negb].
  rewrite Hd. cbv beta iota zeta. by rewrite Hw, res_ret_bind.
Qed.

Lemma signal_spec c q L R :
  (forall u, u ∈ L -> valid (nr_threads c) u) ->
  queue_is (tcb_next c) (run_queue c) R -> queue_is (tcb_next c) q L -> NoDup (R ++ L) ->
  exists c' q', coro_cond_signal c q = Ret (c', q', 0) /\
    current_thread c' = current_thread c /\ same_but (R ++ L) c c' /\
    queue_is (tcb_next c') (run_queue c') (R ++ take 1 L) /\ queue_is (tcb_next c') q' (tail L).
Proof.
  intros Hv Hrun Hq Hnd. destruct (hand_spec c q L R Hv Hrun Hq Hnd) as (c1 & c' & q' & Hd & Hw & H).
  exists c', q'. split; [|done]. unfold coro_cond_signal. rewrite Hd. cbv beta iota zeta. by rewrite Hw, res_ret_bind.
Qed.

(** [coro_cond_broadcast] wakes all that wait, in order. *)
Lemma broadcast_spec fuel c q L R :
  (length L < fuel)%nat -> (forall u, u ∈ L -> valid (nr_threads c) u) ->
  queue_is (tcb_next c) (run_queue c) R -> queue_is (tcb_next c) q L -> NoDup (R ++ L) ->
  exists c' q', broadcast_loop fuel c q = Ret (c', q') /\
    current_thread c' = current_thread c /\ queue_is (tcb_next c') (run_queue c') (R ++ L) /\
    queue_is (tcb_next c') q' [].
Proof.
  revert c q L R. induction fuel as [|fuel IH]; intros c q L R Hf Hv Hrun Hq Hnd; [lia|]. cbn [broadcast_loop].
  rewrite (queue_is_empty _ _ _ Hq). destruct L as [|t L].
  { rewrite bool_decide_eq_true_2, app_nil_r by done. by exists c, q. }
  rewrite bool_decide_eq_false_2 by done.
  destruct (hand_spec c q (t :: L) R Hv Hrun Hq Hnd) as (c1 & c' & q' & Hd & Hw & Hc & [Hnr _] & Hrun' & Hq').
  rewrite Hd. cbv beta iota zeta. rewrite Hw, res_ret_bind.
  change (R ++ take 1 (t :: L)) with (R ++ [t]) in Hrun'. change (tail (t :: L)) with L in Hq'. cbn [length] in Hf.
  destruct (IH c' q' L (R ++ [t])) as (c2 & q2 & Hl & Hc2 & Hrun2 & Hq2); [lia| |done|done|by rewrite <- app_assoc|].
  { intros u Hu. rewrite Hnr. apply Hv. by right. }
  rewrite <- app_assoc in Hrun2. exists c2, q2. split_and!; [done|congruence|done|done].
Qed.

(** ** The operations on the lock *)

Definition all_threads (n : Z) : list Z := MAIN_THREAD :: seqZ 0 n.

Lemma all_threads_nodup n : NoDup (all_threads n).
Proof. apply NoDup_cons. split; [rewrite elem_of_seqZ; unfold MAIN_THREAD; lia|apply NoDup_seqZ]. Qed.

Lemma all_threads_valid n t : t ∈ all_threads n <-> valid n t.
Proof. unfold all_threads, valid. rewrite elem_of_cons, elem_of_seqZ. split; (intros [?|?]; [by left|right; lia]). Qed.

Lemma all_threads_none n : NO_THREAD ∉ all_threads n.
Proof. rewrite all_threads_valid. unfold valid, NO_THREAD, MAIN_THREAD. lia. Qed.

Lemma nreading_bound n p : 0 <= n < 2 ^ 31 -> 0 <= nreading (all_threads n) p < 2 ^ 32.
Proof.
  intros Hn. unfold nreading. pose proof (length_filter (fun t => p t = Reading) (all_threads n)) as H.
  unfold all_threads in *. cbn [length] in H. rewrite length_seqZ in H. lia.
Qed.

Section operations.
Context (n : Z) (Hn : 0 <= n < 2 ^ 31).
Notation ts := (all_threads n).

(** The queues and the lock are in order, the points being [p]. *)
Record inv_at (c : coro) (l : coro_rwlock) (p : Z -> point) (R Q W : list Z) : Prop := {
  iv_nr : nr_threads c = n;
  iv_run : queue_is (tcb_next c) (run_queue c) R;
  iv_queue : queue_is (tcb_next c) (m_queue (reader_queue l)) Q;
  iv_wait : queue_is (tcb_next c) (writer_queue l) W;
  iv_mutex : m_owner (rw_mutex l) = NO_THREAD /\ q_head (m_queue (rw_mutex l)) = None;
  iv_lock : lock_ok ts (m_owner (reader_queue l)) (writer l) (readers l) p (current_thread c) R Q W
}.

Definition inv (s : threads) : Prop := exists R Q W, inv_at (th_coro s) (th_lock s) (th_point s) R Q W.

Section at_point.
Context (c : coro) (l : coro_rwlock) (p : Z -> point) (R Q W : list Z) (Hinv : inv_at c l p R Q W).

Lemma inv_nodup : NoDup (current_thread c :: R ++ Q ++ W).
Proof. apply (lk_nodup _ (all_threads_nodup n) _ _ _ _ _ _ _ _ (iv_lock _ _ _ _ _ _ Hinv)). Qed.

Lemma inv_valid u : u ∈ current_thread c :: R ++ Q ++ W -> valid (nr_threads c) u.
Proof.
  intros Hu. rewrite (iv_nr _ _ _ _ _ _ Hinv). apply all_threads_valid.
  by rewrite <- (lk_all _ _ _ _ _ _ _ _ _ (iv_lock _ _ _ _ _ _ Hinv)).
Qed.

Lemma inv_cur_some : current_thread c <> NO_THREAD.
Proof.
  intros He. apply (all_threads_none n). rewrite <- He, <- (lk_all _ _ _ _ _ _ _ _ _ (iv_lock _ _ _ _ _ _ Hinv)). left.
Qed.

(** A thread that may wait is not alone. *)
Lemma inv_next : current_thread c <> MAIN_THREAD -> exists r R', R = r :: R'.
Proof.
  intros Hm. destruct (lk_main _ _ _ _ _ _ _ _ _ (iv_lock _ _ _ _ _ _ Hinv)) as [[?|Hin]%elem_of_cons _]; [congruence|].
  destruct R as [|r R']; [by apply elem_of_nil in Hin|eauto].
Qed.
End at_point.

(** Locking and unlocking a mutex nobody waits for. *)
Lemma lock_free c m : m_owner m = NO_THREAD -> current_thread c <> NO_THREAD ->
  coro_mutex_lock c m = Ret (c, mk_mutex (current_thread c) (m_queue m), Some 0).
Proof.
  intros Ho Hc. unfold coro_mutex_lock, coro_mutex_trylock. rewrite Ho.
  destruct (NO_THREAD =? _) eqn:E; b2p; [congruence|]. by destruct m.
Qed.

Lemma unlock_free c m : m_owner m = current_thread c -> q_head (m_queue m) = None ->
  coro_mutex_unlock c m = Ret (c, mk_mutex NO_THREAD (m_queue m), 0).
Proof.
  intros Ho Hq. unfold coro_mutex_unlock. rewrite Ho, Z.eqb_refl. unfold coro_queue_dequeue. by rewrite Hq.
Qed.

Lemma lock_busy c m r R L :
  m_owner m <> NO_THREAD -> m_owner m <> current_thread c ->
  (forall u, u ∈ current_thread c :: r :: R ++ L -> valid (nr_threads c) u) ->
  queue_is (tcb_next c) (run_queue c) (r :: R) -> queue_is (tcb_next c) (m_queue m) L ->
  NoDup (current_thread c :: r :: R ++ L) ->
  exists c' q', coro_mutex_lock c m = Ret (c', mk_mutex (m_owner m) q', None) /\
    current_thread c' = r /\ same_but (r :: L) c c' /\
    queue_is (tcb_next c') (run_queue c') R /\ queue_is (tcb_next c') q' (L ++ [current_thread c]).
Proof.
  intros Ho Hc Hv Hrun Hq Hnd. destruct (block_spec c (m_queue m) L r R Hv Hrun Hq Hnd) as (c1 & c' & q' & He & Hs & H).
  exists c', q'. split; [|done]. unfold coro_mutex_lock, coro_mutex_trylock.
  destruct (m_owner m =? current_thread c) eqn:E1; b2p; [done|]. destruct (m_owner m =? NO_THREAD) eqn:E2; b2p; [done|].
  change (EBUSY =? EBUSY) with true. cbv iota. rewrite He, res_ret_bind. cbv beta iota zeta. rewrite Hs, res_ret_bind.
  by destruct m.
Qed.

Lemma moved_leave (s : threads) p t x :
  (forall u, u <> t -> p u = th_point s u) -> moved p t x (<[t := x]> (th_point s)).
Proof. intros Hp. destruct (moved_insert (th_point s) t x) as [H1 H2]. split; [done|]. intros u Hu. by rewrite H2, Hp. Qed.

(** The owner of [reader_queue] reads. *)
Lemma rdlock_locked_ok s c l p R Q W :
  inv_at c l p R Q W -> p (current_thread c) = InRdlock -> current_thread c <> MAIN_THREAD ->
  (forall u, u <> current_thread c -> p u = th_point s u) ->
  exists s', rdlock_locked (current_thread c) c l s = Ret s' /\ inv s'.
Proof.
  intros Hinv Hp Hmain Heq. pose proof (inv_nodup _ _ _ _ _ _ Hinv) as Hnd. pose proof (inv_valid _ _ _ _ _ _ Hinv) as Hv.
  destruct Hinv as [I1 I2 I3 I4 I5 I6].
  destruct (lk_granted _ (all_threads_none n) _ _ _ _ _ _ _ _ I6) as (Ho & Hw & ->); [by left|].
  rewrite app_nil_r in Hnd, Hv. apply NoDup_cons in Hnd as [_ Hnd].
  destruct (unlock_spec c (reader_queue l) Q R Ho) as (c' & q' & Hu & Hc & [Hnr Hnx] & Hrun & Hq); try done.
  { intros u Hin. apply Hv. right. apply elem_of_app. by right. }
  pose proof (moved_leave s p _ Reading Heq) as Hm.
  pose proof (nreading_moved ts (all_threads_nodup n) _ _ _ _ Hm (lk_cur _ _ _ _ _ _ _ _ _ I6)) as Hk.
  rewrite Ho in I6. pose proof (lk_readers _ _ _ _ _ _ _ _ _ I6) as Hr.
  pose proof (release_ok _ (all_threads_nodup n) (all_threads_none n) _ _ _ _ _ _ _ _ I6 (or_introl Hw) (or_introl eq_refl) Hmain Hm) as Hok.
  rewrite Hp in Hk. unfold is_reading in Hk. rewrite decide_False, decide_True in Hk by done.
  pose proof (nreading_bound n p Hn) as Hb. unfold rdlock_locked. rewrite Hu, res_ret_bind. cbv beta iota zeta.
  eexists. split; [reflexivity|]. exists (R ++ take 1 Q), (tail Q), []. unfold leave. cbn [th_coro th_lock th_point].
  set (l' := _ <| readers ::= _ |>).
  assert (readers l' = wrapu 64 (readers l + 1) /\ writer l' = writer l /\ rw_mutex l' = rw_mutex l /\
          writer_queue l' = writer_queue l /\ reader_queue l' = mk_mutex (default NO_THREAD (head Q)) q')
    as (E1 & E2 & E3 & E4 & E5) by (by destruct l). clearbody l'.
  constructor; rewrite ?E3, ?E4, ?E5, ?Hc; cbn [m_owner m_queue]; [congruence|done..|].
  rewrite E1, E2, Hw, wrapu_small by lia. by replace (readers l + 1) with (nreading ts (<[current_thread c:=Reading]> (th_point s))) by lia.
Qed.

(** The owner of [reader_queue] waits for the readers. *)
Lemma wrlock_wait_ok s c l r R Q :
  let t := current_thread c in
  nr_threads c = n -> queue_is (tcb_next c) (run_queue c) (r :: R) ->
  queue_is (tcb_next c) (m_queue (reader_queue l)) Q -> queue_is (tcb_next c) (writer_queue l) [] ->
  m_owner (rw_mutex l) = t /\ q_head (m_queue (rw_mutex l)) = None ->
  lock_ok ts (m_owner (reader_queue l)) (writer l) (readers l) (<[t := InWrlockWait]> (th_point s)) r R Q [t] ->
  exists s', wrlock_wait t c l s = Ret s' /\ inv s'.
Proof.
  intros t I1 I2 I3 I4 [I5 I5'] I6. pose proof (lk_all _ _ _ _ _ _ _ _ _ I6) as Hall.
  pose proof (lk_nodup _ (all_threads_nodup n) _ _ _ _ _ _ _ _ I6) as Hnd.
  assert (forall u, u ∈ t :: r :: R -> valid (nr_threads c) u) as Hv.
  { intros u Hu. rewrite I1. apply all_threads_valid. rewrite <- Hall, !elem_of_cons, !elem_of_app, list_elem_of_singleton.
    rewrite !elem_of_cons in Hu. tauto. }
  assert (r :: R ++ Q ++ [t] ≡ₚ (t :: r :: R) ++ Q) as Hperm by solve_Permutation. rewrite Hperm in Hnd.
  apply NoDup_app in Hnd as (Hnd & Hdis & _).
  destruct (block_spec c (writer_queue l) [] r R) as (c1 & c' & q' & He & Hs & Hc & [Hnr Hnx] & Hrun & Hq);
    rewrite ?app_nil_r; try done.
  unfold wrlock_wait, coro_cond_wait. rewrite unlock_free, !res_ret_bind by done. cbv beta iota zeta. cbn [negb Z.eqb].
  fold t in He. unfold t in He. rewrite He, !res_ret_bind. cbv beta iota zeta. rewrite Hs, !res_ret_bind. cbv beta iota zeta.
  cbn [wrlock_waited]. eexists. split; [reflexivity|]. exists R, Q, [t]. unfold leave. cbn [th_coro th_lock th_point].
  set (l' := _ <| rw_mutex := _ |>).
  assert (readers l' = readers l /\ writer l' = writer l /\ writer_queue l' = q' /\ reader_queue l' = reader_queue l /\
          rw_mutex l' = mk_mutex NO_THREAD (m_queue (rw_mutex l))) as (G1 & G2 & G3 & G4 & G5) by (by destruct l). clearbody l'.
  constructor; rewrite ?G1, ?G2, ?G3, ?G4, ?G5, ?Hc; try done; [congruence|].
  eapply queue_frame; [|exact I3]. intros u Hu. apply Hnx. intros ->%list_elem_of_singleton. apply (Hdis r); [right; left|done].
Qed.

(** The owner of [reader_queue] writes or waits for the readers. *)
Lemma wrlock_locked_ok s c l p R Q W :
  inv_at c l p R Q W -> p (current_thread c) = InWrlock -> current_thread c <> MAIN_THREAD ->
  (forall u, u <> current_thread c -> p u = th_point s u) ->
  exists s', wrlock_locked (current_thread c) c l s = Ret s' /\ inv s'.
Proof.
  intros Hinv Hp Hmain Heq. pose proof (inv_cur_some _ _ _ _ _ _ Hinv) as Hcur.
  destruct (inv_next _ _ _ _ _ _ Hinv Hmain) as (r & R' & ->).
  destruct Hinv as [I1 I2 I3 I4 [I5 I5'] I6]. unfold wrlock_locked.
  set (l1 := l <| writer := _ |>).
  assert (readers l1 = readers l /\ writer l1 = current_thread c /\ rw_mutex l1 = rw_mutex l /\
          writer_queue l1 = writer_queue l /\ reader_queue l1 = reader_queue l)
    as (E1 & E2 & E3 & E4 & E5) by (by destruct l). clearbody l1. rewrite E1.
  pose proof (lk_readers _ _ _ _ _ _ _ _ _ I6) as Hr. pose proof (nreading_bound n p Hn) as Hb.
  destruct (0 <? readers l) eqn:Hk; b2p.
  - destruct (lk_granted _ (all_threads_none n) _ _ _ _ _ _ _ _ I6) as (Ho & Hw & ->); [by right|].
    rewrite E3, lock_free, res_ret_bind by done. cbv beta iota zeta. cbn [negb Z.eqb].
    set (l2 := l1 <| rw_mutex := _ |>).
    assert (readers l2 = readers l /\ writer l2 = current_thread c /\ writer_queue l2 = writer_queue l /\
            reader_queue l2 = reader_queue l /\ rw_mutex l2 = mk_mutex (current_thread c) (m_queue (rw_mutex l)))
      as (F1 & F2 & F3 & F4 & F5) by (destruct l1; cbn in *; by subst). clearbody l2.
    apply (wrlock_wait_ok s c l2 r R' Q); rewrite ?F1, ?F2, ?F3, ?F4, ?F5; try done.
    apply (wait_ok _ (all_threads_nodup n) (all_threads_none n) _ _ _ _ _ _ _ _ _ _ I6 Hp Hk Hmain). by apply moved_leave.
  - assert (readers l = 0) as H0 by lia. eexists. split; [reflexivity|].
    assert (W = []) as ->.
    { apply elem_of_nil_inv. intros u Hu. destruct (lk_waiting _ _ _ _ _ _ _ _ _ I6 u Hu). lia. }
    exists (r :: R'), Q, []. unfold leave. cbn [th_coro th_lock th_point].
    constructor; rewrite ?E1, ?E2, ?E3, ?E4, ?E5, ?H0; try done. rewrite H0 in I6.
    apply (writing_ok _ (all_threads_nodup n) (all_threads_none n) _ _ _ _ _ _ _ _ I6 (or_introl Hp) Hmain). by apply moved_leave.
Qed.

(** A thread outside asks for [reader_queue]: it gets it, or waits. *)
Lemma acquire_ok s x c l t :
  th_coro s = c -> th_lock s = l -> current_thread c = t ->
  inv s -> th_point s t = Idle -> t <> MAIN_THREAD -> x = InRdlock \/ x = InWrlock ->
  (exists m R Q W, coro_mutex_lock c (reader_queue l) = Ret (c, m, Some 0) /\
     inv_at c (l <| reader_queue := m |>) (<[t := x]> (th_point s)) R Q W) \/
  (exists c' m, coro_mutex_lock c (reader_queue l) = Ret (c', m, None) /\
     inv (leave t x None c' (l <| reader_queue := m |>) s)).
Proof.
  intros Ec El Et (R & Q & W & Hinv) Hp Hmain Hx. rewrite Ec, El in Hinv. pose proof (inv_nodup _ _ _ _ _ _ Hinv) as Hnd.
  pose proof (inv_valid _ _ _ _ _ _ Hinv) as Hv. pose proof (inv_cur_some _ _ _ _ _ _ Hinv) as Hcur.
  destruct (inv_next _ _ _ _ _ _ Hinv) as (r & R' & ->); [congruence|]. destruct Hinv as [I1 I2 I3 I4 I5 I6].
  rewrite Et in Hnd, Hv, Hcur, I6. pose proof (moved_insert (th_point s) t x) as Hm.
  assert (forall m, readers (l <| reader_queue := m |>) = readers l /\ writer (l <| reader_queue := m |>) = writer l /\
            rw_mutex (l <| reader_queue := m |>) = rw_mutex l /\
            writer_queue (l <| reader_queue := m |>) = writer_queue l /\ reader_queue (l <| reader_queue := m |>) = m)
    as Hl by (intros m; by destruct l).
  destruct (decide (m_owner (reader_queue l) = NO_THREAD)) as [Ho|Ho].
  - left. exists (mk_mutex t (m_queue (reader_queue l))), (r :: R'), Q, W. split; [rewrite <- Et; apply lock_free; congruence|].
    destruct (Hl (mk_mutex t (m_queue (reader_queue l)))) as (E1 & E2 & E3 & E4 & E5).
    constructor; rewrite ?E1, ?E2, ?E3, ?E4, ?E5, ?Et; try done. rewrite Ho in I6.
    by apply (grant_ok _ (all_threads_nodup n) (all_threads_none n) _ _ _ _ _ _ _ _ _ I6 Hp Hmain Hx).
  - right. assert (m_owner (reader_queue l) <> t) as Hot.
    { intros He. destruct (lk_owner _ _ _ _ _ _ _ _ _ I6 Ho) as [Hw|[_ Hpo]]; [|rewrite He in Hpo; intuition congruence].
      rewrite Hw in Ho. destruct (lk_writer _ _ _ _ _ _ _ _ _ I6 Ho) as (_ & _ & Hpw). rewrite <- Hw, He in Hpw. intuition congruence. }
    assert (NoDup ((t :: r :: R' ++ Q) ++ W)) as Hnd' by (cbn; by rewrite <- app_assoc).
    apply NoDup_app in Hnd' as (Hnd' & Hdis & _).
    destruct (lock_busy c (reader_queue l) r R' Q Ho) as (c' & q' & He & Hc & [Hnr Hnx] & Hrun & Hq); rewrite ?Et; try done.
    { intros u Hu. apply Hv. change (u ∈ (t :: r :: R') ++ Q ++ W). rewrite app_assoc. apply elem_of_app. by left. }
    exists c', (mk_mutex (m_owner (reader_queue l)) q'). split; [done|]. exists R', (Q ++ [t]), W.
    destruct (Hl (mk_mutex (m_owner (reader_queue l)) q')) as (E1 & E2 & E3 & E4 & E5).
    unfold leave. cbn [th_coro th_lock th_point].
    rewrite Et in Hq. constructor; rewrite ?E1, ?E2, ?E3, ?E4, ?E5, ?Hc; try done; [congruence| |].
    + eapply queue_frame; [|exact I4]. intros u Hu. apply Hnx. intros Hin. apply (Hdis u); [|done].
      right. rewrite elem_of_cons in Hin. rewrite elem_of_cons, elem_of_app. tauto.
    + by apply (block_ok _ (all_threads_nodup n) _ _ _ _ _ _ _ _ _ _ _ I6 Hp Hmain Ho Hx).
Qed.

Lemma insert_other (f : Z -> point) t x u : u <> t -> (<[t := x]> f) u = f u.
Proof. intros Hu. by rewrite fn_lookup_insert_ne. Qed.

Lemma rdlock_ok s : inv s -> th_point s (current_thread (th_coro s)) = Idle ->
  current_thread (th_coro s) <> MAIN_THREAD -> exists s', coro_rwlock_rdlock s = Ret s' /\ inv s'.
Proof.
  intros Hinv Hp Hmain. unfold coro_rwlock_rdlock.
  destruct (acquire_ok s InRdlock _ _ _ eq_refl eq_refl eq_refl Hinv Hp Hmain (or_introl eq_refl)) as [(m & R & Q & W & -> & Hat)|(c' & m & -> & Hi)];
    rewrite res_ret_bind; cbv beta iota zeta; [|eauto].
  cbn [negb Z.eqb]. eapply rdlock_locked_ok; [exact Hat|apply fn_lookup_insert|done|]. intros u Hu. by apply insert_other.
Qed.

Lemma wrlock_ok s : inv s -> th_point s (current_thread (th_coro s)) = Idle ->
  current_thread (th_coro s) <> MAIN_THREAD -> exists s', coro_rwlock_wrlock s = Ret s' /\ inv s'.
Proof.
  intros Hinv Hp Hmain. unfold coro_rwlock_wrlock.
  destruct (acquire_ok s InWrlock _ _ _ eq_refl eq_refl eq_refl Hinv Hp Hmain (or_intror eq_refl)) as [(m & R & Q & W & -> & Hat)|(c' & m & -> & Hi)];
    rewrite res_ret_bind; cbv beta iota zeta; [|eauto].
  cbn [negb Z.eqb]. eapply wrlock_locked_ok; [exact Hat|apply fn_lookup_insert|done|]. intros u Hu. by apply insert_other.
Qed.

Lemma yield_inv s : inv s -> exists s', ('(c, _) ← coro_yield (th_coro s); Ret (s <| th_coro := c |>)) = Ret s' /\ inv s'.
Proof.
  intros (R & Q & W & Hinv). pose proof (inv_nodup _ _ _ _ _ _ Hinv) as Hnd.
  pose proof (inv_valid _ _ _ _ _ _ Hinv) as Hv. pose proof (inv_cur_some _ _ _ _ _ _ Hinv) as Hcur.
  destruct Hinv as [I1 I2 I3 I4 I5 I6]. set (c := th_coro s) in *. set (t := current_thread c) in *.
  unfold coro_yield. fold t. rewrite (queue_is_empty _ _ _ I2). assert ((t =? NO_THREAD) = false) as -> by lia.
  destruct R as [|r R].
  { rewrite bool_decide_eq_true_2 by done. cbn [orb]. rewrite res_ret_bind. eexists. split; [reflexivity|].
    exists [], Q, W. by destruct s. }
  rewrite bool_decide_eq_false_2 by done. cbn [orb].
  assert (t ∉ r :: R /\ NoDup (r :: R)) as [Ht HndR].
  { apply NoDup_cons in Hnd as [Ht Hnd]. apply not_elem_of_app in Ht as [Ht _]. by apply NoDup_app in Hnd as [Hnd _]. }
  destruct (enqueue_spec c (run_queue c) t (r :: R)) as (nx & q' & He & Hq' & Hf); [apply Hv; left|done..|].
  rewrite He, res_ret_bind. cbv beta iota zeta.
  set (c1 := _ <| run_queue := q' |>).
  assert (tcb_next c1 = nx /\ run_queue c1 = q' /\ nr_threads c1 = nr_threads c /\ current_thread c1 = t)
    as (E1 & E2 & E3 & E4) by (unfold t; by destruct c). clearbody c1.
  destruct (suspend_spec CR_RUNNABLE c1 r (R ++ [t])) as (c' & Hs & Hc & [Hnr Hnx] & Hrun'); rewrite ?E1, ?E2, ?E3, ?E4; try done.
  { apply Hv. left. } { apply Hv. right; left. }
  { change (NoDup ((r :: R) ++ [t])). apply NoDup_app. split_and!; [done| |by apply NoDup_singleton].
    by intros u Hu ->%list_elem_of_singleton. }
  rewrite Hs, !res_ret_bind. eexists. split; [reflexivity|]. exists (R ++ [t]), Q, W.
  assert (forall u, u ∈ Q ++ W -> tcb_next c' u = tcb_next c u) as Hframe.
  { intros u Hu. apply NoDup_cons in Hnd as [_ Hnd]. apply NoDup_app in Hnd as (_ & Hdis & _).
    assert (u ∉ r :: R) as Hun by (intros Hin; by apply (Hdis u)). rewrite Hnx, E1; [by apply Hf|].
    intros ->%list_elem_of_singleton. apply Hun. left. }
  set (s' := s <| th_coro := c' |>).
  assert (th_coro s' = c' /\ th_lock s' = th_lock s /\ th_point s' = th_point s) as (-> & -> & ->) by (by destruct s).
  constructor; rewrite ?Hc; try done; [congruence| | |by apply yield_ok].
  - eapply queue_frame; [|exact I3]. intros u Hu. apply Hframe, elem_of_app. by left.
  - eapply queue_frame; [|exact I4]. intros u Hu. apply Hframe, elem_of_app. by right.
Qed.

Lemma write_unlock_inv s : inv s -> th_point s (current_thread (th_coro s)) = Writing ->
  current_thread (th_coro s) <> MAIN_THREAD -> exists s', coro_rwlock_unlock s = Ret s' /\ inv s'.
Proof.
  intros (R & Q & W & Hinv) Hp Hmain. pose proof (inv_nodup _ _ _ _ _ _ Hinv) as Hnd.
  pose proof (inv_valid _ _ _ _ _ _ Hinv) as Hv. pose proof (inv_cur_some _ _ _ _ _ _ Hinv) as Hcur.
  destruct Hinv as [I1 I2 I3 I4 I5 I6]. unfold coro_rwlock_unlock.
  remember (th_coro s) as c eqn:Ec. remember (th_lock s) as l eqn:El. remember (current_thread c) as t eqn:Et.
  pose proof (lk_cur _ _ _ _ _ _ _ _ _ I6) as Hin.
  destruct (lk_writing _ _ _ _ _ _ _ _ _ I6 t Hin Hp) as [Hw Hk].
  destruct (lk_writer _ _ _ _ _ _ _ _ _ I6) as (Ho & _); [congruence|]. rewrite Hw in Ho.
  assert (W = []) as ->.
  { apply elem_of_nil_inv. intros u Hu. destruct (lk_waiting _ _ _ _ _ _ _ _ _ I6 u Hu). lia. }
  rewrite app_nil_r in Hnd, Hv. apply NoDup_cons in Hnd as [_ Hnd].
  rewrite Hw, Z.eqb_refl. set (l1 := l <| writer := NO_THREAD |>).
  assert (readers l1 = readers l /\ writer l1 = NO_THREAD /\ rw_mutex l1 = rw_mutex l /\
          writer_queue l1 = writer_queue l /\ reader_queue l1 = reader_queue l)
    as (E1 & E2 & E3 & E4 & E5) by (by destruct l). clearbody l1. rewrite E5.
  destruct (unlock_spec c (reader_queue l) Q R) as (c' & q' & Hu & Hc & [Hnr Hnx] & Hrun & Hq); try done; [congruence|..].
  { intros u Hu. apply Hv. right. apply elem_of_app. by right. }
  rewrite Hu, res_ret_bind. cbv beta iota zeta. eexists. split; [reflexivity|].
  exists (R ++ take 1 Q), (tail Q), []. unfold leave. cbn [th_coro th_lock th_point].
  set (l2 := l1 <| reader_queue := _ |>).
  assert (readers l2 = readers l /\ writer l2 = NO_THREAD /\ rw_mutex l2 = rw_mutex l /\
          writer_queue l2 = writer_queue l /\ reader_queue l2 = mk_mutex (default NO_THREAD (head Q)) q')
    as (F1 & F2 & F3 & F4 & F5) by (destruct l1; cbn in *; by subst). clearbody l2.
  constructor; rewrite ?F1, ?F2, ?F3, ?F4, ?F5, ?Hc, <- ?Et; try done; [congruence|]. cbn [m_owner].
  pose proof (moved_insert (th_point s) t Idle) as Hm.
  pose proof (nreading_moved ts (all_threads_nodup n) _ _ _ _ Hm Hin) as Hr.
  rewrite Hp in Hr. unfold is_reading in Hr. rewrite !decide_False in Hr by done.
  rewrite (lk_readers _ _ _ _ _ _ _ _ _ I6). replace (nreading ts (th_point s)) with (nreading ts (<[t := Idle]> (th_point s))) by lia.
  rewrite Ho in I6.
  apply (release_ok _ (all_threads_nodup n) (all_threads_none n) _ _ _ _ _ _ _ _ I6 (or_intror Hw) (or_intror eq_refl) Hmain Hm).
Qed.

(** The last reader wakes the writer. *)
Lemma unlock_signal_ok s c l p R Q W :
  let t := current_thread c in
  nr_threads c = n -> queue_is (tcb_next c) (run_queue c) R ->
  queue_is (tcb_next c) (m_queue (reader_queue l)) Q -> queue_is (tcb_next c) (writer_queue l) W ->
  m_owner (rw_mutex l) = t /\ q_head (m_queue (rw_mutex l)) = None -> (length W <= 1)%nat ->
  lock_ok ts (m_owner (reader_queue l)) (writer l) (readers l) p t (R ++ W) Q [] -> <[t := Idle]> (th_point s) = p ->
  exists s', unlock_signal t c l s = Ret s' /\ inv s'.
Proof.
  intros t I1 I2 I3 I4 [I5 I5'] HW I6 Hp.
  assert (R ++ take 1 W = R ++ W /\ tail W = []) as [HW1 HW2] by (by destruct W as [|w [|]]; cbn in HW; [..|lia]).
  pose proof (lk_nodup _ (all_threads_nodup n) _ _ _ _ _ _ _ _ I6) as Hnd.
  rewrite app_nil_r in Hnd. apply NoDup_cons in Hnd as [_ Hnd]. apply NoDup_app in Hnd as (Hnd & Hdis & _).
  destruct (signal_spec c (writer_queue l) W R) as (c' & q' & Hs & Hc & [Hnr Hnx] & Hrun & Hq); try done.
  { intros u Hu. rewrite I1. apply all_threads_valid. rewrite <- (lk_all _ _ _ _ _ _ _ _ _ I6), !elem_of_cons, !elem_of_app. auto. }
  unfold unlock_signal. rewrite Hs, res_ret_bind. cbv beta iota zeta.
  rewrite unlock_free, res_ret_bind by (rewrite ?Hc; done). cbv beta iota zeta. eexists. split; [reflexivity|].
  exists (R ++ W), Q, []. unfold leave. cbn [th_coro th_lock th_point].
  set (l1 := _ <| rw_mutex := _ |>).
  assert (readers l1 = readers l /\ writer l1 = writer l /\ writer_queue l1 = q' /\ reader_queue l1 = reader_queue l /\
          rw_mutex l1 = mk_mutex NO_THREAD (m_queue (rw_mutex l)))
    as (E1 & E2 & E3 & E4 & E5) by (by destruct l). clearbody l1.
  rewrite HW1 in Hrun. rewrite HW2 in Hq.
  constructor; rewrite ?E1, ?E2, ?E3, ?E4, ?E5, ?Hc, ?Hp; try done; [congruence|].
  eapply queue_frame; [|exact I3]. intros u Hu. apply Hnx. intros Hin. by apply (Hdis u).
Qed.

Lemma read_unlock_inv s : inv s -> th_point s (current_thread (th_coro s)) = Reading ->
  current_thread (th_coro s) <> MAIN_THREAD -> exists s', coro_rwlock_unlock s = Ret s' /\ inv s'.
Proof.
  intros (R & Q & W & Hinv) Hp Hmain. pose proof (inv_cur_some _ _ _ _ _ _ Hinv) as Hcur.
  destruct Hinv as [I1 I2 I3 I4 [I5 I5'] I6]. unfold coro_rwlock_unlock.
  remember (th_coro s) as c eqn:Ec. remember (th_lock s) as l eqn:El. remember (current_thread c) as t eqn:Et.
  pose proof (lk_cur _ _ _ _ _ _ _ _ _ I6) as Hin. pose proof (moved_insert (th_point s) t Idle) as Hm.
  pose proof (read_unlock_ok _ (all_threads_nodup n) (all_threads_none n) _ _ _ _ _ _ _ _ _ I6 Hp Hmain Hm) as Hok.
  assert (0 < readers l) as Hpos by (rewrite (lk_readers _ _ _ _ _ _ _ _ _ I6); by apply nreading_pos with t).
  assert (writer l <> t) as Hw.
  { intros He. destruct (lk_writer _ _ _ _ _ _ _ _ _ I6) as (_ & _ & H); [congruence|]. rewrite He in H. intuition congruence. }
  assert ((writer l =? t) = false) as -> by lia. assert ((readers l =? 0) = false) as -> by lia. cbn [andb negb].
  set (l1 := l <| readers ::= _ |>).
  assert (readers l1 = readers l - 1 /\ writer l1 = writer l /\ rw_mutex l1 = rw_mutex l /\
          writer_queue l1 = writer_queue l /\ reader_queue l1 = reader_queue l)
    as (E1 & E2 & E3 & E4 & E5) by (by destruct l). clearbody l1. rewrite E1, E2.
  destruct (_ && _) eqn:Hlast.
  - assert (W = [writer l]) as HW.
    { apply (writer_waits _ (all_threads_nodup n) _ _ _ _ _ _ _ _ I6); [done|]. lia. }
    rewrite E3, lock_free, res_ret_bind by congruence. cbv beta iota zeta. cbn [negb Z.eqb].
    rewrite Et. apply (unlock_signal_ok s c _ (<[t := Idle]> (th_point s)) R Q W); try done; try (by destruct l1; cbn in *; congruence).
    destruct l1. cbn in *. by subst.
  - eexists. split; [reflexivity|]. exists R, Q, W. unfold leave. cbn [th_coro th_lock th_point].
    constructor; rewrite ?E1, ?E2, ?E3, ?E4, ?E5, <- ?Et; done.
Qed.

(** The writer that was woken goes in. *)
Lemma woken_inv s : inv s -> th_point s (current_thread (th_coro s)) = InWrlockWait ->
  current_thread (th_coro s) <> MAIN_THREAD -> exists s', resume s = Ret s' /\ inv s'.
Proof.
  intros (R & Q & W & Hinv) Hp Hmain. pose proof (inv_cur_some _ _ _ _ _ _ Hinv) as Hcur.
  destruct Hinv as [I1 I2 I3 I4 [I5 I5'] I6]. unfold resume. rewrite Hp.
  remember (th_coro s) as c eqn:Ec. remember (th_lock s) as l eqn:El.
  destruct (lk_running _ _ _ _ _ _ _ _ _ I6 (current_thread c)) as [?|[?|[?|[?|(_ & Hw & Hk)]]]]; [left|intuition congruence..|].
  unfold cond_wait_again. rewrite lock_free, !res_ret_bind by done. cbv beta iota zeta. cbn [wrlock_waited].
  set (l1 := l <| rw_mutex := _ |>).
  assert (readers l1 = 0 /\ writer l1 = current_thread c /\ writer_queue l1 = writer_queue l /\
          reader_queue l1 = reader_queue l /\ rw_mutex l1 = mk_mutex (current_thread c) (m_queue (rw_mutex l)))
    as (E1 & E2 & E3 & E4 & E5) by (destruct l; cbn in *; by subst). clearbody l1.
  rewrite E5, unlock_free, res_ret_bind by done. cbv beta iota zeta. cbn [negb Z.eqb].
  eexists. split; [reflexivity|]. exists R, Q, []. unfold leave. cbn [th_coro th_lock th_point].
  assert (W = []) as ->.
  { apply elem_of_nil_inv. intros u Hu. destruct (lk_waiting _ _ _ _ _ _ _ _ _ I6 u Hu). lia. }
  set (l2 := l1 <| rw_mutex := _ |>).
  assert (readers l2 = 0 /\ writer l2 = current_thread c /\ writer_queue l2 = writer_queue l /\
          reader_queue l2 = reader_queue l /\ rw_mutex l2 = mk_mutex NO_THREAD (m_queue (rw_mutex l)))
    as (F1 & F2 & F3 & F4 & F5) by (destruct l1; cbn in *; by subst). clearbody l2.
  constructor; rewrite ?F1, ?F2, ?F3, ?F4, ?F5; try done. rewrite Hk in I6.
  apply (writing_ok _ (all_threads_nodup n) (all_threads_none n) _ _ _ _ _ _ _ _ I6 (or_intror (conj Hp Hw)) Hmain), moved_insert.
Qed.

(** Whatever the running thread does, it does not crash and keeps the lock in
    order. *)
Lemma run_inv a s : inv s -> exists s', run a s = Ret s' /\ inv s'.
Proof.
  intros Hinv. unfold run. assert (inv s) as (R & Q & W & Hat) by done.
  assert (th_point s (current_thread (th_coro s)) <> Idle -> current_thread (th_coro s) <> MAIN_THREAD) as Hmain.
  { intros Hp Hm. rewrite Hm in Hp. apply Hp. apply (lk_main _ _ _ _ _ _ _ _ _ (iv_lock _ _ _ _ _ _ Hat)). }
  destruct (lk_running _ _ _ _ _ _ _ _ _ (iv_lock _ _ _ _ _ _ Hat) (current_thread (th_coro s)))
    as [Hp|[Hp|[Hp|[[[Hp|Hp] _]|(Hp & _)]]]]; [left|..]; rewrite Hp in *.
  - destruct a; try (destruct (_ =? MAIN_THREAD) eqn:Hm; b2p); eauto using rdlock_ok, wrlock_ok, yield_inv.
  - destruct a; eauto using read_unlock_inv, yield_inv.
  - destruct a; eauto using write_unlock_inv, yield_inv.
  - unfold resume. rewrite Hp. by eapply rdlock_locked_ok; [exact Hat|exact Hp|apply Hmain|].
  - unfold resume. rewrite Hp. by eapply wrlock_locked_ok; [exact Hat|exact Hp|apply Hmain|].
  - by apply woken_inv; [..|apply Hmain].
Qed.

Lemma exec_inv l s : inv s -> exists s', exec l s = Ret s' /\ inv s'.
Proof.
  revert s. induction l as [|a l IH]; intros s Hinv; cbn [exec]; [eauto|].
  destruct (run_inv a s Hinv) as (s1 & -> & H1). rewrite res_ret_bind. by apply IH.
Qed.

Lemma unsuspend_all_spec l c R :
  (forall u, u ∈ l -> valid (nr_threads c) u) -> queue_is (tcb_next c) (run_queue c) R -> NoDup (R ++ l) ->
  exists c', unsuspend_all l c = Ret c' /\ current_thread c' = current_thread c /\ nr_threads c' = nr_threads c /\
    queue_is (tcb_next c') (run_queue c') (R ++ l).
Proof.
  revert c R. induction l as [|t l IH]; intros c R Hv Hq Hnd; cbn [unsuspend_all].
  { exists c. by rewrite app_nil_r. }
  pose proof Hnd as (HndR & Hdis & _)%NoDup_app.
  destruct (wake_spec c t R) as (c1 & -> & Hc & [Hnr _] & Hq1); [apply Hv; left|done|done| |].
  { intros Hin. apply (Hdis t Hin). left. }
  rewrite res_ret_bind. destruct (IH c1 (R ++ [t])) as (c' & -> & Hc' & Hnr' & Hq'); [|done|by rewrite <- app_assoc|].
  { intros u Hu. rewrite Hnr. apply Hv. by right. }
  rewrite <- app_assoc in Hq'. exists c'. split_and!; [done|congruence..|done].
Qed.

Lemma started_inv : exists s, started n = Ret s /\ inv s.
Proof.
  unfold started. destruct (unsuspend_all_spec (seqZ 0 n)
    (mk_coro MAIN_THREAD n coro_queue_init (fun _ => None) (fun _ => CR_DEAD)) []) as (c & -> & Hc & Hnr & Hq).
  { intros u Hu. apply all_threads_valid. by right. } { done. } { apply NoDup_seqZ. }
  rewrite res_ret_bind. eexists. split; [reflexivity|]. exists (seqZ 0 n), [], []. cbn [th_coro th_lock th_point].
  constructor; try done. rewrite Hc. cbn [current_thread]. constructor; try done; rewrite ?app_nil_r; try done.
  - split; [left|done].
  - unfold nreading. rewrite (elem_of_nil_inv (filter _ _)); [done|]. by intros u [? _]%list_elem_of_filter.
  - by intros u ?%elem_of_nil.
  - by intros u ?%elem_of_nil.
  - intros u _. by left.
Qed.
End operations.

(** C19: Read-write locks of the coroutine library exclude. Whatever [n] threads
    do, one running at a time until it gives up the processor, no call crashes;
    while a thread writes no other reads or writes; and no thread is forgotten:
    when nobody is inside the lock and only the main thread can run, nobody
    waits for the lock. *)
Theorem rwlock_excludes (n : Z) (l : list action) :
  0 <= n < 2 ^ 31 ->
  exists s0 s, started n = Ret s0 /\ exec l s0 = Ret s /\
    (forall t u, t ∈ all_threads n -> u ∈ all_threads n -> th_point s t = Writing -> u <> t ->
       th_point s u <> Writing /\ th_point s u <> Reading) /\
    ((forall u, u ∈ all_threads n -> th_point s u <> Reading /\ th_point s u <> Writing) ->
     current_thread (th_coro s) = MAIN_THREAD -> coro_queue_empty (run_queue (th_coro s)) = true ->
     forall u, u ∈ all_threads n -> th_point s u = Idle).
Proof.
  intros Hn. destruct (started_inv n) as (s0 & H0 & Hi0). destruct (exec_inv n Hn l s0 Hi0) as (s & Hs & R & Q & W & Hat).
  exists s0, s. pose proof (iv_lock _ _ _ _ _ _ _ Hat) as Hok. split_and!; [done|done|..].
  - intros t u Ht Hu Hp Hne. destruct (lk_writing _ _ _ _ _ _ _ _ _ Hok t Ht Hp) as [Hw Hk]. split.
    + intros Hpu. destruct (lk_writing _ _ _ _ _ _ _ _ _ Hok u Hu Hpu). congruence.
    + intros Hpu. pose proof (lk_readers _ _ _ _ _ _ _ _ _ Hok) as Hr. pose proof (nreading_pos _ _ _ Hu Hpu). lia.
  - intros Hout Hc He. rewrite Hc in Hok. rewrite (queue_is_empty _ _ _ (iv_run _ _ _ _ _ _ _ Hat)) in He.
    apply bool_decide_eq_true_1 in He as ->. by apply (nobody_forgotten _ (all_threads_none n) _ _ _ _ _ _ Hok).
Qed.

(** Two threads read, a third waits to write, and writes when they have left. *)
Lemma rwlock_witness :
  (exists s0 s, started 3 = Ret s0 /\
     exec [Yield; Rdlock; Yield; Rdlock; Yield; Wrlock; Yield; Unlock; Yield; Unlock; Yield; Yield; Yield; Yield; Yield] s0 = Ret s /\
     th_point s 2 = Writing /\ th_point s 0 = Idle) /\
  (exists s0 s, started 3 = Ret s0 /\ exec [Yield; Rdlock] s0 = Ret s).
Proof.
  split.
  - eexists _, _. split; [vm_compute; reflexivity|]. split; [vm_compute; reflexivity|]. by vm_compute.
  - destruct (rwlock_excludes 3 [Yield; Rdlock] ltac:(lia)) as (s0 & s & H0 & Hs & _). exists s0, s. by split.
Defined.
