(* ===== verification/FileLock.v ===== *)
(** * Record locks of the file server

    [do_lock] of servers/vfs/lock.c: locking and unlocking ranges of a file by
    fcntl. The table of locks is a list of [NR_LOCKS] slots, a slot of type 0
    being free. A call that must wait for a lock is suspended and runs again
    from [restart] when it is woken; one call of [do_lock] here is one pass. *)

From S2P Require Import Prelude.

Definition NR_LOCKS : nat := 32.
Definition INT_MAX : Z := 2 ^ 31 - 1.

Definition R_BIT : Z := 4.
Definition W_BIT : Z := 2.
Definition S_IFMT : Z := 0xf000.
Definition S_IFBLK : Z := 0x6000.
Definition S_IFREG : Z := 0x8000.

Definition F_GETLK : Z := 7.
Definition F_SETLK : Z := 8.
Definition F_SETLKW : Z := 9.
Definition F_RDLCK : Z := 1.
Definition F_WRLCK : Z := 2.
Definition F_UNLCK : Z := 3.
Definition SEEK_SET : Z := 0.
Definition SEEK_CUR : Z := 1.
Definition SEEK_END : Z := 2.

(** [struct flock] of the caller. *)
Record flock := mk_flock { l_type : Z; l_whence : Z; l_start : Z; l_len : Z; l_pid : Z }.

(** [struct file_lock]; [fl_wq] are the workers that wait for it. *)
Record file_lock := mk_lock {
  fl_type : Z; fl_owner : Z; fl_inode : Z; fl_first : Z; fl_last : Z; fl_wq : list Z
}.
#[export] Instance rebuild_lock : Rebuild file_lock := fun f =>
  mk_lock (fl_type f) (fl_owner f) (fl_inode f) (fl_first f) (fl_last f) (fl_wq f).

Definition free_slot : file_lock := mk_lock 0 0 0 0 0 [].

Definition slot (tbl : list file_lock) (i : nat) : file_lock := default free_slot (tbl !! i).

(** What [do_lock] reads of the open file and its inode. *)
Record file_desc := mk_filp { fd_mode : Z; fd_pos : Z; fd_inode : Z; i_mode : Z; i_size : Z }.

Definition S_ISREG (mode : Z) : bool := Z.land mode S_IFMT =? S_IFREG.
Definition S_ISBLK (mode : Z) : bool := Z.land mode S_IFMT =? S_IFBLK.

(** The checks of the request: an error code, if any. *)
Definition check_request (req : Z) (filp : file_desc) (fl : flock) : option Z :=
  let lock_type := l_type fl in
  if negb (lock_type =? F_UNLCK) && negb (lock_type =? F_RDLCK) && negb (lock_type =? F_WRLCK) then Some EINVAL
  else if (req =? F_GETLK) && (lock_type =? F_UNLCK) then Some EINVAL
  else if negb (S_ISREG (i_mode filp)) && negb (S_ISBLK (i_mode filp)) then Some EINVAL
  else if negb (req =? F_GETLK) && (lock_type =? F_RDLCK) && negb (has_flag (fd_mode filp) R_BIT) then Some EBADF
  else if negb (req =? F_GETLK) && (lock_type =? F_WRLCK) && negb (has_flag (fd_mode filp) W_BIT) then Some EBADF
  else None.

(** The first and the last byte of the request. *)
Definition lock_range (filp : file_desc) (fl : flock) : option (Z * Z) :=
  let from := if l_whence fl =? SEEK_SET then Some 0
              else if l_whence fl =? SEEK_CUR then Some (fd_pos filp)
              else if l_whence fl =? SEEK_END then Some (i_size filp)
              else None in
  match from with
  | None => None
  | Some first =>
      let start := wraps 64 (first + l_start fl) in
      if (0 <? l_start fl) && (start <? first) then None
      else if (l_start fl <? 0) && (first <? start) then None
      else
        let last := if l_len fl =? 0 then INT_MAX else wraps 64 (start + l_len fl - 1) in
        if last <? start then None else Some (start, last)
  end.

Fixpoint find_free (tbl : list file_lock) : option nat :=
  match tbl with
  | [] => None
  | f :: tbl => if fl_type f =? 0 then Some 0%nat else S <$> find_free tbl
  end.

(** How the loop over the table ends: it went through, [flp] being the slot
    where it stopped or none past the end; or the call returns; or it waits
    for a lock. *)
Inductive outcome :=
  | Scanned (tbl : list file_lock) (empty flp : option nat) (conflict unlocking : bool)
  | Returns (tbl : list file_lock) (code : Z)
  | Waits (tbl : list file_lock) (i : nat).

Section request.
Context (me self req lock_type inode first last : Z).

(** The loop passes by this lock. *)
Definition passes (f : file_lock) : bool :=
  negb (fl_inode f =? inode) || (last <? fl_first f) || (fl_last f <? first) ||
  ((lock_type =? F_RDLCK) && (fl_type f =? F_RDLCK)) ||
  (negb (lock_type =? F_UNLCK) && (fl_owner f =? me)).

(** A lock loses the range: the table, or none when there is no slot left for
    its second half. *)
Definition unlock_slot (i : nat) (tbl : list file_lock) : option (list file_lock) :=
  let flp := slot tbl i in
  if (first <=? fl_first flp) && (fl_last flp <=? last) then Some (<[i := flp <| fl_type := 0 |>]> tbl)
  else if first <=? fl_first flp then Some (<[i := flp <| fl_first := last + 1 |>]> tbl)
  else if fl_last flp <=? last then Some (<[i := flp <| fl_last := first - 1 |>]> tbl)
  else
    match find_free tbl with
    | None => None
    | Some i2 =>
        let tbl := <[i2 := mk_lock (fl_type flp) (fl_owner flp) (fl_inode flp) (last + 1) (fl_last flp) []]> tbl in
        Some (<[i := flp <| fl_last := first - 1 |>]> tbl)
    end.

Fixpoint scan (slots : list nat) (tbl : list file_lock) (empty : option nat) (conflict unlocking : bool) : outcome :=
  match slots with
  | [] => Scanned tbl empty None conflict unlocking
  | i :: slots =>
      let flp := slot tbl i in
      if fl_type flp =? 0 then scan slots tbl (match empty with None => Some i | Some _ => empty end) conflict unlocking
      else if passes flp then scan slots tbl empty conflict unlocking
      else if req =? F_GETLK then Scanned tbl empty (Some i) true unlocking
      else if (lock_type =? F_RDLCK) || (lock_type =? F_WRLCK) then
        if req =? F_SETLK then Returns tbl (- EAGAIN)
        else Waits (<[i := flp <| fl_wq ::= fun l => self :: l |>]> tbl) i
      else
        match unlock_slot i tbl with
        | Some tbl => scan slots tbl empty true true
        | None => Returns tbl (- ENOLCK)
        end
  end.

Definition new_lock : file_lock := mk_lock lock_type me inode first last [].
End request.

(** What the caller sees: a result and the [flock] written back to it, or the
    slot it waits for. *)
Inductive reply := Result (code : Z) (back : option flock) | Sleeping (i : nat).

(** [waitqueue_wakeup_all] on the slot where the loop stopped. *)
Definition wakeup_all (flp : option nat) (tbl : list file_lock) : res (list file_lock) :=
  match flp with
  | Some i => Ret (<[i := (slot tbl i) <| fl_wq := [] |>]> tbl)
  | None => Crash BadPtr
  end.

(** [do_lock]: [request] is what the copy from the caller brings, if it
    succeeds, [get_epinfo] gives the process number of an endpoint, and
    [copied] is the result of the copy back. *)
Definition do_lock (get_epinfo : Z -> Z) (copied : Z) (me self req : Z) (filp : file_desc) (request : option flock)
    (tbl : list file_lock) : res (list file_lock * reply) :=
  if negb ((req =? F_GETLK) || (req =? F_SETLK) || (req =? F_SETLKW)) then Crash Panic
  else
  match request with
  | None => Ret (tbl, Result (- EINVAL) None)
  | Some fl =>
  match check_request req filp fl with
  | Some e => Ret (tbl, Result (- e) None)
  | None =>
      match lock_range filp fl with
      | None => Ret (tbl, Result (- EINVAL) None)
      | Some (first, last) =>
          let lock_type := l_type fl in
          match scan me self req lock_type (fd_inode filp) first last (seq 0 NR_LOCKS) tbl None false false with
          | Returns tbl code => Ret (tbl, Result code None)
          | Waits tbl i => Ret (tbl, Sleeping i)
          | Scanned tbl empty flp conflict unlocking =>
              tbl ← (if unlocking then wakeup_all flp tbl else Ret tbl);
              if req =? F_GETLK then
                let back :=
                  match conflict, flp with
                  | true, Some i =>
                      let f := slot tbl i in
                      mk_flock (fl_type f) SEEK_SET (fl_first f) (wraps 64 (fl_last f - fl_first f + 1))
                        (wraps 16 (get_epinfo (fl_owner f)))
                  | _, _ => mk_flock F_UNLCK (l_whence fl) (l_start fl) (l_len fl) (l_pid fl)
                  end in
                if negb (copied =? 0) then Ret (tbl, Result (- copied) None) else Ret (tbl, Result 0 (Some back))
              else if lock_type =? F_UNLCK then Ret (tbl, Result 0 None)
              else
                match empty with
                | None => Ret (tbl, Result (- ENOLCK) None)
                | Some i => Ret (<[i := new_lock me lock_type (fd_inode filp) first last]> tbl, Result 0 None)
                end
          end
      end
  end
  end.

(** ** Locks that exclude each other *)

Definition held (f : file_lock) : bool := negb (fl_type f =? 0).

(** Lock [f] keeps [me] from locking the range. *)
Definition blocks (me lock_type inode first last : Z) (f : file_lock) : bool :=
  held f && negb (passes me lock_type inode first last f).

(** Two locks of different processes on the same bytes are read locks. *)
Definition compatible (f g : file_lock) : Prop :=
  held f = true -> held g = true -> fl_inode f = fl_inode g -> fl_owner f <> fl_owner g ->
  fl_first f <= fl_last g -> fl_first g <= fl_last f -> fl_type f = F_RDLCK /\ fl_type g = F_RDLCK.

Definition table_ok (tbl : list file_lock) : Prop :=
  length tbl = NR_LOCKS /\
  forall i j f g, tbl !! i = Some f -> tbl !! j = Some g -> i <> j -> compatible f g.

(** The first slot of those given that satisfies [P]. *)
Fixpoint first_slot (P : file_lock -> bool) (slots : list nat) (tbl : list file_lock) : option nat :=
  match slots with
  | [] => None
  | i :: slots => if P (slot tbl i) then Some i else first_slot P slots tbl
  end.

Lemma first_slot_some P slots tbl i : first_slot P slots tbl = Some i -> i ∈ slots /\ P (slot tbl i) = true.
Proof.
  induction slots as [|j slots IH]; cbn; [done|]. destruct (P (slot tbl j)) eqn:HP.
  - intros [= ->]. split; [left|done].
  - intros H. destruct (IH H). split; [by right|done].
Qed.

Lemma first_slot_none P slots tbl : first_slot P slots tbl = None -> forall i, i ∈ slots -> P (slot tbl i) = false.
Proof.
  induction slots as [|j slots IH]; cbn; [by intros _ i ?%elem_of_nil|]. destruct (P (slot tbl j)) eqn:HP; [done|].
  intros H i [->|Hi]%elem_of_cons; [done|by apply IH].
Qed.

Section lock_request.
Context (me self lock_type inode first last : Z) (Hty : lock_type = F_RDLCK \/ lock_type = F_WRLCK).

Definition free_first (empty : option nat) (slots : list nat) (tbl : list file_lock) : option nat :=
  match empty with Some _ => empty | None => first_slot (fun f => negb (held f)) slots tbl end.

(** A request for a lock looks for one that is in its way and for a free
    slot, and changes nothing. *)
Lemma scan_lock req slots : forall tbl empty c u,
  req = F_SETLK \/ req = F_SETLKW ->
  scan me self req lock_type inode first last slots tbl empty c u =
  match first_slot (blocks me lock_type inode first last) slots tbl with
  | Some i => if req =? F_SETLK then Returns tbl (- EAGAIN)
              else Waits (<[i := (slot tbl i) <| fl_wq ::= fun l => self :: l |>]> tbl) i
  | None => Scanned tbl (free_first empty slots tbl) None c u
  end.
Proof.
  induction slots as [|i slots IH]; intros tbl empty c u Hreq; cbn [scan first_slot]; [by destruct empty|].
  unfold blocks at 1. unfold held at 1. destruct (fl_type (slot tbl i) =? 0) eqn:Hz; cbn [negb andb].
  - rewrite IH by done. destruct (first_slot (blocks _ _ _ _ _) slots tbl); [done|]. f_equal.
    destruct empty; [done|]. cbn [free_first first_slot]. unfold held. by rewrite Hz.
  - destruct (passes _ _ _ _ _ _); cbn [negb].
    + rewrite IH by done. destruct (first_slot (blocks _ _ _ _ _) slots tbl); [done|]. f_equal.
      destruct empty; [done|]. cbn [free_first first_slot]. unfold held at 2. by rewrite Hz.
    + assert ((req =? F_GETLK) = false) as -> by (destruct Hreq as [-> | ->]; done).
      assert ((lock_type =? F_RDLCK) || (lock_type =? F_WRLCK) = true) as -> by (destruct Hty as [-> | ->]; done). done.
Qed.

(** A lock that is in nobody's way is compatible with the others. *)
Lemma new_lock_compatible f : blocks me lock_type inode first last f = false ->
  compatible (new_lock me lock_type inode first last) f.
Proof.
  unfold blocks, passes, compatible. intros Hb _ Hh Hi Ho Hl1 Hl2. cbn in *. rewrite Hh in Hb. cbn [andb] in Hb.
  apply negb_false_iff in Hb. assert ((lock_type =? F_UNLCK) = false) as Hu by (destruct Hty as [-> | ->]; done).
  rewrite Hu in Hb. cbn [negb andb] in Hb. lia.
Qed.
End lock_request.

Lemma compatible_sym f g : compatible f g -> compatible g f.
Proof.
  intros H Hg Hf Hi Ho H1 H2. destruct (H Hf Hg) as [? ?]; try done; by apply not_eq_sym.
Qed.

Lemma table_ok_insert tbl i f :
  table_ok tbl -> (forall j g, tbl !! j = Some g -> j <> i -> compatible f g) -> table_ok (<[i := f]> tbl).
Proof.
  intros [Hlen Hall] Hf. split; [by rewrite length_insert|]. intros j k a b Hj Hk Hne.
  destruct (decide (j = i)) as [->|Hji], (decide (k = i)) as [->|Hki]; [done|..].
  - pose proof (lookup_lt_Some _ _ _ Hj) as Hlt. rewrite length_insert in Hlt.
    rewrite list_lookup_insert_eq in Hj by done. injection Hj as <-. rewrite list_lookup_insert_ne in Hk by done. by eapply Hf.
  - pose proof (lookup_lt_Some _ _ _ Hk) as Hlt. rewrite length_insert in Hlt.
    rewrite list_lookup_insert_eq in Hk by done. injection Hk as <-. rewrite list_lookup_insert_ne in Hj by done.
    apply compatible_sym. by eapply Hf.
  - rewrite list_lookup_insert_ne in Hj, Hk by done. by eapply Hall.
Qed.

(** Lock [f] of another process is on the same bytes, and one of the two is a
    write lock. *)
Definition conflicts (me lock_type inode first last : Z) (f : file_lock) : Prop :=
  held f = true /\ fl_inode f = inode /\ fl_owner f <> me /\ fl_first f <= last /\ first <= fl_last f /\
  ~ (lock_type = F_RDLCK /\ fl_type f = F_RDLCK).

Lemma blocks_conflicts me lock_type inode first last f : lock_type = F_RDLCK \/ lock_type = F_WRLCK ->
  blocks me lock_type inode first last f = true <-> conflicts me lock_type inode first last f.
Proof.
  intros Hty. unfold blocks, conflicts, passes.
  assert ((lock_type =? F_UNLCK) = false) as -> by (destruct Hty as [-> | ->]; done).
  destruct (held f); cbn [andb]; [|by split; [|intros [? _]]]. cbn [negb andb]. split; [intros H; split_and!|intros H]; lia.
Qed.

Lemma slot_lookup tbl i : length tbl = NR_LOCKS -> i ∈ seq 0 NR_LOCKS -> tbl !! i = Some (slot tbl i).
Proof.
  intros Hlen Hi%elem_of_seq. unfold slot. destruct (tbl !! i) eqn:E; [done|].
  apply lookup_ge_None in E. lia.
Qed.

Lemma lookup_slot tbl i f : length tbl = NR_LOCKS -> tbl !! i = Some f -> i ∈ seq 0 NR_LOCKS /\ slot tbl i = f.
Proof.
  intros Hlen Hi. pose proof (lookup_lt_Some _ _ _ Hi). split; [apply elem_of_seq; lia|]. unfold slot. by rewrite Hi.
Qed.

(** On free slots the loop only looks for the first one. *)
Lemma scan_free me self req lock_type inode first last slots : forall tbl empty c u,
  (forall i, i ∈ slots -> fl_type (slot tbl i) = 0) ->
  scan me self req lock_type inode first last slots tbl empty c u =
  Scanned tbl (match empty with Some _ => empty | None => head slots end) None c u.
Proof.
  induction slots as [|i slots IH]; intros tbl empty c u Hf; cbn [scan]; [by destruct empty|].
  rewrite (Hf i) by left. change (0 =? 0) with true. cbv iota. rewrite IH by (intros j Hj; apply Hf; by right).
  by destruct empty.
Qed.

Definition empty_table : list file_lock := replicate NR_LOCKS free_slot.

Lemma empty_table_ok : table_ok empty_table.
Proof.
  split; [done|]. intros i j f g Hi _ _ Hf. apply lookup_replicate in Hi as [-> _]. done.
Qed.

(** C20: A request for a record lock is decided by the locks held. When another
    process has a conflicting lock it is refused; otherwise it gets the lock,
    in a slot that was free, or is told that the table is full. Whatever the
    answer, locks of different processes on the same bytes stay read locks. *)
Theorem lock_decided (get_epinfo : Z -> Z) (copied me self : Z) (filp : file_desc) (fl : flock)
    (tbl : list file_lock) (first last : Z) :
  table_ok tbl -> l_type fl = F_RDLCK \/ l_type fl = F_WRLCK ->
  check_request F_SETLK filp fl = None -> lock_range filp fl = Some (first, last) ->
  let conflict := exists i f, tbl !! i = Some f /\ conflicts me (l_type fl) (fd_inode filp) first last f in
  exists tbl' code, do_lock get_epinfo copied me self F_SETLK filp (Some fl) tbl = Ret (tbl', Result code None) /\
    table_ok tbl' /\
    ((conflict /\ code = - EAGAIN /\ tbl' = tbl) \/
     (~ conflict /\ (forall i f, tbl !! i = Some f -> held f = true) /\ code = - ENOLCK /\ tbl' = tbl) \/
     (~ conflict /\ code = 0 /\
      exists i f, tbl !! i = Some f /\ held f = false /\
                  tbl' = <[i := new_lock me (l_type fl) (fd_inode filp) first last]> tbl)).
Proof.
  intros Hok Hty Hreq Hrange conflict. pose proof Hok as [Hlen _]. unfold do_lock. cbn [F_SETLK F_GETLK F_SETLKW Z.eqb Pos.eqb orb negb]. rewrite Hreq, Hrange.
  rewrite scan_lock by auto. destruct (first_slot (blocks _ _ _ _ _) _ tbl) as [i|] eqn:Hblk.
  - apply first_slot_some in Hblk as [Hi Hb]. change (F_SETLK =? F_SETLK) with true. cbv iota.
    eexists _, _. split; [reflexivity|]. split; [done|left]. split_and!; try done.
    exists i, (slot tbl i). split; [by apply slot_lookup|by apply blocks_conflicts].
  - pose proof (first_slot_none _ _ _ Hblk) as Hnone.
    assert (~ conflict) as Hnc.
    { intros (i & f & Hi & Hc). apply (lookup_slot _ _ _ Hlen) in Hi as [Hi <-].
      apply blocks_conflicts in Hc; [|done]. by rewrite Hnone in Hc. }
    rewrite res_ret_bind. change (F_SETLK =? F_GETLK) with false.
    assert ((l_type fl =? F_UNLCK) = false) as -> by (destruct Hty as [-> | ->]; done). cbn [free_first].
    destruct (first_slot (fun f => negb (held f)) _ tbl) as [i|] eqn:Hfree.
    + apply first_slot_some in Hfree as [Hi Hh]. pose proof (slot_lookup _ _ Hlen Hi) as Hs.
      eexists _, _. split; [reflexivity|]. split.
      * apply table_ok_insert; [done|]. intros j g Hj Hji. apply new_lock_compatible; [done|].
        apply (lookup_slot _ _ _ Hlen) in Hj as [Hj <-]. by apply Hnone.
      * right; right. split_and!; try done. exists i, (slot tbl i). split_and!; [done| |done]. by apply negb_true_iff in Hh.
    + eexists _, _. split; [reflexivity|]. split; [done|]. right; left. split_and!; try done.
      intros i f Hi. apply (lookup_slot _ _ _ Hlen) in Hi as [Hi <-].
      pose proof (first_slot_none _ _ _ Hfree _ Hi) as H. by apply negb_false_iff in H.
Qed.

Definition demo_filp : file_desc := mk_filp 6 0 77 S_IFREG 100.

Lemma lock_decided_witness :
  exists tbl' code, do_lock id 0 5 0 F_SETLK demo_filp (Some (mk_flock F_WRLCK SEEK_SET 0 10 0)) empty_table = Ret (tbl', Result code None) /\
    table_ok tbl'.
Proof.
  destruct (lock_decided id 0 5 0 demo_filp (mk_flock F_WRLCK SEEK_SET 0 10 0) empty_table 0 9 empty_table_ok
              (or_intror eq_refl) eq_refl eq_refl) as (tbl' & code & H1 & H2 & _).
  exists tbl', code. exact (conj H1 H2).
Defined.

(** A file open for reading and writing, and a lock on its first bytes. *)
Definition open_file (inode : Z) : file_desc := mk_filp 6 0 inode S_IFREG 100.
Definition first_bytes (ty : Z) : flock := mk_flock ty SEEK_SET 0 10 0.
Definition lock_of (a inode ty : Z) : file_lock := mk_lock ty a inode 0 9 [].

Lemma slot_others (f g : file_lock) i : i ∈ seq 1 31 -> fl_type (slot (<[0%nat := f]> (<[0%nat := g]> empty_table)) i) = 0.
Proof.
  intros Hi%elem_of_seq. unfold slot. rewrite !list_lookup_insert_ne by lia.
  unfold empty_table. by rewrite lookup_replicate_2 by (unfold NR_LOCKS; lia).
Qed.

Lemma scan_unlock_cons b self a inode slots tbl tbl' :
  slot tbl 0 = lock_of a inode F_WRLCK -> unlock_slot 0 9 0 tbl = Some tbl' ->
  (forall i, i ∈ slots -> fl_type (slot tbl' i) = 0) ->
  scan b self F_SETLK F_UNLCK inode 0 9 (0%nat :: slots) tbl None false false = Scanned tbl' (head slots) None true true.
Proof.
  intros Hs Hu Hf. assert (passes b F_UNLCK inode 0 9 (lock_of a inode F_WRLCK) = false) as Hp.
  { unfold passes, lock_of. cbn [fl_inode]. by rewrite Z.eqb_refl. }
  cbn [scan]. rewrite Hs, Hp, Hu. cbn [lock_of fl_type]. by apply scan_free.
Qed.

Lemma scan_unlock b self a inode :
  scan b self F_SETLK F_UNLCK inode 0 9 (seq 0 NR_LOCKS) (<[0%nat := lock_of a inode F_WRLCK]> empty_table) None false false =
  Scanned (<[0%nat := lock_of a inode 0]> (<[0%nat := lock_of a inode F_WRLCK]> empty_table)) (Some 1%nat) None true true.
Proof.
  assert (seq 0 NR_LOCKS = 0%nat :: seq 1 31) as -> by reflexivity.
  rewrite (scan_unlock_cons b self a inode (seq 1 31) _ (<[0%nat := lock_of a inode 0]> (<[0%nat := lock_of a inode F_WRLCK]> empty_table)));
    [reflexivity..|]. intros i Hi. by apply slot_others.
Qed.

(** Releasing a lock goes wrong. When process [a] holds a lock and any
    process [b] unlocks the range, the loop removes the lock of [a], and then
    wakes the waiters of the slot past the end of the table. *)
Theorem unlock_error_paths (get_epinfo : Z -> Z) (copied a b self inode : Z) :
  let tbl := <[0%nat := lock_of a inode F_WRLCK]> empty_table in
  do_lock get_epinfo copied a self F_SETLK (open_file inode) (Some (first_bytes F_WRLCK)) empty_table =
    Ret (tbl, Result 0 None) /\
  scan b self F_SETLK F_UNLCK inode 0 9 (seq 0 NR_LOCKS) tbl None false false =
    Scanned (<[0%nat := lock_of a inode 0]> tbl) (Some 1%nat) None true true /\
  do_lock get_epinfo copied b self F_SETLK (open_file inode) (Some (first_bytes F_UNLCK)) tbl = Crash BadPtr.
Proof.
  intros tbl. assert (forall ty, lock_range (open_file inode) (first_bytes ty) = Some (0, 9)) as Hr by reflexivity.
  assert (check_request F_SETLK (open_file inode) (first_bytes F_WRLCK) = None) as Hc by reflexivity.
  assert (check_request F_SETLK (open_file inode) (first_bytes F_UNLCK) = None) as Hc' by reflexivity.
  split_and!; [|apply scan_unlock|]; unfold do_lock; cbn [F_SETLK F_GETLK F_SETLKW Z.eqb Pos.eqb orb negb]; rewrite ?Hc, ?Hc', Hr; cbn [open_file first_bytes fd_inode l_type].
  - rewrite scan_free; [by rewrite res_ret_bind|]. intros i Hi%elem_of_seq.
    unfold slot, empty_table. by rewrite lookup_replicate_2 by lia.
  - unfold tbl. by rewrite scan_unlock.
Qed.
