(* ===== verification/PmProc.v ===== *)
(** * State of the process manager

    The process table of the process manager (servers/pm/pmproc.h,
    servers/pm/global.h), its lookups (servers/pm/utils.c) and what it exchanges
    with the rest of the system. A pointer to an entry of [pmproc_table] is the
    number of its slot; an access outside the table is a failure [BadPtr].

    The members of type [struct list_head] live in a heap of links of their own
    ([links], see [ListHead]): [futex_node p] is the address of the futex entry
    of slot [p], [thread_node p] that of its member [thread_group].

    A kernel call, a copy from or to another process, and a message to another
    process is an entry of [calls], the newest first. What they answer is up to
    the rest of the system: the class [World] gives the answers as functions of
    everything asked before. It also gives the type of user and group ids, which
    the C library defines. *)

From S2P Require Import Prelude Stm SigSet ListHead Kernel.

(** ** Constants *)

Definition SUSPEND : Z := -1000.
Definition TASK_SERVMAN : Z := 2.
Definition TASK_FS : Z := 5.
Definition INIT_PID : Z := 1.
Definition NR_PIDS : Z := 32767.
Definition SU_UID : Z := 0.
Definition NGROUPS_MAX : Z := 16.

Definition PMPF_INUSE : Z := 1.
Definition PMPF_WAITING : Z := 2.
Definition PMPF_HANGING : Z := 4.
Definition PMPF_SIGSUSPENDED : Z := 8.
Definition PMPF_TRACED : Z := 16.

Definition SIG_DFL : Z := 0.
Definition SIG_IGN : Z := 1.
Definition SIG_SETMASK : Z := 0.
Definition SIG_BLOCK : Z := 1.
Definition SIG_UNBLOCK : Z := 2.

Definition WNOHANG : Z := 2.
Definition W_STOPCODE (sig : Z) : Z := Z.lor (Z.shiftl sig 8) 127.
Definition W_EXITCODE (ret sig : Z) : Z := Z.lor (wraps 32 (Z.shiftl ret 8)) sig.

(** ** Data *)

Record sigact := mk_sigact { sa_handler : Z; sa_mask : Z; sa_flags : Z }.
#[export] Instance rebuild_sigact : Rebuild sigact := fun a =>
  mk_sigact (sa_handler a) (sa_mask a) (sa_flags a).

(** [union futex_key], through the view [both] of its members. *)
Record futex_key := mk_key { key_word : Z; key_ptr : Z; key_offset : Z }.

Record futex_entry := mk_entry { fe_pmp : Z; fe_key : futex_key; fe_bitset : Z }.
#[export] Instance rebuild_entry : Rebuild futex_entry := fun e =>
  mk_entry (fe_pmp e) (fe_key e) (fe_bitset e).

Record pmproc := mk_pmproc {
  flags : Z;
  tgid : Z;
  pid : Z;
  endpoint : Z;
  parent : Z;
  tracer : Z;
  wait_pid : Z;
  sig_pending : Z;
  sig_mask : Z;
  sig_mask_saved : Z;
  sig_ignore : Z;
  sig_catch : Z;
  sig_trace : Z;
  sig_poll : Z;
  sig_status : Z;
  sigaction : Z -> sigact;
  sigreturn_f : Z;
  realuid : Z;
  effuid : Z;
  realgid : Z;
  effgid : Z;
  procgrp : Z;
  ngroups : Z;
  sgroups : list Z;
  group_leader : Z;
  frame_addr : Z;
  frame_size : Z;
  clear_child_tid : Z;
  fentry : futex_entry;
  exit_status : Z
}.
#[export] Instance rebuild_pmproc : Rebuild pmproc := fun p =>
  mk_pmproc (flags p) (tgid p) (pid p) (endpoint p) (parent p) (tracer p) (wait_pid p)
    (sig_pending p) (sig_mask p) (sig_mask_saved p) (sig_ignore p) (sig_catch p) (sig_trace p)
    (sig_poll p) (sig_status p) (sigaction p) (sigreturn_f p) (realuid p) (effuid p) (realgid p)
    (effgid p) (procgrp p) (ngroups p) (sgroups p) (group_leader p) (frame_addr p) (frame_size p)
    (clear_child_tid p) (fentry p) (exit_status p).

(** A static object is zero before it is initialised. *)
Definition zero_pmproc : pmproc :=
  mk_pmproc 0 0 0 0 0 0 0 0 0 0 0 0 0 0 0 (fun _ => mk_sigact 0 0 0) 0 0 0 0 0 0 0
    (replicate (Z.to_nat NGROUPS_MAX) 0) 0 0 0 0 (mk_entry 0 (mk_key 0 0 0) 0) 0.

Record siginfo := mk_siginfo { si_signo : Z; si_mask : Z; si_handler : Z; si_return : Z }.

(** What leaves the process manager. *)
Inductive call :=
| DataOut (dest addr : Z) (words : list Z)
| DataIn (src addr len : Z)
| ActionIn (src addr : Z)
| ActionOut (dest addr : Z) (a : sigact)
| TableOut (dest addr : Z)
| KernelClear (ep : Z)
| KernelSigsend (ep : Z) (si : siginfo)
| KernelSigreturn (ep scp : Z)
| KernelTrace (request ep addr : Z)
| KernelKprofile (m : MESSAGE)
| GetKsig
| EndKsig (ep : Z)
| ProcCtlClear (ep : Z)
| MmFork (parent slot flags newsp tls : Z)
| FsInit (proc_nr pid ep : Z)
| FsInitDone
| FsFork (ep parent pid flags : Z)
| FsExit (ep : Z)
| FsExec (ep pathname name_len frame frame_size : Z)
| FsGetSetId (request ep i1 i2 : Z)
| FsSetGroups (ep cnt : Z)
| SignalfdReply (ep status : Z)
| SignalfdPollNotify (ep status : Z)
| ReplyRet (ep retval pid : Z)
| ReplyWait (ep pid status : Z)
| ReplyWake (ep retval : Z)
| Reply (ep : Z) (m : MESSAGE)
| ReplySigaction (ep retval : Z).

Record exec_response := mk_exec_response {
  er_status : Z; er_new_uid : Z; er_new_gid : Z; er_frame : Z; er_frame_size : Z
}.

(** The answers, given the calls made before. *)
Class World := {
  w_ret : list call -> call -> Z;           (* the return value *)
  w_endpoint : list call -> call -> Z;      (* the member ENDPOINT of the reply *)
  w_set : list call -> call -> Z;           (* the member SIGSET of the reply *)
  w_long : list call -> call -> Z;          (* the member TRACE_RET of the reply *)
  w_words : list call -> call -> list Z;    (* the words copied in *)
  w_action : list call -> call -> sigact;   (* the sigaction copied in *)
  w_exec : list call -> call -> exec_response;
  w_junk : Z;                               (* an uninitialised variable *)
  w_id : Z -> Z;                            (* conversion of an int to uid_t and gid_t *)
  w_idsize : Z                              (* sizeof(gid_t) *)
}.

Record pmstate := mk_pmstate {
  pmproc_table : Z -> pmproc;
  procs_in_use : Z;
  links : heap;
  calls : list call
}.
#[export] Instance rebuild_pmstate : Rebuild pmstate := fun s =>
  mk_pmstate (pmproc_table s) (procs_in_use s) (links s) (calls s).

Notation pm := (stm pmstate).

(** ** Access to the table *)

Definition in_table (p : Z) : bool := (0 <=? p) && (p <? NR_PROCS).

Definition proc (p : Z) : pm pmproc :=
  if in_table p then gets (fun s => pmproc_table s p) else fail BadPtr.

Definition upd_tab (p : Z) (f : pmproc -> pmproc) (s : pmstate) : pmstate :=
  s <| pmproc_table ::= alter f p |>.

Definition upd (p : Z) (f : pmproc -> pmproc) : pm unit :=
  if in_table p then modify (upd_tab p f) else fail BadPtr.

(** A call, and a call with its return value. *)
Definition log (c : call) (s : pmstate) : pmstate := s <| calls ::= (c ::.) |>.
Definition tell (c : call) : pm unit := modify (log c).
Definition query {A} (answer : list call -> call -> A) (c : call) : pm A :=
  fun s => Ret (log c s, answer (calls s) c).

(** Addresses of links: 0 is NULL. *)
Definition NULL : Z := 0.
Definition futex_queue_head (i : Z) : Z := 1 + i.
Definition wake_queue : Z := 200.
Definition futex_node (p : Z) : Z := 1000 + p.
Definition thread_node (p : Z) : Z := 2000 + p.
(** The entry a futex node is embedded in. *)
Definition futex_owner (node : Z) : Z := node - 1000.

(** ** Lookups *)

Definition pm_verify_endpt (ep : Z) : Z * Z := (0, ENDPOINT_P ep).

Definition pm_endpt_proc (ep : Z) : option Z :=
  let '(retval, proc_nr) := pm_verify_endpt ep in
  if retval =? 0 then Some proc_nr else None.

Definition slots : list Z := seqZ 0 NR_PROCS.

Definition pm_pid_proc (n : Z) : pm (option Z) :=
  gets (fun s => head (filter (fun p => pid (pmproc_table s p) = n) slots)).

Definition pid_used (t : Z -> pmproc) (n : Z) : bool :=
  existsb (fun p => (pid (t p) =? n) || (procgrp (t p) =? n)) slots.

(** The loop ends after at most [2 * NR_PROCS + 1] rounds: a slot rules out at
    most two numbers. *)
Definition PID_FUEL : nat := Z.to_nat (2 * NR_PROCS + 1).

Fixpoint find_free_pid_from (fuel : nat) (t : Z -> pmproc) (n : Z) : option Z :=
  match fuel with
  | O => None
  | S fuel =>
      let n := if n <? NR_PIDS then n + 1 else INIT_PID + 1 in
      if pid_used t n then find_free_pid_from fuel t n else Some n
  end.

Definition find_free_pid : pm Z :=
  t ← gets pmproc_table;
  match find_free_pid_from PID_FUEL t (INIT_PID + 1) with
  | Some n => mret n
  | None => fail OutOfFuel
  end.

(** ** Reading and writing the state *)

Lemma upd_tab_eq p f s : pmproc_table (upd_tab p f s) p = f (pmproc_table s p).
Proof. apply fn_lookup_alter. Qed.

Lemma upd_tab_ne p q f s : p <> q -> pmproc_table (upd_tab p f s) q = pmproc_table s q.
Proof. apply fn_lookup_alter_ne. Qed.

Lemma upd_tab_at p q f s :
  pmproc_table (upd_tab p f s) q =
  if decide (p = q) then f (pmproc_table s q) else pmproc_table s q.
Proof.
  case_decide as H; [subst; apply upd_tab_eq|by apply upd_tab_ne].
Qed.

Lemma table_log c s : pmproc_table (log c s) = pmproc_table s.
Proof. done. Qed.

Lemma table_links s f : pmproc_table (s <| links ::= f |>) = pmproc_table s.
Proof. done. Qed.
Lemma table_count s f : pmproc_table (s <| procs_in_use ::= f |>) = pmproc_table s.
Proof. done. Qed.

Ltac tab_simpl :=
  repeat first
    [ rewrite table_links | rewrite table_count | rewrite table_log
    | rewrite upd_tab_eq | rewrite upd_tab_ne by congruence ].

Section access.
Context (E : crash -> Prop).

Lemma wp_proc p Q s :
  (in_table p = true -> Q (pmproc_table s p) s) -> (in_table p = false -> E BadPtr) ->
  wp E (proc p) Q s.
Proof. unfold proc. destruct (in_table p); [auto using wp_gets|auto using wp_fail]. Qed.

Lemma wp_upd p f Q s :
  (in_table p = true -> Q tt (upd_tab p f s)) -> (in_table p = false -> E BadPtr) ->
  wp E (upd p f) Q s.
Proof. unfold upd. destruct (in_table p); [auto using wp_modify|auto using wp_fail]. Qed.

Lemma wp_tell c Q s : Q tt (log c s) -> wp E (tell c) Q s.
Proof. done. Qed.

Lemma wp_query {A} (answer : list call -> call -> A) c Q s :
  Q (answer (calls s) c) (log c s) -> wp E (query answer c) Q s.
Proof. done. Qed.

End access.

Lemma in_table_spec p : in_table p = true <-> 0 <= p < NR_PROCS.
Proof. unfold in_table. rewrite andb_true_iff, Z.leb_le, Z.ltb_lt. done. Qed.

Lemma elem_of_slots p : p ∈ slots <-> in_table p = true.
Proof. unfold slots. rewrite elem_of_seqZ, in_table_spec. lia. Qed.

(** ** Invariants that do not depend on the calls *)

Class CallFree (I : pmstate -> Prop) := log_keeps : forall c s, I s -> I (log c s).

Section invariants.
Context (I : pmstate -> Prop) `{!CallFree I}.

Lemma keeps_proc p : keeps I (proc p).
Proof. apply keeps_if; [apply keeps_gets|apply keeps_fail]. Qed.
Lemma keeps_upd p f : (forall s, I s -> I (upd_tab p f s)) -> keeps I (upd p f).
Proof. intros. by apply keeps_if; [apply keeps_modify|apply keeps_fail]. Qed.
Lemma keeps_tell c : keeps I (tell c).
Proof. apply keeps_modify. apply log_keeps. Qed.
Lemma keeps_query {A} (answer : list call -> call -> A) c : keeps I (query answer c).
Proof. intros s Hs. by apply wp_query, log_keeps. Qed.

End invariants.

(** How the invariant at hand survives an update of a slot, to be extended. *)
Ltac keep_upd := fail.

Ltac keep_prim ::=
  lazymatch goal with
  | |- keeps _ (proc _) => apply keeps_proc
  | |- keeps _ (tell _) => apply keeps_tell; exact _
  | |- keeps _ (query _ _) => apply keeps_query; exact _
  | |- keeps _ (upd _ _) => apply keeps_upd; keep_upd
  end.
