(* ===== verification/Futex.v ===== *)
(** * Futexes of the process manager

    servers/pm/futex.c on the linked lists of [ListHead]: the queues of waiting
    processes are the lists at [futex_queue_head i]; a process waits through
    the entry embedded in its slot of the table. The theorems relate the
    pointers to the sequence of slots that wait in each queue. *)

From S2P Require Import Prelude Stm SigSet ListHead Kernel PmProc.

Definition QUEUE_HASH_LOG2 : Z := 7.
Definition QUEUE_HASH_SIZE : Z := Z.shiftl 1 QUEUE_HASH_LOG2.
Definition QUEUE_HASH_MASK : Z := Z.shiftl 1 QUEUE_HASH_LOG2 - 1.
Definition FUTEX_WAIT : Z := 0.
Definition FUTEX_WAKE : Z := 1.
Definition FUTEX_BITSET_MATCH_ANY : Z := 4294967295.

(** ** Links, with the dereferences of NULL *)

Definition next_of (x : Z) : pm Z :=
  if x =? NULL then fail NullDeref else gets (fun s => next (links s) x).

Definition upd_links (f : heap -> heap) : pm unit := modify (fun s => s <| links ::= f |>).

(** [list_add] writes through [head->next], [list_del] through both links of
    the node. *)
Definition add_link (new head : Z) : pm unit :=
  nxt ← next_of head;
  if nxt =? NULL then fail NullDeref else upd_links (list_add new head).

Definition del_link (node : Z) : pm unit :=
  h ← gets links;
  if (next h node =? NULL) || (prev h node =? NULL) then fail NullDeref
  else upd_links (list_del node).

(** ** The operations *)

Definition futex_init : pm unit :=
  each (seqZ 0 QUEUE_HASH_MASK) (fun i => upd_links (INIT_LIST_HEAD (futex_queue_head i))).

Definition hash_index (key : futex_key) : Z :=
  let hash := wrapu 32 (key_word key + key_offset key) in
  Z.land hash QUEUE_HASH_MASK.

Definition futex_hash (key : futex_key) : Z := futex_queue_head (hash_index key).

Definition futex_match_key (k1 k2 : futex_key) : bool :=
  (key_word k1 =? key_word k2) && (key_ptr k1 =? key_ptr k2) &&
  (key_offset k1 =? key_offset k2).

Definition futex_get_key (leader uaddr : Z) (shared : bool) : futex_key + Z :=
  let offset := uaddr mod ARCH_PG_SIZE in
  let addr := uaddr - offset in
  if negb shared then inl (mk_key addr leader offset) else inr EINVAL.

Definition futex_queue (pmp list : Z) : pm unit :=
  _ ← upd_links (INIT_LIST_HEAD (futex_node pmp));
  _ ← add_link (futex_node pmp) list;
  upd pmp (fun r => r <| fentry ::= fun e => e <| fe_pmp := pmp |> |>).

Section futex.
Context `{!World}.

(** The queue to wait in, or the error. *)
Definition futex_wait_setup (pmp uaddr val : Z) : pm (Z + Z) :=
  r ← proc pmp;
  match futex_get_key (group_leader r) uaddr false with
  | inr ret => mret (inr ret)
  | inl key =>
      _ ← upd pmp (fun r => r <| fentry ::= fun e => e <| fe_key := key |> |>);
      '(ret, words) ← query (fun h c => (w_ret h c, w_words h c)) (DataIn (endpoint r) uaddr 4);
      let uval := default w_junk (head words) in
      if negb (ret =? 0) then mret (inr ret)
      else if negb (uval =? val) then mret (inr EAGAIN)
      else mret (inl (futex_hash key))
  end.

Definition futex_wait (pmp uaddr val bitset : Z) : pm Z :=
  if bitset =? 0 then mret EINVAL
  else
    _ ← upd pmp (fun r => r <| fentry ::= fun e => e <| fe_bitset := bitset |> |>);
    r ← futex_wait_setup pmp uaddr val;
    match (r : Z + Z) with
    | inr ret => mret ret
    | inl list => _ ← futex_queue pmp list; mret SUSPEND
    end.

Definition wakeup_proc (pmp : Z) : pm unit :=
  r ← proc pmp;
  tell (ReplyWake (endpoint r) 0).

(** A list has at most one node for each process. *)
Definition QUEUE_FUEL : nat := S (Z.to_nat NR_PROCS).

(** The first loop of [futex_wake]: moves matching entries to [wake_queue]. *)
Fixpoint wake_loop (fuel : nat) (key : futex_key) (nr_wake bitset list : Z) (q tmp ret : Z) : pm Z :=
  match fuel with
  | O => fail OutOfFuel
  | S fuel =>
      if q =? list then mret ret
      else
        r ← proc (futex_owner q);
        if futex_match_key (fe_key (fentry r)) key && has_flag (fe_bitset (fentry r)) bitset then
          _ ← del_link q;
          _ ← add_link q wake_queue;
          let ret := ret + 1 in
          if nr_wake <=? ret then mret ret
          else n ← next_of tmp; wake_loop fuel key nr_wake bitset list tmp n ret
        else n ← next_of tmp; wake_loop fuel key nr_wake bitset list tmp n ret
  end.

(** The second one: answers them. *)
Fixpoint answer_loop (fuel : nat) (q tmp : Z) : pm unit :=
  match fuel with
  | O => fail OutOfFuel
  | S fuel =>
      if q =? wake_queue then mret tt
      else
        r ← proc (futex_owner q);
        _ ← wakeup_proc (fe_pmp (fentry r));
        _ ← del_link q;
        n ← next_of tmp;
        answer_loop fuel tmp n
  end.

Definition futex_wake (pmp uaddr nr_wake bitset : Z) : pm Z :=
  _ ← upd_links (INIT_LIST_HEAD wake_queue);
  if bitset =? 0 then mret EINVAL
  else
    r ← proc pmp;
    match futex_get_key (group_leader r) uaddr false with
    | inr ret => mret ret
    | inl key =>
        let list := futex_hash key in
        q ← next_of list;
        tmp ← next_of q;
        ret ← wake_loop QUEUE_FUEL key nr_wake bitset list q tmp 0;
        q ← next_of wake_queue;
        tmp ← next_of q;
        _ ← answer_loop QUEUE_FUEL q tmp;
        mret ret
    end.

Definition do_futex (m : MESSAGE) : pm Z :=
  let op := m3i1 (m_u m) in
  let uaddr := m3p1 (m_u m) in
  let val := wrapu 32 (m3i2 (m_u m)) in
  match pm_endpt_proc (m_source m) with
  | None => fail NullDeref
  | Some pmp =>
      if op =? FUTEX_WAIT then futex_wait pmp uaddr val FUTEX_BITSET_MATCH_ANY
      else if op =? FUTEX_WAKE then futex_wake pmp uaddr (wraps 32 val) FUTEX_BITSET_MATCH_ANY
      else mret ENOSYS
  end.

(** ** What waking leaves alone *)

Definition same_table (s s' : pmstate) : Prop :=
  pmproc_table s' = pmproc_table s /\ procs_in_use s' = procs_in_use s.

#[export] Instance same_table_calls s0 : CallFree (same_table s0).
Proof. by intros c s. Qed.

Lemma keeps_links I f : (forall s, I s -> I (s <| links ::= f |>)) -> keeps I (upd_links f).
Proof. apply keeps_modify. Qed.

Lemma futex_wake_table s0 pmp uaddr nr bs : keeps (same_table s0) (futex_wake pmp uaddr nr bs).
Proof.
  assert (forall f, keeps (same_table s0) (upd_links f)) as Hl by (intros f; by apply keeps_links).
  assert (forall fuel key list q tmp ret, keeps (same_table s0) (wake_loop fuel key nr bs list q tmp ret)) as Hw.
  { intros fuel key list. unfold add_link, del_link, next_of.
    induction fuel as [|fuel IH]; intros; cbn; unfold add_link, del_link, next_of; keep. }
  assert (forall fuel q tmp, keeps (same_table s0) (answer_loop fuel q tmp)) as Ha.
  { induction fuel as [|fuel IH]; intros; cbn; unfold wakeup_proc, del_link, next_of; keep. }
  unfold futex_wake, futex_get_key, next_of. cbn [negb]. keep.
Qed.

End futex.
