(* ===== verification/Pm.v ===== *)
(** * The process manager

    Processes and signals: servers/pm/forkexit.c, servers/pm/signal.c,
    servers/pm/trace.c, servers/pm/exec.c, servers/pm/misc.c and the dispatch of
    requests in servers/pm/main.c, on the state of [PmProc].

    A request is a message; the code reads it through the structure the request
    uses. [MESSAGE] is the view [struct mess3]; the two other views the code
    uses are arguments of their own ([mess_pm_clone], [mess_pm_signal]). A
    handler returns its return value and, where it writes to the message, the
    message.

    [sig_proc] ends a process with [exit_proc], which signals the parent, whose
    end may be the consequence: the recursion takes fuel. *)

From S2P Require Import Prelude Stm SigSet ListHead Kernel PmProc Futex.

Definition CLONE_THREAD : Z := 65536.
Definition CLONE_PARENT_SETTID : Z := 1048576.
Definition CLONE_CHILD_CLEARTID : Z := 2097152.

Definition TRACE_STOP : Z := 1.
Definition TRACE_SYSCALL : Z := 2.
Definition TRACE_CONT : Z := 3.
Definition TRACE_PEEKTEXT : Z := 4.
Definition TRACE_PEEKDATA : Z := 5.
Definition TRACE_PEEKUSER : Z := 6.
Definition PTRACE_TRACEME : Z := 0.
Definition PTRACE_PEEKTEXT : Z := 1.
Definition PTRACE_PEEKDATA : Z := 2.
Definition PTRACE_PEEKUSER : Z := 3.
Definition PTRACE_CONT : Z := 7.
Definition PTRACE_SYSCALL : Z := 24.

Record mess_pm_clone := mk_clone {
  cl_flags : Z; cl_stack : Z; cl_parent_tid : Z; cl_tls : Z; cl_child_tid : Z
}.
Record mess_pm_signal := mk_signal {
  sg_signum : Z; sg_act : Z; sg_oldact : Z; sg_sigret : Z
}.
Record mess_signalfd := mk_signalfd {
  sf_endpoint : Z; sf_sigmask : Z; sf_buf : Z; sf_notify : Z
}.

(** The signal sets [pm_init] puts together. *)
Definition core_set : Z := fold_left sigaddset
  [SIGQUIT; SIGILL; SIGTRAP; SIGABRT; SIGEMT; SIGFPE; SIGBUS; SIGSEGV] 0.
Definition ign_set : Z := fold_left sigaddset [SIGCHLD; SIGWINCH; SIGCONT] 0.
Definition noign_set : Z := fold_left sigaddset
  [SIGILL; SIGTRAP; SIGEMT; SIGFPE; SIGBUS; SIGSEGV] 0.

Section pm.
Context `{!World}.

(** ** Children and parents *)

Definition waiting_for (par child : pmproc) : bool :=
  has_flag (flags par) PMPF_WAITING && ((wait_pid par =? -1) || (wait_pid par =? pid child)).

Definition cleanup (pmp : Z) : pm unit :=
  _ ← modify (fun s => s <| procs_in_use ::= Z.pred |>);
  upd pmp (fun r => r <| pid := 0 |> <| flags := 0 |>).

Definition tell_parent (pmp : Z) : pm unit :=
  r ← proc pmp;
  let '(retval, par) := pm_verify_endpt (parent r) in
  if negb (retval =? 0) then mret tt
  else
    _ ← upd par (fun r => r <| flags ::= fun f => clear_flag f PMPF_WAITING |>);
    r ← proc pmp;
    tell (ReplyWait (parent r) (pid r) (W_EXITCODE (exit_status r) (sig_status r))).

(** [sig_proc] is the argument [sig]. *)
Definition check_parent (sig : Z -> Z -> bool -> pm unit) (pmp : Z) (try_cleanup : bool) : pm unit :=
  r ← proc pmp;
  let '(retval, par) := pm_verify_endpt (parent r) in
  if negb (retval =? 0) then mret tt
  else
    rpar ← proc par;
    if waiting_for rpar r then
      _ ← tell_parent pmp;
      when try_cleanup (cleanup pmp)
    else
      _ ← upd pmp (fun r => r <| flags ::= fun f => set_flag f PMPF_HANGING |>);
      sig par SIGCHLD true.

(** One round of the loop of [exit_proc] that gives the children to INIT. *)
Definition adopt (sig : Z -> Z -> bool -> pm unit) (ep pi : Z) : pm unit :=
  r ← proc pi;
  when (parent r =? ep)
    (_ ← upd pi (fun r => r <| parent := INIT |>);
     init ← proc INIT;
     r ← proc pi;
     when (has_flag (flags init) PMPF_WAITING && has_flag (flags r) PMPF_HANGING)
       (check_parent sig pi true)).

(** The first lines of [exit_proc]: the word a thread library waits on. *)
Definition clear_tid (pmp : Z) : pm unit :=
  r ← proc pmp;
  when (negb (clear_child_tid r =? NULL))
    (ret ← query w_ret (DataOut (endpoint r) (clear_child_tid r) [0]);
     _ ← when (ret =? 0)
           (_ ← futex_wake pmp (clear_child_tid r) 1 FUTEX_BITSET_MATCH_ANY; mret tt);
     upd pmp (fun r => r <| clear_child_tid := NULL |>)).

Definition exit_with (sig : Z -> Z -> bool -> pm unit) (pmp status : Z) : pm unit :=
  r ← proc pmp;
  let ep := endpoint r in
  _ ← clear_tid pmp;
  _ ← tell (KernelClear ep);
  _ ← tell (FsExit ep);
  _ ← tell (ProcCtlClear ep);
  _ ← upd pmp (fun r => r <| exit_status := status |>);
  _ ← check_parent sig pmp true;
  each slots (adopt sig ep).

(** ** Sending signals *)

(** The signals [lo], ..., [NSIG - 1] of [set], added one by one. *)
Definition add_members (lo set dst : Z) : Z :=
  fold_left (fun d i => if sigismember set i then sigaddset d i else d) (seqZ lo (NSIG - lo)) dst.
Definition del_members (lo set dst : Z) : Z :=
  fold_left (fun d i => if sigismember set i then sigdelset d i else d) (seqZ lo (NSIG - lo)) dst.

Definition in_sigaction (signo : Z) : bool := (0 <=? signo) && (signo <? NSIG).

(** [p->sigaction[signo]] *)
Definition action_of (p signo : Z) : pm sigact :=
  r ← proc p;
  if in_sigaction signo then mret (sigaction r signo) else fail BadPtr.

Definition send_sig (p_dest signo : Z) : pm Z :=
  r ← proc p_dest;
  let mask := if has_flag (flags r) PMPF_SIGSUSPENDED then sig_mask_saved r else sig_mask r in
  a ← action_of p_dest signo;
  let si := mk_siginfo signo mask (sa_handler a) (sigreturn_f r) in
  _ ← upd p_dest (fun r => r <| sig_mask ::= add_members 0 (sa_mask a) |>);
  retval ← query w_ret (KernelSigsend (endpoint r) si);
  _ ← when (has_flag (flags r) PMPF_SIGSUSPENDED)
        (_ ← upd p_dest (fun r => r <| flags ::= fun f => clear_flag f PMPF_SIGSUSPENDED |>);
         tell (ReplyWake (endpoint r) EINTR));
  mret retval.

Definition trace_signal (p_dest signo : Z) : pm unit :=
  _ ← upd p_dest (fun r => r <| flags ::= fun f => set_flag f PMPF_TRACED |>);
  r ← proc p_dest;
  retval ← query w_ret (KernelTrace TRACE_STOP (endpoint r) NULL);
  if negb (retval =? 0) then fail Panic
  else
    match pm_endpt_proc (tracer r) with
    | None => fail NullDeref
    | Some tr =>
        rtr ← proc tr;
        when (waiting_for rtr r)
          (_ ← upd p_dest (fun r => r <| sig_trace ::= fun x => sigdelset x signo |>);
           _ ← upd tr (fun r => r <| flags ::= fun f => clear_flag f PMPF_WAITING |>);
           tell (ReplyWait (endpoint rtr) (pid r) (W_STOPCODE signo)))
    end.

(** [exit_proc] is the argument [exit]. *)
Definition sig_with (exit : Z -> Z -> pm unit) (p_dest signo : Z) (trace : bool) : pm unit :=
  r ← proc p_dest;
  if trace && negb (tracer r =? NO_TASK) && negb (signo =? SIGKILL) then
    _ ← upd p_dest (fun r => r <| sig_trace ::= fun x => sigaddset x signo |>);
    when (negb (has_flag (flags r) PMPF_TRACED)) (trace_signal p_dest signo)
  else
    let bad_ignore := sigismember noign_set signo &&
                      (sigismember (sig_ignore r) signo || sigismember (sig_mask r) signo) in
    if negb bad_ignore && sigismember (sig_ignore r) signo then mret tt
    else if negb bad_ignore && sigismember (sig_mask r) signo then
      _ ← upd p_dest (fun r => r <| sig_pending ::= fun x => sigaddset x signo |>);
      when (sigismember (sig_poll r) signo) (tell (SignalfdPollNotify (endpoint r) signo))
    else
      let die := _ ← upd p_dest (fun r => r <| sig_status := signo |>); exit p_dest 0 in
      if negb bad_ignore && sigismember (sig_catch r) signo then
        ret ← send_sig p_dest signo;
        if ret =? 0 then mret tt else die
      else if negb bad_ignore && sigismember ign_set signo then mret tt
      else die.

Fixpoint sig_proc_fuel (fuel : nat) (p_dest signo : Z) (trace : bool) : pm unit :=
  match fuel with
  | O => fail OutOfFuel
  | S fuel => sig_with (exit_with (sig_proc_fuel fuel)) p_dest signo trace
  end.

Definition SIG_FUEL : nat := Z.to_nat NR_PROCS.
Definition sig_proc : Z -> Z -> bool -> pm unit := sig_proc_fuel SIG_FUEL.
Definition exit_proc : Z -> Z -> pm unit := exit_with sig_proc.

Definition do_exit (p : MESSAGE) : pm Z :=
  let '(retval, src_slot) := pm_verify_endpt (m_source p) in
  if negb (retval =? 0) then mret retval
  else
    _ ← exit_proc src_slot (m3i1 (m_u p));
    mret SUSPEND.

(** ** Fork *)

Definition mm_fork (parent_ep slot fl newsp tls : Z) : pm (Z * Z) :=
  query (fun h c => (w_ret h c, w_endpoint h c)) (MmFork parent_ep slot fl newsp tls).

Definition FORK_FUEL : nat := S (Z.to_nat NR_PROCS).

Fixpoint find_slot (fuel : nat) (child_slot n : Z) : pm (Z * Z) :=
  match fuel with
  | O => fail OutOfFuel
  | S fuel =>
      let child_slot := Z.rem (child_slot + 1) NR_PROCS in
      let n := n + 1 in
      r ← proc child_slot;
      if has_flag (flags r) PMPF_INUSE && (n <=? NR_PROCS) then find_slot fuel child_slot n
      else mret (child_slot, n)
  end.

(** [*pmp = *pm_parent] also copies the links embedded in the structure. *)
Definition copy_links (src dst : Z) (h : heap) : heap :=
  let h := set_next (futex_node dst) (next h (futex_node src))
             (set_prev (futex_node dst) (prev h (futex_node src)) h) in
  set_next (thread_node dst) (next h (thread_node src))
    (set_prev (thread_node dst) (prev h (thread_node src)) h).

Definition do_fork (p : MESSAGE) (c : mess_pm_clone) : pm (MESSAGE * Z) :=
  let parent_ep := m_source p in
  match pm_endpt_proc parent_ep with
  | None => mret (p, EINVAL)
  | Some pm_parent =>
      in_use ← gets procs_in_use;
      if NR_PROCS <=? in_use then mret (p, EAGAIN)
      else
        '(child_slot, n) ← find_slot FORK_FUEL 0 0;
        if NR_PROCS <? n then mret (p, EAGAIN)
        else
          '(retval, child_ep) ← mm_fork parent_ep child_slot (cl_flags c) (cl_stack c) (cl_tls c);
          if negb (retval =? 0) then mret (p, retval)
          else
            rpar ← proc pm_parent;
            _ ← upd child_slot (fun _ => rpar);
            _ ← upd_links (copy_links pm_parent child_slot);
            _ ← upd child_slot (fun r => r <| flags := PMPF_INUSE |>);
            _ ← modify (fun s => s <| procs_in_use ::= Z.succ |>);
            _ ← upd child_slot (fun r => r <| parent := parent_ep |> <| endpoint := child_ep |>
                  <| clear_child_tid := if has_flag (cl_flags c) CLONE_CHILD_CLEARTID
                                        then cl_child_tid c else NULL |>);
            new_pid ← find_free_pid;
            _ ← upd child_slot (fun r => r <| pid := new_pid |>);
            _ ← when (has_flag (cl_flags c) CLONE_PARENT_SETTID)
                  (tell (DataOut parent_ep (cl_parent_tid c) [new_pid]));
            _ ← upd child_slot (fun r => r <| tgid := new_pid |> <| group_leader := child_slot |>);
            _ ← upd_links (INIT_LIST_HEAD (thread_node child_slot));
            _ ← when (has_flag (cl_flags c) CLONE_THREAD)
                  (rpar ← proc pm_parent;
                   _ ← upd child_slot (fun r => r <| tgid := tgid rpar |>
                                                  <| group_leader := group_leader rpar |>);
                   add_link (thread_node child_slot) (thread_node (group_leader rpar)));
            _ ← upd child_slot (fun r => r <| sig_poll := 0 |>);
            let p := p <| m_u ::= fun u => u <| m3i2 := new_pid |> |> in
            _ ← when (negb (parent_ep =? TASK_FS))
                  (tell (FsFork child_ep parent_ep new_pid (cl_flags c)));
            _ ← tell (ReplyRet child_ep 0 0);
            mret (p, 0)
  end.

(** ** Wait *)

(** The part of a round of [do_wait] for a child that is traced by the caller. *)
Definition report_traced (pmp parent_ep : Z) : pm (option Z) :=
  r ← proc pmp;
  if (tracer r =? parent_ep) && has_flag (flags r) PMPF_TRACED then
    match head (filter (fun i => sigismember (sig_trace r) i = true) (seqZ 1 (NSIG - 1))) with
    | Some i =>
        _ ← upd pmp (fun r => r <| sig_trace ::= fun x => sigdelset x i |>);
        _ ← tell (ReplyWait parent_ep (pid r) (W_STOPCODE i));
        mret (Some SUSPEND)
    | None => mret None
    end
  else mret None.

(** The tests that skip an entry of the table. *)
Definition selected (parent_ep child_pid : Z) (par r : pmproc) : bool :=
  ((parent r =? parent_ep) || (tracer r =? parent_ep)) &&
  has_flag (flags r) PMPF_INUSE &&
  negb ((0 <? child_pid) && negb (child_pid =? pid r)) &&
  negb ((child_pid <? -1) && negb (- child_pid =? procgrp r)) &&
  negb ((child_pid =? 0) && negb (procgrp par =? procgrp r)).

(** The loop of [do_wait], with the number of children met so far. *)
Fixpoint wait_loop (l : list Z) (parent_ep par child_pid children : Z) : pm (option Z * Z) :=
  match l with
  | [] => mret (None, children)
  | pmp :: l =>
      r ← proc pmp;
      rpar ← proc par;
      if selected parent_ep child_pid rpar r then
        let children := children + 1 in
        ret ← report_traced pmp parent_ep;
        match (ret : option Z) with
        | Some ret => mret (Some ret, children)
        | None =>
            r ← proc pmp;
            if has_flag (flags r) PMPF_HANGING then
              _ ← upd par (fun r => r <| flags ::= fun f => set_flag f PMPF_WAITING |>
                                      <| wait_pid := child_pid |>);
              _ ← check_parent sig_proc pmp true;
              mret (Some SUSPEND, children)
            else wait_loop l parent_ep par child_pid children
        end
      else wait_loop l parent_ep par child_pid children
  end.

Definition do_wait (p : MESSAGE) : pm (MESSAGE * Z) :=
  let parent_ep := m_source p in
  let '(retval, par) := pm_verify_endpt parent_ep in
  if negb (retval =? 0) then mret (p, retval)
  else
    let child_pid := m3i2 (m_u p) in
    let options := m3i1 (m_u p) in
    '(ret, children) ← wait_loop slots parent_ep par child_pid 0;
    match (ret : option Z) with
    | Some ret => mret (p, ret)
    | None =>
        if negb (children =? 0) then
          if has_flag options WNOHANG then mret (p, 0)
          else
            _ ← upd par (fun r => r <| flags ::= fun f => set_flag f PMPF_WAITING |>
                                    <| wait_pid := child_pid |>);
            mret (p, SUSPEND)
        else mret (p <| m_u ::= fun u => u <| m3i2 := -1 |> |>, ECHILD)
    end.

End pm.
