(* ===== verification/PmCalls.v ===== *)
(** * Requests to the process manager

    The handlers on signals (servers/pm/signal.c), tracing (servers/pm/trace.c),
    exec (servers/pm/exec.c), identities (servers/pm/misc.c), profiling
    (servers/pm/profile.c), and the initialisation and dispatch of
    servers/pm/main.c, on top of [Pm]. *)

From S2P Require Import Prelude Stm SigSet ListHead Kernel PmProc Futex Pm.

Definition NOTIFY_MSG : Z := 1.
Definition SYSCALL_RET : Z := 3.
Definition PTRACE : Z := 8.
Definition EXEC : Z := 42.
Definition WAIT : Z := 43.
Definition KILL : Z := 44.
Definition GETSETID : Z := 47.
Definition SIGACTION : Z := 49.
Definition SIGPROCMASK : Z := 50.
Definition SIGSUSPEND : Z := 51.
Definition FORK : Z := 54.
Definition EXIT : Z := 55.
Definition FUTEX : Z := 57.
Definition PM_SIGRETURN : Z := 1504.
Definition PM_GETPROCEP : Z := 1506.
Definition PM_VFS_GETSETID_REPLY : Z := 1507.
Definition PM_GETINFO : Z := 1509.
Definition PM_KPROFILE : Z := 1510.
Definition PM_GETEPINFO : Z := 1511.
Definition PM_SIGNALFD_DEQUEUE : Z := 1513.
Definition PM_SIGNALFD_GETNEXT : Z := 1514.

Definition GS_GETUID : Z := 1.
Definition GS_SETUID : Z := 2.
Definition GS_GETGID : Z := 3.
Definition GS_SETGID : Z := 4.
Definition GS_GETEUID : Z := 5.
Definition GS_GETEGID : Z := 6.
Definition GS_GETEP : Z := 7.
Definition GS_GETPID : Z := 8.
Definition GS_GETPGRP : Z := 9.
Definition GS_SETSID : Z := 10.
Definition GS_GETPGID : Z := 11.
Definition GS_GETPPID : Z := 12.
Definition GS_GETTID : Z := 13.
Definition GS_GETGROUPS : Z := 14.
Definition GS_SETGROUPS : Z := 15.

Definition SIGKSIG : Z := SIGUSR1.
Definition PM_INFO_PROCTAB : Z := 1.
Definition KPROF_START : Z := 1.
Definition KPROF_STOP : Z := 2.

(** The members of a message that a reply sets. *)
Definition set_retval (v : Z) (m : MESSAGE) : MESSAGE := m <| m_u ::= fun u => u <| m3i1 := v |> |>.
Definition set_pid (v : Z) (m : MESSAGE) : MESSAGE := m <| m_u ::= fun u => u <| m3i2 := v |> |>.
Definition set_endpoint (v : Z) (m : MESSAGE) : MESSAGE := m <| m_u ::= fun u => u <| m3i4 := v |> |>.

Section calls.
Context `{!World}.

(** ** Signal actions and masks *)

Definition upd_action (pmp signum : Z) (f : sigact -> sigact) : pm unit :=
  if in_sigaction signum then upd pmp (fun r => r <| sigaction ::= alter f signum |>)
  else fail BadPtr.

Definition do_sigaction (src : Z) (m : mess_pm_signal) : pm Z :=
  match pm_endpt_proc src with
  | None => mret EINVAL
  | Some pmp =>
      let signum := sg_signum m in
      if signum =? SIGKILL then mret 0
      else if (signum <? 1) || (NSIG <? signum) then mret (- EINVAL)
      else
        _ ← when (negb (sg_oldact m =? NULL))
              (save ← action_of pmp signum; tell (ActionOut src (sg_oldact m) save));
        if sg_act m =? NULL then mret 0
        else
          new_sa ← query w_action (ActionIn src (sg_act m));
          _ ← (if sa_handler new_sa =? SIG_IGN then
                 upd pmp (fun r => r <| sig_ignore ::= fun x => sigaddset x signum |>
                                     <| sig_pending ::= fun x => sigdelset x signum |>
                                     <| sig_catch ::= fun x => sigdelset x signum |>)
               else if sa_handler new_sa =? SIG_DFL then
                 upd pmp (fun r => r <| sig_ignore ::= fun x => sigdelset x signum |>
                                     <| sig_catch ::= fun x => sigdelset x signum |>)
               else
                 upd pmp (fun r => r <| sig_ignore ::= fun x => sigdelset x signum |>
                                     <| sig_catch ::= fun x => sigaddset x signum |>));
          _ ← upd_action pmp signum (fun a => a <| sa_handler := sa_handler new_sa |>);
          let mask := sigdelset (sigdelset (sa_mask new_sa) SIGKILL) SIGSTOP in
          _ ← upd_action pmp signum (fun a => a <| sa_mask := mask |>
                                                <| sa_flags := sa_flags new_sa |>);
          _ ← upd pmp (fun r => r <| sigreturn_f := sg_sigret m |>);
          mret 0
  end.

Definition check_pending (pmp : Z) : pm unit :=
  each (seqZ 0 NSIG) (fun i =>
    r ← proc pmp;
    when (sigismember (sig_pending r) i && negb (sigismember (sig_mask r) i))
      (_ ← upd pmp (fun r => r <| sig_pending ::= fun x => sigdelset x i |>);
       sig_proc pmp i false)).

Definition no_kill_stop (set : Z) : Z := sigdelset (sigdelset set SIGKILL) SIGSTOP.

Definition do_sigprocmask (p : MESSAGE) : pm (MESSAGE * Z) :=
  match pm_endpt_proc (m_source p) with
  | None => mret (p, EINVAL)
  | Some pmp =>
      r ← proc pmp;
      let set := wrapu 64 (m3i1 (m_u p)) in
      let how := m3i2 (m_u p) in
      let p := set_retval (wraps 32 (sig_mask r)) p in
      if set =? 0 then mret (p, 0)
      else if how =? SIG_BLOCK then
        _ ← upd pmp (fun r => r <| sig_mask ::= add_members 1 (no_kill_stop set) |>);
        mret (p, 0)
      else if how =? SIG_UNBLOCK then
        _ ← upd pmp (fun r => r <| sig_mask ::= del_members 1 set |>);
        _ ← check_pending pmp;
        mret (p, 0)
      else if how =? SIG_SETMASK then
        _ ← upd pmp (fun r => r <| sig_mask := no_kill_stop set |>);
        mret (p, 0)
      else mret (p, EINVAL)
  end.

Definition do_sigsuspend (p : MESSAGE) : pm Z :=
  match pm_endpt_proc (m_source p) with
  | None => mret EINVAL
  | Some pmp =>
      _ ← upd pmp (fun r => r <| sig_mask_saved := sig_mask r |>
                              <| sig_mask := no_kill_stop (wrapu 64 (m3i1 (m_u p))) |>
                              <| flags ::= fun f => set_flag f PMPF_SIGSUSPENDED |>);
      _ ← check_pending pmp;
      mret SUSPEND
  end.

Definition do_sigreturn (p : MESSAGE) : pm Z :=
  match pm_endpt_proc (m_source p) with
  | None => mret EINVAL
  | Some pmp =>
      _ ← upd pmp (fun r => r <| sig_mask := no_kill_stop (wrapu 64 (m3i1 (m_u p))) |>);
      query w_ret (KernelSigreturn (m_source p) (m3p2 (m_u p)))
  end.

(** ** Kill *)

(** The tests that skip a process; the last one is on permissions. *)
Definition kill_selects (dest : Z) (pmp r : pmproc) : bool :=
  has_flag (flags r) PMPF_INUSE &&
  negb ((0 <? dest) && negb (dest =? pid r)) &&
  negb ((dest =? -1) && (dest <=? INIT)) &&
  negb ((dest =? 0) && negb (procgrp r =? procgrp pmp)) &&
  negb ((dest <? -1) && negb (procgrp r =? - dest)).

Definition may_kill (pmp r : pmproc) : bool :=
  negb (negb (effuid pmp =? SU_UID) && negb (realuid pmp =? realuid r) &&
        negb (effuid pmp =? effuid r) && negb (realuid pmp =? effuid r) &&
        negb (effuid pmp =? realuid r)).

Fixpoint kill_loop (l : list Z) (pmp dest signo : Z) (errcode count : Z) : pm (Z * Z) :=
  match l with
  | [] => mret (errcode, count)
  | p_dest :: l =>
      r ← proc p_dest;
      rp ← proc pmp;
      if negb (kill_selects dest rp r) then kill_loop l pmp dest signo errcode count
      else if negb (may_kill rp r) then kill_loop l pmp dest signo EPERM count
      else
        let count := count + 1 in
        _ ← sig_proc p_dest signo true;
        if 0 <? dest then mret (errcode, count)
        else kill_loop l pmp dest signo errcode count
  end.

Definition kill_sig (pmp dest signo : Z) : pm Z :=
  if (signo <? 0) || (NSIG <=? signo) then mret EINVAL
  else if (dest =? INIT_PID) && (signo =? SIGKILL) then mret EINVAL
  else
    '(errcode, count) ← kill_loop (rev slots) pmp dest signo ESRCH 0;
    r ← proc pmp;
    if negb (has_flag (flags r) PMPF_INUSE) then mret SUSPEND
    else if 0 <? count then mret 0
    else mret errcode.

Definition do_kill (p : MESSAGE) : pm Z :=
  match pm_endpt_proc (m_source p) with
  | None => mret EINVAL
  | Some pmp => kill_sig pmp (m3i2 (m_u p)) (m3i1 (m_u p))
  end.

Definition process_ksig (target signo : Z) : pm Z :=
  match pm_endpt_proc target with
  | None => mret EINVAL
  | Some pmp =>
      r ← proc pmp;
      if negb (has_flag (flags r) PMPF_INUSE) then mret EINVAL
      else
        let dest := if signo =? SIGINT then 0 else pid r in
        _ ← kill_sig pmp dest signo;
        r ← proc pmp;
        if negb (has_flag (flags r) PMPF_INUSE) then mret EINVAL else mret 0
  end.

(** ** Signals read through a file descriptor *)

Definition first_pending (r : pmproc) (sigmask : Z) : option Z :=
  head (filter (fun i => (sigismember (sig_pending r) i && sigismember sigmask i) = true)
               (seqZ 0 NSIG)).

(** The part that both requests share when no signal is pending. *)
Definition signalfd_poll (pmp sigmask notify : Z) : pm unit :=
  when (negb (notify =? 0)) (upd pmp (fun r => r <| sig_poll ::= add_members 0 sigmask |>)).

Definition do_signalfd_dequeue (src : Z) (m : mess_signalfd) : pm Z :=
  if negb (src =? TASK_FS) then mret (- EPERM)
  else
    retval ← (match pm_endpt_proc (sf_endpoint m) with
              | None => mret (- EINVAL)
              | Some pmp =>
                  r ← proc pmp;
                  let signo := default 0 (first_pending r (sf_sigmask m)) in
                  _ ← when (bool_decide (is_Some (first_pending r (sf_sigmask m))))
                        (upd pmp (fun r => r <| sig_pending ::= fun x => sigdelset x signo |>));
                  if negb (signo =? 0) then
                    retval ← query w_ret (DataOut (sf_endpoint m) (sf_buf m) [signo]);
                    mret (if negb (retval =? 0) then - retval else signo)
                  else _ ← signalfd_poll pmp (sf_sigmask m) (sf_notify m); mret signo
              end);
    _ ← tell (SignalfdReply (sf_endpoint m) retval);
    mret SUSPEND.

Definition do_signalfd_getnext (src : Z) (m : mess_signalfd) : pm Z :=
  if negb (src =? TASK_FS) then mret (- EPERM)
  else
    retval ← (match pm_endpt_proc (sf_endpoint m) with
              | None => mret (- EINVAL)
              | Some pmp =>
                  r ← proc pmp;
                  let retval := default 0 (first_pending r (sf_sigmask m)) in
                  _ ← when (retval =? 0) (signalfd_poll pmp (sf_sigmask m) (sf_notify m));
                  mret retval
              end);
    _ ← tell (SignalfdReply (sf_endpoint m) retval);
    mret SUSPEND.

(** ** Tracing and exec *)

Definition trace_request (request : Z) : Z :=
  if request =? PTRACE_SYSCALL then TRACE_SYSCALL
  else if request =? PTRACE_CONT then TRACE_CONT
  else if request =? PTRACE_PEEKTEXT then TRACE_PEEKTEXT
  else if request =? PTRACE_PEEKDATA then TRACE_PEEKDATA
  else if request =? PTRACE_PEEKUSER then TRACE_PEEKUSER
  else w_junk.

Definition set_ptrace_ret (v : Z) (m : MESSAGE) : MESSAGE := m <| m_u ::= fun u => u <| m3l1 := v |> |>.

Definition do_ptrace (m : MESSAGE) : pm (MESSAGE * Z) :=
  match pm_endpt_proc (m_source m) with
  | None => mret (m, EINVAL)
  | Some pmp =>
      let request := m3i2 (m_u m) in
      let addr := m3p1 (m_u m) in
      let data := wraps 64 (m3p2 (m_u m)) in
      rp ← proc pmp;
      if request =? PTRACE_TRACEME then
        if negb (tracer rp =? NO_TASK) then mret (m, EBUSY)
        else
          _ ← upd pmp (fun r => r <| tracer := parent r |>);
          mret (set_ptrace_ret 0 m, 0)
      else
        t ← pm_pid_proc (m3i3 (m_u m));
        match (t : option Z) with
        | None => mret (m, ESRCH)
        | Some target =>
            rt ← proc target;
            if negb (tracer rt =? endpoint rp) then mret (m, ESRCH)
            else
              let resume :=
                retval ← query (fun h c => (w_ret h c, w_long h c))
                               (KernelTrace (trace_request request) (endpoint rt) addr);
                if negb (retval.1 =? 0) then mret (m, retval.1)
                else mret (set_ptrace_ret retval.2 m, retval.1) in
              if (request =? PTRACE_SYSCALL) || (request =? PTRACE_CONT) then
                if (data <? 0) || (NSIG <=? data) then mret (m, EINVAL)
                else
                  _ ← when (0 <? data) (sig_proc target data false);
                  rt ← proc target;
                  if existsb (sigismember (sig_trace rt)) (seqZ 0 NSIG)
                  then mret (set_ptrace_ret 0 m, 0)
                  else
                    _ ← upd target (fun r => r <| flags ::= fun f => clear_flag f PMPF_TRACED |>);
                    resume
              else resume
        end
  end.

(** The loop of [do_exec] that resets the signals that are caught. *)
Definition reset_caught (r : pmproc) : pmproc :=
  fold_left (fun r signo =>
    if sigismember (sig_catch r) signo then
      r <| sig_catch ::= fun x => sigdelset x signo |>
        <| sigaction ::= alter (fun a => a <| sa_handler := SIG_DFL |> <| sa_mask := 0 |>) signo |>
    else r) (seqZ 1 (NSIG - 1)) r.

Definition do_exec (m : MESSAGE) : pm Z :=
  let ep := m_source m in
  match pm_endpt_proc ep with
  | None => mret EINVAL
  | Some pmp =>
      let u := m_u m in
      resp ← query w_exec (FsExec ep (m3p1 u) (m3i2 u) (m3p2 u) (m3i3 u));
      if negb (er_status resp =? 0) then mret (er_status resp)
      else
        _ ← upd pmp (fun r => r <| frame_addr := er_frame resp |> <| frame_size := er_frame_size resp |>);
        _ ← upd pmp reset_caught;
        r ← proc pmp;
        _ ← (if negb (tracer r =? NO_TASK) then sig_proc pmp SIGTRAP true
             else upd pmp (fun r => r <| effuid := er_new_uid resp |> <| effgid := er_new_gid resp |>));
        mret 0
  end.

(** ** Identities *)

Definition do_getsetid (p : MESSAGE) : pm (MESSAGE * Z) :=
  let src := m_source p in
  let request := m3i2 (m_u p) in
  let newid := w_id (m3i1 (m_u p)) in
  match pm_endpt_proc src with
  | None => mret (p, EINVAL)
  | Some pmp =>
      r ← proc pmp;
      if request =? GS_GETEP then mret (set_endpoint src p, 0)
      else if request =? GS_GETPID then mret (set_pid (tgid r) p, 0)
      else if request =? GS_GETTID then mret (set_pid (pid r) p, 0)
      else if request =? GS_GETPPID then
        match pm_endpt_proc (parent r) with
        | None => fail Panic
        | Some pmpi => ri ← proc pmpi; mret (set_pid (pid ri) p, 0)
        end
      else if request =? GS_GETUID then mret (p, realuid r)
      else if request =? GS_GETGID then mret (p, realgid r)
      else if request =? GS_GETEUID then mret (p, effuid r)
      else if request =? GS_GETEGID then mret (p, effgid r)
      else if request =? GS_GETPGRP then mret (set_pid (procgrp r) p, 0)
      else if request =? GS_GETPGID then
        if m3i2 (m_u p) =? 0 then mret (set_pid (procgrp r) p, 0)
        else
          t ← pm_pid_proc (m3i2 (m_u p));
          match (t : option Z) with
          | None => mret (p, ESRCH)
          | Some pmpi => ri ← proc pmpi; mret (set_pid (procgrp ri) p, 0)
          end
      else if request =? GS_GETGROUPS then
        let n := m3i3 (m_u p) in
        if n <? 0 then mret (p, - EINVAL)
        else if n =? 0 then mret (p, ngroups r)
        else if n <? ngroups r then mret (p, - EINVAL)
        else
          retval ← query w_ret (DataOut src (m3p2 (m_u p)) (take (Z.to_nat (ngroups r)) (sgroups r)));
          mret (p, if negb (retval =? 0) then - retval else ngroups r)
      else if request =? GS_SETUID then
        if negb (newid =? realuid r) && negb (effuid r =? SU_UID) then mret (p, EPERM)
        else
          _ ← upd pmp (fun r => r <| realuid := newid |> <| effuid := newid |>);
          _ ← tell (FsGetSetId GS_SETUID src newid newid);
          mret (p, SUSPEND)
      else if request =? GS_SETGID then
        if negb (newid =? realgid r) && negb (effuid r =? SU_UID) then mret (p, EPERM)
        else
          _ ← upd pmp (fun r => r <| realgid := newid |> <| effgid := newid |>);
          _ ← tell (FsGetSetId GS_SETGID src newid newid);
          mret (p, SUSPEND)
      else if request =? GS_SETSID then
        if procgrp r =? pid r then mret (set_pid (-1) p, EPERM)
        else
          _ ← upd pmp (fun r => r <| procgrp := pid r |>);
          mret (set_pid (pid r) p, 0)
      else if request =? GS_SETGROUPS then
        if negb (effuid r =? SU_UID) then mret (p, EPERM)
        else
          let n := m3i3 (m_u p) in
          if (NGROUPS_MAX <? n) || (n <? 0) then mret (p, EINVAL)
          else if (0 <? n) && (m3p2 (m_u p) =? NULL) then mret (p, EFAULT)
          else
            '(retval, words) ← query (fun h c => (w_ret h c, w_words h c)) (DataIn src (m3p2 (m_u p)) (n * w_idsize));
            let copied := resize (Z.to_nat n) 0 words in
            if negb (retval =? 0) then mret (p, retval)
            else
              _ ← upd pmp (fun r => r <| sgroups := copied ++ replicate (Z.to_nat (NGROUPS_MAX - n)) 0 |>
                                      <| ngroups := n |>);
              _ ← tell (FsSetGroups src n);
              mret (p, SUSPEND)
      else mret (p, EINVAL)
  end.

Definition do_getprocep (p : MESSAGE) : pm (MESSAGE * Z) :=
  let n := m3i2 (m_u p) in
  if n <=? 0 then mret (p, ESRCH)
  else
    t ← gets pmproc_table;
    match head (filter (fun q =>
            Z.land (flags (t q)) (Z.lor PMPF_INUSE PMPF_HANGING) = PMPF_INUSE /\ pid (t q) = n) slots) with
    | Some q => mret (set_endpoint (endpoint (t q)) p, 0)
    | None => mret (p, ESRCH)
    end.

Definition do_pm_getinfo (p : MESSAGE) : pm Z :=
  if m3i2 (m_u p) =? PM_INFO_PROCTAB then query w_ret (TableOut (m_source p) (m3p2 (m_u p)))
  else mret EINVAL.

Definition do_pm_getepinfo (p : MESSAGE) : pm (MESSAGE * Z) :=
  match pm_endpt_proc (m3i4 (m_u p)) with
  | None => mret (p, - ESRCH)
  | Some pmp =>
      r ← proc pmp;
      mret (p <| m_u ::= fun u => u <| m3i2 := effuid r |> <| m3i3 := effgid r |> |>, pid r)
  end.

Definition do_pm_kprofile (m : MESSAGE) : pm Z :=
  if (m3i1 (m_u m) =? KPROF_START) || (m3i1 (m_u m) =? KPROF_STOP)
  then query w_ret (KernelKprofile m) else mret EINVAL.

(** ** The main loop *)

(** Signals the kernel reports: [fuel] bounds the number of processes that
    [get_ksig] names, and [retval] is the variable of that name. *)
Fixpoint ksig_loop (fuel : nat) (retval : Z) : pm unit :=
  match fuel with
  | O => fail OutOfFuel
  | S fuel =>
      '(target, sigset) ← query (fun h c => (w_endpoint h c, w_set h c)) GetKsig;
      if target =? NO_TASK then mret tt
      else
        retval ← (fix signals (l : list Z) (retval : Z) : pm Z :=
                    match l with
                    | [] => mret retval
                    | signo :: l =>
                        if sigismember sigset signo
                        then retval ← process_ksig target signo; signals l retval
                        else signals l retval
                    end) (seqZ 0 NSIG) retval;
        _ ← when (retval =? 0) (tell (EndKsig target));
        ksig_loop fuel retval
  end.

Definition process_system_notify (fuel : nat) (m : MESSAGE) : pm unit :=
  when (sigismember (wrapu 64 (m3i1 (m_u m))) SIGKSIG) (ksig_loop fuel w_junk).

(** A request: the message and the other views of its body. *)
Record request := mk_request {
  rq_msg : MESSAGE;
  rq_clone : mess_pm_clone;
  rq_signal : mess_pm_signal;
  rq_signalfd : mess_signalfd
}.

(** The common end of a round: the reply, unless the request is suspended. *)
Definition finish (src : Z) (msg : MESSAGE) (retval : Z) : pm unit :=
  let msg := set_retval retval msg in
  when (negb (m3i1 (m_u msg) =? SUSPEND)) (tell (Reply src (msg <| m_type := SYSCALL_RET |>))).

Definition finish' (src : Z) (r : MESSAGE * Z) : pm unit := finish src r.1 r.2.

(** One round of the loop of [main]. *)
Definition handle (fuel : nat) (rq : request) : pm unit :=
  let msg := rq_msg rq in
  let src := m_source msg in
  let ty := m_type msg in
  let ret h := r ← h msg; finish src msg r in
  let ret' h := r ← h msg; finish' src r in
  if ty =? NOTIFY_MSG then
    _ ← when (src =? SYSTEM) (process_system_notify fuel msg);
    finish src msg (m3i1 (m_u msg))
  else if ty =? FORK then r ← do_fork msg (rq_clone rq); finish' src r
  else if ty =? WAIT then ret' do_wait
  else if ty =? EXIT then ret do_exit
  else if ty =? SIGACTION then
    r ← do_sigaction src (rq_signal rq);
    when (negb (sg_signum (rq_signal rq) =? SUSPEND)) (tell (ReplySigaction src r))
  else if ty =? SIGSUSPEND then ret do_sigsuspend
  else if ty =? SIGPROCMASK then ret' do_sigprocmask
  else if ty =? KILL then ret do_kill
  else if ty =? GETSETID then ret' do_getsetid
  else if ty =? PTRACE then ret' do_ptrace
  else if ty =? FUTEX then ret do_futex
  else if ty =? PM_SIGRETURN then ret do_sigreturn
  else if ty =? PM_GETPROCEP then ret' do_getprocep
  else if ty =? PM_GETINFO then ret do_pm_getinfo
  else if ty =? PM_KPROFILE then ret do_pm_kprofile
  else if ty =? PM_VFS_GETSETID_REPLY then finish (m3i4 (m_u msg)) msg (m3i1 (m_u msg))
  else if ty =? PM_GETEPINFO then ret' do_pm_getepinfo
  else if ty =? EXEC then ret do_exec
  else if ty =? PM_SIGNALFD_DEQUEUE then r ← do_signalfd_dequeue src (rq_signalfd rq); finish src msg r
  else if ty =? PM_SIGNALFD_GETNEXT then r ← do_signalfd_getnext src (rq_signalfd rq); finish src msg r
  else finish src msg ENOSYS.

(** One round of the loop of [pm_init] over the processes loaded at boot,
    given as process number and endpoint. *)
Definition init_boot_proc (bp : Z * Z) : pm unit :=
  let '(proc_nr, ep) := bp in
  if proc_nr <? 0 then mret tt
  else
    _ ← modify (fun s => s <| procs_in_use ::= Z.succ |>);
    _ ← upd proc_nr (fun r => r <| flags := 0 |>);
    _ ← (if proc_nr =? INIT then
           upd proc_nr (fun r => r <| parent := INIT |> <| pid := INIT_PID |> <| procgrp := INIT_PID |>)
         else
           _ ← upd proc_nr (fun r => r <| parent := if proc_nr =? TASK_SERVMAN then INIT else TASK_SERVMAN |>);
           n ← find_free_pid;
           upd proc_nr (fun r => r <| pid := n |>));
    _ ← upd proc_nr (fun r => r
          <| sig_mask := 0 |> <| sig_ignore := 0 |> <| sig_pending := 0 |> <| sig_catch := 0 |>
          <| sig_trace := 0 |> <| sig_status := 0 |>
          <| flags ::= fun f => set_flag f PMPF_INUSE |>
          <| endpoint := ep |> <| tracer := NO_TASK |> <| tgid := pid r |>
          <| group_leader := proc_nr |>);
    _ ← upd_links (INIT_LIST_HEAD (thread_node proc_nr));
    r ← proc proc_nr;
    tell (FsInit proc_nr (pid r) ep).

Definition pm_init (boot_procs : list (Z * Z)) : pm unit :=
  _ ← futex_init;
  _ ← modify (fun s => s <| procs_in_use := 0 |>);
  _ ← each boot_procs init_boot_proc;
  ret ← query w_ret FsInitDone;
  if negb (ret =? 0) then fail Panic else mret tt.

End calls.

(** The state before [pm_init]. *)
Definition pm_zero : pmstate :=
  mk_pmstate (fun _ => zero_pmproc) 0 (mk_heap (fun _ => NULL) (fun _ => NULL)) [].
