(* ===== verification/PmInv.v ===== *)
(** * The table of the process manager

    [tab_ok] says that the number of processes is the number of slots in use,
    that only a slot in use holds a process that has exited and waits for its
    parent, that process numbers are unique, and that the endpoints kept in the
    table name slots of the table. The file shows that ending processes and
    sending signals keep it ([Pm]).

    Two things are asked of the rest of the system ([Delivers]): the kernel can
    deliver SIGCHLD to a process that catches it (so that the end of a process
    does not end its parent), and it can stop a process that is traced. *)

From S2P Require Import Prelude Stm SigSet ListHead Kernel PmProc Futex Pm PmCalls.

Notation inuse r := (has_flag (flags r) PMPF_INUSE).
Notation hangs r := (has_flag (flags r) PMPF_HANGING).

Definition used (s : pmstate) (p : Z) : bool := inuse (pmproc_table s p).

(** A process that has exited is a zombie or its slot is free. *)
Definition dead (s : pmstate) (p : Z) : Prop :=
  used s p = true -> hangs (pmproc_table s p) = true.

(** Signals [check_pending] delivers. *)
Definition deliverable (r : pmproc) (i : Z) : bool :=
  sigismember (sig_pending r) i && negb (sigismember (sig_mask r) i).

Definition in_use_count (t : Z -> pmproc) : nat :=
  length (filter (fun p => inuse (t p) = true) slots).

(** The failures [E] that are tolerated must include those of the futex lists
    when the library asked for a word to be cleared at exit. *)
Record tab_ok (E : crash -> Prop) (s : pmstate) : Prop := {
  ok_count : procs_in_use s = Z.of_nat (in_use_count (pmproc_table s));
  ok_hang : forall p, in_table p = true -> hangs (pmproc_table s p) = true -> used s p = true;
  ok_used : forall p, in_table p = true -> pid (pmproc_table s p) <> 0 -> used s p = true;
  ok_pids : forall p q, in_table p = true -> in_table q = true ->
    pid (pmproc_table s p) <> 0 -> pid (pmproc_table s p) = pid (pmproc_table s q) -> p = q;
  ok_parent : forall p, in_table p = true -> in_table (ENDPOINT_P (parent (pmproc_table s p))) = true;
  ok_tracer : forall p, in_table p = true ->
    tracer (pmproc_table s p) = NO_TASK \/ in_table (ENDPOINT_P (tracer (pmproc_table s p))) = true;
  ok_tid : forall p, in_table p = true ->
    clear_child_tid (pmproc_table s p) = NULL \/ forall c, E c
}.

(** What the invariant looks at. *)
Definition core (r r' : pmproc) : Prop :=
  inuse r' = inuse r /\ hangs r' = hangs r /\ pid r' = pid r /\ parent r' = parent r /\
  tracer r' = tracer r /\ endpoint r' = endpoint r /\ clear_child_tid r' = clear_child_tid r.

#[export] Instance core_refl : Reflexive core.
Proof. by intros r. Qed.
#[export] Instance core_trans : Transitive core.
Proof. intros r1 r2 r3. unfold core. intuition congruence. Qed.

Definition same_core (s s' : pmstate) : Prop :=
  procs_in_use s' = procs_in_use s /\ forall p, core (pmproc_table s p) (pmproc_table s' p).

#[export] Instance same_core_refl : Reflexive same_core.
Proof. by intros s. Qed.
#[export] Instance same_core_trans : Transitive same_core.
Proof.
  intros s1 s2 s3 [H1 C1] [H2 C2]. split; [congruence|].
  intros p. etransitivity; [apply C1|apply C2].
Qed.

Lemma used_core s s' p : same_core s s' -> used s' p = used s p.
Proof. intros [_ H]. apply (H p). Qed.

Lemma in_use_count_ext t t' :
  (forall p, inuse (t' p) = inuse (t p)) -> in_use_count t' = in_use_count t.
Proof.
  intros H. unfold in_use_count. f_equal. apply list_filter_ext. intros p _. by rewrite H.
Qed.

Lemma tab_ok_core E s s' : same_core s s' -> tab_ok E s -> tab_ok E s'.
Proof.
  intros [Hp Hc] []. split; unfold used in *.
  - rewrite Hp, ok_count0. f_equal. symmetry. apply in_use_count_ext. intros p. apply (Hc p).
  - intros p. destruct (Hc p) as (-> & -> & _). apply ok_hang0.
  - intros p. destruct (Hc p) as (-> & _ & -> & _). apply ok_used0.
  - intros p q. destruct (Hc p) as (_ & _ & -> & _), (Hc q) as (_ & _ & -> & _). apply ok_pids0.
  - intros p. destruct (Hc p) as (_ & _ & _ & -> & _). apply ok_parent0.
  - intros p. destruct (Hc p) as (_ & _ & _ & _ & -> & _). apply ok_tracer0.
  - intros p. destruct (Hc p) as (_ & _ & _ & _ & _ & _ & ->). apply ok_tid0.
Qed.

Lemma same_core_upd p f s :
  (forall r, core r (f r)) -> same_core s (upd_tab p f s).
Proof.
  intros Hf. split; [done|]. intros q. rewrite upd_tab_at. case_decide; [apply Hf|done].
Qed.

Lemma same_core_table s s' :
  pmproc_table s' = pmproc_table s -> procs_in_use s' = procs_in_use s -> same_core s s'.
Proof. intros Ht Hp. split; [done|]. intros p. by rewrite Ht. Qed.

(** What ending a process never undoes: the dead stay dead, and no signal
    becomes deliverable. *)
Definition goes_on (s s' : pmstate) : Prop :=
  (forall q, dead s q -> dead s' q) /\
  (forall q i, 0 <= i < NSIG -> deliverable (pmproc_table s' q) i = true ->
     deliverable (pmproc_table s q) i = true).

#[export] Instance goes_on_refl : Reflexive goes_on.
Proof. by intros s. Qed.
#[export] Instance goes_on_trans : Transitive goes_on.
Proof. intros s1 s2 s3 [D1 S1] [D2 S2]. split; intros; [auto|]. apply S1; [done|]. by apply S2. Qed.

(** An update that keeps the core and does not make signals deliverable. *)
Definition calm (f : pmproc -> pmproc) : Prop :=
  forall r, core r (f r) /\
    forall i, 0 <= i < NSIG -> deliverable (f r) i = true -> deliverable r i = true.

Lemma dead_core s s' q : core (pmproc_table s q) (pmproc_table s' q) -> dead s q -> dead s' q.
Proof. unfold dead, used. by intros (-> & -> & _). Qed.

Lemma calm_upd p f s : calm f -> same_core s (upd_tab p f s) /\ goes_on s (upd_tab p f s).
Proof.
  intros Hf. assert (same_core s (upd_tab p f s)) as Hs by (apply same_core_upd; intros r; apply Hf).
  split; [done|]. split.
  - intros q. apply dead_core, Hs.
  - intros q i Hi. rewrite upd_tab_at. case_decide; [by apply Hf|done].
Qed.

Lemma calm_flags (g : Z -> Z) :
  (forall x, has_flag (g x) PMPF_INUSE = has_flag x PMPF_INUSE /\
             has_flag (g x) PMPF_HANGING = has_flag x PMPF_HANGING) ->
  calm (fun r => r <| flags ::= g |>).
Proof. intros Hg r. split; [|done]. repeat split; cbn; apply Hg. Qed.

Lemma calm_set_flag f :
  Z.land f PMPF_INUSE = 0 -> Z.land f PMPF_HANGING = 0 ->
  calm (fun r => r <| flags ::= fun x => set_flag x f |>).
Proof. intros. apply calm_flags. intros x. by rewrite !has_flag_set_other. Qed.

Lemma calm_clear_flag f :
  Z.land f PMPF_INUSE = 0 -> Z.land f PMPF_HANGING = 0 ->
  calm (fun r => r <| flags ::= fun x => clear_flag x f |>).
Proof. intros. apply calm_flags. intros x. by rewrite !has_flag_clear_other. Qed.

Lemma sigismember_add_members lo set dst i :
  0 <= lo -> 0 <= i < NSIG ->
  sigismember (add_members lo set dst) i = sigismember dst i || ((lo <=? i) && sigismember set i).
Proof.
  intros Hlo Hi. unfold add_members.
  assert (forall l, (forall j, j ∈ l -> 0 <= j < NSIG) -> forall d,
    sigismember (fold_left (fun d j => if sigismember set j then sigaddset d j else d) l d) i =
    sigismember d i || (bool_decide (i ∈ l) && sigismember set i)) as H.
  { induction l as [|j l IH]; intros Hl d; cbn [fold_left]; [by rewrite orb_false_r|].
    rewrite IH by set_solver. assert (0 <= j < NSIG) as Hj by (apply Hl; set_solver).
    destruct (Z.eqb_spec j i) as [->|Hne].
    - rewrite (bool_decide_true (i ∈ i :: l)) by set_solver.
      destruct (sigismember set i); [|by rewrite !andb_false_r].
      rewrite sigismember_add_same, orb_true_r by done. done.
    - assert (bool_decide (i ∈ j :: l) = bool_decide (i ∈ l)) as -> by (apply bool_decide_ext; set_solver).
      destruct (sigismember set j); [|done]. rewrite sigismember_add by done.
      apply Z.eqb_neq in Hne. by rewrite Hne. }
  rewrite H by (intros j Hj; apply elem_of_seqZ in Hj; unfold NSIG in *; lia).
  do 2 f_equal. apply bool_decide_eq_true_2 || idtac.
  destruct (Z.leb_spec lo i); [apply bool_decide_true|apply bool_decide_false];
    rewrite elem_of_seqZ; unfold NSIG in *; lia.
Qed.

Lemma calm_mask set : calm (fun r => r <| sig_mask ::= add_members 0 set |>).
Proof.
  intros r. split; [by repeat split|]. intros i Hi. unfold deliverable. cbn.
  rewrite sigismember_add_members by lia. destruct (sigismember (sig_pending r) i); [|done].
  by destruct (sigismember (sig_mask r) i).
Qed.

(** Updates of members [core] and [deliverable] do not read. *)
Ltac solve_calm :=
  first [ apply calm_mask | by apply calm_set_flag | by apply calm_clear_flag
        | intros ?; split; [by repeat split|done] ].

(** ** SIGCHLD *)

Class Delivers `{!World} (E : crash -> Prop) := {
  delivers_sigchld : forall h ep si, si_signo si = SIGCHLD -> w_ret h (KernelSigsend ep si) = 0;
  delivers_stop : forall h ep, w_ret h (KernelTrace TRACE_STOP ep NULL) = 0 \/ E Panic
}.

Definition quiet (s s' : pmstate) : Prop := same_core s s' /\ goes_on s s'.

#[export] Instance quiet_refl : Reflexive quiet.
Proof. by split. Qed.
#[export] Instance quiet_trans : Transitive quiet.
Proof. intros s1 s2 s3 [] []. split; by etransitivity. Qed.

Lemma quiet_log c s : quiet s (log c s).
Proof. split; [by apply same_core_table|]. by split. Qed.

Lemma quiet_upd_tab p f s : calm f -> quiet s (upd_tab p f s).
Proof. apply calm_upd. Qed.

(** Peels the updates off a state. *)
Ltac quiet_chain :=
  repeat lazymatch goal with
  | |- quiet ?s ?s => reflexivity
  | |- quiet _ (log _ _) => eapply quiet_trans; [|apply quiet_log]
  | |- quiet _ (upd_tab _ _ _) => eapply quiet_trans; [|apply quiet_upd_tab; solve_calm]
  | |- quiet _ _ => eassumption
  end.

Ltac wp_pm :=
  lazymatch goal with
  | |- wp _ (tell _) _ _ => apply wp_tell
  | |- wp _ (query _ _) _ _ => apply wp_query
  | |- wp _ (upd_links _) _ _ => apply wp_modify
  | |- wp _ (proc _) _ _ => apply wp_proc; [intros ?|congruence]
  | |- wp _ (upd _ _) _ _ => apply wp_upd; [intros ?|congruence]
  | |- wp _ _ _ _ => wp_step
  end.

Section chain.
Context `{!World} (E : crash -> Prop) `{!Delivers E}.

Notation ok := (tab_ok E).

Lemma wp_send_sig p signo s :
  in_table p = true -> 0 <= signo < NSIG ->
  wp E (send_sig p signo)
    (fun ret s' => quiet s s' /\ (signo = SIGCHLD -> ret = 0)) s.
Proof.
  intros Hp Hs. unfold send_sig, action_of.
  assert (in_sigaction signo = true) as Ha by (unfold in_sigaction, NSIG in *; lia).
  repeat wp_pm; [split..|congruence]; try (by quiet_chain); intros ->; by apply delivers_sigchld.
Qed.

Lemma wp_trace_signal p signo s :
  in_table p = true -> in_table (ENDPOINT_P (tracer (pmproc_table s p))) = true ->
  wp E (trace_signal p signo) (fun _ s' => quiet s s') s.
Proof.
  intros Hp Ht. unfold trace_signal, pm_endpt_proc, pm_verify_endpt. rewrite Z.eqb_refl.
  wp_pm. wp_pm. wp_pm. wp_pm. rewrite upd_tab_eq. cbn [tracer field_update rebuild_pmproc].
  repeat wp_pm; try by quiet_chain.
  match goal with H : negb (w_ret ?h (KernelTrace _ ?e _) =? 0) = true |- _ =>
    destruct (delivers_stop (E := E) h e) as [Hst|]; [b2p; congruence|done] end.
Qed.

(** A blocked signal that becomes pending is not deliverable. *)
Lemma quiet_pend p signo s :
  0 <= signo < NSIG -> sigismember (sig_mask (pmproc_table s p)) signo = true ->
  quiet s (upd_tab p (fun r => r <| sig_pending ::= fun x => sigaddset x signo |>) s).
Proof.
  intros Hs Hm. split; [apply same_core_upd; by repeat split|]. split.
  - intros q. apply dead_core, same_core_upd. by repeat split.
  - intros q i Hi. rewrite upd_tab_at. case_decide as Hpq; [|done]. subst q. unfold deliverable. cbn.
    rewrite sigismember_add by done. destruct (Z.eqb_spec signo i) as [->|]; [|done].
    by rewrite Hm, andb_false_r.
Qed.

(** SIGCHLD ends nobody. *)
Lemma wp_sigchld exit p s :
  in_table p = true ->
  (tracer (pmproc_table s p) = NO_TASK \/ in_table (ENDPOINT_P (tracer (pmproc_table s p))) = true) ->
  wp E (sig_with exit p SIGCHLD true) (fun _ s' => quiet s s') s.
Proof.
  intros Hp Ht. unfold sig_with. wp_pm. wp_pm. wp_pm.
  - wp_pm. wp_pm. wp_pm; [|by quiet_chain]. b2p.
    destruct Ht as [Ht|Ht]; [done|].
    eapply wp_mono; [apply wp_trace_signal; [done|]|].
    { rewrite upd_tab_eq. exact Ht. }
    intros [] s' Hq. etransitivity; [|exact Hq]. by quiet_chain.
  - change (sigismember noign_set SIGCHLD) with false.
    change (sigismember ign_set SIGCHLD) with true. cbn [andb negb].
    wp_pm; [by wp_pm|]. wp_pm.
    + repeat wp_pm; try (eapply quiet_trans; [|apply quiet_log]); by apply quiet_pend.
    + wp_pm; [|by wp_pm]. wp_pm. eapply wp_mono; [by apply wp_send_sig|].
      intros ret s' [Hq Hr]. rewrite Hr by done. by wp_pm.
Qed.

(** ** Ending a process *)

Lemma filter_drop_one (P Q : Z -> Prop) `{!forall x, Decision (P x), !forall x, Decision (Q x)} p :
  in_table p = true -> (forall x, x <> p -> P x <-> Q x) -> P p -> ~ Q p ->
  length (filter P slots) = S (length (filter Q slots)).
Proof.
  intros Hp Hx HP HQ. apply elem_of_slots in Hp.
  pose proof (NoDup_seqZ 0 NR_PROCS) as Hnd. fold slots in Hnd.
  apply list_elem_of_split in Hp as (l1 & l2 & Hl). rewrite Hl in Hnd |- *.
  rewrite !filter_app, filter_cons_True, filter_cons_False by done.
  apply NoDup_middle in Hnd as [Hnd _]. nodup_simpl.
  rewrite (list_filter_ext P Q l1), (list_filter_ext P Q l2)
    by (intros x Hxl; apply Hx; intros ->; done).
  rewrite !length_app. cbn. lia.
Qed.

(** Freeing a slot in use. *)
Definition free_slot (p : Z) (s : pmstate) : pmstate :=
  upd_tab p (fun r => r <| pid := 0 |> <| flags := 0 |>) (s <| procs_in_use ::= Z.pred |>).

Lemma free_slot_at p s q :
  pmproc_table (free_slot p s) q =
  if decide (p = q) then (pmproc_table s q) <| pid := 0 |> <| flags := 0 |> else pmproc_table s q.
Proof. unfold free_slot. by rewrite upd_tab_at. Qed.

Lemma ok_free_slot p s : in_table p = true -> used s p = true -> ok s -> ok (free_slot p s).
Proof.
  intros Hp Hu []. split; unfold used in *.
  - change (procs_in_use (free_slot p s)) with (Z.pred (procs_in_use s)). rewrite ok_count0.
    unfold in_use_count. rewrite (filter_drop_one (fun q => inuse (pmproc_table s q) = true)
      (fun q => inuse (pmproc_table (free_slot p s) q) = true) p); [lia|done|..].
    + intros q Hq. rewrite free_slot_at. by case_decide.
    + done.
    + rewrite free_slot_at, decide_True by done. done.
  - intros q Hq. rewrite free_slot_at. case_decide; [done|]. by apply ok_hang0.
  - intros q Hq. rewrite free_slot_at. case_decide; [done|]. by apply ok_used0.
  - intros q q' Hq Hq'. rewrite !free_slot_at. repeat case_decide; cbn; try done. by apply ok_pids0.
  - intros q Hq. rewrite free_slot_at. case_decide; by apply ok_parent0.
  - intros q Hq. rewrite free_slot_at. case_decide; by apply ok_tracer0.
  - intros q Hq. rewrite free_slot_at. case_decide; by apply ok_tid0.
Qed.

Lemma goes_on_free p s : goes_on s (free_slot p s).
Proof.
  split; unfold dead, used; intros q *; rewrite free_slot_at; case_decide; cbn; done.
Qed.

(** An update of one slot. *)
Lemma ok_upd p f s :
  inuse (f (pmproc_table s p)) = inuse (pmproc_table s p) ->
  (hangs (f (pmproc_table s p)) = true -> used s p = true) ->
  pid (f (pmproc_table s p)) = pid (pmproc_table s p) ->
  in_table (ENDPOINT_P (parent (f (pmproc_table s p)))) = true ->
  (tracer (f (pmproc_table s p)) = NO_TASK \/
   in_table (ENDPOINT_P (tracer (f (pmproc_table s p)))) = true) ->
  (clear_child_tid (f (pmproc_table s p)) = NULL \/ forall c, E c) ->
  ok s -> ok (upd_tab p f s).
Proof.
  intros Hi Hh Hpid Hpar Htr Htid []. split; unfold used in *.
  - cbn [procs_in_use upd_tab field_update]. rewrite ok_count0. f_equal. symmetry.
    apply in_use_count_ext. intros q. rewrite upd_tab_at. case_decide; by subst.
  - intros q Hq. rewrite upd_tab_at. case_decide; [subst; by rewrite Hi|by apply ok_hang0].
  - intros q Hq. rewrite upd_tab_at. case_decide; [subst; rewrite Hi, Hpid|]; by apply ok_used0.
  - intros q q' Hq Hq'. rewrite !upd_tab_at. repeat case_decide; subst; rewrite ?Hpid; by apply ok_pids0.
  - intros q Hq. rewrite upd_tab_at. case_decide; [by subst|by apply ok_parent0].
  - intros q Hq. rewrite upd_tab_at. case_decide; [by subst|by apply ok_tracer0].
  - intros q Hq. rewrite upd_tab_at. case_decide; [by subst|by apply ok_tid0].
Qed.

Section check.
Context (sig : Z -> Z -> bool -> pm unit).
Context (Hsig : forall p s, in_table p = true ->
  (tracer (pmproc_table s p) = NO_TASK \/ in_table (ENDPOINT_P (tracer (pmproc_table s p))) = true) ->
  wp E (sig p SIGCHLD true) (fun _ s' => quiet s s') s).

Lemma ok_quiet s s' : quiet s s' -> ok s -> ok s'.
Proof. intros [Hc _]. by apply tab_ok_core. Qed.

Lemma wp_tell_parent p s :
  in_table p = true -> in_table (ENDPOINT_P (parent (pmproc_table s p))) = true ->
  wp E (tell_parent p) (fun _ s' => quiet s s') s.
Proof.
  intros Hp Hpar. unfold tell_parent, pm_verify_endpt. repeat wp_pm; by quiet_chain.
Qed.

Lemma wp_check_parent p s :
  in_table p = true -> used s p = true -> ok s ->
  wp E (check_parent sig p true) (fun _ s' => ok s' /\ goes_on s s' /\ dead s' p) s.
Proof.
  intros Hp Hu Hok. pose proof (ok_parent _ _ Hok p Hp) as Hpar.
  unfold check_parent, pm_verify_endpt. repeat (wp_pm; try by cbn).
  - eapply wp_mono; [by apply wp_tell_parent|]. intros [] s' Hq. unfold when, cleanup. wp_pm. wp_pm. wp_pm.
    change (upd_tab p _ _) with (free_slot p s').
    assert (ok s') as Hok' by (by eapply ok_quiet).
    split; [|split].
    + apply ok_free_slot; [done| |done]. by rewrite (used_core s) by apply Hq.
    + etransitivity; [apply Hq|apply goes_on_free].
    + unfold dead, used. rewrite free_slot_at, decide_True by done. done.
  - set (s1 := upd_tab p _ s).
    assert (ok s1) as Hok1.
    { apply ok_upd; [by cbn; rewrite has_flag_set_other|done|done|done|by apply Hok..|done]. }
    assert (goes_on s s1) as Hg.
    { split.
      - intros q. unfold dead, used, s1. rewrite upd_tab_at. case_decide; [|done]. cbn.
        by rewrite has_flag_set_same.
      - intros q i _. unfold s1. rewrite upd_tab_at. by case_decide. }
    eapply wp_mono; [apply Hsig; [done|by apply Hok1]|]. intros [] s' Hq.
    split; [by eapply ok_quiet|]. split; [by etransitivity; [|apply Hq]|].
    apply (proj1 (proj2 Hq)). unfold dead, s1. rewrite upd_tab_eq. cbn. intros _.
    by rewrite has_flag_set_same.
Qed.

(** The invariant, with what stays: used by every step below. *)
Definition kept (s s' : pmstate) : Prop := ok s' /\ goes_on s s'.

Lemma kept_trans s1 s2 s3 : kept s1 s2 -> kept s2 s3 -> kept s1 s3.
Proof. intros [_ H1] [H2 H3]. split; [done|by etransitivity]. Qed.

Lemma wp_kept_mono {A} (m : pm A) s s1 :
  kept s s1 -> wp E m (fun _ => kept s1) s1 -> wp E m (fun _ => kept s) s1.
Proof. intros H1 Hm. eapply wp_mono; [exact Hm|]. intros a s2. by apply kept_trans. Qed.

Lemma goes_on_upd p f s :
  (forall r, inuse (f r) = inuse r /\ hangs (f r) = hangs r /\
             sig_pending (f r) = sig_pending r /\ sig_mask (f r) = sig_mask r) ->
  goes_on s (upd_tab p f s).
Proof.
  intros Hf. split.
  - intros q. unfold dead, used. rewrite upd_tab_at. case_decide; [|done].
    by destruct (Hf (pmproc_table s q)) as (-> & -> & _).
  - intros q i _. unfold deliverable. rewrite upd_tab_at. case_decide; [|done].
    by destruct (Hf (pmproc_table s q)) as (_ & _ & -> & ->).
Qed.

Lemma wp_adopt ep pi s :
  in_table pi = true -> ok s -> wp E (adopt sig ep pi) (fun _ => kept s) s.
Proof.
  intros Hp Hok. unfold adopt. do 3 wp_pm; [|by split].
  set (s1 := upd_tab pi (fun r => r <| parent := INIT |>) s).
  assert (kept s s1) as Hk by (split;
    [by apply ok_upd; [|apply Hok| | |apply Hok|apply Hok|]|by apply goes_on_upd]).
  wp_pm. wp_pm. fold s1. wp_pm. apply wp_proc; [intros _|done]. wp_pm. wp_pm. wp_pm; [|done].
  b2p. apply wp_kept_mono; [done|]. eapply wp_mono; [apply wp_check_parent; [done| |apply Hk]|].
  - apply (ok_hang _ _ (proj1 Hk)); [done|]. done.
  - intros [] s2 (? & ? & _). by split.
Qed.

Lemma wp_clear_tid p s :
  in_table p = true -> ok s ->
  wp E (clear_tid p) (fun _ s' => kept s s' /\ used s' p = used s p) s.
Proof.
  intros Hp Hok. unfold clear_tid. do 3 wp_pm; [|by split].
  destruct (ok_tid _ _ Hok p Hp) as [Ht|Hall]; [b2p; done|].
  apply wp_weaken with anyfail; [auto|]. wp_pm. wp_pm.
  assert (forall s1, same_table s s1 ->
    wp anyfail (upd p (fun r => r <| clear_child_tid := NULL |>))
      (fun _ s' => kept s s' /\ used s' p = used s p) s1) as Hend.
  { intros s1 [Ht Hc]. apply wp_upd; [intros _|done].
    assert (ok s1) as Hok1 by (by eapply tab_ok_core; [apply same_core_table|]).
    assert (goes_on s s1) as Hg by (split; unfold dead, used; by rewrite Ht).
    split; [split|].
    - by apply ok_upd; [|apply Hok1| |apply Hok1|apply Hok1|left|].
    - etransitivity; [exact Hg|by apply goes_on_upd].
    - unfold used. rewrite upd_tab_eq. cbn. by rewrite Ht. }
  wp_pm. wp_pm; [|by apply Hend].
  wp_pm. eapply wp_mono; [by apply (futex_wake_table s)|]. intros a s1 Hs1. wp_pm. by apply Hend.
Qed.

Lemma wp_exit_with p status s :
  in_table p = true -> used s p = true -> ok s ->
  wp E (exit_with sig p status) (fun _ s' => kept s s' /\ dead s' p) s.
Proof.
  intros Hp Hu Hok. unfold exit_with. wp_pm. wp_pm. cbv zeta. wp_pm.
  eapply wp_mono; [by apply wp_clear_tid|]. intros [] s1 [Hk1 Hu1]. repeat wp_pm.
  set (s2 := upd_tab p _ _). assert (quiet s1 s2) as Hq2 by (unfold s2; quiet_chain).
  assert (kept s s2) as Hk2.
  { eapply kept_trans; [exact Hk1|]. split; [by eapply ok_quiet; [|apply Hk1]|apply Hq2]. }
  eapply wp_mono; [apply wp_check_parent; [done| |apply Hk2]|].
  { rewrite (used_core s1) by apply Hq2. by rewrite Hu1. }
  intros [] s3 (Hok3 & Hg3 & Hd3).
  assert (kept s s3) as Hk3 by (by eapply kept_trans; [|split]).
  apply wp_mono with (Q := fun _ s' => kept s3 s').
  - apply (wp_each E slots _ (fun s' => kept s3 s')); [|by split].
    intros x s4 Hx Hk4. apply wp_kept_mono; [done|]. apply wp_adopt; [by apply elem_of_slots|apply Hk4].
  - intros [] s4 Hk4. split; [by eapply kept_trans|]. apply (proj1 (proj2 Hk4)), Hd3.
Qed.

End check.

(** ** Signals *)

Section signals.
Context (exit : Z -> Z -> pm unit).
Context (Hexit : forall p status s, in_table p = true -> used s p = true -> ok s ->
  wp E (exit p status) (fun _ s' => kept s s' /\ dead s' p) s).

(** A process whose signals the invariant of [wp_sig_with] does not ask about:
    SIGKILL ends a process that has not changed its disposition. *)
Definition kill_open (r : pmproc) : Prop :=
  sigismember (sig_mask r) SIGKILL = false /\ sigismember (sig_ignore r) SIGKILL = false /\
  sigismember (sig_catch r) SIGKILL = false.

Lemma kept_quiet s s' : ok s -> quiet s s' -> kept s s'.
Proof. intros Hok Hq. split; [by eapply ok_quiet|apply Hq]. Qed.

Lemma wp_sig_with p signo trace s :
  in_table p = true -> 0 <= signo < NSIG -> used s p = true -> ok s ->
  wp E (sig_with exit p signo trace)
    (fun _ s' => kept s s' /\ (signo = SIGKILL -> kill_open (pmproc_table s p) -> dead s' p)) s.
Proof.
  intros Hp Hs Hu Hok. unfold sig_with.
  assert (forall s1, quiet s s1 ->
    wp E (_ ← upd p (fun r => r <| sig_status := signo |>); exit p 0)
      (fun _ s' => kept s s' /\ (signo = SIGKILL -> kill_open (pmproc_table s p) -> dead s' p)) s1) as Hdie.
  { intros s1 Hq1. wp_pm. wp_pm. set (s2 := upd_tab p _ s1).
    assert (quiet s s2) as Hq2 by (unfold s2; quiet_chain).
    eapply wp_mono; [apply Hexit; [done| |by eapply ok_quiet]|].
    { by rewrite (used_core s) by apply Hq2. }
    intros [] s3 [Hk3 Hd3]. split; [|done]. eapply kept_trans; [|exact Hk3]. by apply kept_quiet. }
  wp_pm. wp_pm. wp_pm.
  - b2p. destruct (ok_tracer _ _ Hok p Hp) as [Ht|Ht]; [done|]. wp_pm. wp_pm. wp_pm.
    + eapply wp_mono; [apply wp_trace_signal; [done|]|].
      { rewrite upd_tab_eq. exact Ht. }
      intros [] s' Hq. split; [|done]. apply kept_quiet; [done|].
      etransitivity; [|exact Hq]. by quiet_chain.
    + split; [|done]. apply kept_quiet; [done|]. by quiet_chain.
  - cbv zeta. destruct (sigismember noign_set signo && _) eqn:Hb; cbn [negb andb].
    { by apply Hdie. }
    wp_pm.
    { wp_pm. split; [by split|]. intros -> (_ & Hi & _). congruence. }
    wp_pm.
    { repeat wp_pm; (split; [apply kept_quiet; [done|]|intros -> (Hm & _); congruence]);
        try (eapply quiet_trans; [|apply quiet_log]); by apply quiet_pend. }
    wp_pm.
    { wp_pm. eapply wp_mono; [by apply wp_send_sig|]. intros ret s1 [Hq1 _]. wp_pm; [|by apply Hdie].
      wp_pm. split; [by apply kept_quiet|]. intros -> (_ & _ & Hc). congruence. }
    wp_pm; [|by apply Hdie]. wp_pm. split; [by split|]. intros ->. done.
Qed.

End signals.

Lemma wp_sig_proc_fuel n p signo trace s :
  in_table p = true -> 0 <= signo < NSIG -> used s p = true -> ok s ->
  wp E (sig_proc_fuel (S (S n)) p signo trace)
    (fun _ s' => kept s s' /\ (signo = SIGKILL -> kill_open (pmproc_table s p) -> dead s' p)) s.
Proof.
  intros. apply wp_sig_with; [|done..]. intros. apply wp_exit_with; [|done..].
  intros. cbn. by apply wp_sigchld.
Qed.

Lemma wp_exit_proc p status s :
  in_table p = true -> used s p = true -> ok s ->
  wp E (exit_proc p status) (fun _ s' => kept s s' /\ dead s' p) s.
Proof.
  intros. apply wp_exit_with; [|done..]. intros. apply wp_sigchld; done.
Qed.

Lemma wp_sig_proc p signo trace s :
  in_table p = true -> 0 <= signo < NSIG -> used s p = true -> ok s ->
  wp E (sig_proc p signo trace)
    (fun _ s' => kept s s' /\ (signo = SIGKILL -> kill_open (pmproc_table s p) -> dead s' p)) s.
Proof. apply (wp_sig_proc_fuel 254). Qed.

End chain.
