(* ===== verification/PmProps.v ===== *)
(** * What the process manager guarantees

    The invariant of the table for every request ([PmInv]), the disposition of
    SIGKILL, fork, and the meeting of exit and wait. *)

From S2P Require Import Prelude Stm SigSet ListHead Kernel PmProc Futex Pm PmCalls PmInv.

(** ** Free process numbers *)

Lemma find_free_pid_from_spec fuel t n :
  INIT_PID <= n -> n + Z.of_nat fuel <= NR_PIDS ->
  match find_free_pid_from fuel t n with
  | Some m => n < m <= n + Z.of_nat fuel /\ pid_used t m = false
  | None => forall k, n < k <= n + Z.of_nat fuel -> pid_used t k = true
  end.
Proof.
  revert n. induction fuel as [|fuel IH]; intros n Hn Hle; cbn [find_free_pid_from]; [lia|].
  rewrite (proj2 (Z.ltb_lt n NR_PIDS)) by lia.
  destruct (pid_used t (n + 1)) eqn:Hu; [|split; [lia|done]].
  specialize (IH (n + 1) ltac:(lia) ltac:(lia)).
  destruct (find_free_pid_from fuel t (n + 1)) as [m|].
  - split; [lia|apply IH].
  - intros k Hk. destruct (decide (k = n + 1)) as [->|]; [done|]. apply IH. lia.
Qed.

Lemma pid_used_spec t n :
  pid_used t n = true <-> n ∈ ((fun p => pid (t p)) <$> slots) ++ ((fun p => procgrp (t p)) <$> slots).
Proof.
  unfold pid_used. rewrite existsb_exists, elem_of_app, !list_elem_of_fmap. split.
  - intros (p & Hp & H). apply list_elem_of_In in Hp. apply orb_true_iff in H as [H|H]; b2p;
      [left|right]; eauto.
  - intros [(p & Hn & Hp)|(p & Hn & Hp)]; exists p; (split; [by apply list_elem_of_In|]);
      rewrite Hn, Z.eqb_refl; [done|apply orb_true_r].
Qed.

(** The search ends: the table rules out at most two numbers for each slot. *)
Lemma find_free_pid_ends t :
  exists n, find_free_pid_from PID_FUEL t (INIT_PID + 1) = Some n /\
            INIT_PID < n <= NR_PIDS /\ pid_used t n = false.
Proof.
  pose proof (find_free_pid_from_spec PID_FUEL t (INIT_PID + 1) ltac:(done) ltac:(done)) as H.
  destruct (find_free_pid_from PID_FUEL t (INIT_PID + 1)) as [n|].
  { exists n. split; [done|]. split; [|apply H]. unfold INIT_PID, NR_PIDS, PID_FUEL, NR_PROCS in *. lia. }
  exfalso.
  assert (seqZ (INIT_PID + 2) (2 * NR_PROCS + 1) ⊆+
    ((fun p => pid (t p)) <$> slots) ++ ((fun p => procgrp (t p)) <$> slots)) as Hsub.
  { apply NoDup_submseteq; [apply NoDup_seqZ|]. intros k Hk. apply elem_of_seqZ in Hk.
    apply pid_used_spec, H. unfold PID_FUEL. lia. }
  apply submseteq_length in Hsub. rewrite length_app, !length_fmap in Hsub.
  unfold slots in Hsub. rewrite !length_seqZ in Hsub. unfold NR_PROCS in Hsub. lia.
Qed.

Lemma wp_find_free_pid E s Q :
  (forall n, INIT_PID < n <= NR_PIDS -> pid_used (pmproc_table s) n = false -> Q n s) ->
  wp E find_free_pid Q s.
Proof.
  intros HQ. unfold find_free_pid. apply wp_bind, wp_gets.
  destruct (find_free_pid_ends (pmproc_table s)) as (n & -> & Hn & Hu). by apply wp_ret, HQ.
Qed.

(** ** A free slot *)

Lemma wp_find_slot E fuel n s Q :
  0 <= n <= NR_PROCS -> Z.of_nat fuel + n = NR_PROCS + 1 ->
  (forall c m, in_table c = true -> m <= NR_PROCS -> used s c = false -> Q (c, m) s) ->
  (forall c, (forall k, n < k <= NR_PROCS -> used s (k mod NR_PROCS) = true) -> Q (c, NR_PROCS + 1) s) ->
  wp E (find_slot fuel (n mod NR_PROCS) n) Q s.
Proof.
  revert n. induction fuel as [|fuel IH]; intros n Hn Hf HQ1 HQ2; [lia|]. cbn [find_slot].
  assert (Z.rem (n mod NR_PROCS + 1) NR_PROCS = (n + 1) mod NR_PROCS) as Hc.
  { pose proof (Z.mod_pos_bound n NR_PROCS eq_refl).
    rewrite Z.rem_mod_nonneg by (unfold NR_PROCS in *; lia). by rewrite Zplus_mod_idemp_l. }
  rewrite Hc. apply wp_bind.
  assert (in_table ((n + 1) mod NR_PROCS) = true) as Hin.
  { apply in_table_spec, Z.mod_pos_bound. done. }
  apply wp_proc; [intros _|congruence]. destruct (inuse _) eqn:Hu; cbn [andb].
  - destruct (Z.leb_spec (n + 1) NR_PROCS) as [Hle|Hgt].
    + apply IH; [lia|lia|done|]. intros c Hc'. apply HQ2. intros k Hk.
      destruct (decide (k = n + 1)) as [->|]; [done|]. apply Hc'. lia.
    + apply wp_ret. replace (n + 1) with (NR_PROCS + 1) by lia. apply HQ2. lia.
  - apply wp_ret. destruct (Z.leb_spec (n + 1) NR_PROCS); [by apply HQ1|].
    replace (n + 1) with (NR_PROCS + 1) by lia. apply HQ2. lia.
Qed.

(** With a slot to spare the search finds one. *)
Lemma free_slot_exists E s :
  tab_ok E s -> procs_in_use s < NR_PROCS -> ~ forall k, 0 < k <= NR_PROCS -> used s (k mod NR_PROCS) = true.
Proof.
  intros Hok Hlt Hall. rewrite (ok_count _ _ Hok) in Hlt. unfold in_use_count in Hlt.
  rewrite list_filter_id in Hlt; [unfold slots in Hlt; rewrite length_seqZ in Hlt; unfold NR_PROCS in *; lia|].
  intros p Hp%elem_of_slots%in_table_spec. destruct (decide (p = 0)) as [->|].
  - apply (Hall NR_PROCS). done.
  - specialize (Hall p ltac:(lia)). by rewrite Z.mod_small in Hall by lia.
Qed.

(** ** Fork *)

(** A slot that comes into use. *)
Lemma ok_new_slot E c s s' :
  tab_ok E s -> in_table c = true -> used s c = false ->
  procs_in_use s' = procs_in_use s + 1 ->
  (forall q, q <> c -> core (pmproc_table s q) (pmproc_table s' q)) ->
  inuse (pmproc_table s' c) = true -> pid (pmproc_table s' c) <> 0 ->
  (forall q, in_table q = true -> q <> c -> pid (pmproc_table s q) <> pid (pmproc_table s' c)) ->
  in_table (ENDPOINT_P (parent (pmproc_table s' c))) = true ->
  (tracer (pmproc_table s' c) = NO_TASK \/ in_table (ENDPOINT_P (tracer (pmproc_table s' c))) = true) ->
  (clear_child_tid (pmproc_table s' c) = NULL \/ forall e, E e) ->
  tab_ok E s'.
Proof.
  intros [] Hc Hfree Hn Hcore Hi Hp Hfresh Hpar Htr Htid. unfold used in *.
  split; unfold used.
  - rewrite Hn, ok_count. unfold in_use_count.
    rewrite (filter_drop_one (fun q => inuse (pmproc_table s' q) = true)
               (fun q => inuse (pmproc_table s q) = true) c); [lia|done| |done|congruence].
    intros q Hq. by destruct (Hcore q Hq) as (-> & _).
  - intros q Hq. destruct (decide (q = c)) as [->|Hne]; [done|].
    destruct (Hcore q Hne) as (-> & -> & _). by apply ok_hang.
  - intros q Hq. destruct (decide (q = c)) as [->|Hne]; [done|].
    destruct (Hcore q Hne) as (-> & _ & -> & _). by apply ok_used.
  - intros q q' Hq Hq'. destruct (decide (q = c)) as [->|Hne], (decide (q' = c)) as [->|Hne']; try done.
    + destruct (Hcore q' Hne') as (_ & _ & -> & _). intros _ He. by destruct (Hfresh q').
    + destruct (Hcore q Hne) as (_ & _ & -> & _). intros _ He. by destruct (Hfresh q).
    + destruct (Hcore q Hne) as (_ & _ & -> & _), (Hcore q' Hne') as (_ & _ & -> & _). by apply ok_pids.
  - intros q Hq. destruct (decide (q = c)) as [->|Hne]; [done|].
    destruct (Hcore q Hne) as (_ & _ & _ & -> & _). by apply ok_parent.
  - intros q Hq. destruct (decide (q = c)) as [->|Hne]; [done|].
    destruct (Hcore q Hne) as (_ & _ & _ & _ & -> & _). by apply ok_tracer.
  - intros q Hq. destruct (decide (q = c)) as [->|Hne]; [done|].
    destruct (Hcore q Hne) as (_ & _ & _ & _ & _ & _ & ->). by apply ok_tid.
Qed.

Section fork.
Context `{!World} (E : crash -> Prop).

(** The entry of the child. *)
Definition child_entry (rpar : pmproc) (c : mess_pm_clone) (src slot child_ep n : Z) : pmproc :=
  let thread := has_flag (cl_flags c) CLONE_THREAD in
  rpar <| flags := PMPF_INUSE |> <| parent := src |> <| endpoint := child_ep |>
       <| clear_child_tid := if has_flag (cl_flags c) CLONE_CHILD_CLEARTID then cl_child_tid c else NULL |>
       <| pid := n |> <| tgid := if thread then tgid rpar else n |>
       <| group_leader := if thread then group_leader rpar else slot |> <| sig_poll := 0 |>.

Definition fork_call (p : MESSAGE) (c : mess_pm_clone) (slot : Z) : call :=
  MmFork (m_source p) slot (cl_flags c) (cl_stack c) (cl_tls c).

(** The calls of a fork that succeeds, the newest first. *)
Definition fork_calls (p : MESSAGE) (c : mess_pm_clone) (slot child_ep n : Z) : list call :=
  [ReplyRet child_ep 0 0] ++
  (if m_source p =? TASK_FS then [] else [FsFork child_ep (m_source p) n (cl_flags c)]) ++
  (if has_flag (cl_flags c) CLONE_PARENT_SETTID then [DataOut (m_source p) (cl_parent_tid c) [n]] else []) ++
  [fork_call p c slot].

Record forked (p : MESSAGE) (c : mess_pm_clone) (slot child_ep n : Z) (s s' : pmstate) : Prop := {
  fk_slot : in_table slot = true;
  fk_free : used s slot = false;
  fk_pid : INIT_PID < n <= NR_PIDS;
  fk_fresh : forall q, in_table q = true -> q <> slot ->
    pid (pmproc_table s q) <> n /\ procgrp (pmproc_table s q) <> n;
  fk_child : pmproc_table s' slot =
    child_entry (pmproc_table s (ENDPOINT_P (m_source p))) c (m_source p) slot child_ep n;
  fk_others : forall q, q <> slot -> pmproc_table s' q = pmproc_table s q;
  fk_count : procs_in_use s' = procs_in_use s + 1;
  fk_calls : calls s' = fork_calls p c slot child_ep n ++ calls s
}.

Lemma wp_do_fork F p c s :
  let par := ENDPOINT_P (m_source p) in
  tab_ok F s -> in_table par = true -> used s par = true ->
  (has_flag (cl_flags c) CLONE_THREAD = true -> E NullDeref) ->
  wp E (do_fork p c) (fun r s' =>
    (NR_PROCS <= procs_in_use s /\ r = (p, EAGAIN) /\ s' = s) \/
    (procs_in_use s < NR_PROCS /\ exists slot,
       let retval := w_ret (calls s) (fork_call p c slot) in
       let child_ep := w_endpoint (calls s) (fork_call p c slot) in
       (retval <> 0 /\ used s slot = false /\ r = (p, retval) /\ s' = log (fork_call p c slot) s) \/
       (retval = 0 /\ exists n, r = (set_pid n p, 0) /\ forked p c slot child_ep n s s'))) s.
Proof.
  cbv zeta. intros Hok Hpar Hupar Hthr. unfold do_fork, pm_endpt_proc, pm_verify_endpt. cbn [Z.eqb].
  wp_pm. wp_pm. wp_pm; [wp_pm; left; b2p; done|]. b2p.
  wp_pm. change 0 with (0 mod NR_PROCS) at 1. apply wp_find_slot; [done|done| |].
  2: { intros slot Hall. by destruct (free_slot_exists F s Hok). }
  intros slot m Hslot Hm Hfree. rewrite (proj2 (Z.ltb_ge NR_PROCS m)) by done.
  assert (slot <> ENDPOINT_P (m_source p)) as Hne by congruence.
  wp_pm. unfold mm_fork. apply wp_query. fold (fork_call p c slot). wp_pm.
  { wp_pm. right. split; [done|]. exists slot. left. b2p. done. }
  b2p. do 13 wp_pm. apply wp_find_free_pid. intros n Hn Hu.
  set (s1 := upd_tab slot _ _) in Hu |- *.
  assert (forall q, in_table q = true -> q <> slot ->
    pid (pmproc_table s q) <> n /\ procgrp (pmproc_table s q) <> n) as Hfresh.
  { intros q Hq Hqs. apply not_true_iff_false in Hu. rewrite pid_used_spec in Hu.
    rewrite not_elem_of_app, !list_elem_of_fmap in Hu. destruct Hu as [Hu1 Hu2].
    split; intros He; [apply Hu1|apply Hu2]; exists q; (split; [|by apply elem_of_slots]);
      unfold s1; by tab_simpl. }
  unfold add_link, next_of. repeat wp_pm; try (by apply Hthr).
  all: right; split; [done|]; exists slot; right; split; [done|]; exists n; split; [done|].
  all: split; [done|done|done|done|..|done|].
  all: try (intros q Hq; unfold s1; by tab_simpl).
  all: rewrite ?negb_true_iff, ?negb_false_iff in *; unfold fork_calls, child_entry.
  all: repeat match goal with Hb : ?b = _ |- context [if ?b then _ else _] => rewrite Hb end.
  all: unfold s1; tab_simpl; reflexivity.
Qed.

(** The child's entry keeps the invariant. *)
Lemma ok_forked p c slot child_ep n s s' :
  tab_ok E s -> in_table (ENDPOINT_P (m_source p)) = true -> 
  (has_flag (cl_flags c) CLONE_CHILD_CLEARTID = false \/ forall e, E e) ->
  forked p c slot child_ep n s s' -> tab_ok E s'.
Proof.
  intros Hok Hpar Htid []. eapply ok_new_slot; try done; rewrite ?fk_child0; cbn.
  - intros q Hq. by rewrite fk_others0.
  - done.
  - unfold INIT_PID in *. lia.
  - intros q Hq Hne. by apply fk_fresh0.
  - exact Hpar.
  - by apply Hok.
  - destruct Htid as [->|]; auto.
Qed.

End fork.

(** [do_fork] for a process of a table in order always returns (the search for
    a slot and for a process number end; the only failure is an uninitialised
    list of threads when CLONE_THREAD is asked for), and does one of three
    things. With [NR_PROCS] processes it answers EAGAIN. If the memory manager
    refuses, its error is the answer. Neither changes the table. Otherwise a free slot gets
    a copy of the caller's entry with a number in the range of process
    numbers that no process and no process group has, the table stays in order
    with one process more, no other entry changes, the caller gets the number and
    the child a zero. *)
Theorem fork_makes_child `{!World} E p c s :
  let par := ENDPOINT_P (m_source p) in
  tab_ok anyfail s -> in_table par = true -> used s par = true ->
  (has_flag (cl_flags c) CLONE_THREAD = true -> E NullDeref) ->
  wp E (do_fork p c) (fun r s' =>
    (NR_PROCS <= procs_in_use s /\ r = (p, EAGAIN) /\ s' = s) \/
    (procs_in_use s < NR_PROCS /\ exists slot,
       let retval := w_ret (calls s) (fork_call p c slot) in
       let child_ep := w_endpoint (calls s) (fork_call p c slot) in
       (retval <> 0 /\ r = (p, retval) /\ s' = log (fork_call p c slot) s) \/
       (retval = 0 /\ exists n, r = (set_pid n p, 0) /\ forked p c slot child_ep n s s' /\
          tab_ok anyfail s'))) s.
Proof.
  cbv zeta. intros Hok Hpar Hu Hthr. eapply wp_mono; [by apply (wp_do_fork E anyfail)|].
  intros r s' [Hfull|(Hroom & slot & [(? & ? & ? & ?)|(Hz & n & Hr & Hf)])]; [by left|right..]; split; try done;
    exists slot; [by left|]. right. split; [done|]. exists n. split; [done|]. split; [done|].
  eapply ok_forked; [done|done|by right|done].
Qed.

(** ** An example

    A system that answers 0, and gives the child of a fork the endpoint of its
    slot; INIT and one process. *)

Definition example_world : World := {|
  w_ret _ _ := 0;
  w_endpoint _ c := match c with MmFork _ slot _ _ _ => slot | _ => NO_TASK end;
  w_set _ _ := 0;
  w_long _ _ := 0;
  w_words _ _ := [];
  w_action _ _ := mk_sigact SIG_DFL 0 0;
  w_exec _ _ := mk_exec_response 0 0 0 0 0;
  w_junk := 0;
  w_id := wrapu 16;
  w_idsize := 2
|}.

Definition example_proc (slot n : Z) : pmproc :=
  zero_pmproc <| flags := PMPF_INUSE |> <| pid := n |> <| tgid := n |> <| endpoint := slot |>
    <| parent := INIT |> <| tracer := NO_TASK |> <| group_leader := slot |>.

Definition example_init : pmstate :=
  pm_zero <| pmproc_table := <[INIT := example_proc INIT INIT_PID]> (fun _ => zero_pmproc) |> <| procs_in_use := 1 |>.

Definition example_state : pmstate :=
  example_init <| pmproc_table ::= <[20 := example_proc 20 2]> |> <| procs_in_use := 2 |>.

Definition example_msg (src i1 i2 : Z) : MESSAGE :=
  reset_msg <| m_source := src |> <| m_u ::= fun u => u <| m3i1 := i1 |> <| m3i2 := i2 |> |>.

Lemma tab_ok_zero E : tab_ok E pm_zero.
Proof. split; try done; cbn; auto. Qed.

Lemma example_state_ok E : tab_ok E example_state.
Proof.
  assert (tab_ok E example_init) as Hinit.
  { apply (ok_new_slot E INIT pm_zero); [apply tab_ok_zero|done..| |done|done|done|done|by left|by left].
    intros q Hq. unfold example_init. cbn [pmproc_table field_update rebuild_pmstate].
    by rewrite fn_lookup_insert_ne. }
  apply (ok_new_slot E 20 example_init); [done|done|done|done| |done|done| |done|by left|by left].
  - intros q Hq. unfold example_state. cbn [pmproc_table field_update rebuild_pmstate].
    by rewrite fn_lookup_insert_ne.
  - intros q _ _. unfold example_init. cbn [pmproc_table field_update rebuild_pmstate].
    destruct (decide (INIT = q)) as [<-|Hq]; [by rewrite fn_lookup_insert|by rewrite fn_lookup_insert_ne].
Qed.

Lemma fork_makes_child_witness :
  let _ := example_world in
  exists s' slot n,
    do_fork (example_msg 20 0 0) (mk_clone 0 0 0 0 0) example_state = Ret (s', (set_pid n (example_msg 20 0 0), 0)) /\
    forked (example_msg 20 0 0) (mk_clone 0 0 0 0 0) slot slot n example_state s' /\ tab_ok anyfail s'.
Proof.
  intros w. destruct (wp_returns _ _ _ (fork_makes_child nofail (example_msg 20 0 0) (mk_clone 0 0 0 0 0) example_state
    (example_state_ok anyfail) eq_refl eq_refl ltac:(vm_compute; discriminate))) as (s' & r & Hr & Hcase).
  destruct Hcase as [(Hfull & _)|(_ & slot & [(Hz & _)|(_ & n & -> & Hf & Hok)])].
  - exfalso. revert Hfull. vm_compute. by intros [].
  - done.
  - exists s', slot, n. done.
Defined.

(** ** Every request keeps the table in order *)

Section invariant.
Context `{!World} `{!Delivers anyfail}.

Notation ok := (tab_ok anyfail).

#[local] Instance ok_calls : CallFree ok.
Proof. intros c s. apply tab_ok_core. by apply same_core_table. Qed.

Lemma ok_upd_core p f s : (forall r, core r (f r)) -> ok s -> ok (upd_tab p f s).
Proof. intros Hf. apply tab_ok_core. by apply same_core_upd. Qed.

Lemma core_set_flag r f g :
  Z.land f PMPF_INUSE = 0 -> Z.land f PMPF_HANGING = 0 ->
  core r (r <| flags ::= fun x => set_flag x f |> <| wait_pid := g |>).
Proof. intros. repeat split; cbn; by rewrite has_flag_set_other. Qed.

Ltac keep_upd ::= intros ?; apply ok_upd_core; intros ?;
  first [ by repeat split | by apply core_set_flag
        | by repeat split; cbn; rewrite ?has_flag_set_other, ?has_flag_clear_other ].

Lemma keeps_sigaction src m : keeps ok (do_sigaction src m).
Proof. unfold do_sigaction, action_of, upd_action. keep. Qed.

Lemma keeps_sigreturn p : keeps ok (do_sigreturn p).
Proof. unfold do_sigreturn. keep. Qed.

Lemma keeps_signalfd src m : keeps ok (do_signalfd_dequeue src m) /\ keeps ok (do_signalfd_getnext src m).
Proof. unfold do_signalfd_dequeue, do_signalfd_getnext, signalfd_poll. split; keep. Qed.

Lemma keeps_getsetid p : keeps ok (do_getsetid p).
Proof. unfold do_getsetid, pm_pid_proc. keep. Qed.

Lemma keeps_info p : keeps ok (do_getprocep p) /\ keeps ok (do_pm_getinfo p) /\
  keeps ok (do_pm_getepinfo p) /\ keeps ok (do_pm_kprofile p).
Proof. unfold do_getprocep, do_pm_getinfo, do_pm_getepinfo, do_pm_kprofile. repeat split; keep. Qed.

Lemma keeps_futex m : keeps ok (do_futex m).
Proof.
  unfold do_futex, futex_wait, futex_wait_setup, futex_queue, futex_get_key, add_link, next_of. cbn [negb].
  assert (forall f, keeps ok (upd_links f)) as Hl.
  { intros f. apply keeps_links. intros s. apply tab_ok_core. by apply same_core_table. }
  assert (forall a b c d, keeps ok (futex_wake a b c d)) as Hwake.
  { intros a b c d s Hs. eapply wp_mono; [by apply (futex_wake_table s)|]. intros _' s' [Ht Hc].
    by apply (tab_ok_core anyfail s); [apply same_core_table|]. }
  keep.
Qed.

(** *** Wait *)

Lemma wp_report_traced p ep s :
  in_table p = true -> wp anyfail (report_traced p ep) (fun _ s' => quiet s s') s.
Proof.
  intros Hp. unfold report_traced. wp_pm. wp_pm. wp_pm; [|by wp_pm].
  destruct (head _) as [i|] eqn:Hi; [|by wp_pm]. repeat wp_pm. quiet_chain.
Qed.

Lemma wp_wait_loop l ep par n children s :
  (forall p, p ∈ l -> in_table p = true) -> in_table par = true -> ok s ->
  wp anyfail (wait_loop l ep par n children) (fun _ => ok) s.
Proof.
  revert children s. induction l as [|p l IH]; intros children s Hl Hpar Hok; cbn [wait_loop]; [done|].
  assert (in_table p = true) as Hp by (apply Hl; set_solver).
  assert (forall q, q ∈ l -> in_table q = true) as Hl' by (intros q Hq; apply Hl; set_solver).
  do 4 wp_pm. wp_pm; [|by apply IH]. cbv zeta. wp_pm.
  assert (inuse (pmproc_table s p) = true) as Hu.
  { unfold selected in *. b2p. done. }
  eapply wp_mono; [by apply wp_report_traced|]. intros ret s1 Hq1.
  assert (ok s1) as Hok1 by (eapply (tab_ok_core _ s); [apply Hq1|done]).
  destruct ret as [ret|]; [by wp_pm|]. wp_pm. wp_pm. wp_pm; [|by apply IH]. wp_pm. wp_pm. wp_pm.
  set (s2 := upd_tab par _ s1). assert (same_core s1 s2) as Hc2.
  { apply same_core_upd. intros r. by apply core_set_flag. }
  eapply wp_mono; [apply wp_check_parent; [|done| |by eapply tab_ok_core]|].
  - intros. by apply wp_sigchld.
  - rewrite (used_core s1), (used_core s) by apply Hq1 || done. done.
  - intros [] s3 (Hok3 & _). by wp_pm.
Qed.

Lemma keeps_wait p : in_table (ENDPOINT_P (m_source p)) = true -> keeps ok (do_wait p).
Proof.
  intros Hp s Hok. unfold do_wait, pm_verify_endpt. cbn [Z.eqb negb]. wp_pm.
  eapply wp_mono; [apply wp_wait_loop; [|done..]|].
  { intros q. apply elem_of_slots. }
  intros [ret children] s1 Hok1. destruct ret as [ret|]; [by wp_pm|]. apply keeps_at; [keep|done].
Qed.

(** *** Kill *)

Lemma keeps_sig_proc p signo trace s :
  in_table p = true -> 0 <= signo < NSIG -> used s p = true -> ok s ->
  wp anyfail (sig_proc p signo trace) (fun _ => ok) s.
Proof.
  intros. eapply wp_mono; [by apply wp_sig_proc|]. intros [] s' [Hk _]. apply Hk.
Qed.

Lemma wp_kill_loop l pmp dest signo err count s :
  (forall p, p ∈ l -> in_table p = true) -> 0 <= signo < NSIG -> ok s ->
  wp anyfail (kill_loop l pmp dest signo err count) (fun _ => ok) s.
Proof.
  revert err count s. induction l as [|p l IH]; intros err count s Hl Hs Hok; cbn [kill_loop]; [done|].
  assert (in_table p = true) as Hp by (apply Hl; set_solver).
  assert (forall q, q ∈ l -> in_table q = true) as Hl' by (intros q Hq; apply Hl; set_solver).
  wp_pm. wp_pm. wp_pm. apply wp_proc; [intros _|done].
  destruct (kill_selects _ _ _) eqn:Hsel; cbn [negb]; [|by apply IH].
  destruct (may_kill _ _); cbn [negb]; [|by apply IH]. cbv zeta. wp_pm.
  eapply wp_mono; [apply keeps_sig_proc; [done..| |done]|].
  { unfold kill_selects in Hsel. b2p. done. }
  intros [] s1 Hok1. wp_pm; [by wp_pm|by apply IH].
Qed.

Lemma keeps_kill_sig pmp dest signo : keeps ok (kill_sig pmp dest signo).
Proof.
  intros s Hok. unfold kill_sig. wp_pm; [by wp_pm|]. wp_pm; [by wp_pm|]. wp_pm.
  eapply wp_mono; [apply wp_kill_loop; [|split; b2p; lia|done]|].
  { intros q Hq. rewrite <- elem_of_slots. by apply list_elem_of_In, in_rev, list_elem_of_In. }
  intros [err count] s1 Hok1. wp_pm. apply wp_proc; [intros _|done]. repeat (wp_pm; [by wp_pm|]). by wp_pm.
Qed.

#[local] Hint Resolve keeps_kill_sig : keeps.

Lemma keeps_process_ksig target signo : keeps ok (process_ksig target signo).
Proof. unfold process_ksig. keep. Qed.

Lemma keeps_ksig_loop fuel retval : keeps ok (ksig_loop fuel retval).
Proof.
  revert retval. induction fuel as [|fuel IH]; intros retval; cbn [ksig_loop]; [apply keeps_fail|].
  keep_step; [keep|]. destruct a as [target sigset]. keep_step; [keep|].
  keep_step; [|keep]. generalize (seqZ 0 NSIG) as l. intros l. revert retval.
  induction l as [|i l IHl]; intros retval; [apply keeps_ret|].
  pose proof keeps_process_ksig. keep; apply IHl.
Qed.

(** *** Masks *)

(** At most one signal becomes deliverable. *)
Definition one_signal (r : pmproc) : Prop :=
  forall i j, 0 <= i < NSIG -> 0 <= j < NSIG ->
    deliverable r i = true -> deliverable r j = true -> i = j.

Lemma wp_check_pending p s :
  in_table p = true -> used s p = true -> one_signal (pmproc_table s p) -> ok s ->
  wp anyfail (check_pending p) (fun _ => ok) s.
Proof.
  intros Hp Hu H1 Hok. unfold check_pending.
  set (J := fun s : pmstate => ok s /\ one_signal (pmproc_table s p) /\
    (used s p = true \/ forall i, 0 <= i < NSIG -> deliverable (pmproc_table s p) i = false)).
  apply wp_mono with (Q := fun _ => J); [|by intros ? ? []].
  apply wp_each; [|by split; [|split; [|left]]]. clear s Hu H1 Hok.
  intros i s Hi%elem_of_seqZ (Hok & H1 & Hd). wp_pm. wp_pm. wp_pm; [|done].
  assert (0 <= i < NSIG) as Hi' by (unfold NSIG in *; lia).
  fold (deliverable (pmproc_table s p) i) in *. destruct Hd as [Hu|Hd]; [|rewrite Hd in *; done].
  wp_pm. wp_pm. set (s1 := upd_tab p _ s).
  assert (same_core s s1) as Hc1 by (apply same_core_upd; by repeat split).
  assert (forall j, 0 <= j < NSIG -> deliverable (pmproc_table s1 p) j = false) as Hnone.
  { intros j Hj. apply not_true_iff_false. intros Hdj.
    assert (deliverable (pmproc_table s p) j = true /\ i <> j) as [Hdj' Hij].
    { revert Hdj. unfold deliverable, s1. rewrite upd_tab_eq. cbn. rewrite sigismember_del by done.
      destruct (Z.eqb_spec i j); [done|]. done. }
    apply Hij. by apply H1. }
  assert (used s1 p = true) as Hu1 by (by rewrite (used_core s)).
  assert (ok s1) as Hok1 by (by apply (tab_ok_core anyfail s)).
  eapply wp_mono; [by apply wp_sig_proc|].
  intros [] s2 [[Hok2 [_ Hg2]] _].
  assert (forall j, 0 <= j < NSIG -> deliverable (pmproc_table s2 p) j = false) as Hnone2.
  { intros j Hj. apply not_true_iff_false. intros Hdj. apply Hg2 in Hdj; [|done].
    by rewrite Hnone in Hdj. }
  split; [done|]. split; [|by right]. intros j k Hj Hk Hdj. by rewrite Hnone2 in Hdj.
Qed.

Lemma wp_sigprocmask p s :
  let pmp := ENDPOINT_P (m_source p) in
  in_table pmp = true -> used s pmp = true ->
  one_signal (pmproc_table s pmp) <| sig_mask ::= del_members 1 (wrapu 64 (m3i1 (m_u p))) |> ->
  ok s -> wp anyfail (do_sigprocmask p) (fun _ => ok) s.
Proof.
  cbv zeta. intros Hp Hu H1 Hok. unfold do_sigprocmask, pm_endpt_proc, pm_verify_endpt. cbn [Z.eqb].
  assert (forall f, (forall r, core r (f r)) -> ok (upd_tab (ENDPOINT_P (m_source p)) f s)) as Hupd.
  { intros f Hf. eapply tab_ok_core; [by apply same_core_upd|done]. }
  repeat (wp_pm; try (apply Hupd; by repeat split)); [done|..|done].
  apply wp_mono with (Q := fun _ => ok); [|by intros; wp_pm].
  apply wp_check_pending; [done| | |apply Hupd; by repeat split].
  - unfold used in *. by rewrite upd_tab_eq.
  - by rewrite upd_tab_eq.
Qed.

Lemma wp_sigsuspend p s :
  let pmp := ENDPOINT_P (m_source p) in
  in_table pmp = true -> used s pmp = true ->
  one_signal (pmproc_table s pmp) <| sig_mask := no_kill_stop (wrapu 64 (m3i1 (m_u p))) |> ->
  ok s -> wp anyfail (do_sigsuspend p) (fun _ => ok) s.
Proof.
  cbv zeta. intros Hp Hu H1 Hok. unfold do_sigsuspend, pm_endpt_proc, pm_verify_endpt. cbn [Z.eqb].
  wp_pm. wp_pm. wp_pm. apply wp_mono with (Q := fun _ => ok); [|by intros; wp_pm].
  apply wp_check_pending; [done|..].
  - unfold used in *. rewrite upd_tab_eq. cbn. by rewrite has_flag_set_other.
  - by rewrite upd_tab_eq.
  - eapply tab_ok_core; [|done]. apply same_core_upd. intros r.
    repeat split; cbn; by rewrite has_flag_set_other.
Qed.

(** *** Exec and tracing *)

Lemma core_reset_caught r : core r (reset_caught r).
Proof.
  unfold reset_caught. generalize (seqZ 1 (NSIG - 1)) as l. intros l. revert r.
  induction l as [|i l IH]; intros r; cbn [fold_left]; [done|].
  destruct (sigismember _ _); [|apply IH]. etransitivity; [|apply IH]. by repeat split.
Qed.

Lemma wp_exec m s :
  in_table (ENDPOINT_P (m_source m)) = true -> used s (ENDPOINT_P (m_source m)) = true -> ok s ->
  wp anyfail (do_exec m) (fun _ => ok) s.
Proof.
  intros Hp Hu Hok. unfold do_exec, pm_endpt_proc, pm_verify_endpt. cbn [Z.eqb]. wp_pm. wp_pm. wp_pm.
  { wp_pm. by apply (tab_ok_core anyfail s); [apply quiet_log|]. }
  wp_pm. wp_pm. wp_pm. wp_pm. set (s1 := upd_tab _ _ _).
  assert (same_core s s1) as Hc.
  { etransitivity; [apply quiet_log|]. etransitivity; [|apply same_core_upd, core_reset_caught].
    apply same_core_upd. by repeat split. }
  assert (ok s1) as Hok1 by (by apply (tab_ok_core anyfail s)).
  wp_pm. wp_pm. wp_pm. apply wp_mono with (Q := fun _ => ok); [|by intros; wp_pm]. wp_pm.
  - apply keeps_sig_proc; [done|done| |done]. by rewrite (used_core s).
  - apply keeps_at; [|done]. keep.
Qed.

Lemma wp_ptrace m s :
  m3i3 (m_u m) <> 0 -> ok s -> wp anyfail (do_ptrace m) (fun _ => ok) s.
Proof.
  intros Hpid Hok. unfold do_ptrace, pm_endpt_proc, pm_verify_endpt. cbn [Z.eqb]. wp_pm.
  apply wp_proc; [intros Hp|done]. wp_pm.
  { wp_pm; [by wp_pm|]. wp_pm. wp_pm. wp_pm.
    apply ok_upd; cbn; [done|by apply Hok|done|by apply Hok|right; by apply Hok|by apply Hok|done]. }
  wp_pm. unfold pm_pid_proc. apply wp_gets. destruct (head _) as [t|] eqn:Ht; [|by wp_pm].
  apply head_Some_elem_of, list_elem_of_filter in Ht as [Htp Hts%elem_of_slots].
  assert (used s t = true) as Hut by (apply (ok_used _ _ Hok); [done|congruence]).
  wp_pm. wp_pm. wp_pm; [by wp_pm|]. cbv zeta.
  assert (keeps ok (retval ← query (fun h c => (w_ret h c, w_long h c))
                               (KernelTrace (trace_request (m3i2 (m_u m))) (endpoint (pmproc_table s t)) (m3p1 (m_u m)));
                if negb (retval.1 =? 0) then mret (m, retval.1)
                else mret (set_ptrace_ret retval.2 m, retval.1))) as Hres by keep.
  wp_pm; [|by apply Hres]. wp_pm; [by wp_pm|]. wp_pm.
  apply wp_mono with (Q := fun _ => ok).
  { wp_pm; [|done]. apply keeps_sig_proc; [done|split; b2p; lia|done..]. }
  intros [] s1 Hok1. wp_pm. wp_pm. wp_pm; [by wp_pm|]. apply keeps_at; [|done].
  apply keeps_bind; [keep|done].
Qed.

(** *** The main loop *)

(** What the invariant asks of a request: it comes from a process of the table,
    [ptrace] names a process, and not more than one signal is released at
    once. *)
Record request_ok (rq : request) (s : pmstate) : Prop := {
  rq_caller : m_type (rq_msg rq) <> NOTIFY_MSG ->
    in_table (ENDPOINT_P (m_source (rq_msg rq))) = true /\ used s (ENDPOINT_P (m_source (rq_msg rq))) = true;
  rq_ptrace : m_type (rq_msg rq) = PTRACE -> m3i3 (m_u (rq_msg rq)) <> 0;
  rq_unblock : m_type (rq_msg rq) = SIGPROCMASK ->
    one_signal (pmproc_table s (ENDPOINT_P (m_source (rq_msg rq))))
      <| sig_mask ::= del_members 1 (wrapu 64 (m3i1 (m_u (rq_msg rq)))) |>;
  rq_suspend : m_type (rq_msg rq) = SIGSUSPEND ->
    one_signal (pmproc_table s (ENDPOINT_P (m_source (rq_msg rq))))
      <| sig_mask := no_kill_stop (wrapu 64 (m3i1 (m_u (rq_msg rq)))) |>
}.

Lemma keeps_finish src msg r : keeps ok (finish src msg r).
Proof. unfold finish. keep. Qed.

Lemma wp_handle_ok fuel rq s :
  request_ok rq s -> tab_ok anyfail s -> wp anyfail (handle fuel rq) (fun _ => tab_ok anyfail) s.
Proof.
  intros [Hcaller Hptrace Hunblock Hsuspend] Hok. unfold handle. cbv zeta.
  pose proof keeps_finish as Hfin. assert (forall src r, keeps ok (finish' src r)) as Hfin' by (intros; apply Hfin).
  destruct (Z.eqb_spec (m_type (rq_msg rq)) NOTIFY_MSG) as [Ht|Ht].
  { apply wp_then_keeps; [|auto]. wp_pm; [|done]. unfold process_system_notify. wp_pm; [|done].
    by apply keeps_ksig_loop. }
  destruct (Hcaller Ht) as [Hp Hu]. clear Hcaller Ht.
  destruct (Z.eqb_spec (m_type (rq_msg rq)) FORK) as [_|_].
  { apply wp_then_keeps; [|auto]. eapply wp_mono; [by apply (wp_do_fork anyfail anyfail)|].
    intros r s' [(_ & _ & ->)|(_ & slot & [(_ & _ & _ & ->)|(_ & n & _ & Hf)])]; [done|..].
    - by apply (tab_ok_core anyfail s); [apply quiet_log|].
    - eapply ok_forked; [done..|by right|done]. }
  repeat match goal with |- wp _ (if ?x =? ?y then _ else _) _ _ =>
    destruct (Z.eqb_spec x y); [|] end.
  all: try (apply wp_then_keeps; [|by auto]).
  all: try (by apply Hfin).
  - by apply keeps_wait.
  - unfold do_exit, pm_verify_endpt. cbn [Z.eqb negb]. wp_pm.
    eapply wp_mono; [by apply wp_exit_proc|]. intros [] s' [Hk _]. wp_pm. apply Hk.
  - apply keeps_at; [|done]. apply keeps_bind; [apply keeps_sigaction|intros; keep].
  - by apply wp_sigsuspend; auto.
  - by apply wp_sigprocmask; auto.
  - unfold do_kill, pm_endpt_proc, pm_verify_endpt. by apply keeps_kill_sig.
  - by apply keeps_getsetid.
  - apply wp_ptrace; auto.
  - by apply keeps_futex.
  - by apply keeps_sigreturn.
  - by apply keeps_info.
  - by apply keeps_info.
  - by apply keeps_info.
  - by apply keeps_info.
  - by apply wp_exec.
  - by apply keeps_signalfd.
  - by apply keeps_signalfd.
Qed.

End invariant.
