(* ===== verification/PmSignals.v ===== *)
(** * Signals

    SIGKILL and SIGSTOP cannot be blocked, SIGKILL cannot be ignored or caught,
    whatever is asked of the process manager; what [kill] does; and that a
    blocked signal is delivered once when it is released. *)

From S2P Require Import Prelude Stm SigSet ListHead Kernel PmProc Futex Pm PmCalls PmInv PmProps.

Definition unblockable (set : Z) : Prop :=
  sigismember set SIGKILL = false /\ sigismember set SIGSTOP = false.

Record kill_ok (r : pmproc) : Prop := {
  k_mask : unblockable (sig_mask r);
  k_ignore : sigismember (sig_ignore r) SIGKILL = false;
  k_catch : sigismember (sig_catch r) SIGKILL = false;
  k_action : forall i, unblockable (sa_mask (sigaction r i))
}.

Definition all_kill_ok (s : pmstate) : Prop := forall p, kill_ok (pmproc_table s p).

#[export] Instance all_kill_ok_calls : CallFree all_kill_ok.
Proof. by intros c s. Qed.

Lemma all_kill_ok_upd p f s :
  (kill_ok (pmproc_table s p) -> kill_ok (f (pmproc_table s p))) ->
  all_kill_ok s -> all_kill_ok (upd_tab p f s).
Proof. intros Hf Hs q. rewrite upd_tab_at. case_decide; [subst; by apply Hf|apply Hs]. Qed.

(** ** Sets *)

Lemma sigismember_del_members lo set dst i :
  0 <= lo -> 0 <= i < NSIG ->
  sigismember (del_members lo set dst) i =
  sigismember dst i && negb ((lo <=? i) && sigismember set i).
Proof.
  intros Hlo Hi. unfold del_members.
  assert (forall l, (forall j, j ∈ l -> 0 <= j < NSIG) -> forall d,
    sigismember (fold_left (fun d j => if sigismember set j then sigdelset d j else d) l d) i =
    sigismember d i && negb (bool_decide (i ∈ l) && sigismember set i)) as H.
  { induction l as [|j l IH]; intros Hl d; cbn [fold_left]; [by rewrite andb_true_r|].
    rewrite IH by set_solver. assert (0 <= j < NSIG) as Hj by (apply Hl; set_solver).
    destruct (Z.eqb_spec j i) as [->|Hne].
    - rewrite (bool_decide_true (i ∈ i :: l)) by set_solver.
      destruct (sigismember set i); [|by rewrite !andb_false_r].
      rewrite sigismember_del, Z.eqb_refl, andb_false_r by done. done.
    - assert (bool_decide (i ∈ j :: l) = bool_decide (i ∈ l)) as ->
        by (apply bool_decide_ext; rewrite elem_of_cons; intuition congruence).
      destruct (sigismember set j); [|done]. rewrite sigismember_del by done.
      apply Z.eqb_neq in Hne. by rewrite Hne. }
  rewrite H by (intros j Hj; apply elem_of_seqZ in Hj; unfold NSIG in *; lia).
  do 3 f_equal. destruct (Z.leb_spec lo i); [apply bool_decide_true|apply bool_decide_false];
    rewrite elem_of_seqZ; unfold NSIG in *; lia.
Qed.

Lemma unblockable_add lo set dst :
  0 <= lo -> unblockable set -> unblockable dst -> unblockable (add_members lo set dst).
Proof.
  intros Hlo [H1 H2] [H3 H4].
  split; rewrite sigismember_add_members by done; by rewrite ?H1, ?H2, ?H3, ?H4, andb_false_r.
Qed.

Lemma unblockable_del lo set dst : 0 <= lo -> unblockable dst -> unblockable (del_members lo set dst).
Proof. intros Hlo [H1 H2]. by split; rewrite sigismember_del_members, ?H1, ?H2. Qed.

Lemma unblockable_strip set : unblockable (no_kill_stop set).
Proof. unfold no_kill_stop. split; rewrite !sigismember_del by done; by cbn. Qed.

#[local] Hint Resolve unblockable_add unblockable_del unblockable_strip : lyos.

(** ** Every request *)

Section kill.
Context `{!World}.

Ltac keep_upd ::= solve [intros ? ?; apply all_kill_ok_upd; [|assumption];
  intros []; split; cbn; auto with lyos lia].

Lemma kill_keeps_links f : keeps all_kill_ok (upd_links f).
Proof. by apply keeps_links. Qed.
#[local] Hint Resolve kill_keeps_links : keeps.

Lemma kill_keeps_send_sig p signo : keeps all_kill_ok (send_sig p signo).
Proof.
  intros s Hs. unfold send_sig, action_of.
  wp_pm. apply wp_proc; [intros _|done]. cbv zeta. wp_pm. wp_pm. apply wp_proc; [intros _|done].
  wp_pm; [|done]. wp_pm. apply keeps_at; [|done].
  apply keeps_bind; [|intros []; keep]. apply keeps_upd. intros s' Hs'.
  apply all_kill_ok_upd; [|done]. intros []. split; cbn; [|done..].
  apply unblockable_add; [done|apply Hs|done].
Qed.
#[local] Hint Resolve kill_keeps_send_sig : keeps.

Lemma kill_keeps_futex_wake a b c d : keeps all_kill_ok (futex_wake a b c d).
Proof.
  intros s Hs. eapply wp_mono; [by apply (futex_wake_table s)|]. intros r s' [Ht _].
  intros p. rewrite Ht. apply Hs.
Qed.
#[local] Hint Resolve kill_keeps_futex_wake : keeps.

Lemma kill_keeps_exit sig p status :
  (forall q signo trace, keeps all_kill_ok (sig q signo trace)) ->
  keeps all_kill_ok (exit_with sig p status) /\ forall b, keeps all_kill_ok (check_parent sig p b).
Proof.
  intros Hsig. assert (forall q b, keeps all_kill_ok (check_parent sig q b)) as Hcp.
  { intros q b. unfold check_parent, pm_verify_endpt, tell_parent, cleanup. keep.
    by apply keeps_modify. }
  split; [|apply Hcp]. unfold exit_with, clear_tid, adopt. keep.
Qed.

Lemma kill_keeps_sig_proc p signo trace : keeps all_kill_ok (sig_proc p signo trace).
Proof.
  unfold sig_proc. generalize SIG_FUEL as fuel. intros fuel. revert p signo trace.
  induction fuel as [|fuel IH]; intros p signo trace; cbn [sig_proc_fuel]; [apply keeps_fail|].
  assert (forall q status, keeps all_kill_ok (exit_with (sig_proc_fuel fuel) q status)) as He
    by (intros; by apply kill_keeps_exit).
  unfold sig_with, trace_signal, pm_endpt_proc, pm_verify_endpt. keep.
Qed.
#[local] Hint Resolve kill_keeps_sig_proc : keeps.

Lemma kill_keeps_exit_proc p status b :
  keeps all_kill_ok (exit_proc p status) /\ keeps all_kill_ok (check_parent sig_proc p b).
Proof. split; apply (kill_keeps_exit sig_proc p status kill_keeps_sig_proc). Qed.


Lemma kill_keeps_fork p c : keeps all_kill_ok (do_fork p c).
Proof.
  assert (forall fuel a b, keeps all_kill_ok (find_slot fuel a b)) as Hfind.
  { induction fuel as [|fuel IH]; intros; cbn [find_slot]; keep. }
  assert (forall f, (forall r, kill_ok r -> kill_ok (f r)) -> forall q, keeps all_kill_ok (upd q f)) as Hupd.
  { intros f Hf q. apply keeps_upd. intros s Hs. by apply all_kill_ok_upd; [apply Hf|]. }
  unfold do_fork, mm_fork, pm_endpt_proc, pm_verify_endpt, find_free_pid, add_link, next_of.
  cbn [Z.eqb]. apply keeps_bind; [keep|intros in_use]. destruct (NR_PROCS <=? in_use); [keep|].
  apply keeps_bind; [apply Hfind|intros [slot n]]. destruct (NR_PROCS <? n); [keep|].
  apply keeps_bind; [keep|intros [ret child]]. destruct (negb (ret =? 0)); [keep|].
  intros s Hs. wp_pm. apply wp_proc; [intros _|done]. apply keeps_at; [|done].
  apply keeps_bind; [|intros ?; keep; by apply keeps_modify]. apply keeps_upd. intros s' Hs'.
  apply all_kill_ok_upd; [|done]. intros _. apply Hs.
Qed.

Lemma kill_keeps_wait p : keeps all_kill_ok (do_wait p).
Proof.
  assert (forall l ep par n k, keeps all_kill_ok (wait_loop l ep par n k)) as Hl.
  { induction l as [|q l IH]; intros; cbn [wait_loop]; [apply keeps_ret|].
    pose proof (fun q => proj2 (kill_keeps_exit_proc q 0 true)). unfold report_traced. keep. }
  unfold do_wait, pm_verify_endpt. keep.
Qed.

Lemma kill_keeps_sigaction src m : keeps all_kill_ok (do_sigaction src m).
Proof.
  unfold do_sigaction, action_of, pm_endpt_proc, pm_verify_endpt. cbn [Z.eqb]. cbv zeta.
  destruct (Z.eqb_spec (sg_signum m) SIGKILL) as [|Hk]; [apply keeps_ret|].
  destruct ((sg_signum m <? 1) || (NSIG <? sg_signum m)) eqn:Hr; [apply keeps_ret|]. b2p.
  assert (forall x, sigismember x SIGKILL = false ->
    sigismember (sigaddset x (sg_signum m)) SIGKILL = false /\
    sigismember (sigdelset x (sg_signum m)) SIGKILL = false) as Hset.
  { intros x Hx. destruct (decide (sg_signum m = NSIG)) as [->|].
    - unfold sigaddset, sigdelset. change (wrapu 64 (sigbit NSIG)) with 0. rewrite Z.lor_0_r.
      change (Z.lnot (sigbit NSIG)) with (-1). by rewrite Z.land_m1_r.
    - rewrite sigismember_add, sigismember_del by (done || unfold NSIG in *; lia).
      rewrite Hx, andb_false_r. by rewrite (proj2 (Z.eqb_neq _ _) Hk). }
  assert (forall f, (forall r, kill_ok r -> kill_ok (f r)) -> forall q, keeps all_kill_ok (upd q f)) as Hupd.
  { intros f Hf q. apply keeps_upd. intros s Hs. by apply all_kill_ok_upd; [apply Hf|]. }
  assert (forall q f, (forall a, unblockable (sa_mask a) -> unblockable (sa_mask (f a))) ->
    keeps all_kill_ok (upd_action q (sg_signum m) f)) as Hact.
  { intros q f Hf. unfold upd_action. keep_step; [|apply keeps_fail]. apply Hupd.
    intros r []. split; cbn; [done..|]. intros j. destruct (decide (sg_signum m = j)) as [->|].
    - rewrite fn_lookup_alter. auto.
    - by rewrite fn_lookup_alter_ne. }
  keep; try (apply Hupd; intros r []; split; cbn; [done| |..|done]; by try apply Hset).
  apply Hact. intros act _. apply unblockable_strip.
Qed.

Lemma kill_keeps_check_pending p : keeps all_kill_ok (check_pending p).
Proof. unfold check_pending. keep. Qed.
#[local] Hint Resolve kill_keeps_check_pending : keeps.

Lemma kill_keeps_masks p :
  keeps all_kill_ok (do_sigprocmask p) /\ keeps all_kill_ok (do_sigsuspend p) /\
  keeps all_kill_ok (do_sigreturn p).
Proof.
  unfold do_sigprocmask, do_sigsuspend, do_sigreturn. repeat split; keep.
Qed.

Lemma kill_keeps_kill_sig pmp dest signo : keeps all_kill_ok (kill_sig pmp dest signo).
Proof.
  assert (forall l err n, keeps all_kill_ok (kill_loop l pmp dest signo err n)) as Hl.
  { induction l as [|q l IH]; intros; cbn [kill_loop]; keep. }
  unfold kill_sig. keep.
Qed.
#[local] Hint Resolve kill_keeps_kill_sig : keeps.

Lemma kill_keeps_notify fuel m : keeps all_kill_ok (process_system_notify fuel m).
Proof.
  unfold process_system_notify. keep_step. generalize w_junk as retval.
  induction fuel as [|fuel IH]; intros retval; cbn [ksig_loop]; [apply keeps_fail|].
  keep_step; [keep|]. destruct a as [target sigset]. keep_step; [keep|].
  keep_step; [|keep]. generalize (seqZ 0 NSIG) as l. intros l. revert retval.
  induction l as [|i l IHl]; intros retval; [apply keeps_ret|].
  unfold process_ksig. keep; apply IHl.
Qed.

Lemma kill_ok_reset_caught r : kill_ok r -> kill_ok (reset_caught r).
Proof.
  unfold reset_caught. assert (forall j, j ∈ seqZ 1 (NSIG - 1) -> 0 <= j < NSIG) as Hj.
  { intros j Hj%elem_of_seqZ. unfold NSIG in *. lia. }
  revert r Hj. generalize (seqZ 1 (NSIG - 1)) as l.
  induction l as [|i l IH]; intros r Hj Hr; cbn [fold_left]; [done|].
  apply IH; [set_solver|]. destruct (sigismember (sig_catch r) i); [|done].
  destruct Hr. split; cbn; [done|done|..].
  - rewrite sigismember_del by (done || (apply Hj; set_solver)). by rewrite k_catch0, andb_false_r.
  - intros j. destruct (decide (i = j)) as [->|]; [by rewrite fn_lookup_alter|by rewrite fn_lookup_alter_ne].
Qed.

Lemma kill_keeps_others m src sf :
  keeps all_kill_ok (do_exec m) /\ keeps all_kill_ok (do_ptrace m) /\
  keeps all_kill_ok (do_getsetid m) /\ keeps all_kill_ok (do_futex m) /\
  keeps all_kill_ok (do_signalfd_dequeue src sf) /\ keeps all_kill_ok (do_signalfd_getnext src sf) /\
  keeps all_kill_ok (do_getprocep m) /\ keeps all_kill_ok (do_pm_getinfo m) /\
  keeps all_kill_ok (do_pm_getepinfo m) /\ keeps all_kill_ok (do_pm_kprofile m).
Proof.
  assert (forall q, keeps all_kill_ok (upd q reset_caught)) as Hreset.
  { intros q. apply keeps_upd. intros s Hs. by apply all_kill_ok_upd; [apply kill_ok_reset_caught|]. }
  unfold do_exec, do_ptrace, do_getsetid, do_futex, do_signalfd_dequeue, do_signalfd_getnext, signalfd_poll,
    do_getprocep, do_pm_getinfo, do_pm_getepinfo, do_pm_kprofile, futex_wait, futex_wait_setup,
    futex_queue, futex_get_key, add_link, next_of, pm_pid_proc. cbn [negb].
  repeat split; keep.
Qed.

Lemma kill_keeps_handle fuel rq : keeps all_kill_ok (handle fuel rq).
Proof.
  unfold handle, finish', finish, do_exit, do_kill, pm_endpt_proc, pm_verify_endpt. cbn [Z.eqb negb]. cbv zeta.
  pose proof (kill_keeps_masks (rq_msg rq)) as (? & ? & ?).
  pose proof (kill_keeps_others (rq_msg rq) (m_source (rq_msg rq)) (rq_signalfd rq))
    as (? & ? & ? & ? & ? & ? & ? & ? & ? & ?).
  pose proof kill_keeps_fork. pose proof kill_keeps_wait. pose proof kill_keeps_sigaction.
  pose proof kill_keeps_notify. pose proof (fun p st => proj1 (kill_keeps_exit_proc p st true)).
  keep.
Qed.


(** ** Kill *)

Lemma kill_loop_miss l pmp dest signo err n s :
  (forall q, q ∈ l -> in_table q = true) -> in_table pmp = true ->
  (forall q, q ∈ l -> kill_selects dest (pmproc_table s pmp) (pmproc_table s q) = false) ->
  kill_loop l pmp dest signo err n s = Ret (s, (err, n)).
Proof.
  revert err n. induction l as [|q l IH]; intros err n Hl Hp Hsel; [done|].
  cbn [kill_loop]. unfold mbind, stm_mbind, proc, gets. rewrite Hl, Hp, Hsel by set_solver. cbn [negb].
  apply IH; set_solver.
Qed.

Lemma kill_loop_hit l pmp dest signo err n t s :
  0 < dest -> (forall q, q ∈ l -> in_table q = true) -> in_table pmp = true -> NoDup l -> t ∈ l ->
  (forall q, q ∈ l -> q <> t -> kill_selects dest (pmproc_table s pmp) (pmproc_table s q) = false) ->
  kill_selects dest (pmproc_table s pmp) (pmproc_table s t) = true ->
  kill_loop l pmp dest signo err n s =
  if may_kill (pmproc_table s pmp) (pmproc_table s t)
  then (_ ← sig_proc t signo true; mret (err, n + 1)) s else Ret (s, (EPERM, n)).
Proof.
  intros Hd. revert err n. induction l as [|q l IH]; intros err n Hl Hp Hnd Ht Hsel Hst; [set_solver|].
  apply NoDup_cons in Hnd as [Hq Hnd].
  cbn [kill_loop]. unfold mbind at 1 2, stm_mbind at 1 2, proc, gets. rewrite Hl, Hp by set_solver.
  destruct (decide (q = t)) as [->|Hne].
  - rewrite Hst. cbn [negb]. destruct (may_kill _ _); cbn [negb].
    + unfold mbind, stm_mbind. destruct (sig_proc t signo true s) as [[s' []]|]; [|done].
      by rewrite (proj2 (Z.ltb_lt 0 dest)).
    + apply kill_loop_miss; [set_solver|done|]. intros q' Hq'. apply Hsel; set_solver.
  - rewrite Hsel by set_solver. cbn [negb]. apply IH; try done; set_solver.
Qed.

Lemma elem_of_rev_slots q : q ∈ rev slots <-> in_table q = true.
Proof. by rewrite <- elem_of_slots, !list_elem_of_In, <- in_rev. Qed.

Lemma NoDup_rev_slots : NoDup (rev slots).
Proof. apply NoDup_ListNoDup, NoDup_rev, NoDup_ListNoDup, NoDup_seqZ. Qed.

(** Only the process of that number is selected. *)
Lemma kill_selects_pid E s pmp dest t q :
  tab_ok E s -> in_table t = true -> in_table q = true -> pid (pmproc_table s t) = dest -> 0 < dest -> q <> t ->
  kill_selects dest (pmproc_table s pmp) (pmproc_table s q) = false.
Proof.
  intros Hok Ht Hq Hp Hd Hne. unfold kill_selects.
  assert (dest =? pid (pmproc_table s q) = false) as Hd'.
  { apply Z.eqb_neq. intros He. apply Hne, (ok_pids _ _ Hok); [done..| |congruence]. lia. }
  rewrite (proj2 (Z.ltb_lt 0 dest)), Hd' by done. cbn. by rewrite andb_false_r.
Qed.

(** The result of [kill] when the loop has sent the signal or not. *)
Definition kill_answer (s : pmstate) (pmp retval : Z) : Z :=
  if used s pmp then retval else SUSPEND.

Lemma kill_sig_loop pmp dest signo s :
  in_table pmp = true -> 0 <= signo < NSIG -> (dest = INIT_PID -> signo <> SIGKILL) ->
  kill_sig pmp dest signo s =
  ('(err, n) ← kill_loop (rev slots) pmp dest signo ESRCH 0;
   gets (fun s' => kill_answer s' pmp (if 0 <? n then 0 else err))) s.
Proof.
  intros Hp Hs Hinit. unfold kill_sig.
  rewrite (proj2 (Z.ltb_ge signo 0)), (proj2 (Z.leb_gt NSIG signo)) by lia. cbn [orb].
  destruct (Z.eqb_spec dest INIT_PID) as [Hi|Hi]; cbn [andb].
  1: rewrite (proj2 (Z.eqb_neq _ _) (Hinit Hi)).
  all: unfold mbind, stm_mbind; destruct (kill_loop _ _ _ _ _ _ s) as [[s' [err n]]|]; [|done].
  all: unfold proc, gets, kill_answer, used; rewrite Hp; destruct (inuse _); cbn; by destruct (0 <? n).
Qed.

Lemma kill_sig_hit E pmp dest signo t s :
  tab_ok E s -> in_table pmp = true -> 0 <= signo < NSIG -> 0 < dest ->
  (dest = INIT_PID -> signo <> SIGKILL) -> in_table t = true -> pid (pmproc_table s t) = dest ->
  kill_sig pmp dest signo s =
  if may_kill (pmproc_table s pmp) (pmproc_table s t)
  then (_ ← sig_proc t signo true; gets (fun s' => kill_answer s' pmp 0)) s
  else Ret (s, kill_answer s pmp EPERM).
Proof.
  intros Hok Hp Hs Hd Hinit Ht Hpid. rewrite kill_sig_loop by done.
  assert (kill_selects dest (pmproc_table s pmp) (pmproc_table s t) = true) as Hst.
  { unfold kill_selects. assert (inuse (pmproc_table s t) = true) as -> by (apply (ok_used _ _ Hok); [done|lia]).
    rewrite Hpid, Z.eqb_refl, andb_false_r. cbn.
    rewrite (proj2 (Z.eqb_neq dest (-1))), (proj2 (Z.eqb_neq dest 0)), (proj2 (Z.ltb_ge dest (-1))) by lia. done. }
  unfold mbind at 1, stm_mbind at 1. rewrite (kill_loop_hit (rev slots) pmp dest signo ESRCH 0 t s).
  2: done.
  2: by intros q ?%elem_of_rev_slots.
  2: done.
  2: apply NoDup_rev_slots.
  2: by apply elem_of_rev_slots.
  2: { intros q Hq%elem_of_rev_slots Hne. by apply (kill_selects_pid E s pmp dest t). }
  2: done.
  destruct (may_kill _ _); [|done]. unfold mbind, stm_mbind.
  by destruct (sig_proc t signo true s) as [[s' []]|].
Qed.

(** [kill] with a positive process number, by the process in slot [pmp] of a
    table in order: without such a process it answers ESRCH; if the user ids do
    not permit it, EPERM, and in both cases nothing changes; otherwise it is
    exactly one delivery of the signal to the slot of that number, and answers
    0, or nothing if the caller itself is gone. *)
Theorem kill_one_process E pmp dest signo s :
  tab_ok E s -> in_table pmp = true -> 0 <= signo < NSIG -> 0 < dest ->
  (dest = INIT_PID -> signo <> SIGKILL) ->
  ((forall t, in_table t = true -> pid (pmproc_table s t) <> dest) ->
     kill_sig pmp dest signo s = Ret (s, kill_answer s pmp ESRCH)) /\
  (forall t, in_table t = true -> pid (pmproc_table s t) = dest ->
     kill_sig pmp dest signo s =
     if may_kill (pmproc_table s pmp) (pmproc_table s t)
     then (_ ← sig_proc t signo true; gets (fun s' => kill_answer s' pmp 0)) s
     else Ret (s, kill_answer s pmp EPERM)).
Proof.
  intros Hok Hp Hs Hd Hinit. split; [|intros t; by apply kill_sig_hit with E].
  intros Hno. rewrite kill_sig_loop by done. unfold mbind, stm_mbind.
  rewrite kill_loop_miss; [done|by intros q ?%elem_of_rev_slots|done|].
  intros q Hq%elem_of_rev_slots. unfold kill_selects.
  rewrite (proj2 (Z.ltb_lt 0 dest)) by done. specialize (Hno q Hq).
  destruct (Z.eqb_spec dest (pid (pmproc_table s q))); [congruence|]. cbn. by rewrite andb_false_r.
Qed.

(** ** SIGKILL *)

Lemma sigkill_ends E pmp t s :
  Delivers E -> tab_ok E s -> all_kill_ok s -> in_table pmp = true ->
  in_table t = true -> INIT_PID < pid (pmproc_table s t) ->
  may_kill (pmproc_table s pmp) (pmproc_table s t) = true ->
  wp E (kill_sig pmp (pid (pmproc_table s t)) SIGKILL) (fun _ s' => dead s' t) s.
Proof.
  intros HD Hok Hk Hp Ht Hpid Hmay. unfold INIT_PID in *.
  assert (kill_open (pmproc_table s t)) as Hopen by (destruct (Hk t) as [[]]; done).
  pose proof (wp_sig_proc E t SIGKILL true s Ht ltac:(done)
    ltac:(apply (ok_used _ _ Hok); [done|lia]) Hok) as Hsig.
  unfold wp. rewrite (kill_sig_hit E pmp _ SIGKILL t s), Hmay by (done || unfold INIT_PID; lia).
  unfold mbind, stm_mbind. unfold wp in Hsig.
  destruct (sig_proc t SIGKILL true s) as [[s' []]|c]; [|done]. cbn. by apply Hsig.
Qed.

(** C22: SIGKILL reaches everybody. Whatever request the process manager handles,
    no process ends up with SIGKILL or SIGSTOP blocked or in the mask of a
    handler, or with SIGKILL ignored or caught; and in such a state [kill] with
    SIGKILL by a process that may signal the target returns, and leaves the
    target a zombie or its slot free. *)
Theorem sigkill_always_kills E :
  Delivers E ->
  (forall fuel rq s, all_kill_ok s -> wp anyfail (handle fuel rq) (fun _ => all_kill_ok) s) /\
  (forall pmp t s, tab_ok E s -> all_kill_ok s -> in_table pmp = true ->
     in_table t = true -> INIT_PID < pid (pmproc_table s t) ->
     may_kill (pmproc_table s pmp) (pmproc_table s t) = true ->
     wp E (kill_sig pmp (pid (pmproc_table s t)) SIGKILL) (fun _ s' => dead s' t) s).
Proof.
  intros HD. split.
  - intros fuel rq. apply kill_keeps_handle.
  - intros pmp t s. by apply sigkill_ends.
Qed.

(** ** Blocked signals *)

Lemma check_pending_step p i s :
  in_table p = true ->
  (r ← proc p;
   when (sigismember (sig_pending r) i && negb (sigismember (sig_mask r) i))
      (_ ← upd p (fun r => r <| sig_pending ::= fun x => sigdelset x i |>);
       sig_proc p i false)) s =
  if deliverable (pmproc_table s p) i
  then sig_proc p i false (upd_tab p (fun r => r <| sig_pending ::= fun x => sigdelset x i |>) s)
  else Ret (s, tt).
Proof.
  intros Hp. unfold mbind, stm_mbind, proc, gets, upd, modify. rewrite Hp.
  unfold deliverable. by destruct (_ && _).
Qed.

Lemma check_pending_none p s :
  in_table p = true -> (forall i, 0 <= i < NSIG -> deliverable (pmproc_table s p) i = false) ->
  check_pending p s = Ret (s, tt).
Proof.
  intros Hp Hno. apply each_skip. intros i Hi%elem_of_seqZ. rewrite check_pending_step by done.
  rewrite Hno; [done|lia].
Qed.

Lemma check_pending_one p i s s' :
  in_table p = true -> 0 <= i < NSIG -> deliverable (pmproc_table s p) i = true ->
  (forall j, 0 <= j < NSIG -> j <> i -> deliverable (pmproc_table s p) j = false) ->
  sig_proc p i false (upd_tab p (fun r => r <| sig_pending ::= fun x => sigdelset x i |>) s) = Ret (s', tt) ->
  (forall j, 0 <= j < NSIG -> deliverable (pmproc_table s' p) j = false) ->
  check_pending p s = Ret (s', tt).
Proof.
  intros Hp Hi Hd Hother Hsig Hno. unfold check_pending.
  assert (seqZ 0 NSIG = seqZ 0 i ++ i :: seqZ (i + 1) (NSIG - i - 1)) as ->.
  { replace NSIG with (i + (NSIG - i)) at 1 by lia. rewrite seqZ_app, Z.add_0_l by lia. f_equal.
    rewrite seqZ_cons by lia. f_equal. }
  rewrite each_app. unfold mbind at 1, stm_mbind at 1.
  rewrite each_skip.
  2: { intros j Hj%elem_of_seqZ. rewrite check_pending_step, Hother by (done || lia). done. }
  cbn [each]. unfold mbind at 1, stm_mbind at 1. rewrite check_pending_step, Hd, Hsig by done.
  apply each_skip. intros j Hj%elem_of_seqZ. rewrite check_pending_step, Hno by (done || lia). done.
Qed.

#[local] Opaque add_members del_members sigaddset sigdelset sigismember.

(** What the delivery of a caught signal does. *)
Definition delivered (p signo : Z) (s : pmstate) : pmstate :=
  let r := pmproc_table s p in
  let a := sigaction r signo in
  log (KernelSigsend (endpoint r) (mk_siginfo signo (sig_mask r) (sa_handler a) (sigreturn_f r)))
    (upd_tab p (fun r => r <| sig_mask ::= add_members 0 (sa_mask a) |>) s).

Lemma sig_with_caught exit p signo s :
  in_table p = true -> 0 <= signo < NSIG ->
  sigismember (sig_ignore (pmproc_table s p)) signo = false ->
  sigismember (sig_mask (pmproc_table s p)) signo = false ->
  sigismember (sig_catch (pmproc_table s p)) signo = true ->
  has_flag (flags (pmproc_table s p)) PMPF_SIGSUSPENDED = false ->
  (forall h ep si, w_ret h (KernelSigsend ep si) = 0) ->
  sig_with exit p signo false s = Ret (delivered p signo s, tt).
Proof.
  intros Hp Hs Hi Hm Hc Hf Hret.
  assert (send_sig p signo s = Ret (delivered p signo s, 0)) as Hsend.
  { unfold send_sig, action_of, mbind, stm_mbind, proc, gets, upd, modify, query.
    assert (in_sigaction signo = true) as -> by (unfold in_sigaction, NSIG in *; lia).
    rewrite Hp. cbv beta iota zeta. rewrite Hf. cbn. by rewrite Hret. }
  unfold sig_with, mbind, stm_mbind, proc, gets. rewrite Hp. cbv beta iota zeta.
  rewrite Hi, Hm, Hc. destruct (sigismember noign_set signo); cbn; by rewrite Hsend.
Qed.

Lemma sig_with_blocked exit p signo s :
  in_table p = true -> tracer (pmproc_table s p) = NO_TASK ->
  sigismember noign_set signo = false ->
  sigismember (sig_ignore (pmproc_table s p)) signo = false ->
  sigismember (sig_mask (pmproc_table s p)) signo = true ->
  sigismember (sig_poll (pmproc_table s p)) signo = false ->
  sig_with exit p signo true s =
  Ret (upd_tab p (fun r => r <| sig_pending ::= fun x => sigaddset x signo |>) s, tt).
Proof.
  intros Hp Ht Hn Hi Hm Hpoll. unfold sig_with, mbind, stm_mbind, proc, gets. rewrite Hp.
  rewrite Ht, Hn, Hi, Hm, Hpoll. cbn. unfold upd. by rewrite Hp.
Qed.

(** Unblocking, with at most one signal to deliver. *)
Lemma sigprocmask_unblock msg s s1 s2 :
  let p := ENDPOINT_P (m_source msg) in
  let set := wrapu 64 (m3i1 (m_u msg)) in
  in_table p = true -> m3i2 (m_u msg) = SIG_UNBLOCK -> set <> 0 ->
  s1 = upd_tab p (fun r => r <| sig_mask ::= del_members 1 set |>) s ->
  check_pending p s1 = Ret (s2, tt) ->
  do_sigprocmask msg s = Ret (s2, (set_retval (wraps 32 (sig_mask (pmproc_table s p))) msg, 0)).
Proof.
  cbv zeta. intros Hp Hhow Hset -> Hcp. unfold do_sigprocmask, pm_endpt_proc, pm_verify_endpt. cbn [Z.eqb].
  unfold mbind, stm_mbind, proc, gets, upd, modify. rewrite Hp, Hhow.
  rewrite (proj2 (Z.eqb_neq _ 0) Hset). cbn. by rewrite Hcp.
Qed.

(** The signals of [r] other than [signo] are blocked and not in [set]. *)
Definition others_blocked (r : pmproc) (signo set : Z) : Prop :=
  forall j, 0 <= j < NSIG -> j <> signo -> sigismember (sig_pending r) j = true ->
    sigismember (sig_mask r) j = true /\ sigismember set j = false.

Lemma released_once r signo set j :
  1 <= signo < NSIG -> sigismember set signo = true -> others_blocked r signo set -> 0 <= j < NSIG ->
  deliverable r <| sig_pending ::= fun x => sigaddset x signo |> <| sig_mask ::= del_members 1 set |> j =
  (j =? signo).
Proof.
  intros Hs Hset Hother Hj. unfold deliverable. cbn.
  rewrite sigismember_add, sigismember_del_members by lia.
  destruct (Z.eqb_spec j signo) as [->|Hne].
  - rewrite Z.eqb_refl, Hset, (proj2 (Z.leb_le 1 signo)) by lia. cbn. by rewrite andb_false_r.
  - rewrite (proj2 (Z.eqb_neq signo j)) by done. cbn [orb].
    destruct (sigismember (sig_pending r) j) eqn:Hpj; [|done].
    destruct (Hother j Hj Hne Hpj) as [-> ->]. by rewrite andb_false_r.
Qed.

Lemma released_done r r' signo set j :
  1 <= signo < NSIG -> others_blocked r signo set -> 0 <= j < NSIG ->
  sig_pending r' = sigdelset (sigaddset (sig_pending r) signo) signo ->
  (sigismember (sig_mask r) j = true -> sigismember set j = false -> sigismember (sig_mask r') j = true) ->
  deliverable r' j = false.
Proof.
  intros Hs Hother Hj Hp Hm. unfold deliverable. rewrite Hp, sigismember_del, sigismember_add by lia.
  destruct (Z.eqb_spec signo j) as [->|Hne]; [done|]. cbn [negb andb orb].
  destruct (sigismember (sig_pending r) j) eqn:Hpj; [|done]. cbn [andb].
  destruct (Hother j Hj ltac:(done) Hpj) as [Hmj Hsj]. by rewrite Hm.
Qed.

(** A signal that is blocked and caught is delivered exactly once when it is
    released. Sending it while it is blocked calls nobody and makes it pending;
    releasing it by [sigprocmask] hands it to the kernel with its handler, once,
    and it is pending no longer; releasing it again does nothing more. *)
Theorem blocked_signal_delivered_once signo msg s :
  let p := ENDPOINT_P (m_source msg) in
  let r := pmproc_table s p in
  let set := wrapu 64 (m3i1 (m_u msg)) in
  in_table p = true -> 1 <= signo < NSIG -> sigismember noign_set signo = false ->
  tracer r = NO_TASK -> has_flag (flags r) PMPF_SIGSUSPENDED = false ->
  sigismember (sig_ignore r) signo = false -> sigismember (sig_mask r) signo = true ->
  sigismember (sig_catch r) signo = true -> sigismember (sig_poll r) signo = false ->
  m3i2 (m_u msg) = SIG_UNBLOCK -> sigismember set signo = true ->
  others_blocked r signo set ->
  (forall h ep si, w_ret h (KernelSigsend ep si) = 0) ->
  exists s1 s2 s3 m2 m3 si,
    sig_proc p signo true s = Ret (s1, tt) /\ calls s1 = calls s /\
    sigismember (sig_pending (pmproc_table s1 p)) signo = true /\
    do_sigprocmask msg s1 = Ret (s2, (m2, 0)) /\
    calls s2 = KernelSigsend (endpoint r) si :: calls s /\
    si_signo si = signo /\ si_handler si = sa_handler (sigaction r signo) /\
    sigismember (sig_pending (pmproc_table s2 p)) signo = false /\
    do_sigprocmask msg s2 = Ret (s3, (m3, 0)) /\ calls s3 = calls s2.
Proof.
  cbv zeta. set (p := ENDPOINT_P (m_source msg)). set (set := wrapu 64 (m3i1 (m_u msg))).
  intros Hp Hs Hn Ht Hf Hi Hm Hc Hpoll Hhow Hset Hother Hret.
  assert (set <> 0) as Hset0 by (intros H0; rewrite H0, sigismember_0 in Hset; done).
  assert (0 <= signo < NSIG) as Hs' by lia.
  set (s1 := upd_tab p (fun r => r <| sig_pending ::= fun x => sigaddset x signo |>) s).
  set (u1 := upd_tab p (fun r => r <| sig_mask ::= del_members 1 set |>) s1).
  set (v1 := upd_tab p (fun r => r <| sig_pending ::= fun x => sigdelset x signo |>) u1).
  assert (pmproc_table v1 p = (pmproc_table s p)
    <| sig_pending := sigdelset (sigaddset (sig_pending (pmproc_table s p)) signo) signo |>
    <| sig_mask := del_members 1 set (sig_mask (pmproc_table s p)) |>) as Hv1.
  { unfold v1, u1, s1. rewrite !upd_tab_eq. generalize (pmproc_table s p) as r. intros []. unfold field_update. cbn. reflexivity. }
  set (s2 := delivered p signo v1).
  set (s3 := upd_tab p (fun r => r <| sig_mask ::= del_members 1 set |>) s2).
  assert (forall j, 0 <= j < NSIG -> deliverable (pmproc_table u1 p) j = (j =? signo)) as Hu1.
  { intros j Hj. unfold u1, s1. rewrite !upd_tab_eq. by apply released_once. }
  assert (forall j, 0 <= j < NSIG -> deliverable (pmproc_table s2 p) j = false /\
    deliverable (pmproc_table s3 p) j = false) as H23.
  { intros j Hj. unfold s3, s2, delivered. rewrite !upd_tab_eq, !table_log, !upd_tab_eq, Hv1.
    split; apply (released_done (pmproc_table s p) _ signo set); try done; cbn.
    all: intros Hmj Hsj; rewrite ?sigismember_del_members, ?sigismember_add_members, ?sigismember_del_members by done || lia.
    all: by rewrite Hmj, Hsj, andb_false_r. }
  assert (check_pending p u1 = Ret (s2, tt)) as Hcp.
  { apply (check_pending_one p signo); [done|done| | | |intros; by apply H23].
    - by rewrite Hu1, Z.eqb_refl.
    - intros j Hj Hne. rewrite Hu1 by done. by apply Z.eqb_neq.
    - apply (sig_with_caught _ p signo v1); rewrite ?Hv1; try done. cbn.
      rewrite sigismember_del_members, Hset, (proj2 (Z.leb_le 1 signo)) by lia. cbn. apply andb_false_r. }
  exists s1, s2, s3. do 2 eexists. eexists.
  split; [by apply sig_with_blocked|]. split; [done|].
  split. { unfold s1. rewrite upd_tab_eq. cbn. by apply sigismember_add_same. }
  split; [by eapply sigprocmask_unblock|].
  split. { unfold s2, delivered. rewrite Hv1. reflexivity. }
  split; [done|]. split; [done|].
  split. { unfold s2, delivered. rewrite table_log, upd_tab_eq, Hv1. cbn.
           rewrite sigismember_del, Z.eqb_refl by done. done. }
  split; [|done]. eapply sigprocmask_unblock; [done..|]. apply check_pending_none; [done|].
  intros j Hj. by apply H23.
Qed.

End kill.

(** ** Examples *)

Lemma example_delivers E : Delivers (H := example_world) E.
Proof. split; [done|by left]. Qed.

Lemma example_kill_ok : all_kill_ok example_state.
Proof.
  intros q. unfold example_state, example_init. cbn [pmproc_table field_update rebuild_pmstate].
  destruct (decide (20 = q)) as [<-|H1]; [by rewrite fn_lookup_insert|rewrite fn_lookup_insert_ne by done].
  destruct (decide (INIT = q)) as [<-|H2]; [by rewrite fn_lookup_insert|by rewrite fn_lookup_insert_ne].
Qed.

Lemma kill_one_process_witness :
  let _ := example_world in
  kill_sig INIT 2 SIGTERM example_state =
    (_ ← sig_proc 20 SIGTERM true; gets (fun s' => kill_answer s' INIT 0)) example_state /\
  kill_sig INIT 3 SIGTERM example_state = Ret (example_state, ESRCH).
Proof.
  intros w. split.
  - destruct (kill_one_process nofail INIT 2 SIGTERM example_state (example_state_ok nofail)
      eq_refl ltac:(done) ltac:(done) ltac:(done)) as [_ Hk].
    rewrite (Hk 20 eq_refl eq_refl).
    assert (may_kill (pmproc_table example_state INIT) (pmproc_table example_state 20) = true) as -> by done.
    reflexivity.
  - destruct (kill_one_process nofail INIT 3 SIGTERM example_state (example_state_ok nofail)
      eq_refl ltac:(done) ltac:(done) ltac:(done)) as [Hk _].
    assert (kill_answer example_state INIT ESRCH = ESRCH) as He by done. rewrite He in Hk. apply Hk.
    intros t _. unfold example_state, example_init. cbn [pmproc_table field_update rebuild_pmstate].
    destruct (decide (20 = t)) as [<-|H1]; [by rewrite fn_lookup_insert|rewrite fn_lookup_insert_ne by done].
    destruct (decide (INIT = t)) as [<-|H2]; [by rewrite fn_lookup_insert|by rewrite fn_lookup_insert_ne].
Defined.

Lemma sigkill_always_kills_witness :
  let _ := example_world in
  wp nofail (kill_sig INIT 2 SIGKILL) (fun _ s' => dead s' 20) example_state /\
  wp anyfail (handle 10 (mk_request (example_msg 20 (-1) SIG_SETMASK) (mk_clone 0 0 0 0 0) (mk_signal 0 0 0 0)
    (mk_signalfd 0 0 0 0))) (fun _ => all_kill_ok) example_state.
Proof.
  intros w. pose proof (sigkill_always_kills nofail (example_delivers nofail)) as [H1 H2]. split.
  - apply (H2 INIT 20 example_state (example_state_ok nofail) example_kill_ok); vm_compute; done.
  - apply H1, example_kill_ok.
Defined.

Definition example_blocking : pmstate :=
  upd_tab 20 (fun r => r <| sig_mask := sigbit SIGUSR1 |> <| sig_catch := sigbit SIGUSR1 |>
    <| sigaction ::= <[SIGUSR1 := mk_sigact 4096 0 0]> |>) example_state.

Lemma blocked_signal_delivered_once_witness :
  let _ := example_world in
  let msg := example_msg 20 (sigbit SIGUSR1) SIG_UNBLOCK in
  exists s1 s2 s3 m2 m3 si,
    sig_proc 20 SIGUSR1 true example_blocking = Ret (s1, tt) /\
    do_sigprocmask msg s1 = Ret (s2, (m2, 0)) /\ calls s2 = [KernelSigsend 20 si] /\ si_handler si = 4096 /\
    do_sigprocmask msg s2 = Ret (s3, (m3, 0)) /\ calls s3 = calls s2.
Proof.
  intros w msg.
  destruct (blocked_signal_delivered_once SIGUSR1 msg example_blocking) as (s1 & s2 & s3 & m2 & m3 & si & Hrun);
    try done.
  destruct Hrun as (H1 & Hc1 & _ & H2 & Hc2 & _ & Hh & _ & H3 & Hc3).
  exists s1, s2, s3, m2, m3, si. split; [done|]. split; [done|]. split; [by rewrite Hc2|].
  split; [by rewrite Hh|]. by split.
Defined.
