(* ===== verification/PmLife.v ===== *)
(** * Lives of processes

    From the start of the process manager on ([pm_init]), every state it
    reaches has its table in order; and a process that exits and a parent that
    waits for it meet in either order. *)

From S2P Require Import Prelude Stm SigSet ListHead Kernel PmProc Futex Pm PmCalls PmInv PmProps PmSignals.

Section boot.
Context `{!World}.

(** The table while [pm_init] fills it: [todo] are the slots to come. *)
Record booting (E : crash -> Prop) (todo : list Z) (s : pmstate) : Prop := {
  bt_ok : tab_ok E s;
  bt_free : forall p, p ∈ todo -> used s p = false;
  bt_init : forall p, in_table p = true -> p <> INIT -> pid (pmproc_table s p) <> INIT_PID;
  bt_kill : all_kill_ok s
}.

Lemma booting_zero E todo s :
  pmproc_table s = (fun _ => zero_pmproc) -> procs_in_use s = 0 -> booting E todo s.
Proof.
  intros Ht Hn. split; [split|..]; unfold used; rewrite ?Ht; try done.
  - by right.
  - by left.
  - intros p. rewrite Ht. by repeat split.
Qed.

Lemma wp_init_boot_proc E todo bp s :
  booting E (bp.1 :: todo) s -> bp.1 ∉ todo -> in_table bp.1 = true ->
  wp E (init_boot_proc bp) (fun _ => booting E todo) s.
Proof.
  destruct bp as [c ep]. cbn. intros [Hok Hfree Hinit Hkill] Hc Hin. unfold init_boot_proc.
  rewrite (proj2 (Z.ltb_ge c 0)) by (apply in_table_spec in Hin; lia).
  assert (forall n s', n <> 0 -> (forall q, in_table q = true -> q <> c -> pid (pmproc_table s q) <> n) ->
    (n = INIT_PID -> c = INIT) ->
    procs_in_use s' = procs_in_use s + 1 -> (forall q, q <> c -> pmproc_table s' q = pmproc_table s q) ->
    pid (pmproc_table s' c) = n -> inuse (pmproc_table s' c) = true ->
    in_table (ENDPOINT_P (parent (pmproc_table s' c))) = true -> tracer (pmproc_table s' c) = NO_TASK ->
    clear_child_tid (pmproc_table s' c) = clear_child_tid (pmproc_table s c) ->
    kill_ok (pmproc_table s' c) -> booting E todo s') as Hend.
  { intros n s' Hn Hfresh Hni Hcnt Hoth Hpid Hu Hpar Htr Htid Hk. split.
    - eapply (ok_new_slot E c s); try done; rewrite ?Hpid, ?Htid; try done.
      + apply Hfree. by left.
      + intros q Hq. by rewrite Hoth.
      + by left.
      + by apply Hok.
    - intros q Hq. unfold used. rewrite Hoth by (intros ->; done). apply Hfree. by right.
    - intros q Hq Hqi. destruct (decide (q = c)) as [->|Hne]; [|rewrite Hoth by done; by apply Hinit].
      rewrite Hpid. intros He. by apply Hqi, Hni.
    - intros q. destruct (decide (q = c)) as [->|Hne]; [done|]. by rewrite Hoth. }
  do 5 wp_pm. destruct (Z.eqb_spec c INIT) as [->|Hne].
  - do 8 wp_pm. apply (Hend INIT_PID);
      [done|done|done|done|by intros; tab_simpl|tab_simpl; try done..].
    split; [done|done|done|]. apply (Hkill INIT).
  - do 3 wp_pm. apply wp_find_free_pid. intros n Hn Hu. repeat wp_pm.
    unfold INIT_PID in Hn.
    apply (Hend n); [lia| |unfold INIT_PID; lia|done|by intros; tab_simpl|tab_simpl; try done..].
    + intros q Hq Hqc Hpq. apply not_true_iff_false in Hu. apply Hu. apply pid_used_spec, elem_of_app. left.
      apply list_elem_of_fmap. exists q. split; [by tab_simpl|by apply elem_of_slots].
    + cbn. by destruct (c =? TASK_SERVMAN).
    + split; [done|done|done|]. apply (Hkill c).
Qed.

Definition boot_ok (boot_procs : list (Z * Z)) : Prop :=
  let l := filter (fun p => 0 <= p) (fst <$> boot_procs) in
  NoDup l /\ forall p, p ∈ l -> in_table p = true.

Lemma wp_pm_init E boot_procs :
  boot_ok boot_procs -> E Panic -> 
  wp E (pm_init boot_procs) (fun _ s => tab_ok E s /\ all_kill_ok s) pm_zero.
Proof.
  intros [Hnd Hin] HP. unfold pm_init. wp_pm.
  apply wp_mono with (Q := fun _ => same_table pm_zero).
  { unfold futex_init. apply wp_each; [|done]. intros i s _ Hs. apply wp_modify. exact Hs. }
  intros [] s [Ht Hc]. wp_pm. wp_pm. wp_pm.
  apply wp_mono with (Q := fun _ => booting E []).
  - set (s1 := s <| procs_in_use := 0 |>).
    assert (booting E (filter (fun p => 0 <= p) (fst <$> boot_procs)) s1) as Hb.
    { apply booting_zero; [|done]. unfold s1. cbn. by rewrite Ht. }
    clearbody s1. clear Ht Hc s. revert s1 Hb Hnd Hin. induction boot_procs as [|bp l IH]; intros s1 Hb Hnd Hin; [done|].
    cbn [each fmap list_fmap] in *. wp_pm. destruct (decide (0 <= bp.1)) as [Hle|Hlt].
    + rewrite filter_cons_True in * by done. apply NoDup_cons in Hnd as [Hbp Hnd].
      eapply wp_mono; [apply wp_init_boot_proc; [done|done|apply Hin; by left]|].
      intros [] s2 Hs2. apply IH; [done..|]. intros p Hp. apply Hin. by right.
    + rewrite filter_cons_False in * by done. unfold init_boot_proc. destruct bp as [c ep].
      rewrite (proj2 (Z.ltb_lt c 0)) by (cbn in Hlt; lia). wp_pm. by apply IH.
  - intros [] s2 Hs2. wp_pm. wp_pm. wp_pm; [by wp_pm|]. wp_pm.
    destruct Hs2. split; [|done]. by apply (tab_ok_core E s2); [apply quiet_log|].
Qed.

(** The states the process manager reaches. *)
Inductive reachable (boot_procs : list (Z * Z)) : pmstate -> Prop :=
| reach_boot s : pm_init boot_procs pm_zero = Ret (s, tt) -> reachable boot_procs s
| reach_request fuel rq s s' :
    reachable boot_procs s -> request_ok rq s -> handle fuel rq s = Ret (s', tt) ->
    reachable boot_procs s'.


End boot.

(** ** Exit and wait *)

Section meet.
Context `{!World}.

(** States that cannot be told apart. *)
Definition same_state (s1 s2 : pmstate) : Prop :=
  (forall p, pmproc_table s1 p = pmproc_table s2 p) /\
  procs_in_use s1 = procs_in_use s2 /\ links s1 = links s2 /\ calls s1 = calls s2.

(** The state when [exit_proc] looks for the parent. *)
Definition gone (c ep status : Z) (s : pmstate) : pmstate :=
  upd_tab c (fun r => r <| exit_status := status |>)
    (log (ProcCtlClear ep) (log (FsExit ep) (log (KernelClear ep) s))).

Lemma exit_with_eq sig c status s :
  in_table c = true -> clear_child_tid (pmproc_table s c) = NULL ->
  exit_with sig c status s =
  (_ ← check_parent sig c true; each slots (adopt sig (endpoint (pmproc_table s c))))
    (gone c (endpoint (pmproc_table s c)) status s).
Proof.
  intros Hc Ht. unfold exit_with, clear_tid, mbind, stm_mbind, proc, gets, tell, modify, upd.
  by rewrite !Hc, Ht.
Qed.

Lemma adopt_none sig ep s :
  (forall q, in_table q = true -> parent (pmproc_table s q) <> ep) ->
  each slots (adopt sig ep) s = Ret (s, tt).
Proof.
  intros Hq. apply each_skip. intros q Hin%elem_of_slots. unfold adopt, mbind, stm_mbind, proc, gets.
  rewrite Hin, (proj2 (Z.eqb_neq _ _) (Hq q Hin)). done.
Qed.

Definition waiting_over (par : Z) (s : pmstate) : pmstate :=
  upd_tab par (fun r => r <| flags ::= fun f => clear_flag f PMPF_WAITING |>) s.

Lemma check_parent_waiting sig c s :
  let par := ENDPOINT_P (parent (pmproc_table s c)) in
  let r := pmproc_table s c in
  in_table c = true -> in_table par = true -> c <> par ->
  waiting_for (pmproc_table s par) r = true ->
  check_parent sig c true s =
  Ret (free_slot c (log (ReplyWait (parent r) (pid r) (W_EXITCODE (exit_status r) (sig_status r)))
                        (waiting_over par s)), tt).
Proof.
  cbv zeta. intros Hc Hp Hne Hw.
  unfold check_parent, tell_parent, pm_verify_endpt, cleanup, when, mbind, stm_mbind, proc, gets, upd, tell, modify.
  rewrite Hc. cbn [Z.eqb negb]. rewrite Hp. cbv beta iota zeta. rewrite Hw. cbv beta iota zeta.
  rewrite Hp. cbv beta iota zeta. by rewrite upd_tab_ne by done.
Qed.

Lemma check_parent_busy sig c s :
  let par := ENDPOINT_P (parent (pmproc_table s c)) in
  in_table c = true -> in_table par = true -> waiting_for (pmproc_table s par) (pmproc_table s c) = false ->
  check_parent sig c true s =
  sig par SIGCHLD true (upd_tab c (fun r => r <| flags ::= fun f => set_flag f PMPF_HANGING |>) s).
Proof.
  cbv zeta. intros Hc Hp Hw.
  unfold check_parent, pm_verify_endpt, mbind, stm_mbind, proc, gets, upd, modify.
  rewrite Hc. cbn [Z.eqb negb]. rewrite Hp. cbv beta iota zeta. rewrite Hw. reflexivity.
Qed.

(** A parent that does not care about SIGCHLD. *)
Definition careless (r : pmproc) : Prop :=
  tracer r = NO_TASK /\ sigismember (sig_mask r) SIGCHLD = false /\ sigismember (sig_catch r) SIGCHLD = false.

Lemma sigchld_careless par s :
  in_table par = true -> careless (pmproc_table s par) -> sig_proc par SIGCHLD true s = Ret (s, tt).
Proof.
  intros Hp (Ht & Hm & Hc). change (sig_proc par SIGCHLD true s)
    with (sig_with (exit_with (sig_proc_fuel 255)) par SIGCHLD true s).
  unfold sig_with, mbind, stm_mbind, proc, gets. rewrite Hp. cbv beta iota zeta.
  change (sigismember noign_set SIGCHLD) with false. change (sigismember ign_set SIGCHLD) with true.
  rewrite Ht, Hm, Hc. rewrite (Z.eqb_refl NO_TASK). cbn [negb andb orb].
  by destruct (sigismember (sig_ignore (pmproc_table s par)) SIGCHLD).
Qed.

(** A round of [do_wait] that goes on to the next slot. *)
Definition passes_over (s : pmstate) (ep n par q : Z) : Prop :=
  in_table q = true /\
  (selected ep n (pmproc_table s par) (pmproc_table s q) = true ->
   tracer (pmproc_table s q) <> ep /\ hangs (pmproc_table s q) = false).

Lemma report_traced_none q ep s :
  in_table q = true -> tracer (pmproc_table s q) <> ep -> report_traced q ep s = Ret (s, None).
Proof.
  intros Hq Ht. unfold report_traced, mbind, stm_mbind, proc, gets.
  by rewrite Hq, (proj2 (Z.eqb_neq _ _) Ht).
Qed.

Lemma wait_loop_passes l ep par n k s :
  in_table par = true -> (forall q, q ∈ l -> passes_over s ep n par q) ->
  wait_loop l ep par n k s =
  Ret (s, (None, k + Z.of_nat (length (filter (fun q =>
    selected ep n (pmproc_table s par) (pmproc_table s q) = true) l)))).
Proof.
  intros Hp. revert k. induction l as [|q l IH]; intros k Hl.
  { cbn. by rewrite Z.add_0_r. }
  destruct (Hl q ltac:(by left)) as [Hq Hpass]. rewrite filter_cons.
  cbn [wait_loop]. unfold mbind at 1 2, stm_mbind at 1 2, proc, gets. rewrite Hq, Hp.
  destruct (selected _ _ _ _) eqn:Hsel.
  - destruct (Hpass eq_refl) as [Ht Hh]. unfold mbind at 1 2, stm_mbind at 1 2.
    rewrite report_traced_none by done. rewrite Hh. rewrite IH by set_solver.
    rewrite decide_True by done. cbn. do 3 f_equal. lia.
  - rewrite decide_False by congruence. apply IH. set_solver.
Qed.

Lemma wait_loop_reaps l1 c l2 ep par n k s :
  in_table par = true -> (forall q, q ∈ l1 -> passes_over s ep n par q) -> in_table c = true ->
  selected ep n (pmproc_table s par) (pmproc_table s c) = true ->
  tracer (pmproc_table s c) <> ep -> hangs (pmproc_table s c) = true ->
  exists k', wait_loop (l1 ++ c :: l2) ep par n k s =
  (_ ← upd par (fun r => r <| flags ::= fun f => set_flag f PMPF_WAITING |> <| wait_pid := n |>);
   _ ← check_parent sig_proc c true; mret (Some SUSPEND, k')) s.
Proof.
  intros Hp Hl Hc Hsel Ht Hh. revert k. induction l1 as [|q l1 IH]; intros k.
  - exists (k + 1). cbn [app wait_loop]. unfold mbind at 1 2, stm_mbind at 1 2, proc, gets. rewrite Hc, Hp, Hsel.
    unfold mbind at 1 2, stm_mbind at 1 2. rewrite report_traced_none by done. by rewrite Hh.
  - destruct (Hl q ltac:(by left)) as [Hq Hpass]. cbn [app wait_loop].
    unfold mbind at 1 2, stm_mbind at 1 2, proc at 1 2, gets. rewrite Hq, Hp.
    destruct (selected ep n (pmproc_table s par) (pmproc_table s q)) eqn:Hsq; [|apply IH; set_solver].
    destruct (Hpass eq_refl) as [Htq Hhq].
    destruct (IH ltac:(set_solver) (k + 1)) as [k' Hk]. exists k'. rewrite <- Hk.
    unfold mbind at 1 2, stm_mbind at 1 2. rewrite report_traced_none by done.
    unfold proc, gets. by rewrite Hq, Hhq.
Qed.

(** A child in slot [c] that can exit and a parent in slot [par] that can wait for
    it: the child has no children of its own, and the parent no other zombie. *)
Record can_meet (c par : Z) (mexit mwait : MESSAGE) (s : pmstate) : Prop := {
  cm_child : in_table c = true;
  cm_par : in_table par = true;
  cm_ne : c <> par;
  cm_endpoint : endpoint (pmproc_table s c) = m_source mexit;
  cm_slot : ENDPOINT_P (m_source mexit) = c;
  cm_parent : parent (pmproc_table s c) = m_source mwait;
  cm_pslot : ENDPOINT_P (m_source mwait) = par;
  cm_inuse : inuse (pmproc_table s c) = true;
  cm_tid : clear_child_tid (pmproc_table s c) = NULL;
  cm_running : has_flag (flags (pmproc_table s par)) PMPF_WAITING = false;
  cm_careless : careless (pmproc_table s par);
  cm_untraced : forall q, in_table q = true -> tracer (pmproc_table s q) <> m_source mwait;
  cm_childless : forall q, in_table q = true -> parent (pmproc_table s q) <> m_source mexit;
  cm_zombies : forall q, in_table q = true -> parent (pmproc_table s q) = m_source mwait ->
    hangs (pmproc_table s q) = false;
  cm_wanted : m3i2 (m_u mwait) = -1 \/
    (0 < pid (pmproc_table s c) /\ m3i2 (m_u mwait) = pid (pmproc_table s c));
  cm_blocking : has_flag (m3i1 (m_u mwait)) WNOHANG = false
}.

Section order.
Context (c par : Z) (mexit mwait : MESSAGE) (s : pmstate) (Hm : can_meet c par mexit mwait s).

Notation ep := (m_source mexit).
Notation pep := (m_source mwait).
Notation status := (m3i1 (m_u mexit)).
Notation n := (m3i2 (m_u mwait)).

Definition starts_waiting (s : pmstate) : pmstate :=
  upd_tab par (fun r => r <| flags ::= fun f => set_flag f PMPF_WAITING |> <| wait_pid := n |>) s.
Definition turns_zombie (s : pmstate) : pmstate :=
  upd_tab c (fun r => r <| flags ::= fun f => set_flag f PMPF_HANGING |>) s.

Lemma selects_child s' :
  parent (pmproc_table s' c) = pep -> inuse (pmproc_table s' c) = true ->
  pid (pmproc_table s' c) = pid (pmproc_table s c) ->
  selected pep n (pmproc_table s' par) (pmproc_table s' c) = true.
Proof.
  intros Hpar Hu Hpid. unfold selected. rewrite Hpar, Hu, Hpid, Z.eqb_refl. cbn [orb andb].
  destruct (cm_wanted _ _ _ _ _ Hm) as [->|[H0 ->]]; [done|].
  rewrite Z.eqb_refl, (proj2 (Z.ltb_ge _ (-1))), (proj2 (Z.eqb_neq _ 0)) by lia.
  by rewrite andb_false_r.
Qed.

Lemma waits_for_child s' s'' :
  pid (pmproc_table s'' c) = pid (pmproc_table s c) ->
  pmproc_table s'' par = pmproc_table (starts_waiting s') par ->
  waiting_for (pmproc_table s'' par) (pmproc_table s'' c) = true.
Proof.
  intros Hpid ->. unfold waiting_for, starts_waiting. rewrite upd_tab_eq, Hpid. cbn.
  rewrite has_flag_set_same by done. cbn.
  destruct (cm_wanted _ _ _ _ _ Hm) as [->|[_ ->]]; [done|]. by rewrite Z.eqb_refl, orb_true_r.
Qed.

(** The end of both orders. *)
Definition parted (s' : pmstate) : pmstate :=
  free_slot c (log (ReplyWait pep (pid (pmproc_table s c)) (W_EXITCODE status (sig_status (pmproc_table s c))))
    (waiting_over par s')).

Lemma exit_then_wait :
  (_ ← do_exit mexit; do_wait mwait) s =
  Ret (parted (starts_waiting (turns_zombie (gone c ep status s))), (mwait, SUSPEND)).
Proof.
  destruct Hm. unfold do_exit, pm_verify_endpt. rewrite cm_slot0. cbn [Z.eqb negb].
  unfold exit_proc. unfold mbind at 1 2, stm_mbind at 1 2. rewrite exit_with_eq, cm_endpoint0 by done.
  set (s1 := gone c ep status s).
  assert (parent (pmproc_table s1 c) = pep) as Hp1 by (unfold s1, gone; by rewrite upd_tab_eq).
  assert (pmproc_table s1 par = pmproc_table s par) as Hpar1 by (unfold s1, gone; by rewrite upd_tab_ne).
  unfold mbind at 1, stm_mbind at 1. rewrite check_parent_busy; rewrite ?Hp1, ?cm_pslot0; [|done|done|].
  2: { unfold waiting_for. by rewrite Hpar1, cm_running0. }
  fold (turns_zombie s1). set (s2 := turns_zombie s1).
  assert (forall q, q <> c -> pmproc_table s2 q = pmproc_table s q) as Hoth.
  { intros q Hq. unfold s2, turns_zombie, s1, gone. by rewrite !upd_tab_ne. }
  assert (pmproc_table s2 c = (pmproc_table s c) <| exit_status := status |>
    <| flags ::= fun f => set_flag f PMPF_HANGING |>) as Hc2.
  { unfold s2, turns_zombie, s1, gone. by rewrite !upd_tab_eq. }
  rewrite sigchld_careless by (done || by rewrite Hoth).
  assert (forall q, parent (pmproc_table s2 q) = parent (pmproc_table s q) /\
                    tracer (pmproc_table s2 q) = tracer (pmproc_table s q)) as Hsame.
  { intros q. destruct (decide (q = c)) as [->|Hq]; [by rewrite Hc2|by rewrite Hoth]. }
  rewrite adopt_none by (intros q Hq; rewrite (proj1 (Hsame q)); auto).
  unfold do_wait, pm_verify_endpt. rewrite cm_pslot0. cbn [Z.eqb negb].
  assert (c ∈ slots) as Hcs by (by apply elem_of_slots).
  pose proof (NoDup_seqZ 0 NR_PROCS) as Hnd. fold slots in Hnd.
  apply list_elem_of_split in Hcs as (l1 & l2 & Hl).
  assert (forall q, q ∈ l1 -> passes_over s2 pep n par q) as Hpass.
  { intros q Hq. assert (in_table q = true) as Hqt by (apply elem_of_slots; rewrite Hl; set_solver).
    assert (q <> c) as Hqc by (rewrite Hl in Hnd; apply NoDup_middle in Hnd as [Hnd _]; set_solver).
    split; [done|]. intros Hsel. split; [rewrite (proj2 (Hsame q)); auto|]. rewrite Hoth by done.
    apply cm_zombies0; [done|]. unfold selected in Hsel. b2p.
    match goal with H : (_ || _) = true |- _ => apply orb_true_iff in H as [H|H] end; b2p;
      [by rewrite <- (proj1 (Hsame q))|]. destruct (cm_untraced0 q Hqt). by rewrite <- (proj2 (Hsame q)). }
  rewrite Hl. destruct (wait_loop_reaps l1 c l2 pep par n 0 s2) as [k' Hk]; [done|done|done|..].
  { apply selects_child; rewrite Hc2; [done|by cbn; rewrite has_flag_set_other|done]. }
  { rewrite (proj2 (Hsame c)). auto. }
  { rewrite Hc2. cbn. by rewrite has_flag_set_same. }
  unfold mbind at 1, stm_mbind at 1, mret at 1, stm_mret at 1. cbv beta iota. rewrite Hk.
  unfold upd, modify. rewrite cm_par0. unfold mbind at 1 2, stm_mbind at 1 2. fold (starts_waiting s2).
  assert (pmproc_table (starts_waiting s2) c = pmproc_table s2 c) as Hc3
    by (unfold starts_waiting; by rewrite upd_tab_ne).
  rewrite check_parent_waiting; rewrite ?Hc3, ?Hc2; cbn [parent field_update rebuild_pmproc];
    rewrite ?cm_parent0, ?cm_pslot0; [done|done|done|done|].
  rewrite <- Hc2, <- Hc3. apply (waits_for_child s2); [|done]. by rewrite Hc3, Hc2.
Qed.

Lemma wait_then_exit :
  (r ← do_wait mwait; _ ← do_exit mexit; mret r) s =
  Ret (parted (gone c ep status (starts_waiting s)), (mwait, SUSPEND)).
Proof.
  destruct Hm.
  assert (do_wait mwait s = Ret (starts_waiting s, (mwait, SUSPEND))) as Hwait.
  { unfold do_wait, pm_verify_endpt. rewrite cm_pslot0. cbn [Z.eqb negb].
    unfold mbind at 1, stm_mbind at 1. rewrite wait_loop_passes; [|done|].
    - assert (c ∈ filter (fun q => selected pep n (pmproc_table s par) (pmproc_table s q) = true) slots) as Hin.
      { apply list_elem_of_filter. split; [by apply selects_child|by apply elem_of_slots]. }
      destruct (filter _ slots) as [|q l]; [by apply elem_of_nil in Hin|].
      rewrite (proj2 (Z.eqb_neq (0 + _) 0)) by (cbn; lia). rewrite cm_blocking0. cbn [negb].
      unfold mbind, stm_mbind, upd, modify. by rewrite cm_par0.
    - intros q Hq%elem_of_slots. split; [done|]. intros Hsel. split; [auto|].
      apply cm_zombies0; [done|]. unfold selected in Hsel. b2p.
      match goal with H : (_ || _) = true |- _ => apply orb_true_iff in H as [H|H] end; b2p; [done|].
      by destruct (cm_untraced0 q Hq). }
  set (s1 := starts_waiting s) in *.
  assert (pmproc_table s1 c = pmproc_table s c) as Hc1 by (unfold s1, starts_waiting; by rewrite upd_tab_ne).
  assert (forall q, parent (pmproc_table s1 q) = parent (pmproc_table s q)) as Hpar1.
  { intros q. unfold s1, starts_waiting. rewrite upd_tab_at. by case_decide. }
  unfold mbind at 1, stm_mbind at 1. rewrite Hwait. cbv beta iota.
  unfold do_exit, pm_verify_endpt. rewrite cm_slot0. cbn [Z.eqb negb].
  unfold exit_proc, mbind at 1 2, stm_mbind at 1 2. rewrite exit_with_eq by (done || by rewrite Hc1).
  rewrite Hc1, cm_endpoint0. set (s2 := gone c ep status s1).
  assert (pmproc_table s2 c = (pmproc_table s c) <| exit_status := status |>) as Hc2
    by (unfold s2, gone; by rewrite upd_tab_eq, !table_log, Hc1).
  assert (pmproc_table s2 par = pmproc_table s1 par) as Hp2 by (unfold s2, gone; by rewrite upd_tab_ne).
  unfold mbind at 1, stm_mbind at 1. rewrite check_parent_waiting; rewrite ?Hc2;
    cbn [parent field_update rebuild_pmproc]; rewrite ?cm_parent0, ?cm_pslot0; [|done|done|done|].
  2: { rewrite <- Hc2. apply (waits_for_child s); [by rewrite Hc2|done]. }
  cbv beta iota. rewrite adopt_none; [done|]. intros q Hq.
  rewrite free_slot_at, table_log. unfold waiting_over.
  assert (parent (pmproc_table (upd_tab par (fun r => r <| flags ::= fun f => clear_flag f PMPF_WAITING |>) s2) q) =
          parent (pmproc_table s q)) as Hq2.
  { rewrite upd_tab_at. unfold s2, gone. rewrite upd_tab_at, !table_log, <- Hpar1. by repeat case_decide. }
  assert (forall r, parent (r <| pid := 0 |> <| flags := 0 |>) = parent r) as Hfree by done.
  case_decide; rewrite ?Hfree, Hq2; auto.
Qed.

Lemma orders_agree :
  same_state (parted (starts_waiting (turns_zombie (gone c ep status s))))
             (parted (gone c ep status (starts_waiting s))).
Proof.
  pose proof (cm_ne _ _ _ _ _ Hm) as Hne.
  split; [|done]. intros q. unfold parted. rewrite !free_slot_at, !table_log.
  unfold waiting_over, starts_waiting, turns_zombie, gone.
  case_decide as Hq; [subst q|].
  - tab_simpl. by destruct (pmproc_table s c).
  - destruct (decide (par = q)) as [->|Hp]; by tab_simpl.
Qed.

End order.


End meet.

(** ** Examples *)

Definition state_of {A} (r : res (pmstate * A)) : pmstate :=
  match r with Ret (s, _) => s | Crash _ => pm_zero end.

Definition example_boot : list (Z * Z) := [(-1, -1); (TASK_FS, TASK_FS); (INIT, INIT)].
Definition example_fork : request :=
  mk_request (example_msg INIT 0 0) <| m_type := FORK |> (mk_clone 0 0 0 0 0) (mk_signal 0 0 0 0)
    (mk_signalfd 0 0 0 0).


