(* ===== verification/PmErrors.v ===== *)
(** * Requests the process manager gets wrong

    Runs of the handlers of [Pm] and [PmCalls] in small states, for behaviour
    that the theorems on the process manager exclude by their hypotheses or
    that differs from what the callers in the C library expect. *)

From S2P Require Import Prelude Stm SigSet ListHead Kernel PmProc Futex Pm PmCalls PmInv PmProps PmSignals PmLife.

(** What can be seen of a run: the result, the calls and the entry of a slot. *)
Definition outcome {A B} (r : res (pmstate * A)) (f : pmstate -> B) : option (A * B) :=
  match r with Ret (s, a) => Some (a, f s) | Crash _ => None end.

Definition slot_flags (p : Z) (s : pmstate) : Z := flags (pmproc_table s p).

(** A child of INIT that has exited with 7. *)
Definition example_zombie : pmstate :=
  upd_tab 20 (fun r => r <| flags := Z.lor PMPF_INUSE PMPF_HANGING |> <| exit_status := 7 |>) example_state.

(** A process whose signals SIGTERM and SIGUSR1 are blocked and pending, while INIT
    waits for a child. *)
Definition example_two_pending : pmstate :=
  upd_tab INIT (fun r => r <| flags ::= fun f => set_flag f PMPF_WAITING |> <| wait_pid := -1 |>)
    (upd_tab 20 (fun r => r <| sig_mask := sigaddset (sigbit SIGTERM) SIGUSR1 |>
                            <| sig_pending := sigaddset (sigbit SIGTERM) SIGUSR1 |>) example_state).

Definition example_request (ty : Z) (m : MESSAGE) : request :=
  mk_request m <| m_type := ty |> (mk_clone 0 0 0 0 0) (mk_signal 0 0 0 0) (mk_signalfd 0 0 0 0).

