(* ===== verification/FutexProps.v ===== *)
(** * Futexes refine queues of waiting processes

    [futex_ok B s]: the linked list at queue [i] holds exactly the slots [B i], in
    that order, for every queue that [futex_init] initialises. Waiting and
    waking are then operations on the sequences [B i]. *)

From S2P Require Import Prelude Stm SigSet ListHead Kernel PmProc Futex Pm PmCalls PmInv PmProps.

Record futex_ok (B : Z -> list Z) (s : pmstate) : Prop := {
  fx_list : forall i, 0 <= i < QUEUE_HASH_MASK ->
    is_list (links s) (futex_queue_head i) (futex_node <$> B i);
  fx_entry : forall i q, 0 <= i < QUEUE_HASH_MASK -> q ∈ B i ->
    in_table q = true /\ fe_pmp (fentry (pmproc_table s q)) = q /\
    hash_index (fe_key (fentry (pmproc_table s q))) = i
}.

(** The entries [futex_wake] takes out of a queue, and those it leaves, when
    [ret] entries have been taken before. *)
Fixpoint pick (m : Z -> bool) (nr ret : Z) (l : list Z) : list Z * list Z :=
  match l with
  | [] => ([], [])
  | q :: l =>
      if m q then
        if nr <=? ret + 1 then ([q], l)
        else (q :: (pick m nr (ret + 1) l).1, (pick m nr (ret + 1) l).2)
      else ((pick m nr ret l).1, q :: (pick m nr ret l).2)
  end.

Definition wakes (s : pmstate) (key : futex_key) (bitset q : Z) : bool :=
  futex_match_key (fe_key (fentry (pmproc_table s q))) key &&
  has_flag (fe_bitset (fentry (pmproc_table s q))) bitset.

Lemma rev_fmap {A B} (f : A -> B) l : rev (f <$> l) = f <$> rev l.
Proof. induction l as [|x l IH]; [done|]. cbn. by rewrite IH, fmap_app. Qed.

(** ** Addresses *)

Lemma futex_node_inj : Inj (=) (=) futex_node.
Proof. intros p q. unfold futex_node. lia. Qed.
#[local] Existing Instance futex_node_inj.

Lemma futex_owner_node q : futex_owner (futex_node q) = q.
Proof. unfold futex_owner, futex_node. lia. Qed.

(** The addresses a list can link to are not NULL. *)
Definition linkable (x : Z) : Prop := 0 < x < 1000 \/ exists q, 0 <= q /\ x = futex_node q.

Lemma is_list_links h head l x :
  is_list h head (futex_node <$> l) -> 0 < head -> (forall q, q ∈ l -> 0 <= q) ->
  x ∈ head :: (futex_node <$> l) -> next h x <> NULL /\ prev h x <> NULL.
Proof.
  intros [Hs _] Hh Hl Hx.
  assert (forall y, y ∈ head :: (futex_node <$> l) -> y <> NULL) as Hpos.
  { intros y [->|Hy]%elem_of_cons; [unfold NULL; lia|]. apply list_elem_of_fmap in Hy as (q & -> & Hq).
    apply Hl in Hq. unfold futex_node, NULL. lia. }
  apply elem_of_cons in Hx as [->|Hx].
  - pose proof (seg_next_in _ _ _ _ Hs) as H1. pose proof (seg_prev_in _ _ _ _ Hs) as H2.
    split; apply Hpos; member.
  - apply list_elem_of_split in Hx as (l1 & l2 & Hl12). rewrite Hl12 in Hs, Hpos.
    apply seg_app in Hs as [H1 H2]. pose proof (seg_prev_in _ _ _ _ H1). pose proof (seg_next_in _ _ _ _ H2).
    split; apply Hpos; member.
Qed.

(** ** The loops *)

Section loops.
Context `{!World}.
Implicit Types s : pmstate.

Lemma next_of_ok x s : x <> NULL -> next_of x s = Ret (s, next (links s) x).
Proof. intros Hx. unfold next_of. by rewrite (proj2 (Z.eqb_neq _ _) Hx). Qed.

Lemma del_link_ok x s :
  next (links s) x <> NULL -> prev (links s) x <> NULL ->
  del_link x s = Ret (s <| links ::= list_del x |>, tt).
Proof.
  intros Hn Hp. unfold del_link, mbind, stm_mbind, gets.
  by rewrite (proj2 (Z.eqb_neq _ _) Hn), (proj2 (Z.eqb_neq _ _) Hp).
Qed.

Lemma add_link_ok x head s :
  head <> NULL -> next (links s) head <> NULL ->
  add_link x head s = Ret (s <| links ::= list_add x head |>, tt).
Proof.
  intros Hh Hn. unfold add_link, mbind, stm_mbind. rewrite next_of_ok by done.
  by rewrite (proj2 (Z.eqb_neq _ _) Hn).
Qed.

(** What a loop over a queue leaves alone. *)
Definition untouched (l : list Z) (s s' : pmstate) : Prop :=
  (forall z, z ∉ l -> agree_at (links s) (links s') z) /\
  pmproc_table s' = pmproc_table s /\ procs_in_use s' = procs_in_use s.

Notation nodes := (fmap futex_node).

Lemma nodes_pos (l : list Z) x : (forall q, q ∈ l -> 0 <= q) -> x ∈ nodes l -> x <> NULL.
Proof.
  intros Hl Hx. apply list_elem_of_fmap in Hx as (q & -> & Hq). apply Hl in Hq. unfold futex_node, NULL. lia.
Qed.

(** A queue and the list of those to wake, apart from each other. *)
Record two_queues (head : Z) (l W : list Z) (s : pmstate) : Prop := {
  tq_head : 0 < head;
  tq_list : is_list (links s) head (nodes l);
  tq_wake : is_list (links s) wake_queue (nodes W);
  tq_nodup : NoDup (head :: wake_queue :: nodes (l ++ W));
  tq_slots : forall q, q ∈ l ++ W -> in_table q = true
}.

Lemma tq_pos head l W s q : two_queues head l W s -> q ∈ l ++ W -> 0 <= q.
Proof. intros [] Hq. apply tq_slots0, in_table_spec in Hq. lia. Qed.

Lemma take_out head kept q rest W s :
  two_queues head (kept ++ q :: rest) W s ->
  exists s', (_ ← del_link (futex_node q); add_link (futex_node q) wake_queue) s = Ret (s', tt) /\
    two_queues head (kept ++ rest) (q :: W) s' /\ calls s' = calls s /\
    untouched (head :: wake_queue :: nodes ((kept ++ q :: rest) ++ W)) s s'.
Proof.
  intros H2. assert (forall x, x ∈ (kept ++ q :: rest) ++ W -> 0 <= x) as Hpos
    by (intros x; by apply (tq_pos _ _ _ _ x H2)).
  destruct H2. pose proof tq_list0 as Hlist. rewrite fmap_app, fmap_cons in Hlist.
  assert (NoDup (head :: wake_queue :: futex_node q :: nodes kept ++ nodes rest ++ nodes W)) as Hnd.
  { eapply NoDup_perm; [|exact tq_nodup0]. rewrite !fmap_app, fmap_cons. solve_Permutation. }
  destruct (move_node _ _ _ _ _ _ _ Hlist tq_wake0 Hnd) as (Hl & HW & Hframe).
  destruct (is_list_links (links s) head (kept ++ q :: rest) (futex_node q)) as [Hn Hp]; [done|done|set_solver|set_solver|].
  destruct (is_list_links (links s) wake_queue W wake_queue) as [Hwn _]; [done|done|set_solver|set_solver|].
  eexists. split; [|split; [split|split]].
  - unfold mbind, stm_mbind. rewrite del_link_ok by done. cbv beta iota. rewrite add_link_ok; [done|done|].
    change (next (list_del (futex_node q) (links s)) wake_queue <> NULL).
    assert (agree_at (links s) (list_del (futex_node q) (links s)) wake_queue) as [-> _]; [|done].
    eapply list_del_frame; [exact Hlist|]. nodup_simpl. set_solver.
  - done.
  - by rewrite fmap_app.
  - exact HW.
  - eapply NoDup_perm; [|exact tq_nodup0]. rewrite !fmap_app, !fmap_cons. solve_Permutation.
  - intros x Hx. apply tq_slots0. set_solver.
  - done.
  - split; [|done]. intros z Hz. apply Hframe. rewrite !fmap_app, fmap_cons in Hz. set_solver.
Qed.

(** The first loop, at a queue whose entries before [rest] have been passed. *)
Lemma wake_loop_spec fuel key nr bitset head kept rest W ret s :
  (length rest < fuel)%nat -> two_queues head (kept ++ rest) W s ->
  let q := from_option futex_node head (list.head rest) in
  let p := pick (wakes s key bitset) nr ret rest in
  exists s', wake_loop fuel key nr bitset head q (next (links s) q) ret s =
      Ret (s', ret + Z.of_nat (length p.1)) /\
    two_queues head (kept ++ p.2) (rev p.1 ++ W) s' /\ calls s' = calls s /\
    untouched (head :: wake_queue :: nodes ((kept ++ rest) ++ W)) s s'.
Proof.
  revert kept rest W ret s. induction fuel as [|fuel IH]; intros kept rest W ret s Hf H2; [lia|].
  cbv zeta. destruct rest as [|x rest]; cbn [from_option list.head pick].
  { exists s. cbn [wake_loop]. rewrite Z.eqb_refl. cbn. rewrite Z.add_0_r. split; [done|]. split; [done|]. by split. }
  assert (futex_node x <> head) as Hxh.
  { destruct H2. intros He. nodup_simpl. set_solver. }
  assert (in_table x = true) as Hx by (apply H2; set_solver).
  assert (next (links s) (futex_node x) = from_option futex_node head (list.head rest)) as Hnext.
  { destruct H2 as [_ [Hs _] _ _ _]. rewrite fmap_app, fmap_cons, seg_app in Hs.
    rewrite (seg_first _ _ _ _ (proj2 Hs)). by destruct rest. }
  assert (forall l W' s', two_queues head (kept ++ l ++ rest) W' s' ->
    next_of (from_option futex_node head (list.head rest)) s' =
    Ret (s', next (links s') (from_option futex_node head (list.head rest)))) as Hstep.
  { intros l W' s' H'. apply next_of_ok. destruct rest as [|y rest]; cbn.
    - destruct H'. unfold NULL. lia.
    - apply (nodes_pos [y]); [|by left]. intros z ->%list_elem_of_singleton.
      apply (tq_pos _ _ _ _ _ H'). set_solver. }
  cbn [wake_loop]. rewrite (proj2 (Z.eqb_neq _ _) Hxh), Hnext.
  unfold mbind at 1, stm_mbind at 1, proc, gets. rewrite futex_owner_node, Hx.
  fold (wakes s key bitset x). cbn in Hf. destruct (wakes s key bitset x) eqn:Hw.
  - destruct (take_out _ _ _ _ _ _ H2) as (s1 & Hmove & H21 & Hc1 & Hu1).
    unfold mbind, stm_mbind in Hmove |- *.
    destruct (del_link (futex_node x) s) as [[s0 []]|]; [|done]. rewrite Hmove. cbv zeta.
    assert (wakes s1 key bitset = wakes s key bitset) as Hw1 by (unfold wakes; by rewrite (proj1 (proj2 Hu1))).
    destruct (nr <=? ret + 1).
    + exists s1. cbn. split; [done|]. done.
    + rewrite (Hstep [] (x :: W) s1) by done.
      destruct (IH kept rest (x :: W) (ret + 1) s1 ltac:(lia) H21) as (s2 & Hrun & H22 & Hc2 & Hu2).
      rewrite Hw1 in *. exists s2. rewrite Hrun. split; [do 2 f_equal; cbn; lia|].
      split; [|split; [congruence|]].
      * cbn [fst snd rev]. by rewrite <- app_assoc.
      * destruct Hu1 as (Hz1 & Ht1 & Hp1), Hu2 as (Hz2 & Ht2 & Hp2). split; [|split; congruence].
        intros z Hz. destruct (Hz1 z Hz) as [Hn1' Hp1']. destruct (Hz2 z) as [Hn2' Hp2'].
        { revert Hz. rewrite !fmap_app, !fmap_cons. set_solver. }
        split; congruence.
  - unfold mbind, stm_mbind. rewrite (Hstep [x] W s) by done.
    destruct (IH (kept ++ [x]) rest W ret s ltac:(lia)) as (s2 & Hrun & H22 & Hc2 & Hu2).
    { by rewrite <- app_assoc. }
    rewrite <- !app_assoc in *. exists s2. rewrite Hrun. done.
Qed.

(** The second loop answers them in order. *)
Lemma answer_loop_spec fuel W s :
  (length W < fuel)%nat -> is_list (links s) wake_queue (nodes W) ->
  (forall q, q ∈ W -> in_table q = true /\ fe_pmp (fentry (pmproc_table s q)) = q) ->
  let q := from_option futex_node wake_queue (list.head W) in
  exists s', answer_loop fuel q (next (links s) q) s = Ret (s', tt) /\
    calls s' = rev ((fun q => ReplyWake (endpoint (pmproc_table s q)) 0) <$> W) ++ calls s /\
    untouched (wake_queue :: nodes W) s s'.
Proof.
  revert W s. induction fuel as [|fuel IH]; intros W s Hf Hl HW; [lia|]. cbv zeta.
  destruct W as [|x W]; cbn [from_option list.head].
  { exists s. cbn [answer_loop]. rewrite Z.eqb_refl. split; [done|]. split; [done|]. by split. }
  destruct (HW x ltac:(by left)) as [Hx Hpx].
  assert (forall q, q ∈ x :: W -> 0 <= q) as Hpos.
  { intros q Hq. apply HW in Hq as [Hq _]. apply in_table_spec in Hq. lia. }
  rewrite fmap_cons in Hl. pose proof Hl as Hl'.
  destruct (list_del_spec _ _ [] _ _ Hl) as [Hd _]. cbn [app] in Hd.
  destruct (is_list_links (links s) wake_queue (x :: W) (futex_node x)) as [Hn Hp]; [done|done|done|set_solver|].
  destruct Hl' as [Hs Hnd]. pose proof (seg_first _ _ _ _ (proj2 (proj2 Hs))) as Hnext.
  assert (futex_node x <> wake_queue) as Hxw by (apply NoDup_cons in Hnd as [Hnd _]; set_solver).
  set (s1 := log (ReplyWake (endpoint (pmproc_table s x)) 0) s <| links ::= list_del (futex_node x) |>).
  assert (default wake_queue (list.head (nodes W)) = from_option futex_node wake_queue (list.head W)) as Heq
    by (by destruct W).
  cbn [answer_loop]. rewrite (proj2 (Z.eqb_neq _ _) Hxw), Hnext, Heq.
  unfold wakeup_proc, mbind, stm_mbind, proc, gets, tell, modify. rewrite futex_owner_node, Hx, Hpx, Hx.
  cbv beta iota. rewrite del_link_ok by done. rewrite next_of_ok.
  2: { destruct W as [|y W]; cbn; [done|]. apply (nodes_pos [y]); [set_solver|by left]. }
  cbn in Hf. destruct (IH W s1 ltac:(lia) Hd) as (s' & Hrun & Hc & Hu).
  { intros q Hq. apply HW. by right. }
  exists s'. split; [exact Hrun|]. split.
  - rewrite Hc. cbn. by rewrite <- app_assoc.
  - destruct Hu as (Hz & Ht & Hpu). split; [|by rewrite Ht, Hpu]. intros z Hzn.
    destruct (Hz z) as [H1 H2]; [set_solver|].
    destruct (list_del_frame (links s) wake_queue [] (futex_node x) (nodes W) z Hl Hzn) as [H3 H4].
    split; etransitivity; [exact H1|exact H3|exact H2|exact H4].
Qed.

(** ** Waking *)

Lemma pick_perm m nr ret l : (pick m nr ret l).1 ++ (pick m nr ret l).2 ≡ₚ l.
Proof.
  revert ret. induction l as [|q l IH]; intros ret; [done|]. cbn [pick].
  destruct (m q); [destruct (nr <=? ret + 1)|]; cbn; [done|by rewrite IH|].
  by rewrite <- Permutation_middle, IH.
Qed.

Lemma queue_length B s i : futex_ok B s -> 0 <= i < QUEUE_HASH_MASK -> (length (B i) < QUEUE_FUEL)%nat.
Proof.
  intros [Hl He] Hi. destruct (Hl i Hi) as [_ Hnd]. apply NoDup_cons in Hnd as [_ Hnd].
  apply NoDup_fmap_1 in Hnd.
  pose proof (NoDup_bounded_length (B i) 0 NR_PROCS Hnd) as Hlen. unfold QUEUE_FUEL.
  specialize (Hlen ltac:(intros q Hq; by apply in_table_spec, (He i q))). rewrite Z.sub_0_r in Hlen. lia.
Qed.

(** The addresses of queue [i], of the list of those to wake, and of queue [j]. *)
Lemma queues_apart B s i j z :
  futex_ok B s -> 0 <= i < QUEUE_HASH_MASK -> 0 <= j < QUEUE_HASH_MASK -> i <> j ->
  z ∈ futex_queue_head j :: nodes (B j) -> z ∉ futex_queue_head i :: wake_queue :: nodes (B i).
Proof.
  intros Hok Hi Hj Hij Hz Hz'. change QUEUE_HASH_MASK with 127 in Hi, Hj.
  assert (forall k q, 0 <= k < 127 -> q ∈ B k -> 0 <= q) as Hpos.
  { intros k q Hk Hq. apply (fx_entry _ _ Hok) in Hq as [Hq _]; [|done]. apply in_table_spec in Hq. lia. }
  rewrite !elem_of_cons, !list_elem_of_fmap in *.
  destruct Hz as [->|(q & -> & Hq)], Hz' as [He|[He|(q' & He & Hq')]];
    unfold futex_queue_head, futex_node, wake_queue in *; try lia.
  - apply Hpos in Hq'; lia.
  - apply Hpos in Hq; lia.
  - apply Hpos in Hq; lia.
  - replace q' with q in * by lia. apply Hij.
    destruct (fx_entry _ _ Hok i q Hi Hq') as (_ & _ & <-).
    by destruct (fx_entry _ _ Hok j q Hj Hq) as (_ & _ & <-).
Qed.

Lemma queue_node_bound B s i q :
  futex_ok B s -> 0 <= i < QUEUE_HASH_MASK -> q ∈ B i -> 1000 <= futex_node q.
Proof.
  intros Hok Hi Hq. apply (fx_entry _ _ Hok) in Hq as [Hq _]; [|done].
  apply in_table_spec in Hq. unfold futex_node. lia.
Qed.

(** The state in which [futex_wake] starts its first loop. *)
Lemma queues_start B s i :
  futex_ok B s -> 0 <= i < QUEUE_HASH_MASK ->
  two_queues (futex_queue_head i) (B i) [] (s <| links ::= INIT_LIST_HEAD wake_queue |>) /\
  untouched [wake_queue] s (s <| links ::= INIT_LIST_HEAD wake_queue |>).
Proof.
  intros Hok Hi. set (s0 := s <| links ::= INIT_LIST_HEAD wake_queue |>).
  assert (0 < futex_queue_head i < wake_queue) as Hh
    by (change QUEUE_HASH_MASK with 127 in Hi; unfold futex_queue_head, wake_queue; lia).
  assert (untouched [wake_queue] s s0) as Hu.
  { split; [|done]. intros z Hz. assert (wake_queue <> z) by set_solver.
    unfold s0, agree_at, INIT_LIST_HEAD. cbn. by rewrite !fn_lookup_insert_ne. }
  pose proof (fx_list _ _ Hok i Hi) as Hl. destruct Hl as [Hs Hnd].
  assert (wake_queue ∉ futex_queue_head i :: nodes (B i)) as Hw.
  { intros [Hz|Hz]%elem_of_cons; [lia|]. apply list_elem_of_fmap in Hz as (q & Hz & Hq).
    apply (queue_node_bound B s i) in Hq; [|done..]. unfold wake_queue in *. lia. }
  split; [|done]. split.
  - lia.
  - eapply is_list_frame; [|by split]. intros z Hz. apply Hu. set_solver.
  - apply INIT_LIST_HEAD_spec.
  - rewrite app_nil_r. apply NoDup_cons in Hnd as [Hn Hnd]. apply NoDup_cons. split; [set_solver|].
    apply NoDup_cons. split; [set_solver|done].
  - rewrite app_nil_r. intros q Hq. by apply (fx_entry _ _ Hok i q).
Qed.

Lemma first_node head l (h : heap) : is_list h head (nodes l) -> next h head = from_option futex_node head (list.head l).
Proof. intros [Hs _]. rewrite (seg_first _ _ _ _ Hs). by destruct l. Qed.

Lemma untouched_trans l1 l2 s1 s2 s3 :
  untouched l1 s1 s2 -> untouched l2 s2 s3 -> untouched (l1 ++ l2) s1 s3.
Proof.
  intros (A1 & T1 & P1) (A2 & T2 & P2). split; [|split; congruence].
  intros z [Hz1 Hz2]%not_elem_of_app. destruct (A1 z Hz1), (A2 z Hz2). split; congruence.
Qed.

(** Both loops together. *)
Lemma wake_run B key nr bitset s :
  let i := hash_index key in
  let p := pick (wakes s key bitset) nr 0 (B i) in
  let list := futex_hash key in
  futex_ok B s -> 0 <= i < QUEUE_HASH_MASK ->
  exists s', (_ ← upd_links (INIT_LIST_HEAD wake_queue);
              q ← next_of list; tmp ← next_of q;
              ret ← wake_loop QUEUE_FUEL key nr bitset list q tmp 0;
              q ← next_of wake_queue; tmp ← next_of q;
              _ ← answer_loop QUEUE_FUEL q tmp; mret ret) s = Ret (s', Z.of_nat (length p.1)) /\
    is_list (links s') list (nodes p.2) /\
    untouched (list :: wake_queue :: nodes (B i)) s s' /\
    calls s' = ((fun q => ReplyWake (endpoint (pmproc_table s q)) 0) <$> p.1) ++ calls s.
Proof.
  intros i p list Hok Hi. pose proof (queue_length B s i Hok Hi) as Hfuel.
  destruct (queues_start B s i Hok Hi) as [H0 Hu0]. set (s0 := s <| links ::= _ |>) in *.
  destruct (wake_loop_spec QUEUE_FUEL key nr bitset list [] (B i) [] 0 s0 Hfuel H0) as (s1 & Hrun & H1 & Hc1 & Hu1).
  change (wakes s0 key bitset) with (wakes s key bitset) in *. fold p in Hrun, H1. cbn [app] in *.
  rewrite app_nil_r in *.
  assert (p.1 ++ p.2 ≡ₚ B i) as Hperm by apply pick_perm.
  assert (forall q, q ∈ rev p.1 -> q ∈ B i) as Hin.
  { intros q Hq. rewrite <- Hperm. apply elem_of_app. left. by apply list_elem_of_In, in_rev, list_elem_of_In. }
  destruct (answer_loop_spec QUEUE_FUEL (rev p.1) s1) as (s2 & Hans & Hc2 & Hu2).
  { rewrite length_rev. apply Permutation_length in Hperm. rewrite length_app in Hperm. lia. }
  { apply H1. }
  { intros q Hq. rewrite (proj1 (proj2 Hu1)). by destruct (fx_entry _ _ Hok i q Hi (Hin q Hq)) as (? & ? & _). }
  assert (0 < list) as Hlist by apply H0.
  assert (forall l a, a <> NULL -> (forall q, q ∈ l -> in_table q = true) ->
    from_option futex_node a (list.head l) <> NULL) as Hfirst.
  { intros [|q l] a Ha Hl; [done|]. cbn. specialize (Hl q ltac:(by left)). apply in_table_spec in Hl.
    unfold futex_node, NULL. lia. }
  exists s2. split; [|split; [|split]].
  - unfold mbind, stm_mbind, upd_links, modify. fold s0.
    rewrite next_of_ok, (first_node list (B i)) by (apply H0 || unfold NULL; lia).
    rewrite next_of_ok, Hrun.
    2: { apply (Hfirst (B i) list); [unfold NULL; lia|]. intros q Hq. by apply (fx_entry _ _ Hok i q). }
    cbv beta iota.
    rewrite next_of_ok, (first_node wake_queue (rev p.1)) by (apply H1 || done).
    rewrite next_of_ok, Hans; [done|]. apply (Hfirst (rev p.1) wake_queue); [done|].
    intros q Hq. apply (tq_slots _ _ _ _ H1), elem_of_app. by right.
  - eapply is_list_frame; [|apply H1]. intros z Hz. apply Hu2. destruct H1. revert Hz tq_nodup0.
    rewrite fmap_app. intros Hz Hnd. rewrite !NoDup_cons, NoDup_app in Hnd.
    clear -Hz Hnd. set_solver.
  - pose proof (untouched_trans _ _ _ _ _ Hu0 (untouched_trans _ _ _ _ _ Hu1 Hu2)) as Hu.
    destruct Hu as (Ha & Ht). split; [|done]. intros z Hz. apply Ha.
    assert (forall x, x ∈ nodes (rev p.1) -> x ∈ nodes (B i)) as Hsub.
    { intros x (q & -> & Hq)%list_elem_of_fmap. apply list_elem_of_fmap. eauto. }
    clear -Hz Hsub. set_solver.
  - rewrite Hc2, Hc1, rev_fmap, rev_involutive. by rewrite (proj1 (proj2 Hu1)).
Qed.

(** ** The claim *)

Definition futex_key_of (s : pmstate) (pmp uaddr : Z) : futex_key :=
  mk_key (uaddr - uaddr mod ARCH_PG_SIZE) (group_leader (pmproc_table s pmp)) (uaddr mod ARCH_PG_SIZE).

(** A queue changes, the others stay. *)
Lemma futex_ok_change B s s' i l :
  futex_ok B s -> 0 <= i < QUEUE_HASH_MASK -> is_list (links s') (futex_queue_head i) (nodes l) ->
  (forall z, z ∉ futex_queue_head i :: wake_queue :: nodes (B i) ++ nodes l -> agree_at (links s) (links s') z) ->
  (forall j q, 0 <= j < QUEUE_HASH_MASK -> j <> i -> q ∈ B j -> q ∉ l /\
     fentry (pmproc_table s' q) = fentry (pmproc_table s q)) ->
  (forall q, q ∈ l -> in_table q = true /\ fe_pmp (fentry (pmproc_table s' q)) = q /\
     hash_index (fe_key (fentry (pmproc_table s' q))) = i) ->
  futex_ok (<[i := l]> B) s'.
Proof.
  intros Hok Hi Hl Hag Hoth Hnew. split.
  - intros j Hj. destruct (decide (i = j)) as [->|Hij]; [by rewrite fn_lookup_insert|].
    rewrite fn_lookup_insert_ne by done. eapply is_list_frame; [|by apply (fx_list _ _ Hok)].
    intros z Hz. apply Hag. pose proof (queues_apart B s i j z Hok Hi Hj Hij Hz) as Hap.
    assert (z ∉ nodes l) as Hzl.
    { intros (q & -> & Hq)%list_elem_of_fmap. apply elem_of_cons in Hz as [Hz|Hz].
      - apply Hnew in Hq as [Hq _]. apply in_table_spec in Hq.
        change QUEUE_HASH_MASK with 127 in Hj. unfold futex_node, futex_queue_head in Hz. lia.
      - apply list_elem_of_fmap in Hz as (q' & He & Hq'). apply futex_node_inj in He as ->.
        by destruct (Hoth j q' Hj ltac:(done) Hq') as [Hnl _]. }
    clear -Hap Hzl. set_solver.
  - intros j q Hj. destruct (decide (i = j)) as [->|Hij]; [rewrite fn_lookup_insert; apply Hnew|].
    rewrite fn_lookup_insert_ne by done. intros Hq. destruct (Hoth j q Hj ltac:(done) Hq) as [_ ->].
    by apply (fx_entry _ _ Hok).
Qed.

Lemma futex_wake_spec B pmp uaddr nr bitset s :
  let key := futex_key_of s pmp uaddr in
  let i := hash_index key in
  let p := pick (wakes s key bitset) nr 0 (B i) in
  futex_ok B s -> in_table pmp = true -> bitset <> 0 -> 0 <= i < QUEUE_HASH_MASK ->
  exists s', futex_wake pmp uaddr nr bitset s = Ret (s', Z.of_nat (length p.1)) /\
    futex_ok (<[i := p.2]> B) s' /\ pmproc_table s' = pmproc_table s /\
    calls s' = ((fun q => ReplyWake (endpoint (pmproc_table s q)) 0) <$> p.1) ++ calls s.
Proof.
  intros key i p Hok Hpmp Hb Hi. destruct (wake_run B key nr bitset s Hok Hi) as (s' & Hrun & Hl & Hu & Hc).
  fold i p in Hrun, Hl, Hu, Hc. assert (p.1 ++ p.2 ≡ₚ B i) as Hperm by apply pick_perm.
  assert (forall q, q ∈ p.2 -> q ∈ B i) as Hin by (intros q Hq; rewrite <- Hperm; apply elem_of_app; by right).
  destruct Hu as (Hag & Ht & _). exists s'. split; [|split; [|done]].
  - rewrite <- Hrun. unfold futex_wake. unfold mbind at 1 3, stm_mbind at 1 3, upd_links at 1 2, modify.
    rewrite (proj2 (Z.eqb_neq _ _) Hb). unfold mbind at 1, stm_mbind at 1, proc, gets. by rewrite Hpmp.
  - apply (futex_ok_change B s); [done|done|exact Hl|..].
    + intros z Hz. apply Hag. clear -Hz. set_solver.
    + intros j q Hj Hij Hq. rewrite Ht. split; [|done]. intros Hq2. apply Hij.
      destruct (fx_entry _ _ Hok j q Hj Hq) as (_ & _ & <-).
      by destruct (fx_entry _ _ Hok i q Hi (Hin q Hq2)) as (_ & _ & ->).
    + intros q Hq. rewrite Ht. by apply (fx_entry _ _ Hok i q Hi), Hin.
Qed.

Lemma hash_index_bound key : 0 <= hash_index key < QUEUE_HASH_SIZE.
Proof.
  unfold hash_index. change QUEUE_HASH_MASK with (Z.ones 7). change QUEUE_HASH_SIZE with (2 ^ 7).
  rewrite Z.land_ones by lia. apply Z.mod_pos_bound. lia.
Qed.

(** The queue is given by the address alone. *)
Lemma hash_index_addr s pmp uaddr : hash_index (futex_key_of s pmp uaddr) = uaddr mod QUEUE_HASH_SIZE.
Proof.
  unfold hash_index, futex_key_of, wrapu. cbn [key_word key_offset].
  change QUEUE_HASH_MASK with (Z.ones 7). change QUEUE_HASH_SIZE with (2 ^ 7).
  rewrite Z.land_ones, Z.sub_add by lia. change (2 ^ 32) with (2 ^ 7 * 2 ^ 25).
  rewrite Z.rem_mul_r by lia. rewrite Z.mul_comm, Z.mod_add by lia. by rewrite Z.mod_mod by lia.
Qed.

(** Joining a queue. *)
Lemma futex_queue_spec B pmp i s :
  futex_ok B s -> in_table pmp = true -> 0 <= i < QUEUE_HASH_MASK ->
  (forall j, 0 <= j < QUEUE_HASH_MASK -> pmp ∉ B j) ->
  hash_index (fe_key (fentry (pmproc_table s pmp))) = i ->
  exists s', futex_queue pmp (futex_queue_head i) s = Ret (s', tt) /\
    futex_ok (<[i := pmp :: B i]> B) s' /\ calls s' = calls s /\
    pmproc_table s' = alter (fun r => r <| fentry ::= fun e => e <| fe_pmp := pmp |> |>) pmp (pmproc_table s).
Proof.
  intros Hok Hin Hi Hno Hkey. set (s0 := s <| links ::= INIT_LIST_HEAD (futex_node pmp) |>).
  assert (0 < futex_queue_head i < futex_node pmp) as Hh.
  { change QUEUE_HASH_MASK with 127 in Hi. apply in_table_spec in Hin. unfold futex_queue_head, futex_node. lia. }
  assert (futex_node pmp ∉ nodes (B i)) as Hn.
  { intros (q & He & Hq)%list_elem_of_fmap. apply futex_node_inj in He as <-. by apply (Hno i). }
  assert (forall z, z <> futex_node pmp -> agree_at (links s) (links s0) z) as Hag.
  { intros z Hz. unfold s0, agree_at, INIT_LIST_HEAD. cbn. by rewrite !fn_lookup_insert_ne. }
  assert (is_list (links s0) (futex_queue_head i) (nodes (B i))) as Hl.
  { eapply is_list_frame; [|by apply (fx_list _ _ Hok)]. intros z Hz. apply Hag. intros ->.
    apply elem_of_cons in Hz as [Hz|Hz]; [lia|done]. }
  assert (is_list (list_add (futex_node pmp) (futex_queue_head i) (links s0)) (futex_queue_head i)
    (nodes (pmp :: B i))) as Hl' by (apply list_add_spec; [done|apply not_elem_of_cons; split; [lia|done]]).
  destruct (is_list_links (links s0) (futex_queue_head i) (B i) (futex_queue_head i)) as [Hnx _]; [done|lia| |by left|].
  { intros q Hq. apply (fx_entry _ _ Hok i q Hi), proj1, in_table_spec in Hq. lia. }
  eexists. split.
  { unfold futex_queue, mbind, stm_mbind, upd_links at 1, modify. fold s0.
    rewrite add_link_ok by (done || unfold NULL; lia). unfold upd. rewrite Hin. reflexivity. }
  split; [|done]. apply (futex_ok_change B s); [done|done|exact Hl'|..].
  - intros z Hz. destruct (Hag z ltac:(clear -Hz; set_solver)) as [A1 A2].
    
    destruct (list_add_frame _ _ _ (futex_node pmp) z Hl ltac:(clear -Hz; set_solver)) as [A3 A4]. split; [etrans; [exact A3|exact A1]|etrans; [exact A4|exact A2]].
  - intros j q Hj Hij Hq. assert (q <> pmp) as Hqp by (intros ->; by apply (Hno j)). split.
    + apply not_elem_of_cons. split; [done|]. intros Hq2. apply Hij.
      destruct (fx_entry _ _ Hok j q Hj Hq) as (_ & _ & <-).
      by destruct (fx_entry _ _ Hok i q Hi Hq2) as (_ & _ & ->).
    + by rewrite upd_tab_ne.
  - intros q [->|Hq]%elem_of_cons; [by rewrite upd_tab_eq|].
    rewrite upd_tab_ne by (intros ->; by apply (Hno i)). by apply (fx_entry _ _ Hok i q Hi).
Qed.

Lemma futex_init_spec s :
  wp nofail futex_init (fun _ s' => futex_ok (fun _ => []) s' /\ pmproc_table s' = pmproc_table s /\
    procs_in_use s' = procs_in_use s /\ calls s' = calls s) s.
Proof.
  assert (forall l s0, (forall i, i ∈ l -> 0 <= i < QUEUE_HASH_MASK) ->
    wp nofail (each l (fun i => upd_links (INIT_LIST_HEAD (futex_queue_head i))))
      (fun _ s' => (forall i, i ∈ l -> is_list (links s') (futex_queue_head i) []) /\
         (forall z, z ∉ (futex_queue_head <$> l) -> agree_at (links s0) (links s') z) /\
         pmproc_table s' = pmproc_table s0 /\ procs_in_use s' = procs_in_use s0 /\ calls s' = calls s0) s0) as Hloop.
  { intros l. induction l as [|i l IH]; intros s0 Hl; cbn [each].
    { apply wp_ret. split; [by intros i ?%elem_of_nil|done]. }
    apply wp_bind, wp_modify. eapply wp_mono; [apply IH; intros j Hj; apply Hl; by right|].
    intros [] s' (Hi & Hag & Ht & Hp & Hc). split; [|split; [|done]].
    - intros j [->|Hj]%elem_of_cons; [|by apply Hi]. destruct (decide (i ∈ l)) as [Hil|Hil]; [by apply Hi|].
      eapply is_list_frame; [|apply INIT_LIST_HEAD_spec]. intros z ->%list_elem_of_singleton. apply Hag.
      intros (j & Hj & Hjl)%list_elem_of_fmap. apply Hil. unfold futex_queue_head in Hj.
      by replace i with j by lia.
    - intros z [Hz1 Hz2]%not_elem_of_cons. destruct (Hag z Hz2) as [A1 A2].
      split; (etrans; [exact A1 || exact A2|]); unfold INIT_LIST_HEAD; cbn; by rewrite fn_lookup_insert_ne. }
  unfold futex_init. eapply wp_mono; [apply Hloop; intros i Hi%elem_of_seqZ; lia|].
  intros [] s' (Hi & _ & Hrest). split; [|done]. split; [|by intros i q _ ?%elem_of_nil].
  intros i Hr. apply Hi, elem_of_seqZ. lia.
Qed.

(** What a request does to the queues: its return value, the queues after it, and
    the calls it makes, newest first. *)
Definition futex_spec (m : MESSAGE) (s : pmstate) (B : Z -> list Z) : Z * (Z -> list Z) * list call :=
  let op := m3i1 (m_u m) in
  let uaddr := m3p1 (m_u m) in
  let val := wrapu 32 (m3i2 (m_u m)) in
  let pmp := ENDPOINT_P (m_source m) in
  let key := futex_key_of s pmp uaddr in
  let i := hash_index key in
  if op =? FUTEX_WAIT then
    let c := DataIn (endpoint (pmproc_table s pmp)) uaddr 4 in
    if negb (w_ret (calls s) c =? 0) then (w_ret (calls s) c, B, [c])
    else if negb (default w_junk (head (w_words (calls s) c)) =? val) then (EAGAIN, B, [c])
    else (SUSPEND, <[i := pmp :: B i]> B, [c])
  else if op =? FUTEX_WAKE then
    let p := pick (wakes s key FUTEX_BITSET_MATCH_ANY) (wraps 32 val) 0 (B i) in
    (Z.of_nat (length p.1), <[i := p.2]> B, (fun q => ReplyWake (endpoint (pmproc_table s q)) 0) <$> p.1)
  else (ENOSYS, B, []).

(** Two tables with the same processes, futex entries apart. *)
Definition same_but_futex (s s' : pmstate) : Prop :=
  forall q, (pmproc_table s' q) <| fentry := fentry (pmproc_table s q) |> = pmproc_table s q.

Lemma futex_ok_elsewhere B s s' pmp :
  futex_ok B s -> links s' = links s -> (forall j, 0 <= j < QUEUE_HASH_MASK -> pmp ∉ B j) ->
  (forall q, q <> pmp -> pmproc_table s' q = pmproc_table s q) -> futex_ok B s'.
Proof.
  intros Hok Hl Hno Ht. split.
  - intros i Hi. rewrite Hl. by apply (fx_list _ _ Hok).
  - intros i q Hi Hq. rewrite Ht by (intros ->; by apply (Hno i)). by apply (fx_entry _ _ Hok).
Qed.

Lemma futex_wait_spec B pmp uaddr val bitset s :
  let key := futex_key_of s pmp uaddr in
  let i := hash_index key in
  let c := DataIn (endpoint (pmproc_table s pmp)) uaddr 4 in
  futex_ok B s -> in_table pmp = true -> bitset <> 0 -> 0 <= i < QUEUE_HASH_MASK ->
  (forall j, 0 <= j < QUEUE_HASH_MASK -> pmp ∉ B j) ->
  wp nofail (futex_wait pmp uaddr val bitset) (fun ret s' =>
    (if negb (w_ret (calls s) c =? 0) then ret = w_ret (calls s) c /\ futex_ok B s'
     else if negb (default w_junk (head (w_words (calls s) c)) =? val) then ret = EAGAIN /\ futex_ok B s'
     else ret = SUSPEND /\ futex_ok (<[i := pmp :: B i]> B) s') /\
    same_but_futex s s' /\ calls s' = c :: calls s) s.
Proof.
  intros key i c Hok Hin Hb Hi Hno. unfold futex_wait. rewrite (proj2 (Z.eqb_neq _ _) Hb).
  apply wp_bind, wp_upd; [intros _|congruence].
  apply wp_bind. unfold futex_wait_setup, futex_get_key. cbn [negb].
  apply wp_bind, wp_proc; [intros _|congruence]. rewrite upd_tab_eq.
  apply wp_bind, wp_upd; [intros _|congruence]. apply wp_bind, wp_query.
  change (calls (upd_tab _ _ (upd_tab _ _ s))) with (calls s).
  change (group_leader (_ <| fentry ::= _ |>)) with (group_leader (pmproc_table s pmp)).
  change (endpoint (_ <| fentry ::= _ |>)) with (endpoint (pmproc_table s pmp)).
  change (mk_key _ _ _) with key. fold c. set (s1 := log c _).
  assert (forall q, pmproc_table s1 q = if decide (pmp = q) then (pmproc_table s q) <| fentry ::=
    fun e => e <| fe_bitset := bitset |> <| fe_key := key |> |> else pmproc_table s q) as Hq.
  { intros q. unfold s1. rewrite table_log, !upd_tab_at. by destruct (decide (pmp = q)). }
  assert (futex_ok B s1) as Hok1.
  { apply (futex_ok_elsewhere B s s1 pmp); [done|done|done|]. intros q Hne. rewrite Hq. by rewrite decide_False. }
  assert (same_but_futex s s1) as Hsame.
  { intros q. rewrite Hq. destruct (decide (pmp = q)); by destruct (pmproc_table s q). }
  cbv zeta beta iota. destruct (negb (w_ret (calls s) c =? 0)); [by apply wp_ret|].
  destruct (negb (_ =? val)); [by apply wp_ret|]. apply wp_ret, wp_bind.
  destruct (futex_queue_spec B pmp i s1) as (s2 & Hrun & Hok2 & Hc2 & Ht2); [done|done|done|done| |].
  { rewrite Hq, decide_True by done. done. }
  unfold wp. change (futex_hash key) with (futex_queue_head i). rewrite Hrun. split; [done|]. split; [|exact Hc2].
  intros q. rewrite Ht2. destruct (decide (pmp = q)) as [<-|Hne].
  - rewrite fn_lookup_alter. etrans; [|apply (Hsame pmp)]. by destruct (pmproc_table s1 pmp).
  - rewrite fn_lookup_alter_ne by done. apply Hsame.
Qed.

(** C24: futexes implement queues of waiting processes. For every table whose
    links hold the sequences [B], a request (at an address that is not 127 modulo
    128, hence at every aligned address) by a process that does not wait is served without a failure (no
    null link is followed, both loops over the lists end), its return value and
    the queues after it are the ones [futex_spec] gives, the processes woken
    are answered in that order, and nothing of the process table changes but
    futex entries. *)
Theorem futex_refines_queues B m s :
  let pmp := ENDPOINT_P (m_source m) in
  let r := futex_spec m s B in
  futex_ok B s -> in_table pmp = true ->
  m3p1 (m_u m) mod QUEUE_HASH_SIZE <> QUEUE_HASH_MASK ->
  (forall j, 0 <= j < QUEUE_HASH_MASK -> pmp ∉ B j) ->
  exists s', do_futex m s = Ret (s', r.1.1) /\ futex_ok r.1.2 s' /\
    calls s' = r.2 ++ calls s /\ same_but_futex s s'.
Proof.
  intros pmp r Hok Hin Hi Hno. unfold r, futex_spec, do_futex, pm_endpt_proc, pm_verify_endpt. cbn [Z.eqb].
  fold pmp. set (i := hash_index _) in *.
  assert (0 <= i < QUEUE_HASH_MASK) as Hi'.
  { pose proof (hash_index_bound (futex_key_of s pmp (m3p1 (m_u m)))) as Hb. fold i in Hb.
    unfold i in Hb |- *. rewrite hash_index_addr in Hb |- *.
    change QUEUE_HASH_SIZE with 128 in *. change QUEUE_HASH_MASK with 127 in *. lia. }
  destruct (m3i1 (m_u m) =? FUTEX_WAIT).
  - pose proof (futex_wait_spec B pmp (m3p1 (m_u m)) (wrapu 32 (m3i2 (m_u m))) FUTEX_BITSET_MATCH_ANY s
      Hok Hin ltac:(done) Hi' Hno) as Hw.
    apply wp_returns in Hw as (s' & ret & Hrun & Hw & Hsame & Hc). rewrite Hrun. exists s'.
    cbv zeta in Hw. destruct (negb _) in Hw |- *; [|destruct (negb _) in Hw |- *];
      by destruct Hw as [-> Hok'].
  - destruct (m3i1 (m_u m) =? FUTEX_WAKE).
    + destruct (futex_wake_spec B pmp (m3p1 (m_u m)) (wraps 32 (wrapu 32 (m3i2 (m_u m)))) FUTEX_BITSET_MATCH_ANY s
        Hok Hin ltac:(done) Hi') as (s' & Hrun & Hok' & Ht & Hc).
      exists s'. split; [exact Hrun|]. split; [exact Hok'|]. split; [exact Hc|].
      intros q. rewrite Ht. by destruct (pmproc_table s q).
    + exists s. split; [done|]. split; [done|]. split; [done|]. intros q. by destruct (pmproc_table s q).
Qed.

End loops.

(** ** An example *)

Lemma futex_refines_queues_witness :
  let _ := example_world in
  let m := example_msg 20 FUTEX_WAKE 1 in
  exists s s', do_futex m s = Ret (s', 0) /\ futex_ok (fun _ => []) s /\ calls s' = [].
Proof.
  intros w m. destruct (wp_returns _ _ _ (futex_init_spec example_state)) as (s & [] & _ & Hok & Ht & _ & Hc).
  destruct (futex_refines_queues (fun _ => []) m s Hok eq_refl) as (s' & Hrun & _ & Hc' & _).
  - done.
  - by intros j _ ?%elem_of_nil.
  - exists s, s'. split; [done|]. split; [done|]. rewrite Hc', Hc. done.
Defined.
