(* ===== verification/WaitQueue.v ===== *)
(** * Wait queues of the file server

    servers/vfs/wait_queue.h and servers/vfs/wait_queue.c. A queue is a linked list of entries that live on the
    stacks of the workers that wait; here it is the sequence of the entries, and
    an entry is named by the number of its worker. [e_private] says whether the
    pointer to the worker is still set: waking a worker clears it. Only entries
    with [default_wake_function] are modelled; those of polls and of event polls
    run other functions.

    Workers are coroutines: they run until they sleep ([worker_wait]), and a
    sleeping worker runs again after [worker_wake]. *)

From S2P Require Import Prelude.

(** Flags of open files and poll events, shared by the files that wait. *)
Definition O_NONBLOCK : Z := 16384.
Definition O_CLOEXEC : Z := 262144.
Definition O_ACCMODE : Z := 3.
Definition EPOLLIN : Z := 1.
Definition EPOLLOUT : Z := 4.
Definition EPOLLERR : Z := 8.
Definition EPOLLHUP : Z := 16.
Definition EPOLLRDNORM : Z := 64.
Definition EPOLLWRNORM : Z := 256.

Record wait_queue_entry := mk_entry { e_worker : Z; e_private : bool }.

(** The entry after the call, and whether its worker is woken. *)
Definition default_wake_function (e : wait_queue_entry) : wait_queue_entry * bool :=
  if e_private e then (mk_entry (e_worker e) false, true) else (e, false).

Definition init_waitqueue_head : list wait_queue_entry := [].

Definition waitqueue_active (wq : list wait_queue_entry) : bool :=
  match wq with [] => false | _ => true end.

(** [DECLARE_WAITQUEUE] and [waitqueue_add] *)
Definition waitqueue_add (worker : Z) (wq : list wait_queue_entry) : list wait_queue_entry :=
  mk_entry worker true :: wq.

Definition waitqueue_remove (worker : Z) (wq : list wait_queue_entry) : list wait_queue_entry :=
  filter (fun e => e_worker e <> worker) wq.

(** The queue after the call and the workers woken, in order. *)
Fixpoint waitqueue_wakeup_all (wq : list wait_queue_entry) : list wait_queue_entry * list Z :=
  match wq with
  | [] => ([], [])
  | e :: wq =>
      let '(e', woken) := default_wake_function e in
      let '(wq', l) := waitqueue_wakeup_all wq in
      (e' :: wq', if woken then e_worker e :: l else l)
  end.

(** ** Who is in a queue *)

(** The workers that a wake-up reaches, and all workers with an entry. *)
Definition sleepers (wq : list wait_queue_entry) : list Z :=
  e_worker <$> filter (fun e => e_private e = true) wq.
Definition members (wq : list wait_queue_entry) : list Z := e_worker <$> wq.

Lemma wakeup_all_spec wq :
  (waitqueue_wakeup_all wq).2 = sleepers wq /\
  sleepers (waitqueue_wakeup_all wq).1 = [] /\
  members (waitqueue_wakeup_all wq).1 = members wq.
Proof.
  unfold sleepers, members. induction wq as [|[w b] wq (IH1 & IH2 & IH3)]; [done|].
  cbn [waitqueue_wakeup_all]. unfold default_wake_function. cbn [e_private e_worker].
  destruct (waitqueue_wakeup_all wq) as [wq' l]. cbn [fst snd] in *.
  destruct b; cbn [fst snd].
  - rewrite filter_cons_True, filter_cons_False by done. cbn. by rewrite IH1, IH2, IH3.
  - rewrite !filter_cons_False by done. cbn. by rewrite IH1, IH2, IH3.
Qed.

Lemma sleepers_add w wq : sleepers (waitqueue_add w wq) = w :: sleepers wq.
Proof. done. Qed.

Lemma members_add w wq : members (waitqueue_add w wq) = w :: members wq.
Proof. done. Qed.

Lemma sleepers_cons e wq :
  sleepers (e :: wq) = if e_private e then e_worker e :: sleepers wq else sleepers wq.
Proof.
  unfold sleepers. rewrite filter_cons. destruct (e_private e); [by rewrite decide_True|by rewrite decide_False].
Qed.

Lemma sleepers_remove w wq : sleepers (waitqueue_remove w wq) = filter (fun x => x <> w) (sleepers wq).
Proof.
  unfold waitqueue_remove. induction wq as [|[v b] wq IH]; [done|].
  rewrite filter_cons, sleepers_cons. cbn [e_worker e_private]. destruct (decide (v <> w)) as [Hv|Hv].
  - rewrite sleepers_cons. cbn. destruct b; [by rewrite filter_cons_True, IH|done].
  - destruct b; [by rewrite filter_cons_False, IH|done].
Qed.

Lemma members_remove w wq : members (waitqueue_remove w wq) = filter (fun x => x <> w) (members wq).
Proof.
  unfold members, waitqueue_remove. induction wq as [|[v b] wq IH]; [done|].
  rewrite fmap_cons, !filter_cons. cbn [e_worker]. destruct (decide (v <> w)); [|done].
  by rewrite fmap_cons, IH.
Qed.

Lemma sleepers_members w wq : w ∈ sleepers wq -> w ∈ members wq.
Proof.
  unfold sleepers, members. intros (e & -> & He)%list_elem_of_fmap.
  apply list_elem_of_filter in He as [_ He]. by apply list_elem_of_fmap_2.
Qed.
