(* ===== verification/Pipe.v ===== *)
(** * Pipes of the file server

    servers/vfs/pipe.c. The buffer of a pipe is a function from positions to
    bytes; [i_size] is a member of the inode in the code. A call of [pipe_read]
    or [pipe_write] is a sequence of passes of its loop: a pass runs without
    interruption up to the next [pipe_wait] (the workers of the file server are
    coroutines), and other calls run between passes. [PIPE_BUF] is a constant of
    the C library. The theorems show that a pipe is a first-in first-out queue of
    bytes for any interleaving of readers and writers, and that a reader and a
    writer never sleep at the same time. *)

From S2P Require Import Prelude WaitQueue.

Definition R_BIT : Z := 4.
Definition W_BIT : Z := 2.
Definition O_RDONLY : Z := 0.
Definition O_WRONLY : Z := 1.

(** The limit on atomic writes, with the bound that it fits an int. *)
Class PipeLimit := { PIPE_BUF : Z; pipe_buf_range : 0 < PIPE_BUF < 2 ^ 31 }.

Record file_desc := mk_filp { fd_id : Z; fd_flags : Z; fd_mode : Z }.

Record pipe_inode_info := mk_pipe {
  data : Z -> Z;
  start : Z;
  i_size : Z;
  files : Z;
  readers : Z;
  writers : Z;
  rd_wait : list wait_queue_entry;
  wr_wait : list wait_queue_entry;
  i_private : bool
}.
#[export] Instance rebuild_pipe : Rebuild pipe_inode_info := fun p =>
  mk_pipe (data p) (start p) (i_size p) (files p) (readers p) (writers p) (rd_wait p) (wr_wait p) (i_private p).

(** A call of [pipe_write]: the bytes still to be written from [buf] on. *)
Record write_job := mk_job { buf : Z -> Z; count : Z; cum_io : Z }.

Section pipe.
Context `{!PipeLimit}.

Definition nonblock (filp : file_desc) : bool := has_flag (fd_flags filp) O_NONBLOCK.

(** [alloc_pipe_info]: none when malloc of the structure or of the buffer fails;
    [junk] is what the buffer holds. *)
Definition alloc_pipe_info (info buffer : bool) (junk : Z -> Z) : option pipe_inode_info :=
  if negb info then None
  else if negb buffer then None
  else Some (mk_pipe junk 0 0 0 0 0 init_waitqueue_head init_waitqueue_head false).

(** [get_pipe_inode]: [inode] says whether [new_inode] finds one. *)
Definition first_open (p : pipe_inode_info) : pipe_inode_info :=
  p <| files := 2 |> <| readers := 1 |> <| writers := 1 |> <| i_size := 0 |> <| i_private := true |>.
Definition get_pipe_inode (inode info buffer : bool) (junk : Z -> Z) : option pipe_inode_info :=
  if negb inode then None else first_open <$> alloc_pipe_info info buffer junk.

(** What [create_pipe] leaves: its return value, whether the mount is still locked,
    and the pipe with the files of its two ends. [locked] is what [lock_vmnt]
    returns, [get_fd] what the two calls of [get_fd] return and the numbers of the
    files they find. *)
Record new_pipe := mk_new_pipe {
  c_retval : Z;
  c_locked : bool;
  c_pipe : option (pipe_inode_info * file_desc * file_desc)
}.

Definition create_pipe (locked : Z) (inode info buffer : bool) (junk : Z -> Z) (get_fd0 get_fd1 : Z * Z) (flags : Z) :
    new_pipe :=
  if negb (locked =? 0) then mk_new_pipe locked false None
  else
    match get_pipe_inode inode info buffer junk with
    | None => mk_new_pipe ENOMEM true None
    | Some p =>
        if negb (fst get_fd0 =? 0) then mk_new_pipe (fst get_fd0) false None
        else if negb (fst get_fd1 =? 0) then mk_new_pipe (fst get_fd1) false None
        else
          let fl := Z.land flags (Z.lnot O_ACCMODE) in
          mk_new_pipe 0 false
            (Some (p, mk_filp (snd get_fd0) (Z.lor O_RDONLY fl) R_BIT, mk_filp (snd get_fd1) (Z.lor O_WRONLY fl) W_BIT))
    end.

Definition wake_readers (p : pipe_inode_info) : pipe_inode_info * list Z :=
  let '(wq, woken) := waitqueue_wakeup_all (rd_wait p) in (p <| rd_wait := wq |>, woken).
Definition wake_writers (p : pipe_inode_info) : pipe_inode_info * list Z :=
  let '(wq, woken) := waitqueue_wakeup_all (wr_wait p) in (p <| wr_wait := wq |>, woken).

(** A pass of the loop of [pipe_read]: the pipe, the workers woken, the bytes
    copied to the user, and the return value, if the call returns. [copied] is
    what [data_copy] answers. *)
Definition pipe_read (filp : file_desc) (count copied : Z) (p : pipe_inode_info) :
    pipe_inode_info * list Z * list Z * option Z :=
  if i_size p =? 0 then
    if negb (writers p =? 0) then
      let '(p, woken) := wake_writers p in
      if nonblock filp then (p, woken, [], Some (- EAGAIN)) else (p, woken, [], None)
    else (p, [], [], Some 0)
  else
    let size := if i_size p <? count then i_size p else count in
    if negb (copied =? 0) then (p, [], [], Some (- copied))
    else
      (p <| start ::= fun x => x + size |> <| i_size ::= fun x => x - size |>, [],
       (fun i => data p (start p + i)) <$> seqZ 0 size, Some size).

(** What the first part of a pass of [pipe_write] decides: to write [size] bytes,
    to return EAGAIN, or to wait; the boolean says whether readers are woken. *)
Inductive room := Fits (size : Z) (wake : bool) | Again | Full (wake : bool).

Definition find_room (filp : file_desc) (pos size : Z) : room :=
  let part (size : Z) (wake : bool) :=
    if PIPE_BUF <? size then
      let size := PIPE_BUF - pos in
      if negb (size =? 0) then Fits size true else Full wake
    else Full wake in
  if wrapu 64 (pos + size) <=? PIPE_BUF then Fits size false
  else if nonblock filp then
    if size <=? PIPE_BUF then Again
    else
      let size := PIPE_BUF - pos in
      if size =? 0 then Again else part size true
  else part size false.

(** The bytes that are in the pipe are moved to the start of the buffer. *)
Definition compact (p : pipe_inode_info) : res pipe_inode_info :=
  if 0 <? start p then
    if 0 <? i_size p then
      if PIPE_BUF <? i_size p then Crash Panic
      else
        Ret (p <| data := fun i => if (0 <=? i) && (i <? i_size p) then data p (start p + i) else data p i |>
               <| start := 0 |>)
    else Ret (p <| start := 0 |>)
  else Ret p.

(** A pass of the loop of [pipe_write]: its last component is the return value or
    the work that is left when the call waits. *)
Definition pipe_write (filp : file_desc) (copied : Z) (j : write_job) (p : pipe_inode_info) :
    res (pipe_inode_info * list Z * (Z + write_job)) :=
  if count j <=? 0 then Ret (p, [], inl (cum_io j))
  else
    let pos := i_size p in
    match find_room filp pos (count j) with
    | Again => Ret (p, [], inl (- EAGAIN))
    | Full wake =>
        let '(p, woken) := if wake then wake_readers p else (p, []) in
        Ret (p, woken, inr j)
    | Fits size wake =>
        let '(p, woken) := if wake then wake_readers p else (p, []) in
        let '(p, woken') := if pos =? 0 then wake_readers p else (p, []) in
        p ← compact p;
        if PIPE_BUF <? wrapu 64 (i_size p + size) then Crash Panic
        else if negb (copied =? 0) then Ret (p, woken ++ woken', inl (- copied))
        else
          let p' := p <| data := fun i => if (i_size p <=? i) && (i <? i_size p + size)
                                          then buf j (i - i_size p) else data p i |>
                      <| i_size ::= fun x => wrapu 64 (x + size) |> in
          let j := mk_job (fun i => buf j (size + i)) (count j - size) (cum_io j + size) in
          if (0 <? count j) && negb (nonblock filp) then Ret (p', woken ++ woken', inr j)
          else Ret (p', woken ++ woken', inl (cum_io j))
    end.

Definition pipe_poll (filp : file_desc) (p : pipe_inode_info) : Z :=
  let mask := 0 in
  let mask :=
    if has_flag (fd_mode filp) W_BIT then
      let mask := if i_size p <? PIPE_BUF then Z.lor mask (Z.lor EPOLLOUT EPOLLWRNORM) else mask in
      if readers p =? 0 then Z.lor mask EPOLLERR else mask
    else mask in
  if has_flag (fd_mode filp) R_BIT then
    let mask := if negb (i_size p =? 0) then Z.lor mask (Z.lor EPOLLIN EPOLLRDNORM) else mask in
    if writers p =? 0 then Z.lor mask EPOLLHUP else mask
  else mask.

Definition pipe_open (filp : file_desc) (p : pipe_inode_info) : res pipe_inode_info :=
  if negb (i_private p) then Crash NullDeref
  else
    let p := p <| files ::= Z.succ |> in
    let p := if has_flag (fd_mode filp) W_BIT then p <| writers ::= Z.succ |> else p in
    Ret (if has_flag (fd_mode filp) R_BIT then p <| readers ::= Z.succ |> else p).

Definition put_pipe_info (p : pipe_inode_info) : pipe_inode_info :=
  let p := p <| files ::= Z.pred |> in
  if files p =? 0 then p <| i_private := false |> else p.

Definition pipe_release (filp : file_desc) (p : pipe_inode_info) : pipe_inode_info * list Z :=
  let p := if has_flag (fd_mode filp) W_BIT then p <| writers ::= Z.pred |> else p in
  let p := if has_flag (fd_mode filp) R_BIT then p <| readers ::= Z.pred |> else p in
  let '(p, woken) :=
    if negb (Bool.eqb (readers p =? 0) (writers p =? 0)) then
      let '(p, w1) := if writers p =? 0 then wake_readers p else (p, []) in
      let '(p, w2) := if readers p =? 0 then wake_writers p else (p, []) in
      (p, w1 ++ w2)
    else (p, []) in
  (put_pipe_info p, woken).

(** ** Workers

    A worker is idle or in a call; [asleep] says that it sleeps in [pipe_wait]. *)

Inductive activity := Idle | Reading (filp : file_desc) (count : Z) | Writing (filp : file_desc) (j : write_job).
Record worker := mk_worker { act : activity; asleep : bool }.

(** The pipe, its open files, the workers, and the bytes that writes have accepted
    and reads have delivered so far. *)
Record pipesys := mk_pipesys {
  s_pipe : pipe_inode_info;
  s_files : list file_desc;
  s_worker : Z -> worker;
  accepted : list Z;
  delivered : list Z
}.

#[export] Instance rebuild_pipesys : Rebuild pipesys := fun s =>
  mk_pipesys (s_pipe s) (s_files s) (s_worker s) (accepted s) (delivered s).

Definition wake (l : list Z) (w : Z -> worker) : Z -> worker := fun t =>
  if bool_decide (t ∈ l) then mk_worker (act (w t)) false else w t.

Definition run_read (t : Z) (filp : file_desc) (count copied : Z) (s : pipesys) : pipesys :=
  let '(p, woken, out, ret) := pipe_read filp count copied (s_pipe s) in
  let w := wake woken (s_worker s) in
  match ret with
  | Some _ => mk_pipesys p (s_files s) (<[t := mk_worker Idle false]> w) (accepted s) (delivered s ++ out)
  | None => mk_pipesys (p <| rd_wait ::= waitqueue_add t |>) (s_files s)
              (<[t := mk_worker (Reading filp count) true]> w) (accepted s) (delivered s ++ out)
  end.

(** The bytes of the caller's buffer a pass accepts: the progress it reports. *)
Definition progress (j : write_job) (r : Z + write_job) : Z :=
  match r with
  | inl ret => if ret <? 0 then 0 else ret - cum_io j
  | inr j' => cum_io j' - cum_io j
  end.

Definition run_write (t : Z) (filp : file_desc) (copied : Z) (j : write_job) (s : pipesys) : res pipesys :=
  '(p, woken, r) ← pipe_write filp copied j (s_pipe s);
  let w := wake woken (s_worker s) in
  let acc := accepted s ++ (buf j <$> seqZ 0 (progress j r)) in
  match (r : Z + write_job) with
  | inl _ => Ret (mk_pipesys p (s_files s) (<[t := mk_worker Idle false]> w) acc (delivered s))
  | inr j => Ret (mk_pipesys (p <| wr_wait ::= waitqueue_add t |>) (s_files s)
                    (<[t := mk_worker (Writing filp j) true]> w) acc (delivered s))
  end.

Inductive event :=
| Read (t : Z) (filp : file_desc) (count copied : Z)
| Write (t : Z) (filp : file_desc) (b : Z -> Z) (count copied : Z)
| Resume (t : Z) (copied : Z)
| Open (filp : file_desc)
| Release (filp : file_desc).

Definition exec (ev : event) (s : pipesys) : res pipesys :=
  match ev with
  | Read t filp n copied => Ret (run_read t filp n copied s)
  | Write t filp b n copied => run_write t filp copied (mk_job b n 0) s
  | Resume t copied =>
      match act (s_worker s t) with
      | Idle => Ret s
      | Reading filp n => Ret (run_read t filp n copied (s <| s_pipe ::= fun p => p <| rd_wait ::= waitqueue_remove t |> |>))
      | Writing filp j => run_write t filp copied j (s <| s_pipe ::= fun p => p <| wr_wait ::= waitqueue_remove t |> |>)
      end
  | Open filp => p ← pipe_open filp (s_pipe s); Ret (s <| s_pipe := p |> <| s_files ::= (filp ::.) |>)
  | Release filp =>
      let '(p, woken) := pipe_release filp (s_pipe s) in
      Ret (s <| s_pipe := p |> <| s_files ::= filter (fun f => fd_id f <> fd_id filp) |> <| s_worker ::= wake woken |>)
  end.

End pipe.
