(* ===== verification/PipeProps.v ===== *)
(** * Pipes are first-in first-out queues

    [contents] is the sequence of bytes in a pipe. A pass of a write appends a
    prefix of what is left to write, a pass of a read removes a prefix; the
    invariant [pipe_ok] adds who sleeps and why. *)

From S2P Require Import Prelude WaitQueue Pipe.

Ltac pipe_simpl :=
  cbn [data start i_size files readers writers rd_wait wr_wait i_private field_update rebuild_pipe
       buf count cum_io s_pipe s_files s_worker accepted delivered act asleep fst snd] in *.

Section pipe.
Context `{!PipeLimit}.

Definition contents (p : pipe_inode_info) : list Z :=
  (fun i => data p (start p + i)) <$> seqZ 0 (i_size p).

Definition buffer_ok (p : pipe_inode_info) : Prop :=
  0 <= start p /\ 0 <= i_size p /\ start p + i_size p <= PIPE_BUF.

(** ** Windows of a function *)

Lemma window_app (f : Z -> Z) n m : 0 <= n -> 0 <= m ->
  f <$> seqZ 0 (n + m) = (f <$> seqZ 0 n) ++ ((fun i => f (n + i)) <$> seqZ 0 m).
Proof.
  intros Hn Hm. rewrite seqZ_app, fmap_app by lia. f_equal. rewrite Z.add_0_l.
  rewrite <- (Z.add_0_r n) at 1. rewrite <- fmap_add_seqZ, <- list_fmap_compose. done.
Qed.

Lemma window_ext (f g : Z -> Z) n : (forall i, 0 <= i < n -> f i = g i) -> f <$> seqZ 0 n = g <$> seqZ 0 n.
Proof. intros Hfg. apply list_fmap_ext. intros i x Hx%list_elem_of_lookup_2%elem_of_seqZ. apply Hfg. lia. Qed.

(** ** Waking *)

Lemma wake_readers_spec p :
  (wake_readers p).2 = sleepers (rd_wait p) /\
  exists wq, (wake_readers p).1 = p <| rd_wait := wq |> /\ sleepers wq = [] /\ members wq = members (rd_wait p).
Proof.
  unfold wake_readers. destruct (wakeup_all_spec (rd_wait p)) as (H1 & H2 & H3).
  destruct (waitqueue_wakeup_all (rd_wait p)) as [wq l]. split; [done|]. exists wq. done.
Qed.

Lemma wake_writers_spec p :
  (wake_writers p).2 = sleepers (wr_wait p) /\
  exists wq, (wake_writers p).1 = p <| wr_wait := wq |> /\ sleepers wq = [] /\ members wq = members (wr_wait p).
Proof.
  unfold wake_writers. destruct (wakeup_all_spec (wr_wait p)) as (H1 & H2 & H3).
  destruct (waitqueue_wakeup_all (wr_wait p)) as [wq l]. split; [done|]. exists wq. done.
Qed.

(** A queue whose members stay, of which all are woken or none. *)
Definition may_wake (wq wq' : list wait_queue_entry) (woken : list Z) : Prop :=
  members wq' = members wq /\
  ((woken = [] /\ sleepers wq' = sleepers wq) \/ (woken = sleepers wq /\ sleepers wq' = [])).

(** The waking a pass of a write does. *)
Definition waking (a b : bool) (p : pipe_inode_info) : pipe_inode_info * list Z :=
  let '(p, w1) := if a then wake_readers p else (p, []) in
  let '(p, w2) := if b then wake_readers p else (p, []) in (p, w1 ++ w2).

Lemma waking_spec a b p :
  exists wq, (waking a b p).1 = p <| rd_wait := wq |> /\ may_wake (rd_wait p) wq (waking a b p).2 /\
    (a || b = true -> sleepers wq = []).
Proof.
  assert (forall q, q <| rd_wait := rd_wait q |> = q) as Hid by (by intros []).
  unfold waking. destruct a.
  - destruct (wake_readers_spec p) as (Hw & wq & Hp & Hs & Hm). destruct (wake_readers p) as [p1 w1]. cbn [fst snd] in *.
    subst p1 w1. destruct b.
    + destruct (wake_readers_spec (p <| rd_wait := wq |>)) as (Hw2 & wq2 & Hp2 & Hs2 & Hm2).
      destruct (wake_readers (p <| rd_wait := wq |>)) as [p2 w2]. cbn [fst snd] in *. subst p2 w2.
      exists wq2. cbn [fst snd]. split; [done|]. split; [|done]. split; [etrans; [exact Hm2|exact Hm]|]. right.
      change (rd_wait (p <| rd_wait := wq |>)) with wq. by rewrite Hs, app_nil_r.
    + exists wq. cbn. rewrite app_nil_r. split; [done|]. split; [|done]. split; [done|]. by right.
  - destruct b.
    + destruct (wake_readers_spec p) as (Hw & wq & Hp & Hs & Hm). destruct (wake_readers p) as [p1 w1]. cbn [fst snd] in *.
      subst p1 w1. exists wq. cbn. split; [done|]. split; [|done]. split; [done|]. by right.
    + exists (rd_wait p). cbn. rewrite Hid. split; [done|]. split; [|done]. split; [done|]. by left.
Qed.

(** ** Room for a write *)

Lemma find_room_spec filp pos n :
  0 <= pos <= PIPE_BUF -> 0 < n < 2 ^ 31 ->
  match find_room filp pos n with
  | Fits size wake => 0 < size <= n /\ pos + size <= PIPE_BUF /\ (size = n \/ wake = true)
  | Again => nonblock filp = true
  | Full wake => pos = 0 -> wake = true
  end.
Proof.
  intros Hpos Hn. pose proof pipe_buf_range as HB. unfold find_room. rewrite wrapu_small by lia. cbv zeta.
  destruct (Z.leb_spec (pos + n) PIPE_BUF); [lia|].
  destruct (nonblock filp).
  - destruct (Z.leb_spec n PIPE_BUF); [done|].
    destruct (Z.eqb_spec (PIPE_BUF - pos) 0); [done|].
    destruct (Z.ltb_spec PIPE_BUF (PIPE_BUF - pos)); [lia|done].
  - destruct (Z.ltb_spec PIPE_BUF n); [|lia].
    destruct (Z.eqb_spec (PIPE_BUF - pos) 0); cbn; lia.
Qed.

(** An atomic write either fits as a whole or waits. *)
Lemma find_room_atomic filp pos n :
  0 <= pos <= PIPE_BUF -> 0 < n <= PIPE_BUF ->
  find_room filp pos n = if pos + n <=? PIPE_BUF then Fits n false else if nonblock filp then Again else Full false.
Proof.
  intros Hpos Hn. pose proof pipe_buf_range as HB. unfold find_room. rewrite wrapu_small by lia.
  destruct (Z.leb_spec (pos + n) PIPE_BUF); [done|]. rewrite (proj2 (Z.leb_le n _)), (proj2 (Z.ltb_ge PIPE_BUF n)) by lia.
  done.
Qed.

(** ** Passes *)

Lemma compact_spec p :
  buffer_ok p ->
  exists p', compact p = Ret p' /\ buffer_ok p' /\ contents p' = contents p /\ start p' = 0 /\
    p' = p <| data := data p' |> <| start := 0 |>.
Proof.
  intros (H0 & Hs & Hb). unfold compact.
  destruct (Z.ltb_spec 0 (start p)) as [Hst|Hst].
  2: { exists p. split; [done|]. split; [by split|]. split; [done|]. split; [lia|].
       destruct p; cbn in *. by replace start with 0 by lia. }
  destruct (Z.ltb_spec 0 (i_size p)) as [Hsz|Hsz].
  - rewrite (proj2 (Z.ltb_ge PIPE_BUF _)) by lia. eexists. split; [reflexivity|].
    split; [split; cbn; lia|]. split; [|done]. unfold contents. pipe_simpl. apply window_ext. intros i Hi. rewrite Z.add_0_l.
    by rewrite (proj2 (Z.leb_le 0 i)), (proj2 (Z.ltb_lt i _)) by lia.
  - eexists. split; [reflexivity|]. split; [split; cbn; lia|]. split; [|done].
    unfold contents. pipe_simpl. by replace (i_size p) with 0 by lia.
Qed.

(** Copying [size] bytes behind the contents. *)
Lemma contents_append p size (f : Z -> Z) :
  buffer_ok p -> start p = 0 -> 0 <= size -> i_size p + size <= PIPE_BUF ->
  let p' := p <| data := fun i => if (i_size p <=? i) && (i <? i_size p + size) then f (i - i_size p) else data p i |>
              <| i_size ::= fun x => wrapu 64 (x + size) |> in
  buffer_ok p' /\ contents p' = contents p ++ (f <$> seqZ 0 size) /\ i_size p' = i_size p + size.
Proof.
  intros (H0 & Hs & Hb) Hst Hsz Hfit. pose proof pipe_buf_range as HB. cbv zeta.
  unfold buffer_ok, contents. pipe_simpl. rewrite Hst, wrapu_small by lia.
  split; [lia|]. split; [|done]. rewrite window_app by lia. f_equal; apply window_ext; intros i Hi; rewrite !Z.add_0_l.
  - by rewrite (proj2 (Z.leb_gt (i_size p) i)) by lia.
  - rewrite (proj2 (Z.leb_le (i_size p) _)), (proj2 (Z.ltb_lt _ (i_size p + size))) by lia.
    cbn [andb]. f_equal. lia.
Qed.

(** What a pass of a write does to the pipe. *)
Record written (j : write_job) (p p' : pipe_inode_info) (woken : list Z) (r : Z + write_job) : Prop := {
  wr_buffer : buffer_ok p';
  wr_contents : contents p' = contents p ++ (buf j <$> seqZ 0 (progress j r));
  wr_rest : exists d st sz wq, p' = p <| data := d |> <| start := st |> <| i_size := sz |> <| rd_wait := wq |>;
  wr_wakes : may_wake (rd_wait p) (rd_wait p') woken;
  wr_first : i_size p = 0 -> i_size p' <> 0 -> sleepers (rd_wait p') = [];
  wr_more : i_size p <= i_size p';
  wr_left : forall j', r = inr j' -> 0 < count j' < 2 ^ 31 /\ 0 <= cum_io j' /\
    (i_size p = 0 -> sleepers (rd_wait p') = [])
}.

Lemma may_wake_none wq : may_wake wq wq [].
Proof. split; [done|]. by left. Qed.

Lemma written_nothing j p wq woken r :
  buffer_ok p -> may_wake (rd_wait p) wq woken -> progress j r = 0 ->
  (forall j', r = inr j' -> 0 < count j' < 2 ^ 31 /\ 0 <= cum_io j' /\ (i_size p = 0 -> sleepers wq = [])) ->
  written j p (p <| rd_wait := wq |>) woken r.
Proof.
  intros Hb Hm Hp Hj. split; try done.
  - rewrite Hp. by rewrite app_nil_r.
  - exists (data p), (start p), (i_size p), wq. by destruct p.
Qed.

Lemma pipe_write_eq filp c j p :
  0 < count j ->
  pipe_write filp c j p =
  match find_room filp (i_size p) (count j) with
  | Again => Ret (p, [], inl (- EAGAIN))
  | Full wake => Ret ((waking wake false p).1, (waking wake false p).2, inr j)
  | Fits size wake =>
      let p1 := (waking wake (i_size p =? 0) p).1 in
      let woken := (waking wake (i_size p =? 0) p).2 in
      p ← compact p1;
      if PIPE_BUF <? wrapu 64 (i_size p + size) then Crash Panic
      else if negb (c =? 0) then Ret (p, woken, inl (- c))
      else
        let p' := p <| data := fun i => if (i_size p <=? i) && (i <? i_size p + size)
                                        then buf j (i - i_size p) else data p i |>
                    <| i_size ::= fun x => wrapu 64 (x + size) |> in
        let j := mk_job (fun i => buf j (size + i)) (count j - size) (cum_io j + size) in
        if (0 <? count j) && negb (nonblock filp) then Ret (p', woken, inr j)
        else Ret (p', woken, inl (cum_io j))
  end.
Proof.
  intros Hj. unfold pipe_write, waking. rewrite (proj2 (Z.leb_gt _ 0)) by done.
  destruct (find_room filp (i_size p) (count j)) as [size wake| |wake]; [|done|].
  - destruct (if wake then wake_readers p else (p, [])) as [p1 w1].
    by destruct (if i_size p =? 0 then wake_readers p1 else (p1, [])) as [p2 w2].
  - destruct (if wake then wake_readers p else (p, [])) as [p1 w1]. cbn. by rewrite app_nil_r.
Qed.

Lemma pipe_write_spec filp c j p :
  buffer_ok p -> 0 <= count j < 2 ^ 31 -> 0 <= cum_io j -> 0 <= c ->
  exists p' woken r, pipe_write filp c j p = Ret (p', woken, r) /\ written j p p' woken r.
Proof.
  intros Hb Hj Hcum Hc. assert (forall q, q <| rd_wait := rd_wait q |> = q) as Hid by (by intros []).
  assert (forall ret, progress j (inl ret) = 0 -> written j p p [] (inl ret)) as Hnone.
  { intros ret Hp. rewrite <- (Hid p) at 2. by apply written_nothing; [|apply may_wake_none| |]. }
  destruct (Z.leb_spec (count j) 0) as [Hz|Hz].
  { exists p, [], (inl (cum_io j)). unfold pipe_write. rewrite (proj2 (Z.leb_le _ 0)) by done. split; [done|].
    apply Hnone. cbn. rewrite (proj2 (Z.ltb_ge _ 0)) by done. lia. }
  rewrite pipe_write_eq by done.
  pose proof (find_room_spec filp (i_size p) (count j) ltac:(destruct Hb; lia) ltac:(lia)) as Hroom.
  destruct (find_room filp (i_size p) (count j)) as [size wake| |wake].
  - destruct (waking_spec wake (i_size p =? 0) p) as (wq & Hp1 & Hmay & Hall). cbv zeta.
    destruct (compact_spec (waking wake (i_size p =? 0) p).1) as (p2 & -> & Hb2 & Hc2 & Hs2 & Hp2); [by rewrite Hp1|].
    rewrite Hp1 in Hc2, Hp2. set (woken := (waking wake (i_size p =? 0) p).2) in *. clearbody woken. clear Hp1.
    cbn [mbind res_mbind].
    assert (i_size p2 = i_size p) as Hsz by (rewrite Hp2; done). pose proof pipe_buf_range as HB.
    rewrite wrapu_small, (proj2 (Z.ltb_ge PIPE_BUF _)) by (destruct Hb; lia).
    assert (exists d st, p2 = p <| data := d |> <| start := st |> <| i_size := i_size p |> <| rd_wait := wq |>) as Hform.
    { exists (data p2), 0. rewrite Hp2. by destruct p. }
    assert (rd_wait p2 = wq) as Hwq by (by rewrite Hp2).
    destruct (Z.eqb_spec c 0) as [->|Hne]; cbn [negb].
    2: { exists p2, woken, (inl (- c)). split; [done|]. assert (progress j (inl (- c)) = 0) as Hpr.
         { cbn. rewrite (proj2 (Z.ltb_lt _ 0)) by lia. done. }
         split; rewrite ?Hwq, ?Hsz; try done.
         - rewrite Hpr. rewrite app_nil_r. exact Hc2.
         - destruct Hform as (d & st & He). by exists d, st, (i_size p), wq. }
    destruct (contents_append p2 size (buf j) Hb2 Hs2 ltac:(lia) ltac:(lia)) as (Hb3 & Hc3 & Hsz3).
    set (p3 := p2 <| data := _ |> <| i_size ::= _ |>) in *. set (j' := mk_job _ _ _).
    assert (rd_wait p3 = wq) as Hwq3 by exact Hwq.
    assert (exists d st sz wq', p3 = p <| data := d |> <| start := st |> <| i_size := sz |> <| rd_wait := wq' |>) as Hform3.
    { destruct Hform as (d & st & He). unfold p3. rewrite He. do 4 eexists. by destruct p. }
    assert (forall r, progress j r = size -> (forall j', r = inr j' -> 0 < count j' < 2 ^ 31 /\ 0 <= cum_io j' /\
      (i_size p = 0 -> sleepers wq = [])) -> written j p p3 woken r) as Hend.
    { intros r Hr Hleft. split; rewrite ?Hwq3, ?Hr; try done; rewrite ?Hsz3, ?Hsz; try lia.
      - rewrite Hc3. f_equal. exact Hc2.
      - intros H0 _. apply Hall. by rewrite H0, Z.eqb_refl, orb_true_r. }
    destruct ((0 <? count j') && negb (nonblock filp)) eqn:Hleft; eexists p3, woken, _; (split; [reflexivity|]); apply Hend.
    + cbn. lia.
    + intros ? [= <-]. b2p. cbn in *. split; [lia|]. split; [lia|]. intros Hemp. apply Hall.
      by rewrite Hemp, Z.eqb_refl, orb_true_r.
    + cbn. rewrite (proj2 (Z.ltb_ge _ 0)) by lia. lia.
    + done.
  - exists p, [], (inl (- EAGAIN)). split; [done|]. by apply Hnone.
  - destruct (waking_spec wake false p) as (wq & Hp1 & Hmay & Hall). rewrite Hp1.
    exists (p <| rd_wait := wq |>), (waking wake false p).2, (inr j). split; [done|].
    apply written_nothing; [done|done|cbn; lia|]. intros j' [= <-]. split; [lia|]. split; [done|].
    intros H0. apply Hall. by rewrite (Hroom H0).
Qed.

(** What a pass of a read does. *)
Record taken (p p' : pipe_inode_info) (woken out : list Z) (ret : option Z) : Prop := {
  rd_buffer : buffer_ok p';
  rd_contents : out ++ contents p' = contents p;
  rd_rest : exists st sz wq, p' = p <| start := st |> <| i_size := sz |> <| wr_wait := wq |>;
  rd_wakes : may_wake (wr_wait p) (wr_wait p') woken;
  rd_less : i_size p' <= i_size p;
  rd_sleeps : ret = None -> i_size p' = 0 /\ writers p' <> 0 /\ sleepers (wr_wait p') = []
}.

Lemma taken_nothing p ret : buffer_ok p -> ret <> None -> taken p p [] [] ret.
Proof.
  intros Hb Hr. split; try done.
  - exists (start p), (i_size p), (wr_wait p). by destruct p.
  - apply may_wake_none.
Qed.

Lemma pipe_read_spec filp n c p :
  buffer_ok p -> 0 <= n ->
  let '(p', woken, out, ret) := pipe_read filp n c p in taken p p' woken out ret.
Proof.
  intros Hb Hn. unfold pipe_read. destruct (Z.eqb_spec (i_size p) 0) as [Hz|Hz].
  - destruct (Z.eqb_spec (writers p) 0) as [Hw|Hw]; cbn [negb]; [by apply taken_nothing|].
    destruct (wake_writers_spec p) as (H1 & wq & H2 & H3 & H4). destruct (wake_writers p) as [p1 woken].
    cbn [fst snd] in *. subst p1 woken.
    assert (forall ret, taken p (p <| wr_wait := wq |>) (sleepers (wr_wait p)) [] ret) as Hend.
    { intros ret. split; try done.
      - exists (start p), (i_size p), wq. by destruct p.
      - split; [done|]. by right. }
    destruct (nonblock filp); apply Hend.
  - set (size := if i_size p <? n then i_size p else n).
    assert (0 <= size <= i_size p) as Hs by (unfold size; destruct Hb; destruct (Z.ltb_spec (i_size p) n); lia).
    destruct (Z.eqb_spec c 0); cbn [negb]; [|by apply taken_nothing]. destruct Hb as (H0 & Hi & Hb).
    split; try done.
    + split; cbn; lia.
    + unfold contents. pipe_simpl. replace (i_size p) with (size + (i_size p - size)) at 2 by lia.
      rewrite window_app by lia. f_equal. apply window_ext. intros i _. f_equal. lia.
    + exists (start p + size), (i_size p - size), (wr_wait p). by destruct p.
    + apply may_wake_none.
    + cbn. lia.
Qed.

(** ** Workers *)

Definition is_reading (a : activity) : bool := match a with Reading _ _ => true | _ => false end.
Definition is_writing (a : activity) : bool := match a with Writing _ _ => true | _ => false end.

(** The entries of a queue are those of workers in a call of kind [kind], and the
    sleeping workers are the ones that can still be woken. *)
Record queue_ok (kind : activity -> bool) (wq : list wait_queue_entry) (w : Z -> worker) : Prop := {
  qo_nodup : NoDup (members wq);
  qo_kind : forall t, t ∈ members wq -> kind (act (w t)) = true;
  qo_asleep : forall t, t ∈ sleepers wq <-> asleep (w t) = true /\ kind (act (w t)) = true
}.

Lemma act_wake l w t : act (wake l w t) = act (w t).
Proof. unfold wake. by destruct (bool_decide (t ∈ l)). Qed.

Lemma asleep_wake l w t : asleep (wake l w t) = true <-> asleep (w t) = true /\ t ∉ l.
Proof. unfold wake. destruct (bool_decide_reflect (t ∈ l)); cbn; intuition congruence. Qed.

Lemma queue_ok_wake kind wq wq' woken w :
  queue_ok kind wq w -> may_wake wq wq' woken -> queue_ok kind wq' (wake woken w).
Proof.
  intros [] [Hm Hs]. split.
  - by rewrite Hm.
  - intros t. rewrite Hm, act_wake. apply qo_kind0.
  - intros t. rewrite asleep_wake, act_wake. destruct Hs as [[-> ->]|[-> ->]].
    + rewrite qo_asleep0. set_solver.
    + rewrite qo_asleep0, elem_of_nil. naive_solver.
Qed.

(** Waking the workers of one queue leaves another queue alone. *)
Lemma queue_ok_wake_other kind kind' wq wq' w woken :
  queue_ok kind wq w -> queue_ok kind' wq' w -> (forall a, kind a = true -> kind' a = true -> False) ->
  (forall t, t ∈ woken -> t ∈ sleepers wq') -> queue_ok kind wq (wake woken w).
Proof.
  intros [] Hq' Hdis Hw. split; [done| |].
  - intros t. rewrite act_wake. apply qo_kind0.
  - intros t. rewrite asleep_wake, act_wake, qo_asleep0. split; [|naive_solver].
    intros [Ha Hk]. split; [split; [done|]|done]. intros Ht%Hw. apply (qo_asleep _ _ _ Hq') in Ht. naive_solver.
Qed.

Lemma may_wake_sub wq wq' woken t : may_wake wq wq' woken -> t ∈ woken -> t ∈ sleepers wq.
Proof. intros [_ [[-> _]|[-> _]]] Ht; [by apply elem_of_nil in Ht|done]. Qed.

Lemma queue_ok_insert kind wq w t x :
  queue_ok kind wq w -> t ∉ members wq -> kind (act x) = false -> queue_ok kind wq (<[t := x]> w).
Proof.
  intros [] Ht Hx. split; [done| |].
  - intros u Hu. rewrite fn_lookup_insert_ne by (intros ->; done). by apply qo_kind0.
  - intros u. destruct (decide (t = u)) as [->|Hne].
    + rewrite fn_lookup_insert. split; [intros Hu%sleepers_members; done|intros [_ ?]; congruence].
    + by rewrite fn_lookup_insert_ne.
Qed.

Lemma queue_ok_add kind wq w t a :
  queue_ok kind wq w -> t ∉ members wq -> kind a = true ->
  queue_ok kind (waitqueue_add t wq) (<[t := mk_worker a true]> w).
Proof.
  intros [] Ht Hx. split.
  - rewrite members_add. by apply NoDup_cons.
  - intros u. rewrite members_add, elem_of_cons. destruct (decide (t = u)) as [->|Hne].
    + by rewrite fn_lookup_insert.
    + rewrite fn_lookup_insert_ne by done. intros [->|Hu]; [done|]. by apply qo_kind0.
  - intros u. rewrite sleepers_add, elem_of_cons. destruct (decide (t = u)) as [->|Hne].
    + rewrite fn_lookup_insert. cbn. naive_solver.
    + rewrite fn_lookup_insert_ne by done. rewrite qo_asleep0. naive_solver.
Qed.

(** A worker that is awake leaves its queue. *)
Lemma queue_ok_leave kind wq w t :
  queue_ok kind wq w -> asleep (w t) = false -> kind Idle = false ->
  queue_ok kind (waitqueue_remove t wq) (<[t := mk_worker Idle false]> w).
Proof.
  intros [] Ha Hk. split.
  - rewrite members_remove. by apply NoDup_filter.
  - intros u. rewrite members_remove, list_elem_of_filter. intros [Hne Hu].
    rewrite fn_lookup_insert_ne by done. by apply qo_kind0.
  - intros u. rewrite sleepers_remove, list_elem_of_filter. destruct (decide (t = u)) as [->|Hne].
    + rewrite fn_lookup_insert. cbn. naive_solver.
    + rewrite fn_lookup_insert_ne by done. rewrite qo_asleep0. naive_solver.
Qed.

(** ** The invariant *)

Definition has_mode (bit : Z) (f : file_desc) : Prop := has_flag (fd_mode f) bit = true.

#[local] Instance has_mode_dec bit f : Decision (has_mode bit f).
Proof. unfold has_mode. apply _. Defined.

(** What a call in progress uses. *)
Definition call_ok (fs : list file_desc) (a : activity) : Prop :=
  match a with
  | Idle => True
  | Reading f n => f ∈ fs /\ has_mode R_BIT f /\ 0 <= n < 2 ^ 31
  | Writing f j => f ∈ fs /\ has_mode W_BIT f /\ 0 <= count j < 2 ^ 31 /\ 0 <= cum_io j
  end.

(** The open files and the counts kept in the pipe. *)
Record counts_ok (p : pipe_inode_info) (fs : list file_desc) : Prop := {
  co_readers : readers p = Z.of_nat (length (filter (has_mode R_BIT) fs));
  co_writers : writers p = Z.of_nat (length (filter (has_mode W_BIT) fs));
  co_files : files p = Z.of_nat (length fs);
  co_alive : fs <> [] -> i_private p = true;
  co_ids : NoDup (fd_id <$> fs)
}.

Record pipe_ok (p : pipe_inode_info) (fs : list file_desc) (w : Z -> worker) (acc del : list Z) : Prop := {
  po_buffer : buffer_ok p;
  po_fifo : del ++ contents p = acc;
  po_counts : counts_ok p fs;
  po_calls : forall t, call_ok fs (act (w t));
  po_rd : queue_ok is_reading (rd_wait p) w;
  po_wr : queue_ok is_writing (wr_wait p) w;
  po_idle : forall t, act (w t) = Idle -> asleep (w t) = false;
  po_sleep : sleepers (rd_wait p) <> [] -> i_size p = 0 /\ writers p <> 0;
  po_one : sleepers (rd_wait p) = [] \/ sleepers (wr_wait p) = []
}.

Definition sys_ok (s : pipesys) : Prop :=
  pipe_ok (s_pipe s) (s_files s) (s_worker s) (accepted s) (delivered s).

Lemma idle_outside p fs w acc del t :
  pipe_ok p fs w acc del -> act (w t) = Idle -> t ∉ members (rd_wait p) /\ t ∉ members (wr_wait p).
Proof.
  intros Hok Hi. split; intros Ht.
  - apply (qo_kind _ _ _ (po_rd _ _ _ _ _ Hok)) in Ht. by rewrite Hi in Ht.
  - apply (qo_kind _ _ _ (po_wr _ _ _ _ _ Hok)) in Ht. by rewrite Hi in Ht.
Qed.

Lemma kinds_apart a : is_reading a = true -> is_writing a = true -> False.
Proof. by destruct a. Qed.

Lemma kinds_apart' a : is_writing a = true -> is_reading a = true -> False.
Proof. by destruct a. Qed.

(** The queues after a pass that wakes workers of [wq]. *)
Lemma calls_wake fs woken (w : Z -> worker) : (forall t, call_ok fs (act (w t))) -> forall t, call_ok fs (act (wake woken w t)).
Proof. intros Hc t. rewrite act_wake. apply Hc. Qed.

Lemma calls_insert fs (w : Z -> worker) (t : Z) x :
  (forall t, call_ok fs (act (w t))) -> call_ok fs (act x) -> forall u, call_ok fs (act ((<[t := x]> w) u)).
Proof.
  intros Hc Hx u. destruct (decide (t = u)) as [->|Hne]; [by rewrite fn_lookup_insert|by rewrite fn_lookup_insert_ne].
Qed.

Lemma idle_wake woken (w : Z -> worker) :
  (forall t, act (w t) = Idle -> asleep (w t) = false) ->
  forall t, act (wake woken w t) = Idle -> asleep (wake woken w t) = false.
Proof.
  intros Hi t. rewrite act_wake. intros Ha%Hi. apply not_true_iff_false. rewrite asleep_wake. intros [? _]. congruence.
Qed.

Lemma idle_insert (w : Z -> worker) (t : Z) x :
  (forall t, act (w t) = Idle -> asleep (w t) = false) -> (act x = Idle -> asleep x = false) ->
  forall u, act ((<[t := x]> w) u) = Idle -> asleep ((<[t := x]> w) u) = false.
Proof.
  intros Hi Hx u. destruct (decide (t = u)) as [->|Hne]; [by rewrite fn_lookup_insert|].
  rewrite fn_lookup_insert_ne by done. apply Hi.
Qed.

(** A state only matters through the activity of each worker. *)
Lemma pipe_ok_ext p fs w w' acc del : (forall t, w t = w' t) -> pipe_ok p fs w acc del -> pipe_ok p fs w' acc del.
Proof.
  intros Hw []. assert (forall kind wq, queue_ok kind wq w -> queue_ok kind wq w') as Hq.
  { intros kind wq []. split; [done| |]; intros t; rewrite <- Hw; auto. }
  split; auto; intros t; rewrite <- Hw; auto.
Qed.

Lemma read_ok t f n c p fs w acc del :
  pipe_ok p fs w acc del -> act (w t) = Idle -> f ∈ fs -> has_mode R_BIT f -> 0 <= n < 2 ^ 31 ->
  sys_ok (run_read t f n c (mk_pipesys p fs w acc del)).
Proof.
  intros Hok Hi Hf Hr Hn. unfold run_read, sys_ok. cbn [s_pipe s_files s_worker accepted delivered].
  pose proof (pipe_read_spec f n c p (po_buffer _ _ _ _ _ Hok) ltac:(lia)) as Hspec.
  destruct (pipe_read f n c p) as [[[p' woken] out] ret].
  destruct Hspec as [Hb Hc (st & sz & wq & Hp') Hw Hless Hsl].
  destruct (idle_outside _ _ _ _ _ t Hok Hi) as [Hnr Hnw]. destruct Hok.
  assert (rd_wait p' = rd_wait p) as Hrd by (by rewrite Hp').
  assert (writers p' = writers p) as Hwr by (by rewrite Hp').
  assert (counts_ok p' fs) as Hcnt by (rewrite Hp'; destruct po_counts0; by split).
  assert (queue_ok is_reading (rd_wait p') (wake woken w)) as Hq1.
  { rewrite Hrd. eapply queue_ok_wake_other; [done|done|exact kinds_apart|]. intros u. by apply (may_wake_sub _ _ _ u Hw). }
  assert (queue_ok is_writing (wr_wait p') (wake woken w)) as Hq2 by (by eapply queue_ok_wake).
  assert (t ∉ members (wr_wait p')) as Hnw' by (by rewrite (proj1 Hw)).
  assert ((del ++ out) ++ contents p' = acc) as Hfifo by (by rewrite <- app_assoc, Hc).
  assert (sleepers (rd_wait p') <> [] -> i_size p' = 0 /\ writers p' <> 0) as Hsleep.
  { rewrite Hrd, Hwr. intros [Hz ?]%po_sleep0. destruct Hb. lia. }
  destruct ret as [ret|]; (split; [done|done|by destruct Hcnt; split| | | | | |]); pipe_simpl;
    try (by apply calls_insert; [apply calls_wake|]); try (by apply idle_insert; [apply idle_wake|]).
  - apply queue_ok_insert; [done|by rewrite Hrd|done].
  - by apply queue_ok_insert.
  - done.
  - rewrite Hrd. destruct po_one0 as [?|Hnil]; [by left|right].
    destruct Hw as [_ [[_ ->]|[_ ->]]]; done.
  - apply queue_ok_add; [done|by rewrite Hrd|done].
  - by apply queue_ok_insert.
  - intros _. by destruct (Hsl eq_refl) as (? & ? & _).
  - right. by destruct (Hsl eq_refl) as (_ & _ & ?).
Qed.

Lemma write_ok t f c j p fs w acc del :
  pipe_ok p fs w acc del -> act (w t) = Idle -> f ∈ fs -> has_mode W_BIT f ->
  0 <= count j < 2 ^ 31 -> 0 <= cum_io j -> 0 <= c ->
  exists s', run_write t f c j (mk_pipesys p fs w acc del) = Ret s' /\ sys_ok s'.
Proof.
  intros Hok Hi Hf Hr Hj Hcum Hc. unfold run_write. cbn [s_pipe s_files s_worker accepted delivered].
  destruct (pipe_write_spec f c j p (po_buffer _ _ _ _ _ Hok) Hj Hcum Hc) as (p' & woken & r & -> & Hspec).
  cbn [mbind res_mbind].
  destruct Hspec as [Hb Hct (d & st & sz & wq & Hp') Hw Hfirst Hmore Hleft].
  destruct (idle_outside _ _ _ _ _ t Hok Hi) as [Hnr Hnw]. destruct Hok.
  assert (wr_wait p' = wr_wait p) as Hwq by (by rewrite Hp').
  assert (writers p' = writers p) as Hwr by (by rewrite Hp').
  assert (counts_ok p' fs) as Hcnt by (rewrite Hp'; destruct po_counts0; by split).
  assert (queue_ok is_reading (rd_wait p') (wake woken w)) as Hq1 by (by eapply queue_ok_wake).
  assert (queue_ok is_writing (wr_wait p') (wake woken w)) as Hq2.
  { rewrite Hwq. apply (queue_ok_wake_other is_writing is_reading _ (rd_wait p)); [done|done|exact kinds_apart'|]. intros u. by apply (may_wake_sub _ _ _ u Hw). }
  assert (t ∉ members (rd_wait p')) as Hnr' by (by rewrite (proj1 Hw)).
  assert (del ++ contents p' = acc ++ (buf j <$> seqZ 0 (progress j r))) as Hfifo
    by (by rewrite Hct, app_assoc, po_fifo0).
  assert (sleepers (rd_wait p) = [] -> sleepers (rd_wait p') = []) as Hmono.
  { intros Hnil. destruct Hw as [_ [[_ ->]|[_ ->]]]; done. }
  assert (sleepers (rd_wait p') <> [] -> i_size p' = 0 /\ writers p' <> 0) as Hsleep.
  { intros Hne. destruct po_sleep0 as [Hz Hnz]; [by intros ?%Hmono|]. rewrite Hwr. split; [|done].
    destruct (decide (i_size p' = 0)) as [|Hp0]; [done|]. by destruct Hne; apply Hfirst. }
  assert (sleepers (rd_wait p') = [] \/ sleepers (wr_wait p') = []) as Hone.
  { rewrite Hwq. destruct po_one0; [left|right]; auto. }
  destruct r as [ret|j']; eexists; (split; [reflexivity|]); (split; [done|done|by destruct Hcnt; split| | | | | |]); pipe_simpl;
    try (by apply calls_insert; [apply calls_wake|]); try (by apply idle_insert; [apply idle_wake|]); try done.
  - by apply queue_ok_insert.
  - apply queue_ok_insert; [done|by rewrite Hwq|done].
  - destruct (Hleft j' eq_refl) as (? & ? & _). apply calls_insert; [by apply calls_wake|]. cbn. repeat split; (done || lia).
  - by apply queue_ok_insert.
  - apply queue_ok_add; [done|by rewrite Hwq|done].
  - left. destruct (Hleft j' eq_refl) as (_ & _ & Hz).
    destruct (decide (sleepers (rd_wait p) = [])) as [|Hne]; [by apply Hmono|]. apply Hz. by apply po_sleep0.
Qed.

(** ** Opening and closing *)

Lemma mode_count bit f fs :
  Z.of_nat (length (filter (has_mode bit) (f :: fs))) =
  Z.of_nat (length (filter (has_mode bit) fs)) + if has_flag (fd_mode f) bit then 1 else 0.
Proof.
  rewrite filter_cons. destruct (has_flag (fd_mode f) bit) eqn:Hb.
  - rewrite decide_True by done. cbn [length]. lia.
  - rewrite decide_False by (unfold has_mode; congruence). lia.
Qed.

Lemma open_ok f p fs w acc del :
  pipe_ok p fs w acc del -> fs <> [] -> fd_id f ∉ fd_id <$> fs ->
  exists p', pipe_open f p = Ret p' /\ pipe_ok p' (f :: fs) w acc del.
Proof.
  intros [] Hne Hf. destruct po_counts0. unfold pipe_open. rewrite co_alive0 by done. cbn [negb].
  eexists. split; [reflexivity|]. cbv zeta.
  destruct (has_flag (fd_mode f) W_BIT) eqn:HW, (has_flag (fd_mode f) R_BIT) eqn:HR; split; pipe_simpl; try done.
  all: try (intros t; specialize (po_calls0 t); revert po_calls0; destruct (act (w t)); cbn; try done; rewrite elem_of_cons; tauto).
  all: try (intros Hs; destruct (po_sleep0 Hs); split; [done|lia]).
  all: split; pipe_simpl; try done; try (by intros _; apply co_alive0);
    rewrite ?mode_count, ?HW, ?HR, ?fmap_cons, ?NoDup_cons; try done; cbn [length]; lia.
Qed.

(** The parts of [pipe_release]. *)
Definition drop_counts (f : file_desc) (p : pipe_inode_info) : pipe_inode_info :=
  let p := if has_flag (fd_mode f) W_BIT then p <| writers ::= Z.pred |> else p in
  if has_flag (fd_mode f) R_BIT then p <| readers ::= Z.pred |> else p.

Lemma pipe_release_spec f p :
  let '(p', woken) := pipe_release f p in
  exists rq wq w1 w2, woken = w1 ++ w2 /\
    p' = put_pipe_info ((drop_counts f p) <| rd_wait := rq |> <| wr_wait := wq |>) /\
    may_wake (rd_wait p) rq w1 /\ may_wake (wr_wait p) wq w2 /\
    (writers (drop_counts f p) = 0 -> readers (drop_counts f p) <> 0 -> sleepers rq = []).
Proof.
  assert (rd_wait (drop_counts f p) = rd_wait p /\ wr_wait (drop_counts f p) = wr_wait p) as [Hr Hw].
  { unfold drop_counts. by destruct (has_flag _ W_BIT), (has_flag _ R_BIT). }
  unfold pipe_release. change (if has_flag (fd_mode f) R_BIT then _ else _) with (drop_counts f p).
  set (q := drop_counts f p) in *. clearbody q. rewrite <- Hr, <- Hw. clear Hr Hw p.
  assert (q = q <| rd_wait := rd_wait q |> <| wr_wait := wr_wait q |>) as Hq by (by destruct q).
  destruct (Z.eqb_spec (readers q) 0) as [Hr|Hr], (Z.eqb_spec (writers q) 0) as [Hw|Hw]; cbn [negb Bool.eqb].
  - exists (rd_wait q), (wr_wait q), [], []. split; [done|]. split; [by rewrite <- Hq|]. by repeat split; try left.
  - rewrite Hr, Z.eqb_refl. destruct (wake_writers_spec q) as (H1 & wq & H2 & H3 & H4).
    destruct (wake_writers q) as [q' l]. cbn [fst snd] in *. subst q' l.
    exists (rd_wait q), wq, [], (sleepers (wr_wait q)). split; [done|]. split; [by destruct q|].
    split; [apply may_wake_none|]. split; [|done]. split; [done|]. by right.
  - destruct (wake_readers_spec q) as (H1 & rq & H2 & H3 & H4).
    destruct (wake_readers q) as [q' l]. cbn [fst snd] in *. subst q' l. pipe_simpl.
    rewrite (proj2 (Z.eqb_neq _ _) Hr).
    exists rq, (wr_wait q), (sleepers (rd_wait q)), []. split; [done|]. split; [by destruct q|].
    split; [split; [done|by right]|]. split; [apply may_wake_none|done].
  - exists (rd_wait q), (wr_wait q), [], []. split; [done|]. split; [by rewrite <- Hq|]. by repeat split; try left.
Qed.

Definition closed (f : file_desc) (fs : list file_desc) : list file_desc :=
  filter (fun g => fd_id g <> fd_id f) fs.

Lemma closed_perm f fs : NoDup (fd_id <$> fs) -> f ∈ fs -> f :: closed f fs ≡ₚ fs.
Proof.
  unfold closed. induction fs as [|g fs IH]; intros Hnd Hf; [by apply elem_of_nil in Hf|].
  rewrite fmap_cons, NoDup_cons in Hnd. destruct Hnd as [Hg Hnd]. rewrite filter_cons.
  apply elem_of_cons in Hf as [<-|Hf].
  - rewrite decide_False by (intros Hne; by apply Hne). apply perm_skip. rewrite list_filter_id; [done|].
    intros g Hin He. apply Hg. rewrite <- He. by apply list_elem_of_fmap_2.
  - rewrite decide_True; [rewrite perm_swap; by rewrite IH|].
    intros He. apply Hg. rewrite He. by apply list_elem_of_fmap_2.
Qed.

Lemma counts_closed f p fs :
  counts_ok p fs -> f ∈ fs -> counts_ok (put_pipe_info (drop_counts f p)) (closed f fs).
Proof.
  intros [] Hf. pose proof (closed_perm f fs co_ids0 Hf) as Hperm.
  assert (forall bit, Z.of_nat (length (filter (has_mode bit) (closed f fs))) =
    Z.of_nat (length (filter (has_mode bit) fs)) - if has_flag (fd_mode f) bit then 1 else 0) as Hlen.
  { intros bit. pose proof (filter_Permutation (has_mode bit) _ _ Hperm) as Hp%Permutation_length.
    apply (f_equal Z.of_nat) in Hp. rewrite mode_count in Hp. lia. }
  assert (Z.of_nat (length (closed f fs)) = Z.of_nat (length fs) - 1) as Hfs
    by (apply Permutation_length in Hperm; cbn in Hperm; lia).
  assert (readers (put_pipe_info (drop_counts f p)) = readers p - (if has_flag (fd_mode f) R_BIT then 1 else 0) /\
    writers (put_pipe_info (drop_counts f p)) = writers p - (if has_flag (fd_mode f) W_BIT then 1 else 0) /\
    files (put_pipe_info (drop_counts f p)) = files p - 1 /\
    i_private (put_pipe_info (drop_counts f p)) = if files p - 1 =? 0 then false else i_private p) as (Hr & Hw & Hn & Hp).
  { unfold put_pipe_info, drop_counts. cbv zeta.
    destruct (has_flag (fd_mode f) W_BIT), (has_flag (fd_mode f) R_BIT); pipe_simpl;
      change (Z.pred (files p)) with (files p - 1); destruct (files p - 1 =? 0); pipe_simpl; lia || (repeat split; lia). }
  split.
  - rewrite Hr, Hlen. lia.
  - rewrite Hw, Hlen. lia.
  - rewrite Hn, Hfs. lia.
  - intros Hne. rewrite Hp, (proj2 (Z.eqb_neq _ 0)); [apply co_alive0; by intros ->; apply elem_of_nil in Hf|].
    rewrite co_files0. destruct (closed f fs); [done|]. cbn in Hfs. lia.
  - eapply (NoDup_perm (fd_id <$> fs)) in co_ids0; [|by rewrite <- Hperm]. rewrite fmap_cons, NoDup_cons in co_ids0. apply co_ids0.
Qed.

Lemma counts_ok_queues p fs rq wq :
  counts_ok (put_pipe_info p) fs -> counts_ok (put_pipe_info (p <| rd_wait := rq |> <| wr_wait := wq |>)) fs.
Proof. unfold put_pipe_info. intros []. pipe_simpl. destruct (Z.pred (files p) =? 0); by split. Qed.

Lemma put_pipe_fields p :
  data (put_pipe_info p) = data p /\ start (put_pipe_info p) = start p /\ i_size (put_pipe_info p) = i_size p /\
  rd_wait (put_pipe_info p) = rd_wait p /\ wr_wait (put_pipe_info p) = wr_wait p /\
  readers (put_pipe_info p) = readers p /\ writers (put_pipe_info p) = writers p.
Proof. unfold put_pipe_info. pipe_simpl. by destruct (Z.pred (files p) =? 0). Qed.

Lemma drop_fields f p :
  data (drop_counts f p) = data p /\ start (drop_counts f p) = start p /\ i_size (drop_counts f p) = i_size p.
Proof. unfold drop_counts. by destruct (has_flag _ W_BIT), (has_flag _ R_BIT). Qed.

(** No call in progress uses the file. *)
Definition unused (f : file_desc) (a : activity) : Prop :=
  match a with
  | Idle => True
  | Reading g _ | Writing g _ => fd_id g <> fd_id f
  end.

Lemma call_ok_closed f fs a : call_ok fs a -> unused f a -> call_ok (closed f fs) a.
Proof. unfold closed. destruct a as [|g n|g j]; cbn; rewrite ?list_elem_of_filter; tauto. Qed.

Lemma queue_ok_ext kind wq w w' : (forall t, w t = w' t) -> queue_ok kind wq w -> queue_ok kind wq w'.
Proof. intros Hw []. split; [done| |]; intros t; rewrite <- Hw; auto. Qed.

Lemma wake_app l1 l2 w t : wake l2 (wake l1 w) t = wake (l1 ++ l2) w t.
Proof.
  unfold wake. repeat case_bool_decide; rewrite ?elem_of_app in *; cbn; tauto || done.
Qed.

Lemma pipe_release_ok f p fs w acc del :
  pipe_ok p fs w acc del -> f ∈ fs -> (forall t, unused f (act (w t))) ->
  let '(p', woken) := pipe_release f p in pipe_ok p' (closed f fs) (wake woken w) acc del.
Proof.
  intros Hok Hf Hun. pose proof (pipe_release_spec f p) as Hspec. destruct (pipe_release f p) as [p' woken].
  destruct Hspec as (rq & wq & w1 & w2 & -> & -> & Hm1 & Hm2 & Hlast). destruct Hok.
  pose proof (counts_closed f p fs po_counts0 Hf) as Hcnt.
  apply (counts_ok_queues _ _ rq wq) in Hcnt. set (q := (drop_counts f p) <| rd_wait := rq |> <| wr_wait := wq |>) in *.
  destruct (put_pipe_fields q) as (F1 & F2 & F3 & F4 & F5 & F6 & F7), (drop_fields f p) as (G1 & G2 & G3).
  assert (i_size (put_pipe_info q) = i_size p) as Hsz by (etrans; [exact F3|exact G3]).
  assert (start (put_pipe_info q) = start p) as Hst by (etrans; [exact F2|exact G2]).
  assert (data (put_pipe_info q) = data p) as Hda by (etrans; [exact F1|exact G1]).
  assert (queue_ok is_reading rq (wake (w1 ++ w2) w)) as Hrq.
  { eapply queue_ok_ext; [intros t; apply wake_app|].
    apply (queue_ok_wake_other is_reading is_writing _ (wr_wait p)); [by eapply queue_ok_wake| |exact kinds_apart|].
    - apply (queue_ok_wake_other is_writing is_reading _ (rd_wait p)); [done|done|exact kinds_apart'|].
      intros t. by apply (may_wake_sub _ _ _ t Hm1).
    - intros t. by apply (may_wake_sub _ _ _ t Hm2). }
  assert (queue_ok is_writing wq (wake (w1 ++ w2) w)) as Hwq.
  { eapply queue_ok_ext; [intros t; apply wake_app|]. eapply queue_ok_wake; [|done].
    apply (queue_ok_wake_other is_writing is_reading _ (rd_wait p)); [done|done|exact kinds_apart'|].
    intros t. by apply (may_wake_sub _ _ _ t Hm1). }
  assert (forall t, call_ok (closed f fs) (act (w t))) as Hcalls by (intros t; by apply call_ok_closed).
  split.
  - unfold buffer_ok. by rewrite Hsz, Hst.
  - rewrite <- po_fifo0. unfold contents. by rewrite Hsz, Hst, Hda.
  - exact Hcnt.
  - by apply calls_wake.
  - by rewrite F4.
  - by rewrite F5.
  - by apply idle_wake.
  - rewrite F4, F7, Hsz. intros Hne. change (sleepers rq <> []) in Hne.
    destruct po_sleep0 as [Hz _]; [intros Hnil; destruct Hm1 as [_ [[_ He]|[_ He]]]; congruence|].
    split; [done|]. intros Hw0. apply Hne, Hlast; [exact Hw0|].
    assert (exists t, t ∈ sleepers rq) as (t & Ht) by (destruct (sleepers rq); [done|eexists; by left]).
    apply (qo_asleep _ _ _ Hrq) in Ht as [_ Ht]. rewrite act_wake in Ht. specialize (Hcalls t).
    destruct (act (w t)) as [|g n|g j]; try done. destruct Hcalls as (Hg & Hgr & _).
    rewrite (co_readers _ _ Hcnt) in F6. change (readers q) with (readers (drop_counts f p)) in F6. rewrite <- F6.
    assert (g ∈ filter (has_mode R_BIT) (closed f fs)) as Hin by (by apply list_elem_of_filter).
    destruct (filter (has_mode R_BIT) (closed f fs)); [by apply elem_of_nil in Hin|]. cbn. lia.
  - rewrite F4, F5. destruct po_one0 as [Hnil|Hnil]; [left|right].
    + destruct Hm1 as [_ [[_ He]|[_ He]]]; [etrans; [exact He|done]|exact He].
    + destruct Hm2 as [_ [[_ He]|[_ He]]]; [etrans; [exact He|done]|exact He].
Qed.

(** ** Reachable states *)

Definition legal (ev : event) (s : pipesys) : Prop :=
  match ev with
  | Read t f n c => act (s_worker s t) = Idle /\ f ∈ s_files s /\ has_mode R_BIT f /\ 0 <= n < 2 ^ 31
  | Write t f b n c => act (s_worker s t) = Idle /\ f ∈ s_files s /\ has_mode W_BIT f /\ 0 <= n < 2 ^ 31 /\ 0 <= c
  | Resume t c => asleep (s_worker s t) = false /\ 0 <= c
  | Open f => s_files s <> [] /\ fd_id f ∉ fd_id <$> s_files s
  | Release f => f ∈ s_files s /\ forall t, unused f (act (s_worker s t))
  end.

Definition fresh_pipe (junk : Z -> Z) : pipe_inode_info :=
  mk_pipe junk 0 0 2 1 1 init_waitqueue_head init_waitqueue_head true.
Definition new_sys (p : pipe_inode_info) (rd wr : file_desc) : pipesys :=
  mk_pipesys p [rd; wr] (fun _ => mk_worker Idle false) [] [].

(** The two files [create_pipe] makes. *)
Definition both_ends (rd wr : file_desc) : Prop :=
  fd_mode rd = R_BIT /\ fd_mode wr = W_BIT /\ fd_id rd <> fd_id wr.

Inductive reachable (p : pipe_inode_info) (rd wr : file_desc) : pipesys -> Prop :=
| reach_new : reachable p rd wr (new_sys p rd wr)
| reach_step ev s s' : reachable p rd wr s -> legal ev s -> exec ev s = Ret s' -> reachable p rd wr s'.

Lemma create_pipe_ends locked inode info buffer junk g0 g1 flags p rd wr :
  c_pipe (create_pipe locked inode info buffer junk g0 g1 flags) = Some (p, rd, wr) -> snd g0 <> snd g1 ->
  p = fresh_pipe junk /\ both_ends rd wr.
Proof.
  unfold create_pipe. destruct (locked =? 0); [|done].
  destruct (get_pipe_inode inode info buffer junk) as [p'|] eqn:Hp; [|done]. cbn [negb].
  destruct (fst g0 =? 0); [|done]. destruct (fst g1 =? 0); [|done]. intros [= <- <- <-] Hne.
  split; [|done]. destruct inode, info, buffer; try discriminate Hp. by injection Hp as <-.
Qed.

Lemma new_sys_ok junk rd wr : both_ends rd wr -> sys_ok (new_sys (fresh_pipe junk) rd wr).
Proof.
  intros (Hr & Hw & Hne). pose proof pipe_buf_range as HB. unfold sys_ok, new_sys, fresh_pipe. split; pipe_simpl; try done.
  - split; cbn; lia.
  - split; try done; pipe_simpl; rewrite ?mode_count, ?Hr, ?Hw; try done. cbn.
    apply NoDup_cons. split; [|apply NoDup_singleton]. by intros ?%list_elem_of_singleton.
  - split; [by apply NoDup_nil|by intros t ?%elem_of_nil|]. intros t. split; [by intros ?%elem_of_nil|by intros [? _]].
  - split; [by apply NoDup_nil|by intros t ?%elem_of_nil|]. intros t. split; [by intros ?%elem_of_nil|by intros [? _]].
  - by left.
Qed.

(** A worker that has been woken leaves its queue and is as good as idle. *)
Lemma sleepers_remove_nil t wq : sleepers wq = [] -> sleepers (waitqueue_remove t wq) = [].
Proof. intros Hnil. by rewrite sleepers_remove, Hnil. Qed.

Lemma leave_rd t f n p fs w acc del :
  pipe_ok p fs w acc del -> act (w t) = Reading f n -> asleep (w t) = false ->
  pipe_ok (p <| rd_wait ::= waitqueue_remove t |>) fs (<[t := mk_worker Idle false]> w) acc del.
Proof.
  intros [] Ha Hs. split; pipe_simpl; try done.
  - destruct po_counts0. by split.
  - by apply calls_insert.
  - by apply queue_ok_leave.
  - apply queue_ok_insert; [done| |done]. intros Ht%(qo_kind _ _ _ po_wr0). by rewrite Ha in Ht.
  - by apply idle_insert.
  - intros Hne. apply po_sleep0. intros ?. by apply Hne, sleepers_remove_nil.
  - destruct po_one0; [left; by apply sleepers_remove_nil|by right].
Qed.

Lemma leave_wr t f j p fs w acc del :
  pipe_ok p fs w acc del -> act (w t) = Writing f j -> asleep (w t) = false ->
  pipe_ok (p <| wr_wait ::= waitqueue_remove t |>) fs (<[t := mk_worker Idle false]> w) acc del.
Proof.
  intros [] Ha Hs. split; pipe_simpl; try done.
  - destruct po_counts0. by split.
  - by apply calls_insert.
  - apply queue_ok_insert; [done| |done]. intros Ht%(qo_kind _ _ _ po_rd0). by rewrite Ha in Ht.
  - by apply queue_ok_leave.
  - by apply idle_insert.
  - destruct po_one0; [by left|right; by apply sleepers_remove_nil].
Qed.

(** The state of the running worker itself does not matter to its pass. *)
Lemma insert_wake_ext (w : Z -> worker) t x y l u :
  (<[t := y]> (wake l (<[t := x]> w))) u = (<[t := y]> (wake l w)) u.
Proof.
  destruct (decide (t = u)) as [->|Hne]; [by rewrite !fn_lookup_insert|].
  rewrite !fn_lookup_insert_ne by done. unfold wake. by rewrite fn_lookup_insert_ne.
Qed.

Lemma run_read_self t x f n c p fs w acc del :
  sys_ok (run_read t f n c (mk_pipesys p fs (<[t := x]> w) acc del)) ->
  sys_ok (run_read t f n c (mk_pipesys p fs w acc del)).
Proof.
  unfold run_read, sys_ok. pipe_simpl. destruct (pipe_read f n c p) as [[[p' woken] out] [ret|]]; pipe_simpl;
    apply pipe_ok_ext; intros u; apply insert_wake_ext.
Qed.

Lemma run_write_self t x f c j p fs w acc del :
  (exists s', run_write t f c j (mk_pipesys p fs (<[t := x]> w) acc del) = Ret s' /\ sys_ok s') ->
  exists s', run_write t f c j (mk_pipesys p fs w acc del) = Ret s' /\ sys_ok s'.
Proof.
  unfold run_write, sys_ok. pipe_simpl. destruct (pipe_write f c j p) as [[[p' woken] [ret|j']]|cr]; cbn [mbind res_mbind];
    intros (s' & [= <-] & Hok); eexists; (split; [reflexivity|]); revert Hok; pipe_simpl;
    apply pipe_ok_ext; intros u; apply insert_wake_ext.
Qed.

Lemma exec_ok ev s : sys_ok s -> legal ev s -> exists s', exec ev s = Ret s' /\ sys_ok s'.
Proof.
  destruct s as [p fs w acc del]. intros Hok. change (pipe_ok p fs w acc del) in Hok.
  destruct ev as [t f n c|t f b n c|t c|f|f]; cbn [legal exec]; pipe_simpl.
  - intros (Hi & Hf & Hm & Hn). eexists. split; [reflexivity|]. by apply read_ok.
  - intros (Hi & Hf & Hm & Hn & Hc). by apply write_ok.
  - intros [Ha Hc]. pose proof (po_calls _ _ _ _ _ Hok t) as Hcall.
    destruct (act (w t)) as [|f n|f j] eqn:Hact; [by eexists| |]; cbn in Hcall.
    + eexists. split; [reflexivity|]. apply (run_read_self t (mk_worker Idle false)).
      apply read_ok; [by eapply leave_rd|by rewrite fn_lookup_insert|tauto..].
    + apply (run_write_self t (mk_worker Idle false)).
      apply write_ok; [by eapply leave_wr|by rewrite fn_lookup_insert|tauto..|done].
  - intros [Hne Hid]. destruct (open_ok f p fs w acc del Hok Hne Hid) as (p' & -> & Hok'). cbn [mbind res_mbind].
    eexists. split; [reflexivity|]. exact Hok'.
  - intros [Hf Hun]. pose proof (pipe_release_ok f p fs w acc del Hok Hf Hun) as Hrel.
    destruct (pipe_release f p) as [p' woken]. eexists. split; [reflexivity|]. exact Hrel.
Qed.

Lemma reachable_ok junk rd wr s : both_ends rd wr -> reachable (fresh_pipe junk) rd wr s -> sys_ok s.
Proof.
  intros Hends. induction 1 as [|ev s s' _ IH Hl Hex]; [by apply new_sys_ok|].
  destruct (exec_ok ev s IH Hl) as (s2 & Hex2 & Hok). congruence.
Qed.

(** ** Claims *)

(** C25: a pipe is a first-in first-out queue of bytes, for any interleaving of
    readers, writers, opening and closing. In every state reached from a pipe that
    [create_pipe] made, with two different files for its ends, every further step succeeds (no assertion fails); the bytes that reads have
    delivered, followed by the bytes in the pipe, are exactly the bytes that writes
    have accepted, in order; the pipe holds at most PIPE_BUF bytes; a reader sleeps
    only while the pipe is empty and has a writer; and a reader and a writer never
    sleep at the same time. *)
Theorem pipe_is_fifo locked inode info buffer junk g0 g1 flags p rd wr s :
  c_pipe (create_pipe locked inode info buffer junk g0 g1 flags) = Some (p, rd, wr) -> snd g0 <> snd g1 ->
  reachable p rd wr s ->
  (forall ev, legal ev s -> exists s', exec ev s = Ret s') /\
  delivered s ++ contents (s_pipe s) = accepted s /\
  Z.of_nat (length (contents (s_pipe s))) <= PIPE_BUF /\
  (forall t f n, s_worker s t = mk_worker (Reading f n) true ->
     contents (s_pipe s) = [] /\ writers (s_pipe s) <> 0 /\
     forall u g j, s_worker s u <> mk_worker (Writing g j) true).
Proof.
  intros Hnew Hne Hr. destruct (create_pipe_ends _ _ _ _ _ _ _ _ _ _ _ Hnew Hne) as [-> Hends].
  pose proof (reachable_ok _ _ _ _ Hends Hr) as Hok. split; [|split; [|split]].
  - intros ev Hl. destruct (exec_ok ev s Hok Hl) as (s' & ? & _). by exists s'.
  - apply Hok.
  - unfold contents. rewrite length_fmap, length_seqZ. destruct (po_buffer _ _ _ _ _ Hok). lia.
  - intros t f n Ht. assert (t ∈ sleepers (rd_wait (s_pipe s))) as Hin.
    { apply (qo_asleep _ _ _ (po_rd _ _ _ _ _ Hok)). by rewrite Ht. }
    destruct (po_sleep _ _ _ _ _ Hok) as [Hz Hw]; [by intros Hnil; rewrite Hnil in Hin; apply elem_of_nil in Hin|].
    split; [unfold contents; by rewrite Hz|]. split; [done|]. intros u g j Hu.
    assert (u ∈ sleepers (wr_wait (s_pipe s))) as Hinu.
    { apply (qo_asleep _ _ _ (po_wr _ _ _ _ _ Hok)). by rewrite Hu. }
    destruct (po_one _ _ _ _ _ Hok) as [Hnil|Hnil]; rewrite Hnil in *; by eapply elem_of_nil.
Qed.

(** C26: a write of at most PIPE_BUF bytes is atomic: whatever the pipe holds, the
    call appends all of them at once and returns their number; or it appends
    none, because [data_copy] fails (its error is returned), or because there is
    no room, and then it returns EAGAIN if the file does not block and sleeps
    with the whole work left if it does. *)
Theorem pipe_write_atomic filp c b n p :
  buffer_ok p -> 0 < n <= PIPE_BUF -> 0 <= c ->
  let j := mk_job b n 0 in
  exists p' woken r, pipe_write filp c j p = Ret (p', woken, r) /\
    if i_size p + n <=? PIPE_BUF then
      (c = 0 -> r = inl n /\ contents p' = contents p ++ (b <$> seqZ 0 n)) /\
      (c <> 0 -> r = inl (- c) /\ contents p' = contents p)
    else contents p' = contents p /\ r = if nonblock filp then inl (- EAGAIN) else inr j.
Proof.
  intros Hb Hn Hc j. pose proof pipe_buf_range as HB.
  destruct (pipe_write_spec filp c j p Hb ltac:(cbn; lia) ltac:(cbn; lia) Hc) as (p' & woken & r & Hrun & Hw).
  exists p', woken, r. split; [done|]. pose proof (wr_contents _ _ _ _ _ Hw) as Hct.
  rewrite pipe_write_eq in Hrun by (cbn; lia). rewrite find_room_atomic in Hrun by (destruct Hb; cbn; lia). cbn [count] in Hrun.
  change (count j) with n in Hrun.
  destruct (Z.leb_spec (i_size p + n) PIPE_BUF) as [Hfit|Hfull].
  - cbv zeta in Hrun. destruct (compact _) as [p2|]; [|done]. cbn [mbind res_mbind] in Hrun.
    destruct (PIPE_BUF <? _); [done|]. rewrite Z.sub_diag in Hrun. cbn [count cum_io Z.ltb Z.compare andb] in Hrun.
    destruct (Z.eqb_spec c 0) as [->|Hne]; cbn [negb] in Hrun; injection Hrun as <- <- <-; (split; [intros ?|intros ?]); try done.
    + rewrite Hct. cbn [progress cum_io j]. rewrite (proj2 (Z.ltb_ge _ 0)) by lia. split; [by rewrite Z.add_0_l|].
      by rewrite Z.add_0_l, Z.sub_0_r.
    + rewrite Hct. cbn [progress]. rewrite (proj2 (Z.ltb_lt _ 0)) by lia. by rewrite app_nil_r.
  - destruct (nonblock filp); injection Hrun as <- <- <-; rewrite Hct; cbn; by rewrite ?Z.sub_diag, app_nil_r.
Qed.

End pipe.

(** ** Examples *)

Definition example_limit : PipeLimit.
Proof. refine {| PIPE_BUF := 512 |}. lia. Defined.

Definition example_rd : file_desc := mk_filp 0 0 R_BIT.
Definition example_wr : file_desc := mk_filp 1 O_WRONLY W_BIT.
Definition example_wr_nonblock : file_desc := mk_filp 1 (Z.lor O_WRONLY O_NONBLOCK) W_BIT.

Definition after (ev : event) (s : pipesys) : pipesys :=
  match exec (H := example_limit) ev s with Ret s' => s' | Crash _ => s end.

Definition example_new : pipesys := new_sys (fresh_pipe (fun _ => 255)) example_rd example_wr.

Lemma pipe_is_fifo_witness :
  let _ := example_limit in
  let s := after (Read 2 example_rd 2 0) (after (Write 1 example_wr (fun i => 65 + i) 3 0) example_new) in
  reachable (fresh_pipe (fun _ => 255)) example_rd example_wr s /\ delivered s ++ contents (s_pipe s) = accepted s /\
  delivered s = [65; 66] /\ contents (s_pipe s) = [67].
Proof.
  intros l s. assert (reachable (fresh_pipe (fun _ => 255)) example_rd example_wr s) as Hr.
  { apply (reach_step _ _ _ (Read 2 example_rd 2 0) (after (Write 1 example_wr (fun i => 65 + i) 3 0) example_new));
      [apply (reach_step _ _ _ (Write 1 example_wr (fun i => 65 + i) 3 0) example_new);
         [apply reach_new| |reflexivity]| |reflexivity].
    - repeat split; try done. right. by left.
    - repeat split; try done. by left. }
  destruct (pipe_is_fifo 0 true true true (fun _ => 255) (0, 0) (0, 1) 0 (fresh_pipe (fun _ => 255))
              example_rd example_wr s eq_refl ltac:(done) Hr) as (_ & Hf & _).
  split; [done|]. split; [done|]. split; vm_compute; reflexivity.
Defined.

Lemma pipe_write_atomic_witness :
  let _ := example_limit in
  exists p', pipe_write example_wr 0 (mk_job (fun i => i) 4 0) (fresh_pipe (fun _ => 255)) = Ret (p', [], inl 4) /\
    contents p' = [0; 1; 2; 3].
Proof.
  intros l.
  destruct (pipe_write_atomic example_wr 0 (fun i => i) 4 (fresh_pipe (fun _ => 255))) as (p' & woken & r & Hrun & Hcase);
    [vm_compute; repeat split; discriminate|vm_compute; repeat split; discriminate|done|].
  exists p'. destruct (proj1 Hcase eq_refl) as [Hr Hc]. split; [|exact Hc].
  rewrite Hrun, Hr. pose proof Hrun as Hrun'. vm_compute in Hrun'. by injection Hrun' as _ <- _.
Defined.

(** Four paths on which pipes go wrong.
    - A write of more than PIPE_BUF bytes through a file that must not block
      sleeps with nothing written, although the pipe has room for a part.
    - A writer that sleeps when the last reader closes its file is woken, finds
      the pipe as full as before and sleeps again, with nobody left to wake it;
      the write is not refused.
    - A length of -1, which reaches [pipe_write] as a size of 2^64 - 1, passes the
      checks on a pipe that holds one byte, because the sum wraps: that many
      bytes are copied to the buffer, and the byte in it is lost.
    - When no inode is free, [create_pipe] returns ENOMEM and leaves the mount of
      the pipes locked. *)
Theorem pipe_error_paths :
  let _ := example_limit in
  let one := after (Write 1 example_wr (fun i => i) 1 0) example_new in
  let job n := mk_job (fun i => i) n 0 in
  (exists p' woken j', pipe_write example_wr_nonblock 0 (job 1000) (s_pipe one) = Ret (p', woken, inr j') /\
     count j' = 1000 /\ contents p' = [0]) /\
  (let s := after (Release example_rd) (after (Write 1 example_wr (fun i => i) 512 0) one) in
   let s' := after (Resume 1 0) s in
   asleep (s_worker s 1) = false /\ readers (s_pipe s) = 0 /\
   asleep (s_worker s' 1) = true /\ readers (s_pipe s') = 0 /\ contents (s_pipe s') = [0]) /\
  (exists p', pipe_write example_wr 0 (job (2 ^ 64 - 1)) (s_pipe one) = Ret (p', [], inl (2 ^ 64 - 1)) /\
     i_size p' = 0) /\
  (forall info buffer junk g0 g1 flags,
     create_pipe 0 false info buffer junk g0 g1 flags = mk_new_pipe ENOMEM true None).
Proof.
  intros l one job. split; [|split; [|split]].
  - do 3 eexists. split; [reflexivity|]. by split; vm_compute.
  - vm_compute. done.
  - eexists. by split; [reflexivity|vm_compute].
  - done.
Qed.
