(* ===== verification/EventFd.v ===== *)
(** * Event counters of the file server

    servers/vfs/eventfd.c, on the wait queues of [WaitQueue]. A call runs without
    interruption up to [worker_wait], and its pass of the loop starts over when
    the worker runs again; the entry of the worker in the queue is made once for
    a call, before the loop. Entries that [eventfd_poll] adds are not modelled,
    nor calls in progress when the descriptor is closed. The theorems show that
    the counter neither overflows nor loses a count, and that a worker that was
    woken without finding what it waits for is never woken again. *)

From S2P Require Import Prelude WaitQueue.

Definition EFD_SEMAPHORE : Z := 1.
Definition EFD_CLOEXEC : Z := 524288.
Definition EFD_NONBLOCK : Z := 2048.
Definition ULLONG_MAX : Z := 2 ^ 64 - 1.
Definition O_RDWR : Z := 2.

Record eventfd_ctx := mk_ctx { refcount : Z; wq : list wait_queue_entry; count : Z; flags : Z }.
#[export] Instance rebuild_ctx : Rebuild eventfd_ctx := fun c =>
  mk_ctx (refcount c) (wq c) (count c) (flags c).

Definition get_eventfd_flags (eflags : Z) : Z :=
  let flags := 0 in
  let flags := if has_flag eflags EFD_CLOEXEC then Z.lor flags O_CLOEXEC else flags in
  if has_flag eflags EFD_NONBLOCK then Z.lor flags O_NONBLOCK else flags.

(** [cnt] and [fl] are ints of the message; [memory] says whether malloc succeeds
    and [get_fd] is [anon_inode_get_fd], given the flags of the new file. The
    context that is kept, if any, and the return value. *)
Definition do_eventfd (memory : bool) (get_fd : Z -> Z) (cnt fl : Z) : option eventfd_ctx * Z :=
  let filp_flags := get_eventfd_flags fl in
  if negb memory then (None, - ENOMEM)
  else
    let ctx := mk_ctx 1 init_waitqueue_head (wrapu 64 cnt) (wrapu 32 fl) in
    let fd := get_fd (Z.lor O_RDWR (Z.land filp_flags (Z.lor O_NONBLOCK O_CLOEXEC))) in
    (if fd <? 0 then None else Some ctx, fd).

Definition eventfd_ctx_do_read (ctx : eventfd_ctx) : eventfd_ctx * Z :=
  let cnt := if has_flag (flags ctx) EFD_SEMAPHORE then 1 else count ctx in
  (ctx <| count ::= fun c => wrapu 64 (c - cnt) |>, cnt).

(** [if (waitqueue_active(wq)) waitqueue_wakeup_all(wq)] *)
Definition wake_active (ctx : eventfd_ctx) : eventfd_ctx * list Z :=
  if waitqueue_active (wq ctx) then
    let '(q, woken) := waitqueue_wakeup_all (wq ctx) in (ctx <| wq := q |>, woken)
  else (ctx, []).

(** The end of [eventfd_read] when [retval] is positive: the context, the workers
    woken, the value taken and the return value; [copied] is what [data_copy] of
    the value to the caller answers. *)
Definition read_end (copied : Z) (ctx : eventfd_ctx) : eventfd_ctx * list Z * Z * Z :=
  let '(ctx, ucount) := eventfd_ctx_do_read ctx in
  let '(ctx, woken) := wake_active ctx in
  (ctx, woken, ucount, if negb (copied =? 0) then - EFAULT else 8).

Definition has_room (ctx : eventfd_ctx) (ucount : Z) : bool := ucount <? ULLONG_MAX - count ctx.

Definition write_end (ucount : Z) (ctx : eventfd_ctx) : eventfd_ctx * list Z * Z :=
  let ctx := ctx <| count ::= fun c => wrapu 64 (c + ucount) |> in
  let '(ctx, woken) := wake_active ctx in
  (ctx, woken, 8).

Definition eventfd_poll (ctx : eventfd_ctx) : Z :=
  let mask := 0 in
  let mask := if 0 <? count ctx then Z.lor mask EPOLLIN else mask in
  let mask := if count ctx =? ULLONG_MAX then Z.lor mask EPOLLERR else mask in
  if count ctx <? ULLONG_MAX - 1 then Z.lor mask EPOLLOUT else mask.

(** The context, if it is not freed, and the workers woken. *)
Definition eventfd_release (ctx : eventfd_ctx) : option eventfd_ctx * list Z :=
  let '(q, woken) := waitqueue_wakeup_all (wq ctx) in
  let ctx := ctx <| wq := q |> <| refcount ::= Z.pred |> in
  (if refcount ctx =? 0 then None else Some ctx, woken).

(** ** Workers *)

Inductive activity := Idle | Reading | Writing (ucount : Z).
Record worker := mk_worker { act : activity; asleep : bool }.

(** The context, the workers, and the values that writes have added and reads have
    taken so far. *)
Record efdsys := mk_efdsys { ctx : eventfd_ctx; workers : Z -> worker; added : list Z; taken : list Z }.

Definition wake (l : list Z) (w : Z -> worker) : Z -> worker := fun t =>
  if bool_decide (t ∈ l) then mk_worker (act (w t)) false else w t.

Definition idle (t : Z) (w : Z -> worker) : Z -> worker := <[t := mk_worker Idle false]> w.

Definition end_read (t copied : Z) (s : efdsys) : efdsys * option Z :=
  let '(c, woken, v, retval) := read_end copied (ctx s) in
  (mk_efdsys c (idle t (wake woken (workers s))) (added s) (taken s ++ [v]), Some retval).

Definition end_write (t ucount : Z) (s : efdsys) : efdsys * option Z :=
  let '(c, woken, retval) := write_end ucount (ctx s) in
  (mk_efdsys c (idle t (wake woken (workers s))) (added s ++ [ucount]) (taken s), Some retval).

(** [waitqueue_add], [worker_wait] and [waitqueue_remove] *)
Definition add_entry (t : Z) (s : efdsys) : efdsys :=
  mk_efdsys ((ctx s) <| wq ::= waitqueue_add t |>) (workers s) (added s) (taken s).
Definition worker_wait (t : Z) (a : activity) (s : efdsys) : efdsys * option Z :=
  (mk_efdsys (ctx s) (<[t := mk_worker a true]> (workers s)) (added s) (taken s), None).
Definition remove_entry (t : Z) (s : efdsys) : efdsys :=
  mk_efdsys ((ctx s) <| wq ::= waitqueue_remove t |>) (workers s) (added s) (taken s).

(** A pass of the loops of the two calls. *)
Definition read_pass (t copied : Z) (s : efdsys) : efdsys * option Z :=
  if 0 <? count (ctx s) then end_read t copied (remove_entry t s) else worker_wait t Reading s.
Definition write_pass (t ucount : Z) (s : efdsys) : efdsys * option Z :=
  if has_room (ctx s) ucount then end_write t ucount (remove_entry t s) else worker_wait t (Writing ucount) s.

(** The calls up to their return ([Some] of the value) or first wait ([None]); [n]
    is the length of the caller's buffer, [fl] the flags of the file, [copied]
    what [data_copy] answers. *)
Definition eventfd_read (t fl n copied : Z) (s : efdsys) : efdsys * option Z :=
  if n <? 8 then (s, Some (- EINVAL))
  else if 0 <? count (ctx s) then end_read t copied s
  else if negb (has_flag fl O_NONBLOCK) then read_pass t copied (add_entry t s)
  else (s, Some (- EAGAIN)).

Definition eventfd_write (t fl n copied ucount : Z) (s : efdsys) : efdsys * option Z :=
  if n <? 8 then (s, Some (- EINVAL))
  else if negb (copied =? 0) then (s, Some (- copied))
  else if ucount =? ULLONG_MAX then (s, Some (- EINVAL))
  else if has_room (ctx s) ucount then end_write t ucount s
  else if negb (has_flag fl O_NONBLOCK) then write_pass t ucount (add_entry t s)
  else (s, Some (- EAGAIN)).

Inductive event :=
| Read (t fl n copied : Z)
| Write (t fl n copied ucount : Z)
| Resume (t copied : Z).

(** [Resume]: a worker that was woken goes on with its call. *)
Definition exec (ev : event) (s : efdsys) : efdsys * option Z :=
  match ev with
  | Read t fl n copied => eventfd_read t fl n copied s
  | Write t fl n copied ucount => eventfd_write t fl n copied ucount s
  | Resume t copied =>
      match act (workers s t) with
      | Idle => (s, None)
      | Reading => read_pass t copied s
      | Writing ucount => write_pass t ucount s
      end
  end.

(** An idle worker makes a call; a worker that is not asleep goes on. *)
Definition legal (ev : event) (s : efdsys) : Prop :=
  match ev with
  | Read t _ _ _ => act (workers s t) = Idle /\ asleep (workers s t) = false
  | Write t _ _ _ ucount =>
      act (workers s t) = Idle /\ asleep (workers s t) = false /\ 0 <= ucount <= ULLONG_MAX
  | Resume t _ => asleep (workers s t) = false
  end.

Definition new_sys (c : eventfd_ctx) : efdsys := mk_efdsys c (fun _ => mk_worker Idle false) [] [].

Inductive reachable (s : efdsys) : efdsys -> Prop :=
| reach_refl : reachable s s
| reach_step ev s' : reachable s s' -> legal ev s' -> reachable s (exec ev s').1.

(** What a call waits for: it cannot go on now. *)
Definition blocked (c : eventfd_ctx) (a : activity) : Prop :=
  match a with
  | Idle => False
  | Reading => count c = 0
  | Writing u => has_room c u = false
  end.

(** ** The invariant *)

Definition sum (l : list Z) : Z := foldr Z.add 0 l.

Lemma sum_snoc l x : sum (l ++ [x]) = sum l + x.
Proof. unfold sum. induction l as [|y l IH]; cbn; [lia|]. rewrite IH. lia. Qed.

Lemma wake_active_spec c :
  let r := wake_active c in
  count r.1 = count c /\ flags r.1 = flags c /\ r.2 = sleepers (wq c) /\ sleepers (wq r.1) = [].
Proof.
  unfold wake_active. destruct (waitqueue_active (wq c)) eqn:Ha.
  - destruct (wakeup_all_spec (wq c)) as (Hw & Hs & _). by destruct (waitqueue_wakeup_all (wq c)).
  - revert Ha. cbn [fst snd]. by destruct (wq c).
Qed.

Record efd_ok (cnt : Z) (s : efdsys) : Prop := {
  ok_range : 0 <= count (ctx s) < ULLONG_MAX;
  ok_sum : cnt + sum (added s) = count (ctx s) + sum (taken s);
  ok_taken : Forall (fun v => 0 < v) (taken s);
  ok_sem : has_flag (flags (ctx s)) EFD_SEMAPHORE = true -> Forall (eq 1) (taken s);
  ok_work : forall t u, act (workers s t) = Writing u -> 0 <= u <= ULLONG_MAX;
  ok_wait : forall t, t ∈ sleepers (wq (ctx s)) ->
    asleep (workers s t) = true /\ blocked (ctx s) (act (workers s t))
}.

Lemma efd_act_wake l w t : act (wake l w t) = act (w t).
Proof. unfold wake. by destruct (bool_decide (t ∈ l)). Qed.

Lemma work_idle s t l :
  (forall t u, act (workers s t) = Writing u -> 0 <= u <= ULLONG_MAX) ->
  forall t' u, act (idle t (wake l (workers s)) t') = Writing u -> 0 <= u <= ULLONG_MAX.
Proof.
  intros Hw t' u. unfold idle. destruct (decide (t' = t)) as [->|Hne].
  - by rewrite fn_lookup_insert.
  - rewrite fn_lookup_insert_ne, efd_act_wake by done. apply Hw.
Qed.

Lemma end_read_ok cnt t copied s :
  efd_ok cnt s -> 0 < count (ctx s) -> efd_ok cnt (end_read t copied s).1.
Proof.
  intros [] Hpos. unfold end_read, read_end, eventfd_ctx_do_read.
  set (v := if has_flag (flags (ctx s)) EFD_SEMAPHORE then 1 else count (ctx s)).
  assert (0 < v <= count (ctx s)) as Hv by (unfold v; destruct (has_flag _ _); lia).
  destruct (wake_active_spec ((ctx s) <| count ::= fun c => wrapu 64 (c - v) |>)) as (Hc & Hf & _ & Hs).
  destruct (wake_active _) as [c woken]. cbn [fst snd] in *. change (flags c = flags (ctx s)) in Hf.
  change (count c = wrapu 64 (count (ctx s) - v)) in Hc.
  rewrite wrapu_small in Hc by (unfold ULLONG_MAX in *; lia). split; cbn [ctx added taken workers].
  - lia.
  - rewrite sum_snoc. lia.
  - apply Forall_app. split; [done|]. apply Forall_singleton. lia.
  - rewrite Hf. intros Hsem. apply Forall_app. split; [by apply ok_sem0|].
    apply Forall_singleton. unfold v. by rewrite Hsem.
  - by apply work_idle.
  - intros u. rewrite Hs. by intros ?%elem_of_nil.
Qed.

Lemma end_write_ok cnt t u s :
  efd_ok cnt s -> 0 <= u -> has_room (ctx s) u = true -> efd_ok cnt (end_write t u s).1.
Proof.
  intros [] Hu Hroom. unfold has_room in Hroom. apply Z.ltb_lt in Hroom. unfold end_write, write_end.
  destruct (wake_active_spec ((ctx s) <| count ::= fun c => wrapu 64 (c + u) |>)) as (Hc & Hf & _ & Hs).
  destruct (wake_active _) as [c woken]. cbn [fst snd] in *. change (flags c = flags (ctx s)) in Hf.
  change (count c = wrapu 64 (count (ctx s) + u)) in Hc.
  rewrite wrapu_small in Hc by (unfold ULLONG_MAX in *; lia). split; cbn [ctx added taken workers].
  - lia.
  - rewrite sum_snoc. lia.
  - done.
  - by rewrite Hf.
  - by apply work_idle.
  - intros t'. rewrite Hs. by intros ?%elem_of_nil.
Qed.

(** A worker waits, for the first time with a new entry or once more without. *)
Lemma worker_wait_ok cnt t a (new : bool) s :
  efd_ok cnt s -> asleep (workers s t) = false -> blocked (ctx s) a ->
  (forall u, a = Writing u -> 0 <= u <= ULLONG_MAX) ->
  efd_ok cnt (worker_wait t a (if new then add_entry t s else s)).1.
Proof.
  intros [] Ha Hb Hu. split; try by destruct new.
  - intros t' u. replace (workers _) with (<[t := mk_worker a true]> (workers s)) by by destruct new.
    destruct (decide (t = t')) as [->|Hne]; [rewrite fn_lookup_insert; apply Hu|].
    rewrite fn_lookup_insert_ne by done. apply ok_work0.
  - intros t' Ht'. replace (workers _) with (<[t := mk_worker a true]> (workers s)) by by destruct new.
    destruct (decide (t = t')) as [->|Hne].
    { rewrite fn_lookup_insert. split; [done|]. by destruct new. }
    rewrite fn_lookup_insert_ne by done. assert (t' ∈ sleepers (wq (ctx s))) as Hin.
    { destruct new; [|done]. by apply elem_of_cons in Ht' as [?|?]. }
    destruct (ok_wait0 t' Hin) as [? Hbl]. split; [done|]. by destruct new.
Qed.

Lemma remove_entry_ok cnt t s : efd_ok cnt s -> efd_ok cnt (remove_entry t s).
Proof.
  intros []. split; try done. intros t' Ht'. apply ok_wait0. revert Ht'.
  change (wq (ctx (remove_entry t s))) with (waitqueue_remove t (wq (ctx s))). rewrite sleepers_remove.
  by intros [_ ?]%list_elem_of_filter.
Qed.

Lemma read_pass_ok cnt t copied (new : bool) s :
  efd_ok cnt s -> asleep (workers s t) = false -> (new = true -> count (ctx s) <= 0) ->
  efd_ok cnt (read_pass t copied (if new then add_entry t s else s)).1.
Proof.
  intros Hok Ha Hnew. unfold read_pass. pose proof (ok_range _ _ Hok).
  replace (count (ctx _)) with (count (ctx s)) by by destruct new.
  destruct (Z.ltb_spec 0 (count (ctx s))) as [Hc|Hc].
  - destruct new; [specialize (Hnew eq_refl); lia|]. apply end_read_ok; [by apply remove_entry_ok|done].
  - apply worker_wait_ok; [done..| |done]. cbn. lia.
Qed.

Lemma write_pass_ok cnt t u (new : bool) s :
  efd_ok cnt s -> asleep (workers s t) = false -> 0 <= u <= ULLONG_MAX ->
  (new = true -> has_room (ctx s) u = false) ->
  efd_ok cnt (write_pass t u (if new then add_entry t s else s)).1.
Proof.
  intros Hok Ha Hu Hnew. unfold write_pass.
  replace (has_room (ctx _) u) with (has_room (ctx s) u) by by destruct new.
  destruct (has_room (ctx s) u) eqn:Hr.
  - destruct new; [by specialize (Hnew eq_refl)|]. apply end_write_ok; [by apply remove_entry_ok|lia|done].
  - apply worker_wait_ok; [done..|]. by intros ? [= <-].
Qed.

Lemma efd_exec_ok cnt ev s : efd_ok cnt s -> legal ev s -> efd_ok cnt (exec ev s).1.
Proof.
  intros Hok Hl. destruct ev as [t fl n c|t fl n c u|t c]; cbn [exec legal] in *.
  - destruct Hl as [_ Ha]. unfold eventfd_read. destruct (n <? 8); [done|].
    destruct (Z.ltb_spec 0 (count (ctx s))); [by apply end_read_ok|].
    destruct (negb (has_flag fl O_NONBLOCK)); [|done]. by apply (read_pass_ok _ _ _ true).
  - destruct Hl as (_ & Ha & Hu). unfold eventfd_write. destruct (n <? 8); [done|].
    destruct (negb (c =? 0)); [done|]. destruct (u =? ULLONG_MAX); [done|].
    destruct (has_room (ctx s) u) eqn:Hr; [apply end_write_ok; [done|lia|done]|].
    destruct (negb (has_flag fl O_NONBLOCK)); [|done]. by apply (write_pass_ok _ _ _ true).
  - destruct (act (workers s t)) as [| |u] eqn:Ha; [done|..].
    + by apply (read_pass_ok _ _ _ false).
    + apply (write_pass_ok _ _ _ false); [done|done| |done]. by apply (ok_work _ _ Hok t).
Qed.

Lemma do_eventfd_ok memory get_fd cnt fl c :
  0 <= cnt < 2 ^ 31 -> (do_eventfd memory get_fd cnt fl).1 = Some c -> efd_ok cnt (new_sys c).
Proof.
  intros Hc. unfold do_eventfd. destruct memory; cbn [negb fst]; [|done].
  destruct (get_fd _ <? 0); cbn [fst]; [done|]. intros [= <-].
  assert (wrapu 64 cnt = cnt) as Hw by (apply wrapu_small; lia). split; cbn; rewrite ?Hw; try done.
  - unfold ULLONG_MAX. lia.
  - by intros ? ?%elem_of_nil.
Qed.



(** ** Lost wake-ups *)

(** Asleep in a call, with an entry that wakes nobody. *)
Record stuck (t : Z) (s : efdsys) : Prop := {
  stuck_call : act (workers s t) <> Idle;
  stuck_asleep : asleep (workers s t) = true;
  stuck_entry : t ∉ sleepers (wq (ctx s))
}.

Lemma stuck_end t t' l w : t <> t' -> t ∉ l -> idle t' (wake l w) t = w t.
Proof.
  intros Hne Hl. unfold idle. rewrite fn_lookup_insert_ne by done. unfold wake.
  by rewrite bool_decide_eq_false_2.
Qed.

Lemma end_read_stuck t t' copied s : stuck t s -> t <> t' -> stuck t (end_read t' copied s).1.
Proof.
  intros [] Hne. unfold end_read, read_end. destruct (eventfd_ctx_do_read (ctx s)) as [c v] eqn:Hd.
  assert (wq c = wq (ctx s)) as Hq by by injection Hd as <- _.
  destruct (wake_active_spec c) as (_ & _ & Hw & Hs). rewrite Hq in Hw.
  destruct (wake_active c) as [c' woken]. cbn [fst snd] in *. subst woken.
  split; cbn [workers ctx]; rewrite ?stuck_end, ?Hs; try done. apply not_elem_of_nil.
Qed.

Lemma end_write_stuck t t' u s : stuck t s -> t <> t' -> stuck t (end_write t' u s).1.
Proof.
  intros [] Hne. unfold end_write, write_end. set (c := (ctx s) <| count ::= _ |>).
  destruct (wake_active_spec c) as (_ & _ & Hw & Hs). change (wq c) with (wq (ctx s)) in Hw.
  destruct (wake_active c) as [c' woken]. cbn [fst snd] in *. subst woken.
  split; cbn [workers ctx]; rewrite ?stuck_end, ?Hs; try done. apply not_elem_of_nil.
Qed.

Lemma worker_wait_stuck t t' a s : stuck t s -> t <> t' -> stuck t (worker_wait t' a s).1.
Proof. intros [] Hne. split; cbn [worker_wait fst workers ctx]; by rewrite ?fn_lookup_insert_ne. Qed.

Lemma remove_entry_stuck t t' s : stuck t s -> stuck t (remove_entry t' s).
Proof.
  intros []. split; try done.
  change (wq (ctx (remove_entry t' s))) with (waitqueue_remove t' (wq (ctx s))). rewrite sleepers_remove.
  by intros [_ ?]%list_elem_of_filter.
Qed.

Lemma add_entry_stuck t t' s : stuck t s -> t <> t' -> stuck t (add_entry t' s).
Proof.
  intros [] Hne. split; try done. change (t ∉ t' :: sleepers (wq (ctx s))). by apply not_elem_of_cons.
Qed.

Create HintDb stuck.
#[local] Hint Resolve end_read_stuck end_write_stuck worker_wait_stuck remove_entry_stuck add_entry_stuck : stuck.

(** No event wakes a worker that is stuck. *)
Lemma stuck_exec t ev s : stuck t s -> legal ev s -> stuck t (exec ev s).1.
Proof.
  intros Hst Hl. pose proof Hst as [Hcall Hasl _].
  destruct ev as [t' fl n c|t' fl n c u|t' c]; cbn [exec legal] in *;
    (assert (t <> t') as Hne by (intros ->; naive_solver congruence));
    unfold eventfd_read, eventfd_write, read_pass, write_pass;
    repeat case_match; cbn [fst]; eauto with stuck.
Qed.

(** Two readers sleep; a write wakes both, and the second finds nothing; another
    write comes. *)
Definition two_readers (fl : Z) : list event :=
  [Read 1 fl 8 0; Read 2 fl 8 0; Write 3 fl 8 0 5; Resume 1 0; Resume 2 0; Write 3 fl 8 0 7].
Definition run (evs : list event) (s : efdsys) : efdsys := foldl (fun s ev => (exec ev s).1) s evs.

Lemma reachable_run s0 evs s :
  reachable s0 s -> (forall i ev, evs !! i = Some ev -> legal ev (run (take i evs) s)) -> reachable s0 (run evs s).
Proof.
  revert s. induction evs as [|ev evs IH]; intros s Hr Hl; [done|]. apply IH.
  - apply reach_step; [done|]. by apply (Hl 0%nat).
  - intros i ev' Hi. by apply (Hl (S i)).
Qed.

Lemma stuck_forever t s s' : stuck t s -> reachable s s' -> stuck t s'.
Proof. intros Hst Hr. induction Hr; [done|by apply stuck_exec]. Qed.

(** What the calls on an event descriptor answer when they fail, and two
    failures of theirs. A buffer of fewer than 8 bytes and the value 2^64 - 1 are
    refused with EINVAL, and a call that would wait on a non-blocking file with
    EAGAIN; none of them changes anything. A new descriptor that gets no memory or
    no file number keeps no context. A count of -1 (the int made of UINT_MAX)
    starts the counter at 2^64 - 1, which polls as an error. And a wake-up can be
    lost: there is a run after which a reader sleeps while the counter is 7, and
    it sleeps in every state that can follow. *)
Theorem eventfd_error_paths :
  (forall t fl n copied u s, n < 8 ->
     eventfd_read t fl n copied s = (s, Some (- EINVAL)) /\
     eventfd_write t fl n copied u s = (s, Some (- EINVAL))) /\
  (forall t fl n s, 8 <= n -> eventfd_write t fl n 0 ULLONG_MAX s = (s, Some (- EINVAL))) /\
  (forall t fl n copied s, 8 <= n -> has_flag fl O_NONBLOCK = true -> count (ctx s) = 0 ->
     eventfd_read t fl n copied s = (s, Some (- EAGAIN))) /\
  (forall t fl n u s, 8 <= n -> has_flag fl O_NONBLOCK = true -> u < ULLONG_MAX -> has_room (ctx s) u = false ->
     eventfd_write t fl n 0 u s = (s, Some (- EAGAIN))) /\
  (forall memory get_fd cnt fl, memory = false \/ (forall x, get_fd x < 0) ->
     (do_eventfd memory get_fd cnt fl).1 = None) /\
  (exists c, do_eventfd true (fun _ => 3) (-1) 0 = (Some c, 3) /\ count c = ULLONG_MAX /\
     eventfd_poll c = Z.lor EPOLLIN EPOLLERR) /\
  (exists c s, do_eventfd true (fun _ => 3) 0 0 = (Some c, 3) /\ reachable (new_sys c) s /\
     act (workers s 2) = Reading /\ count (ctx s) = 7 /\
     forall s', reachable s s' -> asleep (workers s' 2) = true).
Proof.
  split; [|split; [|split; [|split; [|split; [|split]]]]].
  - intros t fl n copied u s Hn. apply Z.ltb_lt in Hn. unfold eventfd_read, eventfd_write. by rewrite Hn.
  - intros t fl n s Hn. apply Z.ltb_ge in Hn. unfold eventfd_write. by rewrite Hn, Z.eqb_refl.
  - intros t fl n copied s Hn Hf Hc. apply Z.ltb_ge in Hn. unfold eventfd_read. by rewrite Hn, Hc, Hf.
  - intros t fl n u s Hn Hf Hu Hr. apply Z.ltb_ge in Hn. unfold eventfd_write.
    by rewrite Hn, Z.eqb_refl, (proj2 (Z.eqb_neq u _)), Hr, Hf by lia.
  - intros [] get_fd cnt fl Hm; [|done]. destruct Hm as [?|Hm]; [done|]. unfold do_eventfd. cbn [negb fst].
    by rewrite (proj2 (Z.ltb_lt _ _) (Hm _)).
  - eexists. split; [by vm_compute|]. by vm_compute.
  - exists (mk_ctx 1 [] 0 0), (run (two_readers 0) (new_sys (mk_ctx 1 [] 0 0))).
    split; [by vm_compute|]. split; [|split; [by vm_compute|split; [by vm_compute|]]].
    + apply reachable_run; [apply reach_refl|]. intros i ev Hi.
      do 6 (destruct i as [|i]; [injection Hi as <-; vm_compute; repeat split; done|]). done.
    + intros s' Hr. refine (stuck_asleep _ _ (stuck_forever 2 _ s' _ Hr)).
      split; [by vm_compute..|]. by apply (bool_decide_unpack _).
Qed.
