(* ===== verification/PageCache.v ===== *)
(** * Page cache of the memory manager

    servers/mm/cache.c. The cache maps blocks of devices, and offsets of files, to
    pages that hold their contents; file systems put pages into it and map pages
    from it. The hash chains are sequences of entries, with new entries at the
    front ([list_add]). The regions of a process, in which the pages are found and
    mapped, are not modelled: whether that succeeds is an argument. *)

From S2P Require Import Prelude.

Definition HASHSIZE : Z := 1024.
Definition VMC_NO_INODE : Z := 0.
Definition NO_DEV : Z := 0.
Definition PFF_INCACHE : Z := 1.

Record page_cache := mk_page_cache {
  pc_dev : Z; pc_dev_offset : Z; pc_ino : Z; pc_ino_offset : Z; pc_page : Z
}.

(** The chains, the pages by number, and [mem_info.cached]. *)
Record vmstate := mk_vmstate {
  cache_hash_ino : Z -> list page_cache;
  cache_hash_dev : Z -> list page_cache;
  pg_refcount : Z -> Z;
  pg_flags : Z -> Z;
  cached : Z
}.
#[export] Instance rebuild_vmstate : Rebuild vmstate := fun v =>
  mk_vmstate (cache_hash_ino v) (cache_hash_dev v) (pg_refcount v) (pg_flags v) (cached v).

Definition _hash (key : Z) : Z := wrapu 64 key mod HASHSIZE.

Definition page_cache_init (refs flags : Z -> Z) : vmstate :=
  mk_vmstate (fun _ => []) (fun _ => []) refs flags 0.

Definition cache_add_hash_ino (cp : page_cache) (v : vmstate) : vmstate :=
  v <| cache_hash_ino ::= alter (cons cp) (_hash (pc_ino cp)) |>.

Definition cache_add_hash_dev (cp : page_cache) (v : vmstate) : vmstate :=
  if pc_dev_offset cp <? 0 then v
  else v <| cache_hash_dev ::= alter (cons cp) (_hash (pc_dev_offset cp)) |>.

(** The first entry of a chain that satisfies a test. *)
Definition first_entry (test : page_cache -> bool) (l : list page_cache) : option page_cache :=
  snd <$> list_find (fun cp => test cp = true) l.

Definition find_cache_by_dev (dev dev_off : Z) (v : vmstate) : option page_cache :=
  first_entry (fun cp => (pc_dev cp =? dev) && (pc_dev_offset cp =? dev_off)) (cache_hash_dev v (_hash dev_off)).

Definition find_cache_by_ino (dev ino ino_off : Z) (v : vmstate) : option page_cache :=
  if ino =? VMC_NO_INODE then None
  else first_entry (fun cp => (pc_dev cp =? dev) && (pc_ino cp =? ino) && (pc_ino_offset cp =? ino_off))
         (cache_hash_ino v (_hash ino)).

(** [memory] says whether [SLABALLOC] succeeds. *)
Definition page_cache_add (memory : bool) (dev dev_offset ino ino_offset page : Z) (v : vmstate) : res (vmstate * Z) :=
  if dev =? NO_DEV then Crash Panic
  else if (0 <=? dev_offset) && bool_decide (is_Some (find_cache_by_dev dev dev_offset v)) then Ret (v, 0)
  else if negb (ino =? VMC_NO_INODE) && bool_decide (is_Some (find_cache_by_ino dev ino ino_offset v)) then Ret (v, 0)
  else if has_flag (pg_flags v page) PFF_INCACHE then Ret (v, EINVAL)
  else if negb memory then Ret (v, ENOMEM)
  else
    let cache := mk_page_cache dev dev_offset ino ino_offset page in
    let v := v <| pg_refcount ::= alter (fun r => wrapu 16 (r + 1)) page |>
               <| pg_flags ::= alter (fun f => set_flag f PFF_INCACHE) page |>
               <| cached ::= fun c => c + ARCH_PG_SIZE |> in
    Ret (cache_add_hash_dev cache (cache_add_hash_ino cache v), 0).

Definition find_cacheblock (dev dev_offset ino ino_offset : Z) (v : vmstate) : option page_cache :=
  match (if negb (ino =? VMC_NO_INODE) then find_cache_by_ino dev ino ino_offset v else None) with
  | Some cp => Some cp
  | None => find_cache_by_dev dev dev_offset v
  end.

(** [lookup] is the page found at the address of the caller, or the error of the
    search for it. *)
Definition do_set_cacheblock (memory : bool) (lookup : Z + Z) (dev dev_offset ino ino_offset len : Z) (v : vmstate) :
    res (vmstate * Z) :=
  if (dev =? NO_DEV) || negb (len =? ARCH_PG_SIZE) then Ret (v, EINVAL)
  else
    match lookup with
    | inl err => Ret (v, err)
    | inr page => page_cache_add memory dev dev_offset ino ino_offset page v
    end.

(** [mapped] is what making a region for the page answers. The page that the caller
    sees at the new address, or an error. *)
Definition do_map_cacheblock (mapped dev dev_offset ino ino_offset len : Z) (v : vmstate) : Z + Z :=
  if (dev =? NO_DEV) || negb (len =? ARCH_PG_SIZE) then inl EINVAL
  else
    match find_cacheblock dev dev_offset ino ino_offset v with
    | None => inl ENOENT
    | Some cp => if negb (mapped =? 0) then inl mapped else inr (pc_page cp)
    end.
