(* ===== verification/FsCache.v ===== *)
(** * Buffer cache of the file systems

    lib/libfsdriver/cache.c, with the page cache of the memory manager
    ([PageCache]) behind it. A buffer is named by its index in [bufs]; the data of
    a buffer is the page mapped at its address, and pages can be shared with the
    page cache. A device is a sequence of bytes. The lists are sequences, as
    [ListHead] justifies. What a device, mmap and the memory manager answer in a
    call is given by [answers]. *)

From S2P Require Import Prelude PageCache.

Definition BF_DIRTY : Z := 1.
Definition BF_INCACHE : Z := 2.
Definition BUFFER_HASH_LOG2 : Z := 7.
Definition BUFFER_HASH_SIZE : Z := Z.shiftl 1 BUFFER_HASH_LOG2.
Definition BUFFER_HASH_MASK : Z := BUFFER_HASH_SIZE - 1.
Definition NR_IOREQS : Z := 64.

Record fsdriver_buffer := mk_buffer {
  data : option Z;
  dev : Z;
  block : Z;
  ino : Z;
  ino_offset : Z;
  refcnt : Z;
  size : Z;
  flags : Z
}.
#[export] Instance rebuild_buffer : Rebuild fsdriver_buffer := fun b =>
  mk_buffer (data b) (dev b) (block b) (ino b) (ino_offset b) (refcnt b) (size b) (flags b).

(** The variables of cache.c ([lru_head] and [buf_hash] from the front), the
    contents of pages by offset, those of devices by position, and the page cache. *)
Record fscache := mk_fscache {
  bufs : Z -> fsdriver_buffer;
  buf_hash : Z -> list Z;
  lru_head : list Z;
  cache_size : Z;
  may_use_vmcache : bool;
  vmcache : bool;
  mem : Z -> Z -> Z;
  disk : Z -> Z -> Z;
  vm : vmstate
}.
#[export] Instance rebuild_fscache : Rebuild fscache := fun s =>
  mk_fscache (bufs s) (buf_hash s) (lru_head s) (cache_size s) (may_use_vmcache s) (vmcache s)
    (mem s) (disk s) (vm s).

(** [fs_block_size] is set once and never changed. *)
Definition fs_block_size : Z := ARCH_PG_SIZE.

(** What the rest of the system answers during a call: [mmap] (a page, or failure),
    [bdev_read], [bdev_writev] for a position and a number of bytes, and the
    memory manager, when it maps a page, finds one, and allocates an entry. *)
Record answers := mk_answers {
  a_mmap : option Z;
  a_read : Z;
  a_write : Z -> Z -> Z;
  a_mapped : Z;
  a_lookup : Z;
  a_slab : bool
}.

Definition upd_buf (i : Z) (f : fsdriver_buffer -> fsdriver_buffer) (s : fscache) : fscache :=
  s <| bufs ::= alter f i |>.

Definition fsdriver_mark_dirty (i : Z) : fscache -> fscache :=
  upd_buf i (fun b => b <| flags ::= fun f => set_flag f BF_DIRTY |>).
Definition fsdriver_mark_clean (i : Z) : fscache -> fscache :=
  upd_buf i (fun b => b <| flags ::= fun f => clear_flag f BF_DIRTY |>).
Definition fsdriver_is_clean (i : Z) (s : fscache) : bool := negb (has_flag (flags (bufs s i)) BF_DIRTY).

Definition remove_lru (i : Z) (s : fscache) : fscache := s <| lru_head ::= filter (fun j => j <> i) |>.

(** [list_del(&bp->hash)], also of a buffer that is in no chain. *)
Definition remove_hash (i : Z) (s : fscache) : fscache :=
  s <| buf_hash ::= fun t h => filter (fun j => j <> i) (t h) |>.

Definition find_block (d b : Z) (s : fscache) : option Z :=
  snd <$> list_find (fun i => dev (bufs s i) = d /\ block (bufs s i) = b) (buf_hash s (Z.land b BUFFER_HASH_MASK)).

(** [mmap] of an anonymous page fills it with zeros. *)
Definition alloc_block (a : answers) (i block_size : Z) (s : fscache) : fscache * Z :=
  if bool_decide (is_Some (data (bufs s i))) && (size (bufs s i) =? block_size) then (s, 0)
  else
    match a_mmap a with
    | None => (upd_buf i (fun b => b <| data := None |> <| size := 0 |>) s, ENOMEM)
    | Some page =>
        (upd_buf i (fun b => b <| data := Some page |> <| size := block_size |>)
           (s <| mem ::= <[page := fun _ => 0]> |>), 0)
    end.

(** [bdev_read] puts the bytes it reports into the page. *)
Definition bdev_read (a : answers) (d pos page count : Z) (s : fscache) : fscache * Z :=
  (s <| mem ::= alter (fun old off => if (0 <=? off) && (off <? a_read a) then disk s d (pos + off) else old off) page |>,
   a_read a).

Definition read_block (a : answers) (i block_size : Z) (s : fscache) : res (fscache * Z) :=
  let bp := bufs s i in
  match data bp with
  | None => Crash BadPtr
  | Some page =>
      let '(s, retval) := bdev_read a (dev bp) (fs_block_size * block bp) page block_size s in
      Ret (s, if negb (retval =? block_size) then if 0 <? retval then EIO else retval else 0)
  end.

(** ** Writing back *)

(** [qsort] with [block_cmp_fn] *)
Definition block_cmp_fn (s : fscache) (lhs rhs : Z) : Z :=
  wraps 32 (block (bufs s lhs)) - wraps 32 (block (bufs s rhs)).

Fixpoint insert_sorted (s : fscache) (i : Z) (l : list Z) : list Z :=
  match l with
  | [] => [i]
  | j :: l' => if block_cmp_fn s i j <=? 0 then i :: l else j :: insert_sorted s i l'
  end.
Definition qsort (s : fscache) (l : list Z) : list Z := foldr (insert_sorted s) [] l.

(** The longest front part of consecutive blocks, at most [NR_IOREQS] of them;
    [n] are taken so far from block [first] on. *)
Fixpoint take_run (s : fscache) (first n : Z) (l : list Z) : list Z :=
  match l with
  | [] => []
  | i :: l => if negb (block (bufs s i) =? first + n) then [] else if NR_IOREQS <=? n then []
              else i :: take_run s first (n + 1) l
  end.

(** The byte at an offset of an I/O vector, and [bdev_writev], which writes the
    bytes it reports. *)
Fixpoint gather (s : fscache) (iov : list Z) (off : Z) : Z :=
  match iov with
  | [] => 0
  | i :: iov =>
      if off <? size (bufs s i) then match data (bufs s i) with Some page => mem s page off | None => 0 end
      else gather s iov (off - size (bufs s i))
  end.
Definition iov_bytes (s : fscache) (iov : list Z) : Z := foldr (fun i n => size (bufs s i) + n) 0 iov.

Definition bdev_writev (a : answers) (d pos : Z) (iov : list Z) (s : fscache) : fscache * Z :=
  let retval := a_write a pos (iov_bytes s iov) in
  (s <| disk ::= alter (fun old p => if (pos <=? p) && (p <? pos + retval) then gather s iov (p - pos) else old p) d |>,
   retval).

(** The loop over the buffers written; [retval] is compared as a size, and the
    result is the number of buffers done. *)
Fixpoint written_loop (first : bool) (l : list Z) (retval : Z) (s : fscache) : fscache * Z :=
  match l with
  | [] => (s, 0)
  | i :: l =>
      if wrapu 64 retval <? size (bufs s i) then
        (if first then upd_buf i (fun b => b <| dev := NO_DEV |>) s else s, 0)
      else
        let '(s', n) := written_loop false l (retval - size (bufs s i)) (fsdriver_mark_clean i s) in
        (s', 1 + n)
  end.

(** [scatter_gather] with [do_write], the only way it is called. Every turn but
    the last takes buffers away, so that their number is enough fuel. *)
Fixpoint scatter_loop (fuel : nat) (a : answers) (d : Z) (buffers : list Z) (s : fscache) : res fscache :=
  match fuel, buffers with
  | _, [] => Ret s
  | O, _ => Crash OutOfFuel
  | S fuel, b0 :: _ =>
      let first := block (bufs s b0) in
      let iov := take_run s first 0 buffers in
      if bool_decide (iov = []) then Crash Panic
      else
        let '(s, retval) := bdev_writev a d (first * fs_block_size) iov s in
        let '(s, i) := written_loop true iov retval s in
        if i =? 0 then Ret s else scatter_loop fuel a d (drop (Z.to_nat i) buffers) s
  end.
Definition scatter_gather (a : answers) (d : Z) (buffers : list Z) (s : fscache) : res fscache :=
  let l := qsort s buffers in scatter_loop (length l) a d l s.

Definition all_bufs (s : fscache) : list Z := seqZ 0 (cache_size s).

Definition fsdriver_flush_dev (a : answers) (d : Z) (s : fscache) : res fscache :=
  let dirty i := negb (fsdriver_is_clean i s) && (dev (bufs s i) =? d) && (refcnt (bufs s i) =? 0) in
  scatter_gather a d (filter (fun i => dirty i = true) (all_bufs s)) s.

Fixpoint flush_loop (a : answers) (l : list Z) (s : fscache) : res fscache :=
  match l with
  | [] => Ret s
  | i :: l =>
      s ← (if negb (dev (bufs s i) =? NO_DEV) && negb (fsdriver_is_clean i s)
           then fsdriver_flush_dev a (dev (bufs s i)) s else Ret s);
      flush_loop a l s
  end.
Definition fsdriver_flush_all (a : answers) (s : fscache) : res fscache := flush_loop a (all_bufs s) s.

(** ** Blocks *)

(** [vm_set_cacheblock] on the page of a buffer *)
Definition vm_set_cacheblock (a : answers) (i : Z) (s : fscache) : res (fscache * Z) :=
  let bp := bufs s i in
  let lookup := if negb (a_lookup a =? 0) then inl (a_lookup a)
                else match data bp with Some page => inr page | None => inl EINVAL end in
  '(v, retval) ← do_set_cacheblock (a_slab a) lookup (dev bp) (block bp * fs_block_size) (ino bp) (ino_offset bp)
                   (size bp) (vm s);
  Ret (s <| vm := v |>, retval).

Definition put_block (a : answers) (i : Z) (s : fscache) : res fscache :=
  if refcnt (bufs s i) <=? 0 then Crash Panic
  else
    let s := upd_buf i (fun b => b <| refcnt ::= Z.pred |>) s in
    if 0 <? refcnt (bufs s i) then Ret s
    else
      s ← (if vmcache s && negb (dev (bufs s i) =? NO_DEV) && negb (has_flag (flags (bufs s i)) BF_INCACHE) then
             '(s, retval) ← vm_set_cacheblock a i s;
             Ret (if retval =? 0 then upd_buf i (fun b => b <| flags ::= fun f => set_flag f BF_INCACHE |>) s
                  else if retval =? ENOSYS then s <| vmcache := false |> else s)
           else Ret s);
      Ret (if dev (bufs s i) =? NO_DEV then s <| lru_head ::= fun l => l ++ [i] |>
           else s <| lru_head ::= cons i |>).

(** A block that is in the cache *)
Definition use_block (i n off block_size : Z) (s : fscache) : fscache * (Z * option Z) :=
  if negb (size (bufs s i) =? block_size) then (s, (EIO, None))
  else
    let s := if refcnt (bufs s i) =? 0 then remove_lru i s else s in
    (upd_buf i (fun b =>
       let b := b <| refcnt ::= Z.succ |> in
       if negb (n =? VMC_NO_INODE) && ((ino b =? VMC_NO_INODE) || negb (ino b =? n) || negb (ino_offset b =? off))
       then b <| ino := n |> <| ino_offset := off |> else b) s, (0, Some i)).

(** The least recently used buffer is taken out of the lists, written back with
    all of its device, and becomes a buffer for the new block. *)
Definition take_buffer (a : answers) (d b n off : Z) (s : fscache) : res (fscache * Z) :=
  match last (lru_head s) with
  | None => Crash Panic
  | Some i =>
      let s := remove_hash i (remove_lru i s) in
      s ← (if negb (dev (bufs s i) =? NO_DEV) && negb (fsdriver_is_clean i s)
           then fsdriver_flush_dev a (dev (bufs s i)) s else Ret s);
      let s := if has_flag (flags (bufs s i)) BF_INCACHE
               then upd_buf i (fun b => b <| data := None |> <| size := 0 |>) s else s in
      if negb (refcnt (bufs s i) =? 0) then Crash Panic
      else
        Ret (upd_buf i (fun x => x <| flags := 0 |> <| dev := d |> <| block := b |> <| ino := n |>
                                   <| ino_offset := off |> <| refcnt ::= Z.succ |>) s, i)
  end.

(** The contents: a page of the page cache, or a page read from the device. *)
Definition fill_block (a : answers) (i block_size : Z) (s : fscache) : res (fscache * Z) :=
  let bp := bufs s i in
  match (if vmcache s then do_map_cacheblock (a_mapped a) (dev bp) (block bp * fs_block_size) (ino bp)
                             (ino_offset bp) block_size (vm s)
         else inl ENOSYS) with
  | inr page =>
      Ret (upd_buf i (fun b => b <| data := Some page |> <| size := block_size |>
                                 <| flags ::= fun f => set_flag f BF_INCACHE |>) s, 0)
  | inl _ =>
      let '(s, retval) := alloc_block a i block_size s in
      if negb (retval =? 0) then Ret (s, retval) else read_block a i block_size s
  end.

Definition get_block (a : answers) (d b n off block_size : Z) (s : fscache) : res (fscache * (Z * option Z)) :=
  match find_block d b s with
  | Some i => Ret (use_block i n off block_size s)
  | None =>
      '(s, i) ← take_buffer a d b n off s;
      '(s, retval) ← fill_block a i block_size s;
      if negb (retval =? 0) then
        s ← put_block a i (upd_buf i (fun x => x <| dev := NO_DEV |>) s);
        Ret (s, (retval, None))
      else
        Ret (s <| buf_hash ::= alter (cons i) (Z.land b BUFFER_HASH_MASK) |>, (0, Some i))
  end.

Definition fsdriver_get_block (a : answers) (d b : Z) (s : fscache) : res (fscache * (Z * option Z)) :=
  get_block a d b VMC_NO_INODE 0 fs_block_size s.
Definition fsdriver_get_block_ino (a : answers) (d b n off : Z) (s : fscache) : res (fscache * (Z * option Z)) :=
  get_block a d b n off fs_block_size s.
Definition fsdriver_put_block (a : answers) (bp : option Z) (s : fscache) : res fscache :=
  match bp with None => Ret s | Some i => put_block a i s end.

(** [fsdriver_init_buffer_cache] on the devices and the memory as they are; [memory]
    says whether calloc succeeds. *)
Definition use_vmcache (may : bool) : bool := may && (fs_block_size mod ARCH_PG_SIZE =? 0).
Definition fsdriver_init_buffer_cache (memory : bool) (new_size : Z) (s : fscache) : res fscache :=
  if negb memory then Crash Panic
  else
    Ret (mk_fscache (fun _ => mk_buffer None NO_DEV 0 VMC_NO_INODE 0 0 0 0) (fun _ => []) (rev (seqZ 0 new_size))
           new_size (may_use_vmcache s) (use_vmcache (may_use_vmcache s)) (mem s) (disk s) (vm s)).
Definition fsdriver_may_use_vmcache (ok : bool) (s : fscache) : fscache :=
  s <| may_use_vmcache := ok |> <| vmcache := use_vmcache ok |>.
