(* ===== verification/FsCacheProps.v ===== *)
(** * The buffer cache is transparent

    Theorems on [FsCache]: without the page cache of the memory manager, and with
    devices that do not fail halfway, the cache and the devices behind it act as a
    store of blocks, for any number of buffers and any sequence of calls. *)

From S2P Require Import Prelude PageCache FsCache.

Definition valid (s : fscache) (i : Z) : Prop := 0 <= i < cache_size s.
Definition in_block (off : Z) : Prop := 0 <= off < fs_block_size.

(** The byte a buffer holds at an offset. *)
Definition byte_of (s : fscache) (i off : Z) : Z :=
  match data (bufs s i) with Some page => mem s page off | None => 0 end.

(** Where a block is cached, and what it holds: the bytes of its buffer, or those
    of the device. *)
Definition cached_at (s : fscache) (d b : Z) : option Z :=
  snd <$> list_find (fun i => dev (bufs s i) = d /\ block (bufs s i) = b) (all_bufs s).
Definition view (s : fscache) (d b off : Z) : Z :=
  match cached_at s d b with
  | Some i => byte_of s i off
  | None => disk s d (b * fs_block_size + off)
  end.

(** What holds of the buffers, whatever list they are in. *)
Record core (s : fscache) : Prop := {
  c_page : forall i, valid s i -> dev (bufs s i) <> NO_DEV ->
    exists p, data (bufs s i) = Some p /\ size (bufs s i) = fs_block_size;
  c_apart : forall i j p, valid s i -> valid s j -> data (bufs s i) = Some p -> data (bufs s j) = Some p -> i = j;
  c_key : forall i j, valid s i -> valid s j -> dev (bufs s i) <> NO_DEV ->
    dev (bufs s i) = dev (bufs s j) -> block (bufs s i) = block (bufs s j) -> i = j;
  c_clean : forall i off, valid s i -> dev (bufs s i) <> NO_DEV -> fsdriver_is_clean i s = true -> in_block off ->
    byte_of s i off = disk s (dev (bufs s i)) (block (bufs s i) * fs_block_size + off);
  c_flags : forall i, valid s i -> has_flag (flags (bufs s i)) BF_INCACHE = false;
  c_refcnt : forall i, valid s i -> 0 <= refcnt (bufs s i);
  c_vm : vmcache s = false
}.

(** What holds of the lists; the buffer [x] is in none of them. *)
Record links (x : option Z) (s : fscache) : Prop := {
  l_nodup : NoDup (lru_head s);
  l_lru : forall i, i ∈ lru_head s <-> valid s i /\ refcnt (bufs s i) = 0 /\ x <> Some i;
  l_hash : forall h i, i ∈ buf_hash s h <->
    valid s i /\ dev (bufs s i) <> NO_DEV /\ h = Z.land (block (bufs s i)) BUFFER_HASH_MASK /\ x <> Some i;
  l_held : forall i, valid s i -> 0 < refcnt (bufs s i) -> x <> Some i -> dev (bufs s i) <> NO_DEV
}.

Definition cache_ok (s : fscache) : Prop := core s /\ links None s.

(** ** Lookups *)

Lemma list_find_only {A} (P : A -> Prop) `{!forall x, Decision (P x)} (l : list A) (x : A) :
  x ∈ l -> P x -> (forall y, y ∈ l -> P y -> y = x) -> snd <$> list_find P l = Some x.
Proof.
  intros Hx HP Hu. destruct (list_find P l) as [[k y]|] eqn:Hf; cbn.
  - apply list_find_Some in Hf as (Hk & HPy & _). f_equal. apply Hu; [by eapply list_elem_of_lookup_2|done].
  - apply list_find_None in Hf. by eapply Forall_forall in Hf.
Qed.

Lemma list_find_none {A} (P : A -> Prop) `{!forall x, Decision (P x)} (l : list A) :
  (forall y, y ∈ l -> ~ P y) -> snd <$> list_find P l = None.
Proof. intros Hn. apply fmap_None, list_find_None, Forall_forall. done. Qed.

Lemma list_find_in {A} (P : A -> Prop) `{!forall x, Decision (P x)} (l : list A) (x : A) :
  snd <$> list_find P l = Some x -> x ∈ l /\ P x.
Proof.
  destruct (list_find P l) as [[k y]|] eqn:Hf; [|done]. intros [= ->].
  apply list_find_Some in Hf as (Hk & HP & _). split; [by eapply list_elem_of_lookup_2|done].
Qed.

Lemma elem_of_all_bufs s i : i ∈ all_bufs s <-> valid s i.
Proof. unfold all_bufs, valid. rewrite elem_of_seqZ. lia. Qed.

Lemma cached_at_Some s d b i :
  cached_at s d b = Some i -> valid s i /\ dev (bufs s i) = d /\ block (bufs s i) = b.
Proof. intros [Hi Hk]%list_find_in. split; [by apply elem_of_all_bufs|done]. Qed.

Lemma cached_at_only s d b i :
  core s -> d <> NO_DEV -> valid s i -> dev (bufs s i) = d -> block (bufs s i) = b -> cached_at s d b = Some i.
Proof.
  intros Hc Hd Hi Hdi Hbi. apply list_find_only; [by apply elem_of_all_bufs|done|].
  intros j Hj%elem_of_all_bufs [Hdj Hbj]. apply (c_key _ Hc); congruence.
Qed.

Lemma cached_at_None s d b :
  cached_at s d b = None <-> forall i, valid s i -> dev (bufs s i) = d -> block (bufs s i) <> b.
Proof.
  split.
  - intros Hn i Hi Hd Hb. apply fmap_None, list_find_None in Hn.
    rewrite Forall_forall in Hn. by apply (Hn i); [apply elem_of_all_bufs|].
  - intros Hn. apply list_find_none. intros j Hj%elem_of_all_bufs [Hd Hb]. by apply (Hn j).
Qed.

(** The chain that is searched is enough. *)
Lemma find_block_cached s d b : cache_ok s -> d <> NO_DEV -> find_block d b s = cached_at s d b.
Proof.
  intros [Hc Hl] Hd. destruct (cached_at s d b) as [i|] eqn:Hi.
  - apply cached_at_Some in Hi as (Hv & Hdi & Hbi). apply list_find_only; [|done|].
    + apply (l_hash _ _ Hl). by rewrite Hdi, Hbi.
    + intros j (Hj & _)%(l_hash _ _ Hl) [Hdj Hbj]. apply (c_key _ Hc); congruence.
  - apply list_find_none. intros j (Hj & _)%(l_hash _ _ Hl) [Hdj Hbj].
    by apply (proj1 (cached_at_None s d b) Hi j).
Qed.

(** ** Writing back

    A device works when it writes all it is given. *)

Definition writes (a : answers) : Prop := forall pos n, a_write a pos n = n.

Definition cleaned (b : fsdriver_buffer) : fsdriver_buffer := b <| flags ::= fun f => clear_flag f BF_DIRTY |>.

(** The buffers that can be written: they hold a block. *)
Definition full (s : fscache) (i : Z) : Prop :=
  size (bufs s i) = fs_block_size /\ is_Some (data (bufs s i)).

Definition inside (s : fscache) (i p : Z) : Prop :=
  block (bufs s i) * fs_block_size <= p < block (bufs s i) * fs_block_size + fs_block_size.

(** The buffers of [l], all of device [d], are written; nothing else changes. *)
Record flushed (d : Z) (l : list Z) (s s' : fscache) : Prop := {
  f_bufs : forall j, bufs s' j = if bool_decide (j ∈ l) then cleaned (bufs s j) else bufs s j;
  f_written : forall i off, i ∈ l -> in_block off ->
    disk s' d (block (bufs s i) * fs_block_size + off) = byte_of s i off;
  f_disk : forall d' p, d' <> d \/ (forall i, i ∈ l -> ~ inside s i p) -> disk s' d' p = disk s d' p;
  f_hash : buf_hash s' = buf_hash s;
  f_lru : lru_head s' = lru_head s;
  f_size : cache_size s' = cache_size s;
  f_mem : mem s' = mem s;
  f_vmcache : vmcache s' = vmcache s
}.

Lemma cleaned_eq b :
  cleaned b = mk_buffer (data b) (dev b) (block b) (ino b) (ino_offset b) (refcnt b) (size b)
                (clear_flag (flags b) BF_DIRTY).
Proof. by destruct b. Qed.

Lemma cleaned_twice b : cleaned (cleaned b) = cleaned b.
Proof.
  rewrite !cleaned_eq. cbn [data dev block ino ino_offset refcnt size flags]. f_equal.
  unfold clear_flag. by rewrite <- Z.land_assoc, Z.land_diag.
Qed.

Lemma take_run_prefix s first n l : exists l', l = take_run s first n l ++ l'.
Proof.
  revert n. induction l as [|i l IH]; intros n; cbn [take_run]; [by exists []|].
  destruct (negb _); [by eexists|]. destruct (NR_IOREQS <=? n); [by eexists|].
  destruct (IH (n + 1)) as [l' Hl']. exists l'. cbn. by rewrite <- Hl'.
Qed.

Lemma take_run_blocks s first n l k i :
  take_run s first n l !! k = Some i -> block (bufs s i) = first + n + Z.of_nat k.
Proof.
  revert n k. induction l as [|j l IH]; intros n k; cbn [take_run]; [done|].
  destruct (Z.eqb_spec (block (bufs s j)) (first + n)) as [Hb|]; cbn [negb]; [|done].
  destruct (NR_IOREQS <=? n); [done|]. destruct k as [|k]; cbn; [intros [= <-]; lia|].
  intros Hk%IH. lia.
Qed.

Lemma take_run_length s first n l : 0 <= n -> Z.of_nat (length (take_run s first n l)) <= Z.max 0 (NR_IOREQS - n).
Proof.
  revert n. induction l as [|j l IH]; intros n Hn; cbn [take_run]; [cbn; lia|].
  destruct (negb _); [cbn; lia|]. destruct (Z.leb_spec NR_IOREQS n); [cbn; lia|].
  cbn [length]. specialize (IH (n + 1)). lia.
Qed.

Lemma iov_bytes_full s iov :
  Forall (full s) iov -> iov_bytes s iov = Z.of_nat (length iov) * fs_block_size.
Proof. induction 1 as [|i iov [Hs _] _ IH]; cbn; [done|]. unfold iov_bytes in IH. rewrite IH, Hs. lia. Qed.

Lemma gather_at s iov k i off :
  Forall (full s) iov -> iov !! k = Some i -> in_block off ->
  gather s iov (Z.of_nat k * fs_block_size + off) = byte_of s i off.
Proof.
  intros Hf. revert k. induction Hf as [|j iov [Hs _] _ IH]; intros k; [done|].
  unfold in_block. destruct k as [|k]; cbn [lookup list_lookup gather]; rewrite Hs.
  - intros [= ->] Ho. rewrite Z.mul_0_l, Z.add_0_l. by rewrite (proj2 (Z.ltb_lt _ _)) by lia.
  - intros Hk Ho. rewrite (proj2 (Z.ltb_ge _ _)) by (unfold fs_block_size, ARCH_PG_SIZE in *; lia).
    rewrite <- (IH k Hk Ho). f_equal. lia.
Qed.

Definition mark_all (l : list Z) (s : fscache) : fscache := foldl (fun s i => fsdriver_mark_clean i s) s l.

Lemma mark_all_bufs l s j :
  bufs (mark_all l s) j = if bool_decide (j ∈ l) then cleaned (bufs s j) else bufs s j.
Proof.
  unfold mark_all. revert s. induction l as [|i l IH]; intros s; cbn [foldl]; [done|]. rewrite IH.
  destruct (decide (j = i)) as [->|Hne].
  - rewrite (bool_decide_eq_true_2 (i ∈ i :: l)) by left.
    replace (bufs (fsdriver_mark_clean i s) i) with (cleaned (bufs s i)) by (cbn; by rewrite fn_lookup_alter).
    case_bool_decide; [apply cleaned_twice|done].
  - replace (bufs (fsdriver_mark_clean i s) j) with (bufs s j) by (cbn; by rewrite fn_lookup_alter_ne).
    by rewrite (bool_decide_ext (j ∈ i :: l) (j ∈ l)) by (rewrite elem_of_cons; naive_solver).
Qed.

Lemma mark_all_frame l s :
  let s' := mark_all l s in
  buf_hash s' = buf_hash s /\ lru_head s' = lru_head s /\ cache_size s' = cache_size s /\ mem s' = mem s /\
  disk s' = disk s /\ vmcache s' = vmcache s.
Proof. unfold mark_all. revert s. induction l as [|i l IH]; intros s; [done|]. apply (IH (fsdriver_mark_clean i s)). Qed.

(** When everything is written, every buffer is done. *)
Lemma written_loop_all first l s :
  Forall (full s) l -> Z.of_nat (length l) <= NR_IOREQS ->
  written_loop first l (Z.of_nat (length l) * fs_block_size) s = (mark_all l s, Z.of_nat (length l)).
Proof.
  revert first s. induction l as [|i l IH]; intros first s Hf Hlen; [done|].
  apply Forall_cons in Hf as [[Hs _] Hf]. cbn [written_loop length] in *. rewrite Hs.
  unfold NR_IOREQS, fs_block_size, ARCH_PG_SIZE in *.
  rewrite wrapu_small by lia. rewrite (proj2 (Z.ltb_ge _ _)) by lia.
  replace (Z.of_nat (S (length l)) * 4096 - 4096) with (Z.of_nat (length l) * 4096) by lia.
  rewrite IH; [f_equal; lia| |lia].
  eapply Forall_impl; [exact Hf|]. intros j [Hsj Hdj]. unfold full.
  replace (bufs (fsdriver_mark_clean i s) j) with (if bool_decide (j = i) then cleaned (bufs s j) else bufs s j).
  - by case_bool_decide.
  - cbn. case_bool_decide as Hji; [subst j; by rewrite fn_lookup_alter|by rewrite fn_lookup_alter_ne].
Qed.

Lemma byte_of_ext s s' i off :
  data (bufs s' i) = data (bufs s i) -> mem s' = mem s -> byte_of s' i off = byte_of s i off.
Proof. unfold byte_of. by intros -> ->. Qed.

Lemma flushed_data d l s s' j :
  flushed d l s s' ->
  data (bufs s' j) = data (bufs s j) /\ dev (bufs s' j) = dev (bufs s j) /\ block (bufs s' j) = block (bufs s j) /\
  refcnt (bufs s' j) = refcnt (bufs s j) /\ size (bufs s' j) = size (bufs s j).
Proof. intros Hf. rewrite (f_bufs _ _ _ _ Hf). by case_bool_decide. Qed.

Lemma flushed_byte d l s s' j off : flushed d l s s' -> byte_of s' j off = byte_of s j off.
Proof.
  intros Hf. apply byte_of_ext; [by destruct (flushed_data _ _ _ _ j Hf)|apply (f_mem _ _ _ _ Hf)].
Qed.

Lemma flushed_nil d s : flushed d [] s s.
Proof. split; try done. by intros i off ?%elem_of_nil. Qed.

(** No two buffers of the list hold the same block. *)
Definition distinct (s : fscache) (l : list Z) : Prop :=
  forall i j, i ∈ l -> j ∈ l -> block (bufs s i) = block (bufs s j) -> i = j.

Lemma inside_block s i off : in_block off -> inside s i (block (bufs s i) * fs_block_size + off).
Proof. unfold in_block, inside. lia. Qed.

Lemma inside_same s i j p : inside s i p -> inside s j p -> block (bufs s i) = block (bufs s j).
Proof. unfold inside, fs_block_size, ARCH_PG_SIZE. lia. Qed.

Lemma inside_ext s s' i p : block (bufs s' i) = block (bufs s i) -> inside s' i p <-> inside s i p.
Proof. unfold inside. by intros ->. Qed.

Lemma flushed_app d l1 l2 s s1 s2 :
  flushed d l1 s s1 -> flushed d l2 s1 s2 -> NoDup (l1 ++ l2) -> distinct s (l1 ++ l2) -> flushed d (l1 ++ l2) s s2.
Proof.
  intros H1 H2 Hnd Hdis. apply NoDup_app in Hnd as (_ & Hapart & _).
  assert (forall j, block (bufs s1 j) = block (bufs s j)) as Hblk by (intros j; apply (flushed_data _ _ _ _ j H1)).
  split.
  - intros j. rewrite (f_bufs _ _ _ _ H2), (f_bufs _ _ _ _ H1).
    rewrite (bool_decide_ext (j ∈ l1 ++ l2) (j ∈ l1 \/ j ∈ l2)) by apply elem_of_app.
    repeat case_bool_decide; try done; rewrite ?cleaned_twice; naive_solver.
  - intros i off [Hi|Hi]%elem_of_app Ho.
    + rewrite (f_disk _ _ _ _ H2); [by apply (f_written _ _ _ _ H1)|]. right. intros j Hj Hin.
      rewrite (inside_ext s s1 j) in Hin by done.
      assert (i = j) as ->; [|by apply (Hapart j)].
      apply Hdis; [by apply elem_of_app; left|by apply elem_of_app; right|].
      by apply (inside_same s i j (block (bufs s i) * fs_block_size + off)); [apply inside_block|].
    + rewrite <- (Hblk i), (f_written _ _ _ _ H2) by done. by apply (flushed_byte _ _ _ _ _ _ H1).
  - intros d' p Hp. rewrite (f_disk _ _ _ _ H2), (f_disk _ _ _ _ H1); [done|..].
    + destruct Hp as [?|Hp]; [by left|]. right. intros i Hi. apply Hp, elem_of_app. by left.
    + destruct Hp as [?|Hp]; [by left|]. right. intros i Hi. rewrite (inside_ext s s1 i) by done.
      apply Hp, elem_of_app. by right.
  - by rewrite (f_hash _ _ _ _ H2), (f_hash _ _ _ _ H1).
  - by rewrite (f_lru _ _ _ _ H2), (f_lru _ _ _ _ H1).
  - by rewrite (f_size _ _ _ _ H2), (f_size _ _ _ _ H1).
  - by rewrite (f_mem _ _ _ _ H2), (f_mem _ _ _ _ H1).
  - by rewrite (f_vmcache _ _ _ _ H2), (f_vmcache _ _ _ _ H1).
Qed.

(** A run of consecutive blocks covers the positions of its blocks. *)
Lemma run_position s first iov p :
  (forall k i, iov !! k = Some i -> block (bufs s i) = first + Z.of_nat k) ->
  first * fs_block_size <= p < first * fs_block_size + Z.of_nat (length iov) * fs_block_size ->
  exists k i off, iov !! k = Some i /\ in_block off /\
    p - first * fs_block_size = Z.of_nat k * fs_block_size + off /\ inside s i p.
Proof.
  intros Hrun Hp. unfold inside, in_block, fs_block_size, ARCH_PG_SIZE in *. set (q := p - first * 4096) in *.
  assert (0 <= q / 4096 < Z.of_nat (length iov)) as Hq by (split; [apply Z.div_pos|apply Z.div_lt_upper_bound]; lia).
  destruct (lookup_lt_is_Some_2 iov (Z.to_nat (q / 4096))) as [i Hi]; [lia|].
  pose proof (Z.div_mod q 4096 ltac:(lia)) as Hdm. pose proof (Z.mod_pos_bound q 4096 ltac:(lia)) as Hm.
  exists (Z.to_nat (q / 4096)), i, (q mod 4096). specialize (Hrun _ _ Hi). repeat split; try done; lia.
Qed.

Lemma write_run a d iov first s :
  writes a -> Forall (full s) iov -> Z.of_nat (length iov) <= NR_IOREQS ->
  (forall k i, iov !! k = Some i -> block (bufs s i) = first + Z.of_nat k) ->
  exists s', (let '(s, retval) := bdev_writev a d (first * fs_block_size) iov s in written_loop true iov retval s)
             = (s', Z.of_nat (length iov)) /\ flushed d iov s s'.
Proof.
  intros Hw Hf Hlen Hrun. unfold bdev_writev. rewrite Hw, iov_bytes_full by done.
  set (n := Z.of_nat (length iov) * fs_block_size). set (pos := first * fs_block_size).
  set (s1 := s <| disk ::= _ |>). exists (mark_all iov s1). split; [by apply written_loop_all|].
  destruct (mark_all_frame iov s1) as (Hh & Hl & Hs & Hm & Hd & Hv).
  assert (forall d' p, disk s1 d' p =
    if bool_decide (d' = d) && (pos <=? p) && (p <? pos + n) then gather s iov (p - pos) else disk s d' p) as Hdisk.
  { intros d' p. cbn. case_bool_decide as Hdd; [subst d'; by rewrite fn_lookup_alter|by rewrite fn_lookup_alter_ne]. }
  split; try done.
  - intros j. apply (mark_all_bufs iov s1).
  - intros i off [k Hk]%list_elem_of_lookup_1 Ho. rewrite Hd, Hdisk, bool_decide_eq_true_2 by done.
    pose proof (Hrun _ _ Hk) as Hb. pose proof (lookup_lt_Some _ _ _ Hk) as Hkl.
    rewrite (proj2 (Z.leb_le _ _)), (proj2 (Z.ltb_lt _ _)); cycle 1;
      try (unfold pos, n, in_block, fs_block_size, ARCH_PG_SIZE in *; lia).
    cbn [andb]. rewrite <- (gather_at s iov k i off) by done. f_equal. unfold pos. lia.
  - intros d' p Hp. rewrite Hd, Hdisk. case_bool_decide as Hdd; [|done]. cbn [andb].
    destruct (Z.leb_spec pos p), (Z.ltb_spec p (pos + n)); try done. exfalso.
    destruct (run_position s first iov p Hrun) as (k & i & off & Hk & _ & _ & Hin); [done|].
    destruct Hp as [?|Hp]; [done|]. apply (Hp i); [by eapply list_elem_of_lookup_2|done].
Qed.

Lemma full_flushed d l s s' i : flushed d l s s' -> full s i -> full s' i.
Proof.
  intros Hf [Hs Hd]. destruct (flushed_data _ _ _ _ i Hf) as (Hd' & _ & _ & _ & Hs'). unfold full. by rewrite Hd', Hs'.
Qed.

(** The loop writes all buffers, and the number of them is enough fuel. *)
Lemma scatter_loop_spec a d fuel l s :
  writes a -> (length l <= fuel)%nat -> Forall (full s) l -> NoDup l -> distinct s l ->
  exists s', scatter_loop fuel a d l s = Ret s' /\ flushed d l s s'.
Proof.
  intros Hw. revert l s. induction fuel as [|fuel IH]; intros l s Hlen Hf Hnd Hdis.
  { destruct l; [|cbn in Hlen; lia]. exists s. split; [done|apply flushed_nil]. }
  destruct l as [|b0 l0]; [exists s; split; [done|apply flushed_nil]|].
  cbn [scatter_loop]. set (first := block (bufs s b0)). set (l := b0 :: l0) in *.
  destruct (take_run_prefix s first 0 l) as [l' Hl']. set (iov := take_run s first 0 l) in *.
  assert (iov <> []) as Hne.
  { unfold iov, l. cbn [take_run]. by rewrite Z.add_0_r, Z.eqb_refl. }
  rewrite bool_decide_eq_false_2 by done.
  assert (Forall (full s) iov /\ Forall (full s) l') as [Hfi Hfl] by (rewrite Hl' in Hf; by apply Forall_app in Hf).
  destruct (write_run a d iov first s Hw Hfi) as (s1 & Hrun & Hfl1).
  { pose proof (take_run_length s first 0 l ltac:(lia)) as Hlr. change (take_run s first 0 l) with iov in Hlr. unfold NR_IOREQS in *. lia. }
  { intros k i Hk. apply take_run_blocks in Hk. lia. }
  destruct (bdev_writev a d (first * fs_block_size) iov s) as [s0 r]. rewrite Hrun.
  assert (length iov <> 0%nat) as Hlz by by destruct iov.
  rewrite (proj2 (Z.eqb_neq _ 0)), Nat2Z.id by lia.
  assert (drop (length iov) l = l') as -> by (rewrite Hl' at 1; apply drop_app_length).
  rewrite Hl' in Hnd, Hdis, Hlen |- *. rewrite length_app in Hlen.
  destruct (IH l' s1) as (s2 & Hs2 & Hfl2).
  - lia.
  - eapply Forall_impl; [exact Hfl|]. intros i. by apply full_flushed with (1 := Hfl1).
  - by apply NoDup_app in Hnd as (_ & _ & ?).
  - intros i j Hi Hj. destruct (flushed_data _ _ _ _ i Hfl1) as (_ & _ & -> & _).
    destruct (flushed_data _ _ _ _ j Hfl1) as (_ & _ & -> & _). apply Hdis; apply elem_of_app; by right.
  - exists s2. split; [done|]. by apply (flushed_app d iov l' s s1 s2).
Qed.

Lemma insert_sorted_perm s i l : insert_sorted s i l ≡ₚ i :: l.
Proof.
  induction l as [|j l IH]; cbn [insert_sorted]; [done|]. destruct (_ <=? 0); [done|]. rewrite IH. constructor.
Qed.

Lemma qsort_perm s l : qsort s l ≡ₚ l.
Proof. induction l as [|i l IH]; cbn; [done|]. unfold qsort in IH. by rewrite insert_sorted_perm, IH. Qed.

Lemma flushed_perm d l l' s s' : l ≡ₚ l' -> flushed d l s s' -> flushed d l' s s'.
Proof.
  intros Hp []. split; try done.
  - intros j. rewrite f_bufs0. by rewrite (bool_decide_ext (j ∈ l) (j ∈ l')) by by rewrite Hp.
  - intros i off. rewrite <- Hp. apply f_written0.
  - intros d' p Hd. apply f_disk0. destruct Hd as [?|Hd]; [by left|]. right. intros i. rewrite Hp. apply Hd.
Qed.

(** The buffers that a flush of a device writes *)
Definition dirty_of (s : fscache) (d : Z) : list Z :=
  filter (fun i => negb (fsdriver_is_clean i s) && (dev (bufs s i) =? d) && (refcnt (bufs s i) =? 0) = true) (all_bufs s).

Lemma elem_of_dirty s d i :
  i ∈ dirty_of s d <->
  valid s i /\ fsdriver_is_clean i s = false /\ dev (bufs s i) = d /\ refcnt (bufs s i) = 0.
Proof.
  unfold dirty_of. rewrite list_elem_of_filter, elem_of_all_bufs, !andb_true_iff, negb_true_iff, !Z.eqb_eq. tauto.
Qed.

Lemma flush_dev_spec a d s :
  core s -> writes a -> d <> NO_DEV ->
  exists s', fsdriver_flush_dev a d s = Ret s' /\ flushed d (dirty_of s d) s s'.
Proof.
  intros Hc Hw Hd. unfold fsdriver_flush_dev, scatter_gather. cbv zeta. fold (dirty_of s d).
  pose proof (qsort_perm s (dirty_of s d)) as Hp. set (l := qsort s _) in *.
  assert (forall i, i ∈ l -> valid s i /\ dev (bufs s i) = d) as Hl.
  { intros i. rewrite Hp, elem_of_dirty. tauto. }
  destruct (scatter_loop_spec a d (length l) l s Hw) as (s' & Hs' & Hf); [done|..].
  - apply Forall_forall. intros i [Hi Hdi]%Hl. destruct (c_page _ Hc i Hi) as (p & Hdp & Hs); [congruence|].
    split; [done|]. by exists p.
  - rewrite Hp. unfold dirty_of. apply NoDup_filter, NoDup_seqZ.
  - intros i j [Hi Hdi]%Hl [Hj Hdj]%Hl. apply (c_key _ Hc); congruence.
  - exists s'. split; [done|]. by apply (flushed_perm d l).
Qed.

Lemma clean_flag b : has_flag (flags (cleaned b)) BF_DIRTY = false.
Proof. rewrite cleaned_eq. apply has_flag_clear_same. Qed.

Lemma clean_incache b : has_flag (flags (cleaned b)) BF_INCACHE = has_flag (flags b) BF_INCACHE.
Proof. rewrite cleaned_eq. by apply has_flag_clear_other. Qed.

Lemma valid_ext s s' i : cache_size s' = cache_size s -> valid s' i <-> valid s i.
Proof. unfold valid. by intros ->. Qed.

Lemma inside_offset s i b off : in_block off -> inside s i (b * fs_block_size + off) -> block (bufs s i) = b.
Proof. unfold in_block, inside, fs_block_size, ARCH_PG_SIZE. lia. Qed.

(** A position of a block that no dirty buffer holds keeps its byte. *)
Lemma flush_disk_kept d s s' d' b off :
  flushed d (dirty_of s d) s s' -> in_block off ->
  (forall j, j ∈ dirty_of s d -> d' = d -> block (bufs s j) <> b) ->
  disk s' d' (b * fs_block_size + off) = disk s d' (b * fs_block_size + off).
Proof.
  intros Hf Ho Hn. apply (f_disk _ _ _ _ Hf). destruct (decide (d' = d)) as [->|]; [|by left]. right.
  intros j Hj Hin. apply (Hn j Hj); [done|]. by apply (inside_offset s j b off).
Qed.

Lemma flush_core d s s' : core s -> d <> NO_DEV -> flushed d (dirty_of s d) s s' -> core s'.
Proof.
  intros Hc Hd Hf. pose proof (f_size _ _ _ _ Hf) as Hsz.
  assert (forall j, valid s' j <-> valid s j) as Hv by (intros j; by apply valid_ext).
  assert (forall j, data (bufs s' j) = data (bufs s j) /\ dev (bufs s' j) = dev (bufs s j) /\
    block (bufs s' j) = block (bufs s j) /\ refcnt (bufs s' j) = refcnt (bufs s j) /\
    size (bufs s' j) = size (bufs s j)) as Hb by (intros j; by apply (flushed_data _ _ _ _ j Hf)).
  split.
  - intros i. destruct (Hb i) as (-> & -> & _ & _ & ->). rewrite Hv. apply (c_page _ Hc).
  - intros i j p. rewrite !Hv. destruct (Hb i) as (-> & _). destruct (Hb j) as (-> & _). apply (c_apart _ Hc).
  - intros i j. rewrite !Hv. destruct (Hb i) as (_ & -> & -> & _). destruct (Hb j) as (_ & -> & -> & _).
    apply (c_key _ Hc).
  - intros i off Hi%Hv. destruct (Hb i) as (_ & -> & -> & _). intros Hdi Hcl Ho.
    rewrite (flushed_byte _ _ _ _ _ _ Hf). destruct (decide (i ∈ dirty_of s d)) as [Hin|Hout].
    + pose proof Hin as (_ & _ & Hdd & _)%elem_of_dirty. rewrite Hdd. symmetry. by apply (f_written _ _ _ _ Hf).
    + rewrite (flush_disk_kept d s s') by (try done; intros j Hj Hdd Hbj; apply Hout;
        apply elem_of_dirty in Hj as Hj'; destruct Hj' as (Hjv & _ & Hjd & _);
        assert (i = j) as -> by (apply (c_key _ Hc); congruence); done).
      apply (c_clean _ Hc); [done..| |done]. revert Hcl. unfold fsdriver_is_clean.
      by rewrite (f_bufs _ _ _ _ Hf), bool_decide_eq_false_2.
  - intros i Hi%Hv. rewrite (f_bufs _ _ _ _ Hf). case_bool_decide; rewrite ?clean_incache; by apply (c_flags _ Hc).
  - intros i Hi%Hv. destruct (Hb i) as (_ & _ & _ & -> & _). by apply (c_refcnt _ Hc).
  - rewrite (f_vmcache _ _ _ _ Hf). apply Hc.
Qed.


Lemma list_find_ext_in {A} (P Q : A -> Prop) `{!forall x, Decision (P x), !forall x, Decision (Q x)} (l : list A) :
  (forall x, x ∈ l -> P x <-> Q x) -> list_find P l = list_find Q l.
Proof.
  induction l as [|x l IH]; intros Hpq; cbn; [done|].
  rewrite IH by (intros y Hy; apply Hpq; by right). specialize (Hpq x ltac:(left)).
  destruct (decide (P x)), (decide (Q x)); tauto.
Qed.

Lemma cached_at_ext s s' d b :
  cache_size s' = cache_size s ->
  (forall i, valid s i -> dev (bufs s' i) = dev (bufs s i) /\ block (bufs s' i) = block (bufs s i)) ->
  cached_at s' d b = cached_at s d b.
Proof.
  intros Hsz Hb. unfold cached_at. rewrite (list_find_ext_in _ (fun i => dev (bufs s i) = d /\ block (bufs s i) = b)).
  - unfold all_bufs. by rewrite Hsz.
  - intros i Hi%elem_of_all_bufs. apply (valid_ext s s') in Hi; [|done]. by destruct (Hb i Hi) as [-> ->].
Qed.

Lemma flush_view d s s' d' b off :
  flushed d (dirty_of s d) s s' -> in_block off -> view s' d' b off = view s d' b off.
Proof.
  intros Hf Ho. unfold view. rewrite (cached_at_ext s s'); [|apply (f_size _ _ _ _ Hf)|].
  - destruct (cached_at s d' b) as [i|] eqn:Hc; [apply (flushed_byte _ _ _ _ _ _ Hf)|].
    apply (flush_disk_kept d); [done..|]. intros j (Hj & _ & Hdj & _)%elem_of_dirty ->.
    by apply (proj1 (cached_at_None s d b) Hc).
  - intros i _. destruct (flushed_data _ _ _ _ i Hf) as (_ & ? & ? & _). done.
Qed.

Lemma flush_links x d l s s' : links x s -> flushed d l s s' -> links x s'.
Proof.
  intros [] Hf. pose proof (f_size _ _ _ _ Hf) as Hsz.
  split; rewrite ?(f_lru _ _ _ _ Hf), ?(f_hash _ _ _ _ Hf); try done.
  - intros i. destruct (flushed_data _ _ _ _ i Hf) as (_ & _ & _ & -> & _). by rewrite (valid_ext s s').
  - intros h i. destruct (flushed_data _ _ _ _ i Hf) as (_ & -> & -> & _). by rewrite (valid_ext s s').
  - intros i. destruct (flushed_data _ _ _ _ i Hf) as (_ & -> & _ & -> & _). rewrite (valid_ext s s') by done. apply l_held0.
Qed.

(** ** A buffer for another block *)

(** The contents of a buffer that can be dropped: the device has them. *)
Definition on_disk (s : fscache) (i : Z) : Prop :=
  dev (bufs s i) = NO_DEV \/
  forall off, in_block off -> byte_of s i off = disk s (dev (bufs s i)) (block (bufs s i) * fs_block_size + off).

Definition cached_else (s : fscache) (i d b : Z) : option Z :=
  snd <$> list_find (fun j => j <> i /\ dev (bufs s j) = d /\ block (bufs s j) = b) (all_bufs s).

Lemma view_without s i d b off :
  core s -> d <> NO_DEV -> valid s i -> on_disk s i -> in_block off ->
  view s d b off = match cached_else s i d b with
                   | Some j => byte_of s j off
                   | None => disk s d (b * fs_block_size + off)
                   end.
Proof.
  intros Hc Hd Hi Hdisk Ho. destruct (cached_else s i d b) as [j|] eqn:Hj.
  - apply list_find_in in Hj as (Hj%elem_of_all_bufs & _ & Hdj & Hbj). unfold view.
    by rewrite (cached_at_only s d b j).
  - unfold view. destruct (cached_at s d b) as [k|] eqn:Hk; [|done].
    apply cached_at_Some in Hk as (Hkv & Hdk & Hbk). destruct (decide (k = i)) as [->|Hne].
    + destruct Hdisk as [?|Hdisk]; [congruence|]. by rewrite Hdisk, Hdk, Hbk.
    + apply fmap_None, list_find_None in Hj. rewrite Forall_forall in Hj.
      destruct (Hj k); [by apply elem_of_all_bufs|done].
Qed.

(** Buffer [i] changes from one block to another, or to none. *)
Record swapped (i : Z) (s s' : fscache) : Prop := {
  w_size : cache_size s' = cache_size s;
  w_vm : vmcache s' = vmcache s;
  w_disk : disk s' = disk s;
  w_bufs : forall j, j <> i -> bufs s' j = bufs s j;
  w_mem : forall j p, valid s j -> j <> i -> data (bufs s j) = Some p -> mem s' p = mem s p;
  w_page : forall j p, valid s j -> j <> i -> data (bufs s j) = Some p -> data (bufs s' i) <> Some p;
  w_flags : has_flag (flags (bufs s' i)) BF_INCACHE = false;
  w_refcnt : 0 <= refcnt (bufs s' i);
  w_full : dev (bufs s' i) <> NO_DEV -> full s' i;
  w_key : forall j, valid s j -> j <> i -> dev (bufs s' i) <> NO_DEV -> dev (bufs s j) = dev (bufs s' i) ->
    block (bufs s j) <> block (bufs s' i);
  w_contents : on_disk s' i
}.

Lemma swapped_byte i s s' j off : swapped i s s' -> valid s j -> j <> i -> byte_of s' j off = byte_of s j off.
Proof.
  intros [] Hj Hne. unfold byte_of. rewrite w_bufs0 by done. destruct (data (bufs s j)) as [p|] eqn:Hp; [|done].
  by rewrite (w_mem0 j p).
Qed.

Lemma swapped_core i s s' : core s -> swapped i s s' -> core s'.
Proof.
  intros Hc Hw. pose proof Hw as []. assert (forall j, valid s' j <-> valid s j) as Hv by (intros j; by apply valid_ext).
  split.
  - intros j Hj%Hv Hd. destruct (decide (j = i)) as [->|Hne].
    + destruct (w_full0 Hd) as [Hs [p Hp]]. by exists p.
    + rewrite w_bufs0 in * by done. by apply (c_page _ Hc).
  - intros j k p Hj%Hv Hk%Hv. destruct (decide (j = i)) as [->|Hji], (decide (k = i)) as [->|Hki]; [done|..].
    + rewrite (w_bufs0 k) by done. intros Hp Hkp. by destruct (w_page0 k p).
    + rewrite (w_bufs0 j) by done. intros Hjp Hp. by destruct (w_page0 j p).
    + rewrite !w_bufs0 by done. by apply (c_apart _ Hc).
  - intros j k Hj%Hv Hk%Hv. destruct (decide (j = i)) as [->|Hji], (decide (k = i)) as [->|Hki]; [done|..].
    + rewrite (w_bufs0 k) by done. intros Hd Hdk Hb. by destruct (w_key0 k).
    + rewrite (w_bufs0 j) by done. intros Hd Hdj Hb. destruct (w_key0 j); congruence.
    + rewrite !w_bufs0 by done. by apply (c_key _ Hc).
  - intros j off Hj%Hv Hd Hcl Ho. destruct (decide (j = i)) as [->|Hne].
    + destruct w_contents0 as [?|Hcont]; [done|by apply Hcont].
    + rewrite (swapped_byte i s s') by done. unfold fsdriver_is_clean in Hcl. rewrite w_bufs0, w_disk0 in * by done.
      by apply (c_clean _ Hc).
  - intros j Hj%Hv. destruct (decide (j = i)) as [->|Hne]; [done|]. rewrite w_bufs0 by done. by apply (c_flags _ Hc).
  - intros j Hj%Hv. destruct (decide (j = i)) as [->|Hne]; [done|]. rewrite w_bufs0 by done. by apply (c_refcnt _ Hc).
  - rewrite w_vm0. apply Hc.
Qed.

Lemma swapped_view i s s' d b off :
  core s -> valid s i -> on_disk s i -> swapped i s s' -> d <> NO_DEV -> in_block off ->
  view s' d b off = view s d b off.
Proof.
  intros Hc Hi Hdisk Hw Hd Ho. pose proof (swapped_core i s s' Hc Hw) as Hc'. pose proof Hw as [].
  rewrite (view_without s i), (view_without s' i) by (done || by apply (valid_ext s s')).
  assert (cached_else s' i d b = cached_else s i d b) as ->.
  { unfold cached_else.
    rewrite (list_find_ext_in _ (fun j => j <> i /\ dev (bufs s j) = d /\ block (bufs s j) = b)).
    - unfold all_bufs. by rewrite w_size0.
    - intros j _. destruct (decide (j = i)) as [->|Hne]; [tauto|]. by rewrite w_bufs0. }
  destruct (cached_else s i d b) as [j|] eqn:Hj; [|by rewrite w_disk0].
  apply list_find_in in Hj as (Hj%elem_of_all_bufs & Hne & _). by apply (swapped_byte i).
Qed.

(** The rest of the system does its part in a call: devices write all they are
    given and read a whole block or fail, and mmap gives a page that is not in
    use. *)
Record serves (a : answers) (s : fscache) : Prop := {
  sv_write : writes a;
  sv_read : a_read a = fs_block_size \/ a_read a < 0;
  sv_fresh : forall p j, a_mmap a = Some p -> valid s j -> data (bufs s j) <> Some p
}.

(** What filling buffer [i] leaves; [r] is the return value. *)
Record filled (i r : Z) (s s' : fscache) : Prop := {
  fl_size : cache_size s' = cache_size s;
  fl_vm : vmcache s' = vmcache s;
  fl_disk : disk s' = disk s;
  fl_hash : buf_hash s' = buf_hash s;
  fl_lru : lru_head s' = lru_head s;
  fl_bufs : forall j, j <> i -> bufs s' j = bufs s j;
  fl_same : dev (bufs s' i) = dev (bufs s i) /\ block (bufs s' i) = block (bufs s i) /\
    flags (bufs s' i) = flags (bufs s i) /\ refcnt (bufs s' i) = refcnt (bufs s i);
  fl_mem : forall j p, valid s j -> j <> i -> data (bufs s j) = Some p -> mem s' p = mem s p;
  fl_page : forall j p, valid s j -> j <> i -> data (bufs s j) = Some p -> data (bufs s' i) <> Some p;
  fl_done : r = 0 -> full s' i /\
    forall off, in_block off -> byte_of s' i off = disk s (dev (bufs s i)) (block (bufs s i) * fs_block_size + off)
}.

Lemma upd_buf_eq i f s : bufs (upd_buf i f s) i = f (bufs s i).
Proof. cbn. by rewrite fn_lookup_alter. Qed.
Lemma upd_buf_ne i j f s : j <> i -> bufs (upd_buf i f s) j = bufs s j.
Proof. intros Hne. cbn. by rewrite fn_lookup_alter_ne. Qed.

(** The page a buffer gets: its own, if it has the right size, or a new one. *)
Lemma alloc_block_spec a i s :
  (forall p j, a_mmap a = Some p -> valid s j -> data (bufs s j) <> Some p) ->
  (forall j p, valid s j -> j <> i -> data (bufs s j) = Some p -> data (bufs s i) <> Some p) ->
  exists s' r, alloc_block a i fs_block_size s = (s', r) /\
    (r <> 0 -> filled i r s s') /\
    (r = 0 -> (forall r', r' <> 0 -> filled i r' s s') /\ full s' i).
Proof.
  intros Hfresh Hown. unfold alloc_block. destruct (bool_decide _ && _) eqn:Hb.
  - apply andb_true_iff in Hb as [Hsome%bool_decide_eq_true_1 Hs%Z.eqb_eq]. exists s, 0. split; [done|]. split; [done|].
    intros _. split; [|done]. intros r' Hr. by split.
  - destruct (a_mmap a) as [p|] eqn:Hm; eexists _, _; (split; [reflexivity|]); (split; [done|]) || idtac.
    + intros _. set (s1 := s <| mem ::= _ |>).
      assert (forall f, full (upd_buf i f s1) i <-> size (f (bufs s i)) = fs_block_size /\ is_Some (data (f (bufs s i)))) as Hfull
        by (intros f; unfold full; by rewrite upd_buf_eq).
      split; [|rewrite Hfull; split; [done|by exists p]]. intros r' Hr. split; try done.
      * intros j Hj. by rewrite upd_buf_ne.
      * by rewrite upd_buf_eq.
      * intros j q Hj Hne Hq. cbn. rewrite fn_lookup_insert_ne; [done|]. intros ->. by apply (Hfresh q j).
      * intros j q Hj Hne Hq. rewrite upd_buf_eq. cbn. intros [= ->]. by apply (Hfresh q j).
    + split; [|by intros ?]. intros Hr. split; try done.
      * intros j Hj. by rewrite upd_buf_ne.
      * by rewrite upd_buf_eq.
      * intros j q Hj Hne Hq. by rewrite upd_buf_eq.
Qed.

Lemma read_block_spec a i s p :
  data (bufs s i) = Some p -> a_read a = fs_block_size \/ a_read a < 0 ->
  exists s' r, read_block a i fs_block_size s = Ret (s', r) /\ bufs s' = bufs s /\ cache_size s' = cache_size s /\
    vmcache s' = vmcache s /\ disk s' = disk s /\ buf_hash s' = buf_hash s /\ lru_head s' = lru_head s /\
    (forall q, q <> p -> mem s' q = mem s q) /\
    (r = 0 -> forall off, in_block off ->
       mem s' p off = disk s (dev (bufs s i)) (block (bufs s i) * fs_block_size + off)).
Proof.
  intros Hp Hr. unfold read_block, bdev_read. rewrite Hp.
  eexists _, _. split; [reflexivity|]. do 6 (split; [done|]). split.
  - intros q Hq. cbn. by rewrite fn_lookup_alter_ne.
  - destruct (Z.eqb_spec (a_read a) fs_block_size) as [Heq|Hne]; cbn [negb].
    + intros _ off Ho. cbn. rewrite fn_lookup_alter. unfold in_block in Ho.
      rewrite (proj2 (Z.leb_le _ _)), (proj2 (Z.ltb_lt _ _)) by lia. cbn. f_equal. lia.
    + destruct (Z.ltb_spec 0 (a_read a)); [done|]. lia.
Qed.

Lemma fill_block_spec a i s :
  vmcache s = false -> a_read a = fs_block_size \/ a_read a < 0 ->
  (forall p j, a_mmap a = Some p -> valid s j -> data (bufs s j) <> Some p) ->
  (forall j p, valid s j -> j <> i -> data (bufs s j) = Some p -> data (bufs s i) <> Some p) ->
  exists s' r, fill_block a i fs_block_size s = Ret (s', r) /\ filled i r s s'.
Proof.
  intros Hvm Hread Hfresh Hown. unfold fill_block. rewrite Hvm.
  destruct (alloc_block_spec a i s Hfresh Hown) as (s1 & r & -> & Herr & Hok).
  destruct (Z.eqb_spec r 0) as [->|Hne]; cbn [negb]; [|eexists _, _; split; [done|by apply Herr]].
  destruct (Hok eq_refl) as [Hf [Hs [p Hp]]]. pose proof (Hf 1 ltac:(done)) as [].
  destruct (read_block_spec a i s1 p Hp Hread) as (s2 & r & -> & Hb & Hsz & Hv & Hd & Hh & Hl & Hm & Hdone).
  eexists _, _. split; [done|]. destruct fl_same0 as (Hdev & Hblk & ? & ?).
  assert (forall j q, valid s j -> j <> i -> data (bufs s j) = Some q -> q <> p) as Hqp
    by (intros j q Hj Hne Hq ->; by apply (fl_page0 j p)).
  split; rewrite ?Hb; try congruence; try done.
  - intros j q Hj Hne Hq. rewrite Hm by by apply (Hqp j). by apply (fl_mem0 j).
  - intros Hr0. split; [unfold full; by rewrite Hb, Hs, Hp|]. intros off Ho. unfold byte_of. rewrite Hb, Hp.
    rewrite Hdone by done. by rewrite Hdev, Hblk, fl_disk0.
Qed.

(** The lists without the buffer that is taken *)
Lemma unlinked s i :
  links None s -> valid s i -> refcnt (bufs s i) = 0 -> links (Some i) (remove_hash i (remove_lru i s)).
Proof.
  intros [] Hi Hr. split.
  - by apply NoDup_filter.
  - intros j. change (j ∈ filter (fun k => k <> i) (lru_head s) <-> valid s j /\ refcnt (bufs s j) = 0 /\ Some i <> Some j).
    rewrite list_elem_of_filter, l_lru0. naive_solver.
  - intros h j. change (j ∈ filter (fun k => k <> i) (buf_hash s h) <-> valid s j /\ dev (bufs s j) <> NO_DEV /\
      h = Z.land (block (bufs s j)) BUFFER_HASH_MASK /\ Some i <> Some j).
    rewrite list_elem_of_filter, l_hash0. naive_solver.
  - intros j Hj Hrj _. by apply l_held0.
Qed.

(** A buffer that is clean, or holds no block, can be dropped. *)
Lemma clean_on_disk s i : core s -> valid s i -> fsdriver_is_clean i s = true -> on_disk s i.
Proof.
  intros Hc Hi Hcl. destruct (decide (dev (bufs s i) = NO_DEV)) as [?|Hd]; [by left|]. right.
  intros off Ho. by apply (c_clean _ Hc).
Qed.

(** The state before the buffer [i] gets its new block *)
Record ready (i : Z) (s s' : fscache) : Prop := {
  r_core : core s';
  r_links : links (Some i) s';
  r_valid : valid s' i;
  r_refcnt : refcnt (bufs s' i) = 0;
  r_disk : on_disk s' i;
  r_size : cache_size s' = cache_size s;
  r_bufs : forall j, dev (bufs s' j) = dev (bufs s j) /\ block (bufs s' j) = block (bufs s j) /\
    data (bufs s' j) = data (bufs s j);
  r_view : forall d b off, in_block off -> view s' d b off = view s d b off
}.

Definition for_block (d b n off : Z) (x : fsdriver_buffer) : fsdriver_buffer :=
  x <| flags := 0 |> <| dev := d |> <| block := b |> <| ino := n |> <| ino_offset := off |> <| refcnt ::= Z.succ |>.

Lemma take_buffer_spec a d b n off s i :
  cache_ok s -> writes a -> last (lru_head s) = Some i ->
  exists s', take_buffer a d b n off s = Ret (upd_buf i (for_block d b n off) s', i) /\ ready i s s'.
Proof.
  intros [Hc Hl] Hw Hlast. unfold take_buffer. rewrite Hlast.
  assert (valid s i /\ refcnt (bufs s i) = 0) as [Hi Hr].
  { destruct (l_lru _ _ Hl i) as [Hin _]. destruct Hin as (? & ? & _); [|done].
    apply last_Some in Hlast as [l' ->]. apply elem_of_app. right. by left. }
  set (s1 := remove_hash i (remove_lru i s)).
  assert (core s1) as Hc1 by (destruct Hc; by split). pose proof (unlinked s i Hl Hi Hr) as Hl1. fold s1 in Hl1.
  assert (exists s2, (if negb (dev (bufs s1 i) =? NO_DEV) && negb (fsdriver_is_clean i s1)
                      then fsdriver_flush_dev a (dev (bufs s1 i)) s1 else Ret s1) = Ret s2 /\ ready i s s2)
    as (s2 & -> & Hready).
  { destruct (Z.eqb_spec (dev (bufs s1 i)) NO_DEV) as [Hn|Hn]; cbn [negb andb].
    { exists s1. split; [done|]. split; try done. by left. }
    destruct (fsdriver_is_clean i s1) eqn:Hcl; cbn [negb].
    { exists s1. split; [done|]. split; try done. by apply clean_on_disk. }
    destruct (flush_dev_spec a (dev (bufs s1 i)) s1 Hc1 Hw Hn) as (s2 & Hs2 & Hf). exists s2. split; [done|].
    pose proof (flush_core _ _ _ Hc1 Hn Hf) as Hc2. pose proof (f_size _ _ _ _ Hf) as Hsz.
    assert (valid s2 i) as Hi2 by by apply (valid_ext s1 s2).
    split; try done.
    - by apply (flush_links _ _ _ s1 s2 Hl1 Hf).
    - by destruct (flushed_data _ _ _ _ i Hf) as (_ & _ & _ & -> & _).
    - apply clean_on_disk; [done..|]. unfold fsdriver_is_clean. rewrite (f_bufs _ _ _ _ Hf).
      rewrite bool_decide_eq_true_2 by by apply elem_of_dirty. by rewrite clean_flag.
    - intros j. by destruct (flushed_data _ _ _ _ j Hf) as (-> & -> & -> & _).
    - intros d' b' o Ho. by rewrite (flush_view _ s1 s2 d' b' o Hf Ho). }
  cbn [mbind res_mbind]. cbv zeta. pose proof Hready as [].
  rewrite (c_flags _ r_core0 i r_valid0), r_refcnt0. cbn. by exists s2.
Qed.

(** ** Counts of users *)

(** Only the counts of users, and the file a block belongs to, change. *)
Record same_blocks (s s' : fscache) : Prop := {
  sb_bufs : forall j, data (bufs s' j) = data (bufs s j) /\ dev (bufs s' j) = dev (bufs s j) /\
    block (bufs s' j) = block (bufs s j) /\ size (bufs s' j) = size (bufs s j) /\ flags (bufs s' j) = flags (bufs s j);
  sb_refcnt : forall j, valid s j -> 0 <= refcnt (bufs s' j);
  sb_size : cache_size s' = cache_size s;
  sb_mem : mem s' = mem s;
  sb_disk : disk s' = disk s;
  sb_vm : vmcache s' = vmcache s
}.

Lemma same_blocks_byte s s' j off : same_blocks s s' -> byte_of s' j off = byte_of s j off.
Proof. intros []. apply byte_of_ext; [by destruct (sb_bufs0 j)|done]. Qed.

Lemma same_blocks_core s s' : core s -> same_blocks s s' -> core s'.
Proof.
  intros Hc Hs. pose proof Hs as []. assert (forall j, valid s' j <-> valid s j) as Hv by (intros j; by apply valid_ext).
  split.
  - intros i. rewrite Hv. destruct (sb_bufs0 i) as (-> & -> & _ & -> & _). apply (c_page _ Hc).
  - intros i j p. rewrite !Hv. destruct (sb_bufs0 i) as (-> & _). destruct (sb_bufs0 j) as (-> & _). apply (c_apart _ Hc).
  - intros i j. rewrite !Hv. destruct (sb_bufs0 i) as (_ & -> & -> & _). destruct (sb_bufs0 j) as (_ & -> & -> & _).
    apply (c_key _ Hc).
  - intros i off. rewrite Hv, (same_blocks_byte s s'), sb_disk0 by done. unfold fsdriver_is_clean.
    destruct (sb_bufs0 i) as (_ & -> & -> & _ & ->). apply (c_clean _ Hc).
  - intros i. rewrite Hv. destruct (sb_bufs0 i) as (_ & _ & _ & _ & ->). apply (c_flags _ Hc).
  - intros i. rewrite Hv. apply sb_refcnt0.
  - rewrite sb_vm0. apply Hc.
Qed.

Lemma same_blocks_view s s' d b off : same_blocks s s' -> view s' d b off = view s d b off.
Proof.
  intros Hs. pose proof Hs as []. unfold view. rewrite (cached_at_ext s s'); [|done|].
  - destruct (cached_at s d b); [by apply same_blocks_byte|by rewrite sb_disk0].
  - intros i _. by destruct (sb_bufs0 i) as (_ & ? & ? & _).
Qed.

(** ** Getting a block *)

(** A block is handed out with its contents, or an error is returned; nothing
    else that the cache shows changes. *)
Record got (d b : Z) (s s' : fscache) (r : Z) (bp : option Z) : Prop := {
  g_ok : cache_ok s';
  g_size : cache_size s' = cache_size s;
  g_view : forall d' b' off, d' <> NO_DEV -> in_block off -> view s' d' b' off = view s d' b' off;
  g_result : match bp with
             | Some i => r = 0 /\ valid s' i /\ dev (bufs s' i) = d /\ block (bufs s' i) = b /\ 0 < refcnt (bufs s' i) /\
                 forall off, in_block off -> byte_of s' i off = view s d b off
             | None => r <> 0
             end
}.

Lemma use_block_spec d b n off s i :
  cache_ok s -> d <> NO_DEV -> cached_at s d b = Some i ->
  exists s', use_block i n off fs_block_size s = (s', (0, Some i)) /\ got d b s s' 0 (Some i).
Proof.
  intros [Hc Hl] Hd Hi. pose proof (cached_at_Some _ _ _ _ Hi) as (Hv & Hdi & Hbi).
  destruct (c_page _ Hc i Hv) as (p & Hp & Hsz); [congruence|]. unfold use_block. rewrite Hsz, Z.eqb_refl. cbn [negb].
  set (s1 := if refcnt (bufs s i) =? 0 then remove_lru i s else s). set (f := fun x : fsdriver_buffer => _).
  exists (upd_buf i f s1). split; [done|].
  assert (forall x, data (f x) = data x /\ dev (f x) = dev x /\ block (f x) = block x /\ size (f x) = size x /\
    flags (f x) = flags x /\ refcnt (f x) = refcnt x + 1) as Hf by (intros x; unfold f; by destruct (_ && _)).
  assert (bufs s1 = bufs s) as Hb1 by by unfold s1; destruct (_ =? 0).
  assert (forall j, bufs (upd_buf i f s1) j = if bool_decide (j = i) then f (bufs s j) else bufs s j) as Hb.
  { intros j. case_bool_decide as Hj; [subst j; by rewrite upd_buf_eq, Hb1|by rewrite upd_buf_ne, Hb1]. }
  pose proof (c_refcnt _ Hc i Hv) as Hr0.
  assert (same_blocks s (upd_buf i f s1)) as Hsb.
  { split; try (by unfold s1; destruct (_ =? 0)).
    - intros j. rewrite Hb. case_bool_decide; [|done]. destruct (Hf (bufs s j)) as (? & ? & ? & ? & ? & _). done.
    - intros j Hj. rewrite Hb. case_bool_decide; [|by apply (c_refcnt _ Hc)].
      destruct (Hf (bufs s j)) as (_ & _ & _ & _ & _ & ->). pose proof (c_refcnt _ Hc j Hj). lia. }
  assert (forall j, valid (upd_buf i f s1) j <-> valid s j) as Hv' by (intros j; apply valid_ext, Hsb).
  split; [split; [by apply (same_blocks_core s)|]| | |].
  - destruct Hl. assert (lru_head (upd_buf i f s1) = filter (fun j => j <> i) (lru_head s)) as Hlru.
    { change (lru_head s1 = filter (fun j => j <> i) (lru_head s)). unfold s1.
      destruct (Z.eqb_spec (refcnt (bufs s i)) 0) as [Hz|Hz]; [done|]. symmetry. apply filter_ne_notin.
      rewrite l_lru0. naive_solver. }
    split; rewrite ?Hlru.
    + by apply NoDup_filter.
    + intros j. rewrite list_elem_of_filter, l_lru0, Hv', Hb.
      case_bool_decide as Hj; [|naive_solver]. subst j. destruct (Hf (bufs s i)) as (_ & _ & _ & _ & _ & ->).
      naive_solver lia.
    + intros h j. change (buf_hash (upd_buf i f s1) h) with (buf_hash s1 h).
      replace (buf_hash s1 h) with (buf_hash s h) by by unfold s1; destruct (_ =? 0).
      rewrite l_hash0, Hv'. by destruct (sb_bufs _ _ Hsb j) as (_ & -> & -> & _).
    + intros j. rewrite Hv', Hb. case_bool_decide as Hj; [|apply l_held0]. subst j.
      intros _ _ _. destruct (Hf (bufs s i)) as (_ & -> & _). congruence.
  - apply Hsb.
  - intros d' b' o _ _. by apply same_blocks_view.
  - split; [done|]. split; [by apply Hv'|]. destruct (sb_bufs _ _ Hsb i) as (_ & -> & -> & _).
    split; [done|]. split; [done|]. split.
    + rewrite Hb, bool_decide_eq_true_2 by done. destruct (Hf (bufs s i)) as (_ & _ & _ & _ & _ & ->). lia.
    + intros o Ho. rewrite (same_blocks_byte s) by done. unfold view. by rewrite Hi.
Qed.

(** The buffer that was filled is a good one for its block. *)
Lemma filled_swapped i d b n off s0 s s' :
  ready i s0 s -> cached_at s0 d b = None -> d <> NO_DEV ->
  filled i 0 (upd_buf i (for_block d b n off) s) s' -> swapped i s s'.
Proof.
  intros [] Hnone Hd []. rewrite upd_buf_eq in *. destruct fl_same0 as (Hdev & Hblk & Hfl & Hrc).
  assert (forall j, j <> i -> bufs (upd_buf i (for_block d b n off) s) j = bufs s j) as Hj by (intros; by apply upd_buf_ne).
  destruct (fl_done0 eq_refl) as [Hfull Hcont]. split; try done.
  - intros j Hne. by rewrite fl_bufs0, Hj.
  - intros j p Hv Hne. rewrite <- (Hj j Hne). by apply fl_mem0.
  - intros j p Hv Hne. rewrite <- (Hj j Hne). by apply fl_page0.
  - by rewrite Hfl.
  - rewrite Hrc. change (0 <= Z.succ (refcnt (bufs s i))). lia.
  - intros j Hv Hne _. rewrite Hdev, Hblk. destruct (r_bufs0 j) as (-> & -> & _).
    apply (proj1 (cached_at_None s0 d b) Hnone j). by apply (valid_ext s0 s).
  - right. intros o Ho. by rewrite Hcont, Hdev, Hblk, fl_disk0.
Qed.

(** After a failure the buffer holds no block, and goes to the end of the list. *)
Definition given_up (i : Z) (s : fscache) : fscache :=
  (upd_buf i (fun x => x <| dev := NO_DEV |> <| refcnt ::= Z.pred |>) s) <| lru_head ::= fun l => l ++ [i] |>.

Lemma put_failed a i s :
  refcnt (bufs s i) = 1 ->
  exists s', put_block a i (upd_buf i (fun x => x <| dev := NO_DEV |>) s) = Ret s' /\
    (forall j, bufs s' j = bufs (given_up i s) j) /\ lru_head s' = lru_head s ++ [i] /\ buf_hash s' = buf_hash s /\
    cache_size s' = cache_size s /\ vmcache s' = vmcache s /\ mem s' = mem s /\ disk s' = disk s.
Proof.
  intros Hr. unfold put_block. set (s1 := upd_buf i (fun x => x <| dev := NO_DEV |>) s).
  assert (refcnt (bufs s1 i) = 1) as Hr1 by (unfold s1; by rewrite upd_buf_eq).
  rewrite Hr1. cbn [Z.leb Z.compare]. set (s2 := upd_buf i _ s1).
  assert (bufs s2 i = (bufs s i) <| dev := NO_DEV |> <| refcnt ::= Z.pred |>) as Hb2
    by (unfold s2, s1; by rewrite !upd_buf_eq).
  assert (refcnt (bufs s2 i) = 0) as -> by (rewrite Hb2; change (Z.pred (refcnt (bufs s i)) = 0); lia).
  cbn [Z.ltb Z.compare]. assert (dev (bufs s2 i) =? NO_DEV = true) as Hd2 by by rewrite Hb2.
  rewrite Hd2, andb_false_r. cbn [andb mbind res_mbind]. rewrite Hd2.
  eexists. split; [reflexivity|]. split; [|done]. intros j.
  change (bufs s2 j = bufs (upd_buf i (fun x => x <| dev := NO_DEV |> <| refcnt ::= Z.pred |>) s) j).
  destruct (decide (j = i)) as [->|Hne]; [by rewrite Hb2, upd_buf_eq|]. unfold s2, s1. by rewrite !upd_buf_ne.
Qed.

Lemma given_up_swapped i d b n off r s0 s s1 s' :
  ready i s0 s -> filled i r (upd_buf i (for_block d b n off) s) s1 ->
  (forall j, bufs s' j = bufs (given_up i s1) j) -> cache_size s' = cache_size s1 -> vmcache s' = vmcache s1 ->
  mem s' = mem s1 -> disk s' = disk s1 -> swapped i s s'.
Proof.
  intros [] [] Hb Hsz Hvm Hm Hdk. rewrite upd_buf_eq in *. destruct fl_same0 as (_ & _ & Hfl & Hrc).
  assert (forall j, j <> i -> bufs (upd_buf i (for_block d b n off) s) j = bufs s j) as Hj by (intros; by apply upd_buf_ne).
  assert (bufs s' i = (bufs s1 i) <| dev := NO_DEV |> <| refcnt ::= Z.pred |>) as Hbi by (rewrite Hb; apply upd_buf_eq).
  assert (dev (bufs s' i) = NO_DEV) as Hdev by by rewrite Hbi.
  split; try congruence.
  - by rewrite Hsz.
  - by rewrite Hvm.
  - by rewrite Hdk.
  - intros j Hne. rewrite Hb. transitivity (bufs s1 j); [by apply upd_buf_ne|]. by rewrite fl_bufs0, Hj.
  - intros j p Hv Hne. rewrite <- (Hj j Hne), Hm. by apply fl_mem0.
  - intros j p Hv Hne. rewrite <- (Hj j Hne), Hbi. by apply fl_page0.
  - rewrite Hbi. change (has_flag (flags (bufs s1 i)) BF_INCACHE = false). by rewrite Hfl.
  - rewrite Hbi. change (0 <= Z.pred (refcnt (bufs s1 i))). rewrite Hrc.
    change (0 <= Z.pred (Z.succ (refcnt (bufs s i)))). lia.
  - by left.
Qed.

(** The buffer is linked again, in its chain or in the list of free buffers. *)
Lemma links_got i s s' :
  links (Some i) s -> swapped i s s' -> valid s i -> dev (bufs s' i) <> NO_DEV -> 0 < refcnt (bufs s' i) ->
  lru_head s' = lru_head s -> buf_hash s' = alter (cons i) (Z.land (block (bufs s' i)) BUFFER_HASH_MASK) (buf_hash s) ->
  links None s'.
Proof.
  intros [] Hw Hi Hd Hr Hlru Hhash. pose proof (w_bufs _ _ _ Hw) as Hb.
  assert (forall j, valid s' j <-> valid s j) as Hv by (intros j; apply valid_ext, Hw). split.
  - by rewrite Hlru.
  - intros j. rewrite Hlru, l_lru0, Hv. destruct (decide (j = i)) as [->|Hne]; [naive_solver lia|].
    rewrite (Hb j) by done. naive_solver.
  - intros h j. rewrite Hhash, Hv. destruct (decide (h = Z.land (block (bufs s' i)) BUFFER_HASH_MASK)) as [->|Hh].
    + rewrite fn_lookup_alter, elem_of_cons, l_hash0. destruct (decide (j = i)) as [->|Hne]; [naive_solver|].
      rewrite (Hb j) by done. naive_solver.
    + rewrite fn_lookup_alter_ne, l_hash0 by done. destruct (decide (j = i)) as [->|Hne]; [naive_solver|].
      rewrite (Hb j) by done. naive_solver.
  - intros j Hj%Hv Hrj _. destruct (decide (j = i)) as [->|Hne]; [done|]. rewrite (Hb j) in * by done.
    apply l_held0; naive_solver.
Qed.

Lemma links_given_up i s s' :
  links (Some i) s -> swapped i s s' -> valid s i -> dev (bufs s' i) = NO_DEV -> refcnt (bufs s' i) = 0 ->
  lru_head s' = lru_head s ++ [i] -> buf_hash s' = buf_hash s -> links None s'.
Proof.
  intros [] Hw Hi Hd Hr Hlru Hhash. pose proof (w_bufs _ _ _ Hw) as Hb.
  assert (forall j, valid s' j <-> valid s j) as Hv by (intros j; apply valid_ext, Hw). split.
  - rewrite Hlru. apply NoDup_app. split; [done|]. split; [|apply NoDup_singleton].
    intros j Hj Hji%list_elem_of_singleton. subst j. apply l_lru0 in Hj as (_ & _ & ?). done.
  - intros j. rewrite Hlru, elem_of_app, list_elem_of_singleton, l_lru0, Hv.
    destruct (decide (j = i)) as [->|Hne]; [naive_solver|]. rewrite (Hb j) by done. naive_solver.
  - intros h j. rewrite Hhash, l_hash0, Hv. destruct (decide (j = i)) as [->|Hne]; [naive_solver|].
    rewrite (Hb j) by done. naive_solver.
  - intros j Hj%Hv Hrj _. destruct (decide (j = i)) as [->|Hne]; [lia|]. rewrite (Hb j) in * by done.
    apply l_held0; naive_solver.
Qed.

(** The two ends of a call that had to find a buffer *)
Lemma got_filled i d b n off s0 s s' :
  ready i s0 s -> cached_at s0 d b = None -> d <> NO_DEV ->
  filled i 0 (upd_buf i (for_block d b n off) s) s' ->
  got d b s0 (s' <| buf_hash ::= alter (cons i) (Z.land b BUFFER_HASH_MASK) |>) 0 (Some i).
Proof.
  intros Hr Hnone Hd Hf. pose proof (filled_swapped i d b n off s0 s s' Hr Hnone Hd Hf) as Hw0.
  set (s2 := s' <| buf_hash ::= _ |>). assert (swapped i s s2) as Hw by (destruct Hw0; by split). clear Hw0.
  pose proof Hr as []. pose proof Hf as []. rewrite upd_buf_eq in fl_same0. destruct fl_same0 as (Hdev & Hblk & _ & Hrc).
  change (dev (bufs s2 i) = d) in Hdev. change (block (bufs s2 i) = b) in Hblk.
  change (refcnt (bufs s2 i) = Z.succ (refcnt (bufs s i))) in Hrc.
  assert (forall d' b' o, d' <> NO_DEV -> in_block o -> view s2 d' b' o = view s0 d' b' o) as Hview.
  { intros d' b' o Hd' Ho. rewrite (swapped_view i s s2) by done. by apply r_view0. }
  assert (cache_size s2 = cache_size s0) as Hsz by by rewrite (w_size _ _ _ Hw).
  assert (core s2) as Hc by by apply (swapped_core i s).
  assert (valid s2 i) as Hi by (apply (valid_ext s); [apply Hw|done]).
  split; [split; [done|]|done|done|].
  - apply (links_got i s s2); try done.
    + congruence.
    + lia.
    + rewrite Hblk. change (alter (cons i) (Z.land b BUFFER_HASH_MASK) (buf_hash s') =
        alter (cons i) (Z.land b BUFFER_HASH_MASK) (buf_hash s)). by rewrite fl_hash0.
  - split; [done|]. split; [done|]. split; [done|]. split; [done|]. split; [lia|]. intros o Ho. rewrite <- Hview by done.
    unfold view. by rewrite (cached_at_only s2 d b i).
Qed.

Lemma got_nothing a i d b n off r s0 s s' :
  ready i s0 s -> filled i r (upd_buf i (for_block d b n off) s) s' -> r <> 0 ->
  exists s2 r' bp, (s2 ← put_block a i (upd_buf i (fun x => x <| dev := NO_DEV |>) s'); Ret (s2, (r, None))) = Ret (s2, (r', bp)) /\
    got d b s0 s2 r' bp.
Proof.
  intros Hr Hf Hne. pose proof Hr as []. pose proof Hf as []. rewrite upd_buf_eq in fl_same0.
  destruct fl_same0 as (_ & _ & _ & Hrc). change (refcnt (bufs s' i) = Z.succ (refcnt (bufs s i))) in Hrc.
  destruct (put_failed a i s') as (s2 & -> & Hb & Hlru & Hhash & Hsz & Hvm & Hm & Hdk); [lia|].
  cbn [mbind res_mbind]. exists s2, r, None. split; [done|].
  pose proof (given_up_swapped i d b n off r s0 s s' s2 Hr Hf Hb Hsz Hvm Hm Hdk) as Hw.
  assert (bufs s2 i = (bufs s' i) <| dev := NO_DEV |> <| refcnt ::= Z.pred |>) as Hbi by (rewrite Hb; apply upd_buf_eq).
  split; [split; [by apply (swapped_core i s)|]| | |done].
  - apply (links_given_up i s s2); try done.
    + by rewrite Hbi.
    + rewrite Hbi. change (Z.pred (refcnt (bufs s' i)) = 0). lia.
    + by rewrite Hlru, fl_lru0.
    + by rewrite Hhash, fl_hash0.
  - by rewrite (w_size _ _ _ Hw).
  - intros d' b' o Hd' Ho. rewrite (swapped_view i s s2) by done. by apply r_view0.
Qed.

(** [get_block] panics exactly when the block is not in the cache and every buffer
    is in use. *)
Lemma get_block_panics a d b n off s :
  cache_ok s -> d <> NO_DEV -> cached_at s d b = None -> lru_head s = [] ->
  get_block a d b n off fs_block_size s = Crash Panic.
Proof. intros Hok Hd Hn Hl. unfold get_block. rewrite find_block_cached, Hn by done. unfold take_buffer. by rewrite Hl. Qed.

Lemma get_block_spec a d b n off s :
  cache_ok s -> serves a s -> d <> NO_DEV -> cached_at s d b <> None \/ lru_head s <> [] ->
  exists s' r bp, get_block a d b n off fs_block_size s = Ret (s', (r, bp)) /\ got d b s s' r bp.
Proof.
  intros Hok Hs Hd Hfree. unfold get_block. rewrite find_block_cached by done.
  destruct (cached_at s d b) as [i|] eqn:Hat.
  { destruct (use_block_spec d b n off s i Hok Hd Hat) as (s' & -> & Hg). by exists s', 0, (Some i). }
  destruct (last (lru_head s)) as [i|] eqn:Hlast; [|apply last_None in Hlast; naive_solver].
  destruct (take_buffer_spec a d b n off s i Hok (sv_write _ _ Hs) Hlast) as (s1 & -> & Hready).
  cbn [mbind res_mbind]. pose proof Hready as [].
  assert (forall j, data (bufs (upd_buf i (for_block d b n off) s1) j) = data (bufs s j)) as Hdata.
  { intros j. destruct (r_bufs0 j) as (_ & _ & <-).
    destruct (decide (j = i)) as [->|Hne]; [by rewrite upd_buf_eq|by rewrite upd_buf_ne]. }
  assert (forall j, valid s1 j <-> valid s j) as Hv by (intros j; by apply valid_ext).
  destruct (fill_block_spec a i (upd_buf i (for_block d b n off) s1)) as (s2 & r & -> & Hfill).
  - apply r_core0.
  - apply Hs.
  - intros p j Hp Hj. rewrite Hdata. apply (sv_fresh _ _ Hs p j Hp). by apply Hv.
  - intros j p Hj Hne. rewrite !Hdata. intros Hjp Hip. apply Hne. destruct Hok as [Hc _].
    apply (c_apart _ Hc j i p); [by apply Hv|by apply Hv|done|done].
  - cbn [mbind res_mbind]. destruct (Z.eqb_spec r 0) as [->|Hr]; cbn [negb].
    + eexists _, _, _. split; [reflexivity|]. by eapply got_filled.
    + by eapply got_nothing.
Qed.

(** ** The other calls *)

(** Calls that change nothing the cache shows. *)
Record kept (s s' : fscache) : Prop := {
  k_ok : cache_ok s';
  k_size : cache_size s' = cache_size s;
  k_view : forall d b off, in_block off -> view s' d b off = view s d b off
}.

Lemma put_block_spec a i s :
  cache_ok s -> valid s i -> 0 < refcnt (bufs s i) -> exists s', put_block a i s = Ret s' /\ kept s s'.
Proof.
  intros [Hc Hl] Hi Hr. unfold put_block. rewrite (proj2 (Z.leb_gt _ 0)) by done.
  set (s1 := upd_buf i _ s). assert (bufs s1 i = (bufs s i) <| refcnt ::= Z.pred |>) as Hbi by apply upd_buf_eq.
  assert (refcnt (bufs s1 i) = refcnt (bufs s i) - 1) as Hri by (rewrite Hbi; change (Z.pred (refcnt (bufs s i)) = refcnt (bufs s i) - 1); lia).
  assert (forall j, j <> i -> bufs s1 j = bufs s j) as Hbj by (intros j Hj; by apply upd_buf_ne).
  assert (forall s', bufs s' = bufs s1 -> cache_size s' = cache_size s -> mem s' = mem s -> disk s' = disk s ->
    vmcache s' = vmcache s -> same_blocks s s') as Hsame.
  { intros s' Hb Hsz Hm Hd Hv. split; try done; intros j; rewrite Hb;
      (destruct (decide (j = i)) as [->|Hne]; [|by rewrite ?Hbj by done; try apply (c_refcnt _ Hc)]).
    - by rewrite Hbi.
    - intros _. lia. }
  pose proof (l_held _ _ Hl i Hi Hr ltac:(done)) as Hdev. destruct Hl.
  destruct (Z.ltb_spec 0 (refcnt (bufs s1 i))) as [Hpos|Hz].
  - exists s1. split; [done|]. pose proof (Hsame s1 eq_refl eq_refl eq_refl eq_refl eq_refl) as Hsb.
    split; [split; [by apply (same_blocks_core s)|]|done|by intros; apply same_blocks_view]. split; try done.
    + intros j. change (lru_head s1) with (lru_head s). change (valid s1 j) with (valid s j). rewrite l_lru0.
      destruct (decide (j = i)) as [->|Hne]; [naive_solver lia|by rewrite Hbj].
    + intros h j. change (buf_hash s1 h) with (buf_hash s h). change (valid s1 j) with (valid s j).
      destruct (sb_bufs _ _ Hsb j) as (_ & -> & -> & _). apply l_hash0.
    + intros j Hj Hrj _. destruct (sb_bufs _ _ Hsb j) as (_ & -> & _).
      destruct (decide (j = i)) as [->|Hne]; [done|]. rewrite Hbj in Hrj by done. by apply l_held0.
  - assert (vmcache s1 = false) as -> by apply Hc. cbn [andb mbind res_mbind].
    assert (dev (bufs s1 i) =? NO_DEV = false) as -> by (apply Z.eqb_neq; by rewrite Hbi).
    set (s2 := s1 <| lru_head ::= _ |>). exists s2. split; [done|].
    pose proof (Hsame s2 eq_refl eq_refl eq_refl eq_refl eq_refl) as Hsb.
    split; [split; [by apply (same_blocks_core s)|]|done|by intros; apply same_blocks_view]. split.
    + change (NoDup (i :: lru_head s)). apply NoDup_cons. split; [|done]. rewrite l_lru0. naive_solver lia.
    + intros j. change (lru_head s2) with (i :: lru_head s). change (valid s2 j) with (valid s j).
      change (bufs s2 j) with (bufs s1 j). rewrite elem_of_cons, l_lru0.
      destruct (decide (j = i)) as [->|Hne]; [naive_solver lia|rewrite Hbj by done; naive_solver].
    + intros h j. change (buf_hash s2 h) with (buf_hash s h). change (valid s2 j) with (valid s j).
      destruct (sb_bufs _ _ Hsb j) as (_ & -> & -> & _). apply l_hash0.
    + intros j Hj Hrj _. destruct (sb_bufs _ _ Hsb j) as (_ & -> & _). change (bufs s2 j) with (bufs s1 j) in Hrj.
      destruct (decide (j = i)) as [->|Hne]; [done|]. rewrite Hbj in Hrj by done. by apply l_held0.
Qed.

(** A flush of one device, and of all *)
Record flushes (s s' : fscache) : Prop := {
  fs_kept : kept s s';
  fs_bufs : forall j, dev (bufs s' j) = dev (bufs s j) /\ block (bufs s' j) = block (bufs s j) /\
    refcnt (bufs s' j) = refcnt (bufs s j);
  fs_clean : forall j, fsdriver_is_clean j s = true -> fsdriver_is_clean j s' = true
}.

Lemma flush_dev_flushes a d s :
  cache_ok s -> writes a -> d <> NO_DEV ->
  exists s', fsdriver_flush_dev a d s = Ret s' /\ flushes s s' /\
    forall i, valid s i -> dev (bufs s i) = d -> refcnt (bufs s i) = 0 -> fsdriver_is_clean i s' = true.
Proof.
  intros [Hc Hl] Hw Hd. destruct (flush_dev_spec a d s Hc Hw Hd) as (s' & Hs' & Hf). exists s'. split; [done|].
  assert (forall j, fsdriver_is_clean j s' = bool_decide (j ∈ dirty_of s d) || fsdriver_is_clean j s) as Hcl.
  { intros j. unfold fsdriver_is_clean. rewrite (f_bufs _ _ _ _ Hf). case_bool_decide; [|done]. by rewrite clean_flag. }
  split; [split; [split| |]|].
  - split; [by apply (flush_core d s)|by apply (flush_links _ _ _ s s' Hl Hf)].
  - apply Hf.
  - intros d' b off Ho. by apply (flush_view d).
  - intros j. by destruct (flushed_data _ _ _ _ j Hf) as (_ & -> & -> & -> & _).
  - intros j Hj. by rewrite Hcl, Hj, orb_true_r.
  - intros i Hi Hdi Hr. rewrite Hcl. destruct (fsdriver_is_clean i s) eqn:Hi'; [by rewrite orb_true_r|].
    rewrite bool_decide_eq_true_2; [done|]. by apply elem_of_dirty.
Qed.

Lemma flushes_refl s : cache_ok s -> flushes s s.
Proof. by split. Qed.

Lemma flushes_trans s1 s2 s3 : flushes s1 s2 -> flushes s2 s3 -> flushes s1 s3.
Proof.
  intros [[] Hb Hc] [[] Hb' Hc']. split; [split; [done|congruence|]| |auto].
  - intros d b off Ho. by rewrite k_view1, k_view0.
  - intros j. destruct (Hb' j) as (-> & -> & ->). apply Hb.
Qed.

Lemma flush_loop_spec a l s :
  cache_ok s -> writes a -> Forall (valid s) l ->
  exists s', flush_loop a l s = Ret s' /\ flushes s s' /\
    forall i, i ∈ l -> dev (bufs s i) <> NO_DEV -> refcnt (bufs s i) = 0 -> fsdriver_is_clean i s' = true.
Proof.
  intros Hok Hw. revert s Hok. induction l as [|i l IH]; intros s Hok Hl.
  { exists s. split; [done|]. split; [by apply flushes_refl|]. by intros i ?%elem_of_nil. }
  apply Forall_cons in Hl as [Hi Hl]. cbn [flush_loop].
  assert (exists s1, (if negb (dev (bufs s i) =? NO_DEV) && negb (fsdriver_is_clean i s)
     then fsdriver_flush_dev a (dev (bufs s i)) s else Ret s) = Ret s1 /\ flushes s s1 /\
     (dev (bufs s i) <> NO_DEV -> refcnt (bufs s i) = 0 -> fsdriver_is_clean i s1 = true)) as (s1 & -> & Hf & Hcl).
  { destruct (Z.eqb_spec (dev (bufs s i)) NO_DEV) as [Hn|Hn]; cbn [negb andb].
    { exists s. split; [done|]. split; [by apply flushes_refl|done]. }
    destruct (fsdriver_is_clean i s) eqn:Hcl; cbn [negb].
    { exists s. split; [done|]. split; [by apply flushes_refl|done]. }
    destruct (flush_dev_flushes a _ s Hok Hw Hn) as (s1 & -> & Hf & Hd). exists s1. split; [done|]. split; [done|].
    intros _ Hr. by apply Hd. }
  cbn [mbind res_mbind]. destruct (IH s1) as (s2 & -> & Hf2 & Hcl2).
  - apply (k_ok _ _ (fs_kept _ _ Hf)).
  - eapply Forall_impl; [exact Hl|]. intros j Hj. apply (valid_ext s s1); [apply (k_size _ _ (fs_kept _ _ Hf))|done].
  - exists s2. split; [done|]. split; [by apply (flushes_trans s s1)|]. intros j [->|Hj]%elem_of_cons Hd Hr.
    + apply (fs_clean _ _ Hf2). by apply Hcl.
    + destruct (fs_bufs _ _ Hf j) as (Hd1 & _ & Hr1). apply Hcl2; congruence.
Qed.

(** A user of a buffer writes its bytes and marks it. *)
Definition client_write (i : Z) (f : Z -> Z) (s : fscache) : fscache :=
  match data (bufs s i) with
  | Some page => fsdriver_mark_dirty i (s <| mem ::= <[page := f]> |>)
  | None => s
  end.

Lemma client_write_spec i f s :
  cache_ok s -> valid s i -> 0 < refcnt (bufs s i) ->
  let s' := client_write i f s in
  cache_ok s' /\ cache_size s' = cache_size s /\
  forall d b off, d <> NO_DEV -> in_block off ->
    view s' d b off = if bool_decide (dev (bufs s i) = d /\ block (bufs s i) = b) then f off else view s d b off.
Proof.
  intros [Hc Hl] Hi Hr s'. pose proof (l_held _ _ Hl i Hi Hr ltac:(done)) as Hdev.
  destruct (c_page _ Hc i Hi Hdev) as (p & Hp & Hsz). unfold s', client_write. rewrite Hp.
  set (s1 := s <| mem ::= _ |>). set (s2 := fsdriver_mark_dirty i s1).
  assert (bufs s2 i = (bufs s i) <| flags ::= fun f => set_flag f BF_DIRTY |>) as Hbi by apply (upd_buf_eq i _ s1).
  assert (forall j, j <> i -> bufs s2 j = bufs s j) as Hbj by (intros j Hj; by apply (upd_buf_ne i j _ s1)).
  assert (forall j, data (bufs s2 j) = data (bufs s j) /\ dev (bufs s2 j) = dev (bufs s j) /\
    block (bufs s2 j) = block (bufs s j) /\ size (bufs s2 j) = size (bufs s j) /\
    refcnt (bufs s2 j) = refcnt (bufs s j)) as Hb.
  { intros j. destruct (decide (j = i)) as [->|Hne]; [by rewrite Hbi|by rewrite Hbj]. }
  assert (forall q, mem s2 q = if bool_decide (q = p) then f else mem s q) as Hm.
  { intros q. case_bool_decide as Hq; [subst q; apply fn_lookup_insert|by apply fn_lookup_insert_ne]. }
  assert (forall j off, valid s j -> byte_of s2 j off = if bool_decide (j = i) then f off else byte_of s j off) as Hbyte.
  { intros j off Hj. unfold byte_of. destruct (Hb j) as (-> & _). destruct (decide (j = i)) as [->|Hne].
    - by rewrite Hp, Hm, !bool_decide_eq_true_2.
    - rewrite (bool_decide_eq_false_2 (j = i)) by done. destruct (data (bufs s j)) as [q|] eqn:Hq; [|done].
      rewrite Hm, bool_decide_eq_false_2; [done|]. intros ->. apply Hne. by apply (c_apart _ Hc j i p). }
  split; [split|split; [done|]].
  - split.
    + intros j. destruct (Hb j) as (-> & -> & _ & -> & _). apply (c_page _ Hc).
    + intros j k q. destruct (Hb j) as (-> & _). destruct (Hb k) as (-> & _). apply (c_apart _ Hc).
    + intros j k. destruct (Hb j) as (_ & -> & -> & _). destruct (Hb k) as (_ & -> & -> & _). apply (c_key _ Hc).
    + intros j off Hj. destruct (Hb j) as (_ & -> & -> & _). rewrite Hbyte by done. case_bool_decide as Hji.
      * subst j. unfold fsdriver_is_clean. rewrite Hbi. intros _ Hcl.
        change (negb (has_flag (set_flag (flags (bufs s i)) BF_DIRTY) BF_DIRTY) = true) in Hcl.
        by rewrite has_flag_set_same in Hcl.
      * unfold fsdriver_is_clean. rewrite Hbj by done. by apply (c_clean _ Hc).
    + intros j Hj. destruct (decide (j = i)) as [->|Hne]; [|rewrite Hbj by done; by apply (c_flags _ Hc)].
      rewrite Hbi. change (has_flag (set_flag (flags (bufs s i)) BF_DIRTY) BF_INCACHE = false).
      rewrite has_flag_set_other by done. by apply (c_flags _ Hc).
    + intros j. destruct (Hb j) as (_ & _ & _ & _ & ->). apply (c_refcnt _ Hc).
    + apply Hc.
  - destruct Hl. split; try done.
    + intros j. destruct (Hb j) as (_ & _ & _ & _ & ->). apply l_lru0.
    + intros h j. destruct (Hb j) as (_ & -> & -> & _). apply l_hash0.
    + intros j. destruct (Hb j) as (_ & -> & _ & _ & ->). apply l_held0.
  - intros d b off Hd Ho. unfold view. rewrite (cached_at_ext s s2); [|done|].
    + case_bool_decide as Hkey.
      * destruct Hkey as [Hdi Hbl]. rewrite (cached_at_only s d b i) by done. by rewrite Hbyte, bool_decide_eq_true_2.
      * destruct (cached_at s d b) as [j|] eqn:Hj; [|done]. apply cached_at_Some in Hj as (Hj & Hdj & Hblj).
        rewrite Hbyte, bool_decide_eq_false_2; [done| |done]. intros ->. by apply Hkey.
    + intros j _. destruct (Hb j) as (_ & ? & ? & _). done.
Qed.

(** ** Runs *)

Inductive event :=
| Get (d b n off : Z) (a : answers)
| Put (i : Z) (a : answers)
| Modify (i : Z) (f : Z -> Z)
| FlushDev (d : Z) (a : answers)
| FlushAll (a : answers).

Definition exec (ev : event) (s : fscache) : res (fscache * (Z * option Z)) :=
  match ev with
  | Get d b n off a => fsdriver_get_block_ino a d b n off s
  | Put i a => s ← fsdriver_put_block a (Some i) s; Ret (s, (0, None))
  | Modify i f => Ret (client_write i f s, (0, None))
  | FlushDev d a => s ← fsdriver_flush_dev a d s; Ret (s, (0, None))
  | FlushAll a => s ← fsdriver_flush_all a s; Ret (s, (0, None))
  end.

Definition held (s : fscache) (i : Z) : Prop := valid s i /\ 0 < refcnt (bufs s i).

(** Clients give back and write what they hold. *)
Definition legal (ev : event) (s : fscache) : Prop :=
  match ev with
  | Get d _ _ _ a => d <> NO_DEV /\ serves a s
  | Put i _ => held s i
  | Modify i _ => held s i
  | FlushDev d a => d <> NO_DEV /\ writes a
  | FlushAll a => writes a
  end.

(** A store of blocks: only writing changes it. *)
Definition store := Z -> Z -> Z -> Z.
Definition store_step (ev : event) (s : fscache) (st : store) : store :=
  match ev with
  | Modify i f => fun d b off => if bool_decide (dev (bufs s i) = d /\ block (bufs s i) = b) then f off else st d b off
  | _ => st
  end.

Inductive reachable (s0 : fscache) : store -> fscache -> Prop :=
| reach_init : reachable s0 (fun d b off => disk s0 d (b * fs_block_size + off)) s0
| reach_step ev st s s' r : reachable s0 st s -> legal ev s -> exec ev s = Ret (s', r) ->
    reachable s0 (store_step ev s st) s'.

(** The cache and the devices implement the store. *)
Definition implements (s : fscache) (st : store) : Prop :=
  cache_ok s /\ forall d b off, d <> NO_DEV -> in_block off -> view s d b off = st d b off.

Lemma init_implements memory n s0 s :
  may_use_vmcache s0 = false -> fsdriver_init_buffer_cache memory n s0 = Ret s ->
  implements s (fun d b off => disk s d (b * fs_block_size + off)).
Proof.
  unfold fsdriver_init_buffer_cache. destruct memory; [|done]. cbn [negb]. intros Hvm [= <-]. split; [split|].
  - split; try done. cbn. by rewrite Hvm.
  - split; try done.
    + cbn. rewrite <- (Permutation_rev (seqZ 0 n)). apply NoDup_seqZ.
    + intros i. unfold valid. cbn. rewrite <- (Permutation_rev (seqZ 0 n)), elem_of_seqZ. naive_solver lia.
    + intros h i. cbn. split; [by intros ?%elem_of_nil|naive_solver].
  - intros d b off Hd Ho. unfold view. rewrite (proj2 (cached_at_None _ d b)); [done|]. cbn. naive_solver.
Qed.

(** Every call succeeds, but for a block that is not in the cache when all buffers
    are in use. *)
Lemma exec_succeeds ev s :
  cache_ok s -> legal ev s ->
  (exists s' r, exec ev s = Ret (s', r)) \/
  (exec ev s = Crash Panic /\ exists d b n off a, ev = Get d b n off a /\ cached_at s d b = None /\ lru_head s = []).
Proof.
  intros Hok Hl. destruct ev as [d b n off a|i a|i f|d a|a]; cbn [exec legal] in *.
  - destruct Hl as [Hd Hs]. destruct (decide (cached_at s d b = None /\ lru_head s = [])) as [[Hn Hlru]|Hfree].
    + right. split; [by apply get_block_panics|]. by exists d, b, n, off, a.
    + left. destruct (get_block_spec a d b n off s Hok Hs Hd) as (s' & r & bp & Hg & _).
      { destruct (decide (cached_at s d b = None)) as [Hn|]; [|by left]. right. naive_solver. }
      by exists s', (r, bp).
  - left. destruct Hl as [Hi Hr]. destruct (put_block_spec a i s Hok Hi Hr) as (s' & Hp & _).
    exists s', (0, None). cbn [fsdriver_put_block]. by rewrite Hp.
  - left. by eexists _, _.
  - left. destruct Hl as [Hd Hw]. destruct (flush_dev_flushes a d s Hok Hw Hd) as (s' & -> & _). by eexists _, _.
  - left. destruct (flush_loop_spec a (all_bufs s) s Hok Hl) as (s' & Hf & _).
    { apply Forall_forall. intros i. apply elem_of_all_bufs. }
    unfold fsdriver_flush_all. rewrite Hf. by eexists _, _.
Qed.

Lemma kept_implements s s' st : implements s st -> kept s s' -> implements s' st.
Proof. intros [_ Hv] []. split; [done|]. intros d b off Hd Ho. rewrite k_view0 by done. by apply Hv. Qed.

Lemma exec_implements ev s s' r st :
  implements s st -> legal ev s -> exec ev s = Ret (s', r) -> implements s' (store_step ev s st).
Proof.
  intros Himp Hl. pose proof Himp as [Hok Hview]. destruct ev as [d b n off a|i a|i f|d a|a]; cbn [exec legal store_step] in *.
  - destruct Hl as [Hd Hs]. intros Hex. destruct (decide (cached_at s d b = None /\ lru_head s = [])) as [[Hn Hlru]|Hfree].
    + unfold fsdriver_get_block_ino in Hex. by rewrite get_block_panics in Hex.
    + destruct (get_block_spec a d b n off s Hok Hs Hd) as (s2 & r2 & bp & Hg & Hgot).
      { destruct (decide (cached_at s d b = None)) as [Hn|]; [|by left]. right. naive_solver. }
      unfold fsdriver_get_block_ino in Hex. rewrite Hg in Hex. injection Hex as <- _. destruct Hgot. split; [done|].
      intros d' b' o Hd' Ho. rewrite g_view0 by done. by apply Hview.
  - destruct Hl as [Hi Hr]. destruct (put_block_spec a i s Hok Hi Hr) as (s2 & Hp & Hk). cbn [fsdriver_put_block].
    rewrite Hp. intros [= <- _]. by apply (kept_implements s).
  - destruct Hl as [Hi Hr]. intros [= <- _]. destruct (client_write_spec i f s Hok Hi Hr) as (Hok' & _ & Hv).
    split; [done|]. intros d b off Hd Ho. rewrite Hv by done. case_bool_decide; [done|by apply Hview].
  - destruct Hl as [Hd Hw]. destruct (flush_dev_flushes a d s Hok Hw Hd) as (s2 & -> & Hf & _). intros [= <- _].
    by apply (kept_implements s); [|apply Hf].
  - destruct (flush_loop_spec a (all_bufs s) s Hok Hl) as (s2 & Hf & Hfl & _).
    { apply Forall_forall. intros i. apply elem_of_all_bufs. }
    unfold fsdriver_flush_all. rewrite Hf. intros [= <- _]. by apply (kept_implements s); [|apply Hfl].
Qed.

Lemma reachable_implements memory n s0 s1 st s :
  may_use_vmcache s0 = false -> fsdriver_init_buffer_cache memory n s0 = Ret s1 -> reachable s1 st s -> implements s st.
Proof.
  intros Hvm Hinit Hr. induction Hr as [|ev st s s' r _ IH Hl Hex]; [by eapply init_implements|by eapply exec_implements].
Qed.

(** ** Claims *)

(** C28: the buffer cache is transparent. From a new cache of any size over any
    devices, without the page cache of the memory manager, and for any sequence of
    calls in which devices write what they are given and read a whole block or
    fail: every call succeeds, but for a block that is not in the cache while
    every buffer is in use, which panics; and a block that is handed out has the
    right number and exactly the bytes last written to it, or those that its
    device had at the start, whatever was evicted, flushed or read again in
    between. *)
Theorem cache_is_transparent memory n s0 s1 st s :
  may_use_vmcache s0 = false -> fsdriver_init_buffer_cache memory n s0 = Ret s1 -> reachable s1 st s ->
  (forall ev, legal ev s ->
     (exists s' r, exec ev s = Ret (s', r)) \/
     (exec ev s = Crash Panic /\ (exists d b m off a, ev = Get d b m off a /\ find_block d b s = None) /\
      forall i, valid s i -> held s i)) /\
  (forall d b m off a s' r bp, legal (Get d b m off a) s -> exec (Get d b m off a) s = Ret (s', (r, bp)) ->
     match bp with
     | Some i => r = 0 /\ held s' i /\ dev (bufs s' i) = d /\ block (bufs s' i) = b /\
                 forall o, in_block o -> byte_of s' i o = st d b o
     | None => r <> 0
     end).
Proof.
  intros Hvm Hinit Hr. destruct (reachable_implements _ _ _ _ _ _ Hvm Hinit Hr) as [Hok Hview]. split.
  - intros ev Hl. destruct (exec_succeeds ev s Hok Hl) as [?|(Hp & d & b & m & off & a & -> & Hn & Hlru)]; [by left|].
    right. split; [done|]. destruct Hl as [Hd _].
    split; [exists d, b, m, off, a; by rewrite find_block_cached|]. destruct Hok as [Hc Hlk]. intros i Hi. split; [done|].
    pose proof (c_refcnt _ Hc i Hi). destruct (decide (refcnt (bufs s i) = 0)) as [Hz|]; [|lia].
    assert (i ∈ lru_head s) as Hin by by apply (l_lru _ _ Hlk). rewrite Hlru in Hin. by apply elem_of_nil in Hin.
  - intros d b m off a s' r bp [Hd Hs] Hex. cbn [exec] in Hex. unfold fsdriver_get_block_ino in Hex.
    destruct (decide (cached_at s d b = None /\ lru_head s = [])) as [[Hn Hlru]|Hfree].
    { by rewrite get_block_panics in Hex. }
    destruct (get_block_spec a d b m off s Hok Hs Hd) as (s2 & r2 & bp2 & Hg & Hgot).
    { destruct (decide (cached_at s d b = None)) as [Hn|]; [|by left]. right. naive_solver. }
    rewrite Hg in Hex. injection Hex as <- <- <-. destruct Hgot. destruct bp2 as [i|]; [|done].
    destruct g_result0 as (? & ? & ? & ? & ? & Hbytes). do 4 (split; [done|]).
    intros o Ho. rewrite Hbytes by done. by apply Hview.
Qed.


(** ** Examples: every byte of a device is the number of its block *)

Definition example_devices (may : bool) : fscache :=
  mk_fscache (fun _ => mk_buffer None NO_DEV 0 VMC_NO_INODE 0 0 0 0) (fun _ => []) [] 0 may false
    (fun _ _ => 0) (fun _ p => p / fs_block_size) (page_cache_init (fun _ => 1) (fun _ => 0)).
Definition example_new (may : bool) : fscache :=
  match fsdriver_init_buffer_cache true 1 (example_devices may) with Ret s => s | Crash _ => example_devices may end.

(** mmap gives page [p] at most; devices work. *)
Definition example_answers (p : option Z) : answers := mk_answers p fs_block_size (fun _ n => n) 0 0 true.

Definition after (ev : event) (s : fscache) : fscache :=
  match exec ev s with Ret (s', _) => s' | Crash _ => s end.
Definition fine (ev : event) (s : fscache) : bool := match exec ev s with Ret _ => true | Crash _ => false end.

Definition returned (ev : event) (s : fscache) : option (Z * option Z) :=
  match exec ev s with Ret (_, r) => Some r | Crash _ => None end.

Lemma reach_after s0 st s ev :
  reachable s0 st s -> legal ev s -> fine ev s = true -> reachable s0 (store_step ev s st) (after ev s).
Proof.
  intros Hr Hl. unfold fine, after. destruct (exec ev s) as [[s' r]|] eqn:Hex; [|done]. intros _. by eapply reach_step.
Qed.

(** Block 5 is read and written, and evicted by block 6. *)
Definition get_5 : event := Get 1 5 0 0 (example_answers (Some 100)).
Definition get_again (b : Z) : event := Get 1 b 0 0 (example_answers None).
Definition put_0 : event := Put 0 (example_answers None).
Definition example_written (may : bool) : fscache := after put_0 (after (Modify 0 (fun _ => 7)) (after get_5 (example_new may))).
Definition example_evicted (may : bool) : fscache := after put_0 (after (get_again 6) (example_written may)).

Lemma example_serves p s :
  (forall j, p <> None -> data (bufs s j) = None) -> serves (example_answers p) s.
Proof. intros Hp. split; [done|by left|]. intros q j Hq _. cbn in Hq. rewrite Hp; [done|congruence]. Qed.

Lemma held_0 s : (0 <? cache_size s) && (0 <? refcnt (bufs s 0)) = true -> held s 0.
Proof. rewrite andb_true_iff, !Z.ltb_lt. unfold held, valid. lia. Qed.

Lemma example_written_reachable : exists st, reachable (example_new false) st (example_written false) /\ st 1 5 9 = 7.
Proof.
  eexists. split.
  - apply reach_after; [apply reach_after; [apply reach_after; [apply reach_init|..]|..]|..].
    + split; [done|]. by apply example_serves.
    + vm_compute. reflexivity.
    + apply held_0. vm_compute. reflexivity.
    + reflexivity.
    + apply held_0. vm_compute. reflexivity.
    + vm_compute. reflexivity.
  - vm_compute. reflexivity.
Qed.

Lemma example_evicted_reachable : exists st, reachable (example_new false) st (example_evicted false) /\ st 1 5 9 = 7.
Proof.
  destruct example_written_reachable as (st & Hr & Hst). eexists. split.
  - apply reach_after; [apply reach_after; [exact Hr|..]|..].
    + split; [done|]. by apply example_serves.
    + vm_compute. reflexivity.
    + apply held_0. vm_compute. reflexivity.
    + vm_compute. reflexivity.
  - exact Hst.
Qed.

Lemma cache_is_transparent_witness :
  exists s' i, exec (get_again 5) (example_evicted false) = Ret (s', (0, Some i)) /\ byte_of s' i 9 = 7.
Proof.
  destruct example_evicted_reachable as (st & Hr & Hst).
  destruct (cache_is_transparent true 1 (example_devices false) (example_new false) st (example_evicted false)
              eq_refl eq_refl Hr) as [_ Hget].
  assert (legal (get_again 5) (example_evicted false)) as Hl by (split; [done|by apply example_serves]).
  assert (exists s' i, exec (get_again 5) (example_evicted false) = Ret (s', (0, Some i))) as (s' & i & Hex).
  { assert (match exec (get_again 5) (example_evicted false) with Ret (_, (0, Some _)) => True | _ => False end) as Hm
      by by vm_compute.
    destruct (exec _ _) as [[s' [[|?|?] [i|]]]|]; try done. by exists s', i. }
  exists s', i. split; [done|]. destruct (Hget 1 5 0 0 _ s' 0 (Some i) Hl Hex) as (_ & _ & _ & _ & Hb).
  rewrite Hb; [done|]. unfold in_block, fs_block_size, ARCH_PG_SIZE. lia.
Defined.


(** Four paths on which the buffer cache goes wrong.
    - A device that fails to write returns a negative number, which is compared as
      a size: the buffer counts as written, and the bytes are lost.
    - A read of no bytes at all counts as a success, and the block is handed out
      with the bytes that the page had before.
    - With the page cache of the memory manager a block is looked up by file and
      offset first: when a file has another block at an offset (7 at offset 0 has
      block 5 first, then block 9), the block is handed out with the bytes of the
      old one, although nothing was ever written.
    - When every buffer is in use, another block panics the file system. *)
Theorem cache_error_paths :
  (let bad := FlushAll (mk_answers None fs_block_size (fun _ _ => -5) 0 0 true) in
   let s' := after bad (example_written false) in
   fine bad (example_written false) = true /\ fsdriver_is_clean 0 s' = true /\ byte_of s' 0 9 = 7 /\
   disk s' 1 (5 * fs_block_size + 9) = 5) /\
  (let ev := Get 1 5 VMC_NO_INODE 0 (mk_answers (Some 100) 0 (fun _ n => n) 0 0 true) in
   let s' := after ev (example_new false) in
   returned ev (example_new false) = Some (0, Some 0) /\ byte_of s' 0 9 = 0 /\ disk s' 1 (5 * fs_block_size + 9) = 5) /\
  (let s1 := after put_0 (after (Get 1 5 7 0 (example_answers (Some 100))) (example_new true)) in
   let s2 := after put_0 (after (Get 1 6 8 0 (example_answers (Some 101))) s1) in
   let ev := Get 1 9 7 0 (example_answers (Some 102)) in
   let s' := after ev s2 in
   returned ev s2 = Some (0, Some 0) /\ dev (bufs s' 0) = 1 /\ block (bufs s' 0) = 9 /\ byte_of s' 0 9 = 5 /\
   disk s' 1 (9 * fs_block_size + 9) = 9) /\
  exec (get_again 6) (after get_5 (example_new false)) = Crash Panic.
Proof. by vm_compute. Qed.
