(* ===== verification/Avl.v ===== *)
(** * Balanced trees

    include/lyos/avl.h: trees of nodes that are linked by pointers, and iterators
    that remember the path to a node. A node is a number, 0 is NULL; the nodes are
    a function from numbers to the members of [struct avl_node]. The comparison
    functions are arguments. [fuel] bounds the depth of the recursion; an iterator
    bounds its loops itself, by the length of its path. *)

From S2P Require Import Prelude.

Record avl_node := mk_node { left : Z; right : Z; height : Z }.
#[export] Instance rebuild_node : Rebuild avl_node := fun n => mk_node (left n) (right n) (height n).

Notation nodes := (Z -> avl_node) (only parsing).

Definition AVL_MAX_DEPTH : Z := 32.
Definition AVL_LESS : Z := 1.
Definition AVL_EQUAL : Z := 2.
Definition AVL_GREATER : Z := 4.
Definition AVL_GREATER_EQUAL : Z := Z.lor AVL_GREATER AVL_EQUAL.
Definition AVL_LESS_EQUAL : Z := Z.lor AVL_LESS AVL_EQUAL.

(** [p->f] and [p->f = v] *)
Definition member {A} (f : avl_node -> A) (p : Z) (h : nodes) : res A :=
  if p =? 0 then Crash NullDeref else Ret (f (h p)).
Definition assign (g : avl_node -> avl_node) (p : Z) (h : nodes) : res nodes :=
  if p =? 0 then Crash NullDeref else Ret (alter g p h).

(** ** Heights and rotations *)

Definition avl_tree_height (node : Z) (h : nodes) : Z := if node =? 0 then 0 else height (h node).

Definition avl_set_height (subroot : Z) (h : nodes) : res nodes :=
  l ← member left subroot h;
  r ← member right subroot h;
  assign (fun n => n <| height := Z.max (avl_tree_height l h) (avl_tree_height r h) + 1 |>) subroot h.

Definition avl_balance_factor (node : Z) (h : nodes) : res Z :=
  r ← member right node h;
  l ← member left node h;
  Ret (avl_tree_height r h - avl_tree_height l h).

Definition avl_left_rotate (subroot : Z) (h : nodes) : res (Z * nodes) :=
  k1 ← member right subroot h;
  k2 ← member left k1 h;
  h ← assign (fun n => n <| right := k2 |>) subroot h;
  h ← assign (fun n => n <| left := subroot |>) k1 h;
  h ← avl_set_height subroot h;
  h ← avl_set_height k1 h;
  Ret (k1, h).

Definition avl_right_rotate (subroot : Z) (h : nodes) : res (Z * nodes) :=
  k1 ← member left subroot h;
  k2 ← member right k1 h;
  h ← assign (fun n => n <| left := k2 |>) subroot h;
  h ← assign (fun n => n <| right := subroot |>) k1 h;
  h ← avl_set_height subroot h;
  h ← avl_set_height k1 h;
  Ret (k1, h).

Definition avl_left_right_rotate (subroot : Z) (h : nodes) : res (Z * nodes) :=
  l ← member left subroot h;
  '(l, h) ← avl_left_rotate l h;
  h ← assign (fun n => n <| left := l |>) subroot h;
  avl_right_rotate subroot h.

Definition avl_right_left_rotate (subroot : Z) (h : nodes) : res (Z * nodes) :=
  r ← member right subroot h;
  '(r, h) ← avl_right_rotate r h;
  h ← assign (fun n => n <| right := r |>) subroot h;
  avl_left_rotate subroot h.

Definition avl_fixup (bf subroot : Z) (h : nodes) : res (Z * nodes) :=
  if bf =? 2 then
    r ← member right subroot h;
    rl ← member left r h;
    rr ← member right r h;
    if avl_tree_height rl h <=? avl_tree_height rr h then avl_left_rotate subroot h
    else avl_right_left_rotate subroot h
  else if bf =? -2 then
    l ← member left subroot h;
    ll ← member left l h;
    lr ← member right l h;
    if avl_tree_height lr h <=? avl_tree_height ll h then avl_right_rotate subroot h
    else avl_left_right_rotate subroot h
  else Ret (subroot, h).

(** The end of [avl_insert_recur] and of [avl_erase_recur] *)
Definition avl_rebalance (subroot : Z) (h : nodes) : res (Z * nodes) :=
  h ← avl_set_height subroot h;
  bf ← avl_balance_factor subroot h;
  if (bf =? 2) || (bf =? -2) then avl_fixup bf subroot h else Ret (subroot, h).

(** The comparison of two nodes by a key, as the trees of regions and of
    identifiers have it *)
Definition compare_keys (key : Z -> Z) (node1 node2 : Z) : Z :=
  if key node1 <? key node2 then -1 else if key node2 <? key node1 then 1 else 0.

(** The comparison of a key with a node *)
Definition compare_key (key : Z -> Z) (k node : Z) : Z :=
  if k <? key node then -1 else if key node <? k then 1 else 0.

(** ** Insertion and removal *)

Section compare.
Context (nn_comp : Z -> Z -> Z).

Fixpoint avl_insert_recur (fuel : nat) (node subroot : Z) (h : nodes) : res (Z * nodes) :=
  match fuel with
  | O => Crash OutOfFuel
  | S fuel =>
      if subroot =? 0 then
        h ← assign (fun _ => mk_node 0 0 1) node h;
        Ret (node, h)
      else
        h ← (if nn_comp node subroot =? -1 then
               '(l, h) ← avl_insert_recur fuel node (left (h subroot)) h;
               assign (fun n => n <| left := l |>) subroot h
             else
               '(r, h) ← avl_insert_recur fuel node (right (h subroot)) h;
               assign (fun n => n <| right := r |>) subroot h);
        avl_rebalance subroot h
  end.

Definition avl_insert (fuel : nat) (node root : Z) (h : nodes) : res (Z * nodes) := avl_insert_recur fuel node root h.

(** The result is the tree that is left and the node taken out of it. *)
Fixpoint avl_erase_min (fuel : nat) (subroot : Z) (h : nodes) : res (Z * Z * nodes) :=
  match fuel with
  | O => Crash OutOfFuel
  | S fuel =>
      if subroot =? 0 then Ret (0, 0, h)
      else if negb (left (h subroot) =? 0) then
        '(l, it, h) ← avl_erase_min fuel (left (h subroot)) h;
        h ← assign (fun n => n <| left := l |>) subroot h;
        h ← avl_set_height subroot h;
        Ret (subroot, it, h)
      else
        let it := subroot in
        let subroot := right (h subroot) in
        h ← (if negb (subroot =? 0) then avl_set_height subroot h else Ret h);
        Ret (subroot, it, h)
  end.

(** What takes the place of a node that is removed *)
Definition avl_unlink (fuel : nat) (subroot : Z) (h : nodes) : res (Z * nodes) :=
  if left (h subroot) =? 0 then Ret (right (h subroot), h)
  else if right (h subroot) =? 0 then Ret (left (h subroot), h)
  else
    '(r, tmp, h) ← avl_erase_min fuel (right (h subroot)) h;
    h ← assign (fun n => n <| right := r |>) subroot h;
    h ← assign (fun n => n <| right := right (h subroot) |>) tmp h;
    h ← assign (fun n => n <| left := left (h subroot) |>) tmp h;
    Ret (tmp, h).

Fixpoint avl_erase_recur (fuel : nat) (node subroot : Z) (h : nodes) : res (Z * nodes) :=
  match fuel with
  | O => Crash OutOfFuel
  | S fuel =>
      if subroot =? 0 then Ret (0, h)
      else
        let comp := nn_comp node subroot in
        '(subroot, h) ← (if comp =? -1 then
                           '(l, h) ← avl_erase_recur fuel node (left (h subroot)) h;
                           h ← assign (fun n => n <| left := l |>) subroot h;
                           Ret (subroot, h)
                         else if comp =? 1 then
                           '(r, h) ← avl_erase_recur fuel node (right (h subroot)) h;
                           h ← assign (fun n => n <| right := r |>) subroot h;
                           Ret (subroot, h)
                         else avl_unlink fuel subroot h);
        if subroot =? 0 then Ret (subroot, h) else avl_rebalance subroot h
  end.

Definition avl_erase (fuel : nat) (node root : Z) (h : nodes) : res (Z * nodes) := avl_erase_recur fuel node root h.
End compare.

(** ** Iterators *)

(** An iterator of the tree whose root is an argument of the operations; [depth]
    is -1 ([~0]) past the ends. *)
Record avl_iter := mk_iter { depth : Z; branch : Z; path : Z -> Z }.
#[export] Instance rebuild_iter : Rebuild avl_iter := fun i => mk_iter (depth i) (branch i) (path i).

(** [1 << depth] as an operand of an [unsigned long] *)
Definition branch_bit (d : Z) : Z := wrapu 64 (wraps 32 (Z.shiftl 1 d)).
Definition went_right (d : Z) (it : avl_iter) : bool := negb (Z.land (branch it) (branch_bit d) =? 0).

(** The branch taken at depth [d], and the node it leads to *)
Definition take_branch (d : Z) (to_right : bool) (cur : Z) (it : avl_iter) : res avl_iter :=
  if AVL_MAX_DEPTH <=? d then Crash BadPtr
  else
    Ret (it <| branch ::= fun b => if to_right then Z.lor b (branch_bit d) else Z.land b (notu 64 (branch_bit d)) |>
            <| path ::= <[d := cur]> |>).

Definition ITER_FUEL : nat := 34.

(** The loop of [avl_start_iter]; [kn_comp] compares the key with a node. *)
Fixpoint start_loop (fuel : nat) (kn_comp : Z -> Z) (flags target d cur : Z) (it : avl_iter) (h : nodes) : res avl_iter :=
  match fuel with
  | O => Crash OutOfFuel
  | S fuel =>
      let cmp := kn_comp cur in
      if (cmp =? 0) && has_flag flags AVL_EQUAL then Ret (it <| depth := d |>)
      else
        let cmp := if cmp =? 0 then - target else cmp in
        let it := if negb (target =? 0) && (target =? cmp) then it <| depth := d |> else it in
        let cur := if cmp <? 0 then left (h cur) else right (h cur) in
        if cur =? 0 then Ret it
        else
          it ← take_branch d (negb (cmp <? 0)) cur it;
          start_loop fuel kn_comp flags target (d + 1) cur it h
  end.

Definition avl_start_iter (kn_comp : Z -> Z) (flags root : Z) (it : avl_iter) (h : nodes) : res avl_iter :=
  let it := it <| depth := -1 |> <| branch := 0 |> in
  if root =? 0 then Ret it
  else
    let target := if has_flag flags AVL_LESS then 1 else if has_flag flags AVL_GREATER then -1 else 0 in
    start_loop ITER_FUEL kn_comp flags target 0 root it h.

Definition avl_get_iter (root : Z) (it : avl_iter) : Z :=
  if depth it =? -1 then 0 else if depth it =? 0 then root else path it (depth it - 1).

(** Up to the first ancestor that was left by the branch [to_right] *)
Fixpoint climb (fuel : nat) (to_right : bool) (it : avl_iter) : res avl_iter :=
  match fuel with
  | O => Crash OutOfFuel
  | S fuel =>
      if depth it =? 0 then Ret (it <| depth := -1 |>)
      else
        let it := it <| depth ::= Z.pred |> in
        if Bool.eqb (went_right (depth it) it) to_right then Ret it else climb fuel to_right it
  end.

(** Down along the branches [to_right] *)
Fixpoint descend (fuel : nat) (to_right : bool) (cur : Z) (it : avl_iter) (h : nodes) : res avl_iter :=
  match fuel with
  | O => Crash OutOfFuel
  | S fuel =>
      let cur := if to_right then right (h cur) else left (h cur) in
      if cur =? 0 then Ret it
      else
        it ← take_branch (depth it) to_right cur it;
        descend fuel to_right cur (it <| depth ::= Z.succ |>) h
  end.

(** [avl_inc_iter], or [avl_dec_iter] with the sides exchanged *)
Definition avl_step_iter (forward : bool) (root : Z) (it : avl_iter) (h : nodes) : res avl_iter :=
  if depth it =? -1 then Ret it
  else
    cur ← member (if forward then right else left) (avl_get_iter root it) h;
    if cur =? 0 then climb ITER_FUEL (negb forward) it
    else
      it ← take_branch (depth it) forward cur it;
      descend ITER_FUEL (negb forward) cur (it <| depth ::= Z.succ |>) h.

Definition avl_inc_iter : Z -> avl_iter -> nodes -> res avl_iter := avl_step_iter true.
Definition avl_dec_iter : Z -> avl_iter -> nodes -> res avl_iter := avl_step_iter false.
