(* ===== verification/AvlTree.v ===== *)
(** * Trees of nodes

    Trees without pointers, and what it means that the nodes of [Avl] form a tree:
    rotations and the step that restores the balance do the same on both. *)

From stdpp Require Import sorting.
From S2P Require Import Prelude Avl.

(** ** Trees without pointers *)

Inductive tree :=
| Leaf
| Node (l : tree) (n : Z) (r : tree).

Fixpoint elements (t : tree) : list Z :=
  match t with
  | Leaf => []
  | Node l n r => elements l ++ n :: elements r
  end.

Fixpoint ht (t : tree) : Z :=
  match t with
  | Leaf => 0
  | Node l _ r => Z.max (ht l) (ht r) + 1
  end.

Definition rotate_left (t : tree) : tree :=
  match t with Node a x (Node b y c) => Node (Node a x b) y c | _ => t end.
Definition rotate_right (t : tree) : tree :=
  match t with Node (Node a x b) y c => Node a x (Node b y c) | _ => t end.

Definition balance (t : tree) : tree :=
  match t with
  | Leaf => Leaf
  | Node l n r =>
      if ht r - ht l =? 2 then
        match r with
        | Leaf => t
        | Node rl _ rr => if ht rl <=? ht rr then rotate_left t else rotate_left (Node l n (rotate_right r))
        end
      else if ht r - ht l =? -2 then
        match l with
        | Leaf => t
        | Node ll _ lr => if ht lr <=? ht ll then rotate_right t else rotate_right (Node (rotate_left l) n r)
        end
      else t
  end.

Section pure.
Context (key : Z -> Z).

Fixpoint ins (x : Z) (t : tree) : tree :=
  match t with
  | Leaf => Node Leaf x Leaf
  | Node l n r => if key x <? key n then balance (Node (ins x l) n r) else balance (Node l n (ins x r))
  end.

(** The first node, and the rest *)
Fixpoint take_min (l : tree) (n : Z) (r : tree) : Z * tree :=
  match l with
  | Leaf => (n, r)
  | Node ll m lr => let '(x, l') := take_min ll m lr in (x, Node l' n r)
  end.

Definition join (l r : tree) : tree :=
  match l, r with
  | Leaf, _ => balance r
  | _, Leaf => balance l
  | _, Node rl m rr => let '(x, r') := take_min rl m rr in balance (Node l x r')
  end.

Fixpoint del (x : Z) (t : tree) : tree :=
  match t with
  | Leaf => Leaf
  | Node l n r =>
      if key x <? key n then balance (Node (del x l) n r)
      else if key n <? key x then balance (Node l n (del x r))
      else join l r
  end.

End pure.

Lemma ht_nonneg t : 0 <= ht t.
Proof. induction t as [|l IHl n r IHr]; cbn [ht]; lia. Qed.

Lemma ht_zero t : ht t = 0 -> t = Leaf.
Proof. destruct t as [|l n r]; [done|]. cbn [ht]. pose proof (ht_nonneg l). pose proof (ht_nonneg r). lia. Qed.

Lemma elements_rotate_left t : elements (rotate_left t) = elements t.
Proof. destruct t as [|a x [|b y c]]; try done. cbn. by rewrite <- app_assoc. Qed.

Lemma elements_rotate_right t : elements (rotate_right t) = elements t.
Proof. destruct t as [|[|a x b] y c]; try done. cbn. by rewrite <- app_assoc. Qed.

Lemma elements_balance t : elements (balance t) = elements t.
Proof.
  destruct t as [|l n r]; [done|]. cbn [balance]. destruct (_ =? 2).
  - destruct r as [|rl m rr]; [done|]. destruct (_ <=? _); rewrite elements_rotate_left; [done|].
    cbn [elements]. by rewrite elements_rotate_right.
  - destruct (_ =? -2); [|done]. destruct l as [|ll m lr]; [done|].
    destruct (_ <=? _); rewrite elements_rotate_right; [done|]. cbn [elements]. by rewrite elements_rotate_left.
Qed.

(** ** Trees of nodes *)

(** The pointer [p] leads to the tree [t], with the right heights. *)
Fixpoint rep (h : nodes) (p : Z) (t : tree) : Prop :=
  match t with
  | Leaf => p = 0
  | Node l n r => p = n /\ n <> 0 /\ height (h n) = ht t /\ rep h (left (h n)) l /\ rep h (right (h n)) r
  end.

(** Node [n] with its two subtrees; its height may be wrong. *)
Definition linked (h : nodes) (l : tree) (n : Z) (r : tree) : Prop :=
  n <> 0 /\ rep h (left (h n)) l /\ rep h (right (h n)) r.

Lemma rep_linked h p l n r : rep h p (Node l n r) -> p = n /\ linked h l n r.
Proof. intros (-> & Hn & _ & Hl & Hr). done. Qed.

Lemma rep_height h p t : rep h p t -> avl_tree_height p h = ht t.
Proof.
  destruct t as [|l n r]; unfold avl_tree_height; [by intros ->|]. intros (-> & Hn & Hh & _).
  by rewrite (proj2 (Z.eqb_neq n 0)).
Qed.

Definition same_outside (ns : list Z) (h h' : nodes) : Prop := forall m, m ∉ ns -> h' m = h m.

Lemma rep_frame h h' p t : (forall n, n ∈ elements t -> h' n = h n) -> rep h p t -> rep h' p t.
Proof.
  revert p. induction t as [|l IHl n r IHr]; intros p Hf; [done|]. cbn [elements] in Hf.
  intros (-> & Hn & Hh & Hl & Hr). cbn [rep]. rewrite (Hf n) by set_solver. split; [done|]. split; [done|]. split; [done|].
  split; [apply IHl|apply IHr]; try done; intros m Hm; apply Hf; set_solver.
Qed.

Lemma rep_outside ns h h' p t :
  same_outside ns h h' -> (forall n, n ∈ elements t -> n ∉ ns) -> rep h p t -> rep h' p t.
Proof. intros Hs Hd. apply rep_frame. intros n Hn. by apply Hs, Hd. Qed.

Lemma same_outside_trans ns h1 h2 h3 : same_outside ns h1 h2 -> same_outside ns h2 h3 -> same_outside ns h1 h3.
Proof. intros H1 H2 m Hm. rewrite (H2 m Hm). by apply H1. Qed.

Lemma same_outside_mono ns ns' h h' : same_outside ns h h' -> ns ⊆ ns' -> same_outside ns' h h'.
Proof. intros H1 H2 m Hm. apply H1. set_solver. Qed.

Lemma assign_eq g n h : n <> 0 -> assign g n h = Ret (alter g n h).
Proof. intros Hn. unfold assign. by rewrite (proj2 (Z.eqb_neq n 0)). Qed.

Lemma member_eq {A} (f : avl_node -> A) n h : n <> 0 -> member f n h = Ret (f (h n)).
Proof. intros Hn. unfold member. by rewrite (proj2 (Z.eqb_neq n 0)). Qed.

Lemma same_outside_alter g n ns h : n ∈ ns -> same_outside ns h (alter g n h).
Proof. intros Hn m Hm. rewrite fn_lookup_alter_ne; [done|]. intros ->. done. Qed.

(** An operation returns the tree [t] and leaves the nodes outside of [ns] alone. *)
Definition builds (r : res (Z * nodes)) (t : tree) (ns : list Z) (h : nodes) : Prop :=
  exists p h', r = Ret (p, h') /\ rep h' p t /\ same_outside ns h h'.

Lemma set_height_spec h l n r :
  linked h l n r -> NoDup (elements (Node l n r)) ->
  exists h', avl_set_height n h = Ret h' /\ rep h' n (Node l n r) /\ same_outside [n] h h' /\
    left (h' n) = left (h n) /\ right (h' n) = right (h n).
Proof.
  intros (Hn & Hl & Hr) Hnd. unfold avl_set_height. rewrite !member_eq by done. cbn [mbind res_mbind].
  rewrite assign_eq by done. set (g := fun n0 : avl_node => n0 <| height := _ |>). exists (alter g n h). split; [done|].
  assert (alter g n h n = g (h n)) as Hg by apply fn_lookup_alter.
  assert (same_outside [n] h (alter g n h)) as Hs by (apply same_outside_alter; set_solver).
  cbn [elements] in Hnd. rewrite NoDup_app, NoDup_cons in Hnd. destruct Hnd as (_ & Hd & Hnr & _).
  split; [|split; [done|by rewrite Hg]]. cbn [rep]. rewrite Hg. split; [done|]. split; [done|]. split.
  { change (Z.max (avl_tree_height (left (h n)) h) (avl_tree_height (right (h n)) h) + 1 = Z.max (ht l) (ht r) + 1).
    by rewrite !(rep_height h _ _ Hl), (rep_height h _ _ Hr). }
  split; (eapply rep_outside; [exact Hs| |done]); intros m Hm; [specialize (Hd m Hm)|]; set_solver.
Qed.

(** Facts about nodes that are different, from a list without repetitions *)
Ltac distinct :=
  repeat match goal with
    | H : NoDup (elements _) |- _ => progress cbn [elements] in H
    | H : NoDup (_ ++ _) |- _ => apply NoDup_app in H as (? & ? & ?)
    | H : NoDup (_ :: _) |- _ => apply NoDup_cons in H as [? ?]
    end.

Lemma left_rotate_spec h a x b y c :
  linked h a x (Node b y c) -> NoDup (elements (Node a x (Node b y c))) ->
  builds (avl_left_rotate x h) (Node (Node a x b) y c) [x; y] h.
Proof.
  intros (Hx & Ha & Hr) Hnd. pose proof Hr as [Hy (Hy0 & Hb & Hc)]%rep_linked. unfold avl_left_rotate.
  rewrite member_eq by done. cbn [mbind res_mbind]. rewrite Hy, member_eq by done. cbn [mbind res_mbind].
  rewrite assign_eq by done. cbn [mbind res_mbind]. rewrite assign_eq by done. cbn [mbind res_mbind].
  set (g1 := fun n : avl_node => n <| right := _ |>). set (g2 := fun n : avl_node => n <| left := x |>).
  set (h2 := alter g2 y (alter g1 x h)).
  assert (x <> y) as Hxy by (intros ->; distinct; set_solver).
  assert (h2 x = g1 (h x)) as H2x by (unfold h2; rewrite fn_lookup_alter_ne by done; apply fn_lookup_alter).
  assert (h2 y = g2 (h y)) as H2y by (unfold h2; rewrite fn_lookup_alter, fn_lookup_alter_ne by done; done).
  assert (same_outside [x; y] h h2) as Hs2.
  { eapply same_outside_trans; apply same_outside_alter; set_solver. }
  assert (linked h2 a x b) as Hlx.
  { split; [done|]. rewrite H2x. split; (eapply rep_outside; [exact Hs2| |done]); distinct; set_solver. }
  destruct (set_height_spec h2 a x b Hlx) as (h3 & -> & Hrx & Hs3 & _); [cbn [elements]; rewrite NoDup_app, NoDup_cons; distinct; set_solver|].
  cbn [mbind res_mbind]. assert (h3 y = h2 y) as H3y by (apply Hs3; set_solver).
  assert (linked h3 (Node a x b) y c) as Hly.
  { split; [done|]. rewrite H3y, H2y. split; [done|]. eapply rep_outside; [exact Hs3|distinct; set_solver|].
    eapply rep_outside; [exact Hs2|distinct; set_solver|done]. }
  destruct (set_height_spec h3 (Node a x b) y c Hly) as (h4 & -> & Hry & Hs4 & _).
  { rewrite <- (elements_rotate_left (Node a x (Node b y c))) in Hnd. done. }
  cbn [mbind res_mbind]. exists y, h4. split; [done|]. split; [done|].
  eapply same_outside_trans; [exact Hs2|]. eapply same_outside_trans; eapply same_outside_mono; [exact Hs3| |exact Hs4|]; set_solver.
Qed.

Lemma right_rotate_spec h a x b y c :
  linked h (Node a x b) y c -> NoDup (elements (Node (Node a x b) y c)) ->
  builds (avl_right_rotate y h) (Node a x (Node b y c)) [x; y] h.
Proof.
  intros (Hy & Hl & Hc) Hnd. pose proof Hl as [Hx (Hx0 & Ha & Hb)]%rep_linked. unfold avl_right_rotate.
  rewrite member_eq by done. cbn [mbind res_mbind]. rewrite Hx, member_eq by done. cbn [mbind res_mbind].
  rewrite assign_eq by done. cbn [mbind res_mbind]. rewrite assign_eq by done. cbn [mbind res_mbind].
  set (g1 := fun n : avl_node => n <| left := _ |>). set (g2 := fun n : avl_node => n <| right := y |>).
  set (h2 := alter g2 x (alter g1 y h)).
  assert (x <> y) as Hxy by (intros ->; distinct; set_solver).
  assert (h2 y = g1 (h y)) as H2y by (unfold h2; rewrite fn_lookup_alter_ne by done; apply fn_lookup_alter).
  assert (h2 x = g2 (h x)) as H2x by (unfold h2; rewrite fn_lookup_alter, fn_lookup_alter_ne by done; done).
  assert (same_outside [x; y] h h2) as Hs2.
  { eapply same_outside_trans; apply same_outside_alter; set_solver. }
  assert (linked h2 b y c) as Hly.
  { split; [done|]. rewrite H2y. split; (eapply rep_outside; [exact Hs2| |done]); distinct; set_solver. }
  destruct (set_height_spec h2 b y c Hly) as (h3 & -> & Hry & Hs3 & _); [cbn [elements]; rewrite NoDup_app, NoDup_cons; distinct; set_solver|].
  cbn [mbind res_mbind]. assert (h3 x = h2 x) as H3x by (apply Hs3; set_solver).
  assert (linked h3 a x (Node b y c)) as Hlx.
  { split; [done|]. rewrite H3x, H2x. split; [|done]. eapply rep_outside; [exact Hs3|distinct; set_solver|].
    eapply rep_outside; [exact Hs2|distinct; set_solver|done]. }
  destruct (set_height_spec h3 a x (Node b y c) Hlx) as (h4 & -> & Hrx & Hs4 & _).
  { rewrite <- (elements_rotate_right (Node (Node a x b) y c)) in Hnd. done. }
  cbn [mbind res_mbind]. exists x, h4. split; [done|]. split; [done|].
  eapply same_outside_trans; [exact Hs2|]. eapply same_outside_trans; eapply same_outside_mono; [exact Hs3| |exact Hs4|]; set_solver.
Qed.

Lemma NoDup_node l n r :
  NoDup (elements (Node l n r)) ->
  NoDup (elements l) /\ NoDup (elements r) /\ n ∉ elements l /\ n ∉ elements r /\ (forall m, m ∈ elements l -> m ∉ elements r).
Proof. cbn [elements]. rewrite NoDup_app, NoDup_cons. set_solver. Qed.

Lemma right_left_rotate_spec h a x b1 z b2 y c :
  linked h a x (Node (Node b1 z b2) y c) -> NoDup (elements (Node a x (Node (Node b1 z b2) y c))) ->
  builds (avl_right_left_rotate x h) (Node (Node a x b1) z (Node b2 y c)) [x; y; z] h.
Proof.
  intros (Hx & Ha & Hr) Hnd. pose proof Hr as [Hy Hly]%rep_linked. unfold avl_right_left_rotate.
  rewrite member_eq by done. cbn [mbind res_mbind]. rewrite Hy.
  destruct (right_rotate_spec h b1 z b2 y c Hly) as (p & h1 & -> & Hr1 & Hs1); [by apply NoDup_node in Hnd as (_ & ? & _)|].
  cbn [mbind res_mbind]. rewrite assign_eq by done. cbn [mbind res_mbind]. set (g := fun n : avl_node => n <| right := p |>).
  apply NoDup_node in Hnd as Hnd'. destruct Hnd' as (_ & _ & Hxa & Hxr & Har). cbn [elements] in Hxr, Har.
  assert (x <> z /\ x <> y) as [Hxz Hxy] by set_solver.
  assert (alter g x h1 x = g (h x)) as Hg by (rewrite fn_lookup_alter; f_equal; apply Hs1; set_solver).
  assert (same_outside [x; y; z] h h1) as Hs1' by (eapply same_outside_mono; [exact Hs1|set_solver]).
  assert (same_outside [x] h1 (alter g x h1)) as Hs2 by (apply same_outside_alter; set_solver).
  destruct (left_rotate_spec (alter g x h1) a x b1 z (Node b2 y c)) as (p' & h2 & -> & Hr2 & Hs3).
  - split; [done|]. rewrite Hg. split; (eapply rep_outside; [exact Hs2|cbn [elements]; set_solver|]); [|exact Hr1].
    eapply rep_outside; [exact Hs1|set_solver|done].
  - cbn [elements] in Hnd |- *. by rewrite <- app_assoc in Hnd.
  - exists p', h2. split; [done|]. split; [done|]. eapply same_outside_trans; [exact Hs1'|].
    eapply same_outside_trans; eapply same_outside_mono; [exact Hs2| |exact Hs3|]; set_solver.
Qed.

Lemma left_right_rotate_spec h a x b1 z b2 y c :
  linked h (Node a x (Node b1 z b2)) y c -> NoDup (elements (Node (Node a x (Node b1 z b2)) y c)) ->
  builds (avl_left_right_rotate y h) (Node (Node a x b1) z (Node b2 y c)) [x; y; z] h.
Proof.
  intros (Hy & Hl & Hc) Hnd. pose proof Hl as [Hx Hlx]%rep_linked. unfold avl_left_right_rotate.
  rewrite member_eq by done. cbn [mbind res_mbind]. rewrite Hx.
  destruct (left_rotate_spec h a x b1 z b2 Hlx) as (p & h1 & -> & Hr1 & Hs1); [by apply NoDup_node in Hnd as (? & _)|].
  cbn [mbind res_mbind]. rewrite assign_eq by done. cbn [mbind res_mbind]. set (g := fun n : avl_node => n <| left := p |>).
  apply NoDup_node in Hnd as Hnd'. destruct Hnd' as (_ & _ & Hyl & Hyc & Hlc). cbn [elements] in Hyl, Hlc.
  assert (y <> z /\ x <> y) as [Hyz Hxy] by set_solver.
  assert (alter g y h1 y = g (h y)) as Hg by (rewrite fn_lookup_alter; f_equal; apply Hs1; set_solver).
  assert (same_outside [x; y; z] h h1) as Hs1' by (eapply same_outside_mono; [exact Hs1|set_solver]).
  assert (same_outside [y] h1 (alter g y h1)) as Hs2 by (apply same_outside_alter; set_solver).
  destruct (right_rotate_spec (alter g y h1) (Node a x b1) z b2 y c) as (p' & h2 & -> & Hr2 & Hs3).
  - split; [done|]. rewrite Hg. split; (eapply rep_outside; [exact Hs2|cbn [elements]; set_solver|]); [exact Hr1|].
    eapply rep_outside; [exact Hs1|set_solver|done].
  - cbn [elements] in Hnd |- *. rewrite <- !app_assoc in Hnd |- *. cbn [app] in Hnd |- *. rewrite <- !app_assoc in Hnd |- *. done.
  - exists p', h2. split; [done|]. split; [done|]. eapply same_outside_trans; [exact Hs1'|].
    eapply same_outside_trans; eapply same_outside_mono; [exact Hs2| |exact Hs3|]; set_solver.
Qed.

Lemma builds_mono r t ns ns' h : builds r t ns h -> ns ⊆ ns' -> builds r t ns' h.
Proof. intros (p & h' & -> & Hr & Hs) Hns. exists p, h'. split; [done|]. split; [done|]. by eapply same_outside_mono. Qed.

Lemma builds_trans r t ns h h1 : same_outside ns h h1 -> builds r t ns h1 -> builds r t ns h.
Proof. intros H1 (p & h' & -> & Hr & Hs). exists p, h'. split; [done|]. split; [done|]. by eapply same_outside_trans. Qed.

Lemma fixup_right_spec h l n r :
  rep h n (Node l n r) -> NoDup (elements (Node l n r)) -> ht r - ht l = 2 ->
  builds (avl_fixup 2 n h) (balance (Node l n r)) (elements (Node l n r)) h.
Proof.
  intros Hrep Hnd Hbf. pose proof (ht_nonneg l). pose proof Hrep as [_ Hlk]%rep_linked. pose proof Hlk as (Hn & _ & Hr).
  destruct r as [|rl y rr]; [cbn [ht] in Hbf; lia|]. pose proof Hr as [Hy (Hy0 & Hrl & Hrr)]%rep_linked.
  unfold avl_fixup. change (2 =? 2) with true. cbn iota. rewrite member_eq by done. cbn [mbind res_mbind]. rewrite Hy.
  rewrite !member_eq by done. cbn [mbind res_mbind]. rewrite (rep_height _ _ _ Hrl), (rep_height _ _ _ Hrr).
  cbn [balance]. rewrite Hbf. change (2 =? 2) with true. cbn iota. destruct (Z.leb_spec (ht rl) (ht rr)).
  - eapply builds_mono; [by apply left_rotate_spec|]. cbn [elements]. set_solver.
  - destruct rl as [|b1 z b2]; [cbn [ht] in *; pose proof (ht_nonneg rr); lia|]. cbn [rotate_right rotate_left].
    eapply builds_mono; [by apply right_left_rotate_spec|]. cbn [elements]. set_solver.
Qed.

Lemma fixup_left_spec h l n r :
  rep h n (Node l n r) -> NoDup (elements (Node l n r)) -> ht r - ht l = -2 ->
  builds (avl_fixup (-2) n h) (balance (Node l n r)) (elements (Node l n r)) h.
Proof.
  intros Hrep Hnd Hbf. pose proof (ht_nonneg r). pose proof Hrep as [_ Hlk]%rep_linked. pose proof Hlk as (Hn & Hl & _).
  destruct l as [|ll y lr]; [cbn [ht] in Hbf; lia|]. pose proof Hl as [Hy (Hy0 & Hll & Hlr)]%rep_linked.
  unfold avl_fixup. change (-2 =? 2) with false. change (-2 =? -2) with true. cbn iota. rewrite member_eq by done.
  cbn [mbind res_mbind]. rewrite Hy. rewrite !member_eq by done. cbn [mbind res_mbind].
  rewrite (rep_height _ _ _ Hll), (rep_height _ _ _ Hlr).
  cbn [balance]. rewrite Hbf. change (-2 =? 2) with false. change (-2 =? -2) with true. cbn iota.
  destruct (Z.leb_spec (ht lr) (ht ll)).
  - eapply builds_mono; [by apply right_rotate_spec|]. cbn [elements]. set_solver.
  - destruct lr as [|b1 z b2]; [cbn [ht] in *; pose proof (ht_nonneg ll); lia|]. cbn [rotate_right rotate_left].
    eapply builds_mono; [by apply left_right_rotate_spec|]. cbn [elements]. set_solver.
Qed.

Lemma rebalance_spec h l n r :
  linked h l n r -> NoDup (elements (Node l n r)) ->
  builds (avl_rebalance n h) (balance (Node l n r)) (elements (Node l n r)) h.
Proof.
  intros Hlk Hnd. unfold avl_rebalance. destruct (set_height_spec h l n r Hlk Hnd) as (h1 & -> & Hr1 & Hs1 & _).
  assert (same_outside (elements (Node l n r)) h h1) as Hs by (eapply same_outside_mono; [exact Hs1|cbn [elements]; set_solver]).
  pose proof Hr1 as [_ (Hn & Hl & Hr)]%rep_linked. cbn [mbind res_mbind]. unfold avl_balance_factor.
  rewrite !member_eq by done. cbn [mbind res_mbind]. rewrite (rep_height _ _ _ Hl), (rep_height _ _ _ Hr).
  eapply builds_trans; [exact Hs|]. destruct (Z.eqb_spec (ht r - ht l) 2) as [Hb|Hb]; [rewrite Hb; by apply fixup_right_spec|].
  destruct (Z.eqb_spec (ht r - ht l) (-2)) as [Hb'|Hb']; [rewrite Hb'; by apply fixup_left_spec|]. cbn [orb].
  exists n, h1. split; [done|]. split; [|done]. cbn [balance]. rewrite !(proj2 (Z.eqb_neq _ _)) by done. done.
Qed.
