(* ===== verification/AvlProps.v ===== *)
(** * Balanced trees refine sorted sequences

    Theorems on [Avl]: insertion and removal do what they do on trees without
    pointers, in-order sequences, balance, iterators. *)

From stdpp Require Import sorting.
From S2P Require Import Prelude Avl AvlTree.

(** ** Insertion and removal on trees of nodes *)

(** Node [n] gets a new subtree on one side. *)
Lemma relink_left h h1 l l' n r p ns :
  linked h l n r -> same_outside ns h h1 -> rep h1 p l' -> n ∉ ns -> n ∉ elements l' -> n ∉ elements r ->
  (forall m, m ∈ elements r -> m ∉ ns) ->
  exists h2, assign (fun x => x <| left := p |>) n h1 = Ret h2 /\ linked h2 l' n r /\ same_outside (n :: ns) h h2.
Proof.
  intros (Hn & Hl & Hr) Hs Hp Hns Hl' Hnr Hd. rewrite assign_eq by done. eexists. split; [done|].
  set (h2 := alter _ n h1). assert (same_outside [n] h1 h2) as Hs2 by (apply same_outside_alter; set_solver).
  assert (h2 n = (h n) <| left := p |>) as Hg.
  { unfold h2. rewrite fn_lookup_alter. by rewrite (Hs n Hns). }
  split.
  - split; [done|]. rewrite Hg. split; (eapply rep_outside; [exact Hs2|set_solver|]); [done|].
    eapply rep_outside; [exact Hs|done|done].
  - eapply same_outside_trans; eapply same_outside_mono; [exact Hs| |exact Hs2|]; set_solver.
Qed.

Lemma relink_right h h1 l r r' n p ns :
  linked h l n r -> same_outside ns h h1 -> rep h1 p r' -> n ∉ ns -> n ∉ elements r' -> n ∉ elements l ->
  (forall m, m ∈ elements l -> m ∉ ns) ->
  exists h2, assign (fun x => x <| right := p |>) n h1 = Ret h2 /\ linked h2 l n r' /\ same_outside (n :: ns) h h2.
Proof.
  intros (Hn & Hl & Hr) Hs Hp Hns Hr' Hnl Hd. rewrite assign_eq by done. eexists. split; [done|].
  set (h2 := alter _ n h1). assert (same_outside [n] h1 h2) as Hs2 by (apply same_outside_alter; set_solver).
  assert (h2 n = (h n) <| right := p |>) as Hg.
  { unfold h2. rewrite fn_lookup_alter. by rewrite (Hs n Hns). }
  split.
  - split; [done|]. rewrite Hg. split; (eapply rep_outside; [exact Hs2|set_solver|]); [|done].
    eapply rep_outside; [exact Hs|done|done].
  - eapply same_outside_trans; eapply same_outside_mono; [exact Hs| |exact Hs2|]; set_solver.
Qed.

Section refinement.
Context (key : Z -> Z).

Lemma compare_keys_eq a b : compare_keys key a b = if key a <? key b then -1 else if key b <? key a then 1 else 0.
Proof. done. Qed.

Lemma elements_ins x t : elements (ins key x t) ≡ₚ x :: elements t.
Proof.
  induction t as [|l IHl n r IHr]; [done|]. cbn [ins]. destruct (_ <? _); rewrite elements_balance; cbn [elements].
  - by rewrite IHl.
  - rewrite IHr. solve_Permutation.
Qed.

Lemma insert_recur_spec fuel x p t h :
  rep h p t -> NoDup (x :: elements t) -> x <> 0 -> ht t < Z.of_nat fuel ->
  builds (avl_insert_recur (compare_keys key) fuel x p h) (ins key x t) (x :: elements t) h.
Proof.
  revert p t h. induction fuel as [|fuel IH]; intros p t h Hrep Hnd Hx Hf; [pose proof (ht_nonneg t); lia|].
  cbn [avl_insert_recur]. destruct t as [|l n r].
  - cbn in Hrep. rewrite Hrep, assign_eq by done. cbn. eexists _, _. split; [done|]. split.
    + cbn. rewrite fn_lookup_alter. cbn. done.
    + apply same_outside_alter. set_solver.
  - apply NoDup_cons in Hnd as [Hxn Hnd]. pose proof (NoDup_node _ _ _ Hnd) as (Hndl & Hndr & Hnl & Hnr & Hlr).
    cbn [elements] in Hxn. rewrite elem_of_app, elem_of_cons in Hxn. pose proof Hrep as [-> Hlk]%rep_linked.
    pose proof Hlk as (Hn & Hl & Hr). rewrite (proj2 (Z.eqb_neq n 0)) by done. cbn [ht] in Hf. rewrite compare_keys_eq. cbn [ins].
    destruct (Z.ltb_spec (key x) (key n)).
    + change (-1 =? -1) with true. cbn iota.
      destruct (IH _ l h Hl) as (p1 & h1 & -> & Hr1 & Hs1); [apply NoDup_cons; naive_solver|done|lia|]. cbn [mbind res_mbind].
      destruct (relink_left h h1 l (ins key x l) n r p1 (x :: elements l)) as (h2 & -> & Hlk2 & Hs2);
        rewrite ?elements_ins; try done; [set_solver..|]. cbn [mbind res_mbind].
      assert (NoDup (elements (Node (ins key x l) n r))) as Hnd2.
      { cbn [elements]. rewrite elements_ins. apply NoDup_cons. rewrite elem_of_app, elem_of_cons. done. }
      destruct (rebalance_spec h2 _ n r Hlk2 Hnd2) as (p3 & h3 & -> & Hr3 & Hs3). exists p3, h3. split; [done|]. split; [done|].
      eapply same_outside_trans; eapply same_outside_mono; [exact Hs2| |exact Hs3|]; cbn [elements]; rewrite ?elements_ins; set_solver.
    + assert (((if key n <? key x then 1 else 0) =? -1) = false) as -> by (by destruct (_ <? _)).
      destruct (IH _ r h Hr) as (p1 & h1 & -> & Hr1 & Hs1); [apply NoDup_cons; naive_solver|done|lia|]. cbn [mbind res_mbind].
      destruct (relink_right h h1 l r (ins key x r) n p1 (x :: elements r)) as (h2 & -> & Hlk2 & Hs2);
        rewrite ?elements_ins; try done; [set_solver..|]. cbn [mbind res_mbind].
      assert (NoDup (elements (Node l n (ins key x r)))) as Hnd2.
      { cbn [elements]. rewrite elements_ins. rewrite (Permutation_swap x n), <- Permutation_middle.
        apply NoDup_cons. rewrite elem_of_app, elem_of_cons. done. }
      destruct (rebalance_spec h2 l n _ Hlk2 Hnd2) as (p3 & h3 & -> & Hr3 & Hs3). exists p3, h3. split; [done|]. split; [done|].
      eapply same_outside_trans; eapply same_outside_mono; [exact Hs2| |exact Hs3|]; cbn [elements]; rewrite ?elements_ins; set_solver.
Qed.

Lemma take_min_elements l n r : elements (Node l n r) = (take_min l n r).1 :: elements (take_min l n r).2.
Proof.
  revert n r. induction l as [|ll IHll m lr IHlr]; intros n r; [done|]. cbn [take_min]. specialize (IHll m lr).
  change (elements (Node (Node ll m lr) n r)) with (elements (Node ll m lr) ++ n :: elements r). rewrite IHll.
  destruct (take_min ll m lr) as [x l']. done.
Qed.

Lemma erase_min_spec fuel l n r h :
  rep h n (Node l n r) -> NoDup (elements (Node l n r)) -> ht (Node l n r) < Z.of_nat fuel ->
  exists p h', avl_erase_min fuel n h = Ret (p, (take_min l n r).1, h') /\ rep h' p (take_min l n r).2 /\
    same_outside (elements (Node l n r)) h h' /\ (take_min l n r).1 <> 0.
Proof.
  revert l n r h. induction fuel as [|fuel IH]; intros l n r h Hrep Hnd Hf; [pose proof (ht_nonneg (Node l n r)); lia|].
  pose proof Hrep as [_ Hlk]%rep_linked. pose proof Hlk as (Hn & Hl & Hr). cbn [avl_erase_min].
  rewrite (proj2 (Z.eqb_neq n 0)) by done. pose proof (NoDup_node _ _ _ Hnd) as (Hndl & Hndr & Hnl & Hnr & Hlr).
  destruct l as [|ll m lr].
  - cbn in Hl. rewrite Hl. change (negb (0 =? 0)) with false. cbn iota. cbn [take_min fst snd].
    destruct r as [|rl y rr].
    + cbn in Hr. rewrite Hr. change (negb (0 =? 0)) with false. cbn. by eexists _, _.
    + pose proof Hr as [Hy Hly]%rep_linked. pose proof Hly as [Hy0 _]. rewrite Hy, (proj2 (Z.eqb_neq y 0)) by done. cbn [negb].
      destruct (set_height_spec h rl y rr Hly Hndr) as (h1 & -> & Hr1 & Hs1 & _). cbn [mbind res_mbind].
      exists y, h1. split; [done|]. split; [done|]. split; [|done]. eapply same_outside_mono; [exact Hs1|cbn [elements]; set_solver].
  - pose proof Hl as [Hm (Hm0 & _)]%rep_linked. rewrite Hm, (proj2 (Z.eqb_neq m 0)) by done. cbn [negb].
    destruct (IH ll m lr h) as (p1 & h1 & -> & Hr1 & Hs1 & Hx); [by rewrite Hm in Hl|done|cbn [ht] in *; lia|].
    cbn [mbind res_mbind]. pose proof (take_min_elements ll m lr) as Hel. cbn [take_min].
    destruct (take_min ll m lr) as [x l'] eqn:Htm. cbn [fst snd] in *.
    assert (n ∉ elements l' /\ elements l' ⊆ elements (Node ll m lr)) as [Hnl' Hsub] by (rewrite Hel in Hnl |- *; set_solver).
    destruct (relink_left h h1 (Node ll m lr) l' n r p1 (elements (Node ll m lr)) Hlk Hs1 Hr1 Hnl Hnl' Hnr) as (h2 & -> & Hlk2 & Hs2).
    { intros j Hj Hj'. by apply (Hlr j). }
    cbn [mbind res_mbind]. destruct (set_height_spec h2 l' n r Hlk2) as (h3 & -> & Hr3 & Hs3 & _).
    { change (elements (Node (Node ll m lr) n r)) with (elements (Node ll m lr) ++ n :: elements r) in Hnd.
      rewrite Hel in Hnd. cbn [app] in Hnd. by apply NoDup_cons in Hnd as [_ Hnd]. }
    cbn [mbind res_mbind]. exists n, h3. split; [done|]. split; [done|]. split; [|done].
    eapply same_outside_trans; eapply same_outside_mono; [exact Hs2| |exact Hs3|]; cbn [elements]; set_solver.
Qed.

(** A node is replaced by the two trees below it. *)
Definition erase_here (fuel : nat) (n : Z) (h : nodes) : res (Z * nodes) :=
  '(s, h) ← avl_unlink fuel n h; if s =? 0 then Ret (s, h) else avl_rebalance s h.

Lemma rebalance_rep_spec h p t ns :
  rep h p t -> NoDup (elements t) -> elements t ⊆ ns ->
  builds (if p =? 0 then Ret (p, h) else avl_rebalance p h) (balance t) ns h.
Proof.
  intros Hrep Hnd Hns. destruct t as [|l n r].
  - cbn in Hrep. rewrite Hrep. exists 0, h. by split.
  - pose proof Hrep as [-> Hlk]%rep_linked. pose proof Hlk as [Hn _]. rewrite (proj2 (Z.eqb_neq n 0)) by done.
    eapply builds_mono; [by apply rebalance_spec|done].
Qed.

Lemma erase_here_spec fuel l n r h :
  linked h l n r -> NoDup (elements (Node l n r)) -> ht r < Z.of_nat fuel ->
  builds (erase_here fuel n h) (join l r) (elements (Node l n r)) h.
Proof.
  intros Hlk Hnd Hf. pose proof Hlk as (Hn & Hl & Hr). pose proof (NoDup_node _ _ _ Hnd) as (Hndl & Hndr & Hnl & Hnr & Hlr).
  unfold erase_here, avl_unlink. destruct l as [|ll m lr].
  { cbn in Hl. rewrite Hl. change (0 =? 0) with true. cbn iota. cbn [mbind res_mbind join].
    apply rebalance_rep_spec; [done|done|cbn [elements]; set_solver]. }
  pose proof Hl as [Hm (Hm0 & _)]%rep_linked. rewrite Hm, (proj2 (Z.eqb_neq m 0)) by done. destruct r as [|rl y rr].
  { cbn in Hr. rewrite Hr. change (0 =? 0) with true. cbn iota. cbn [mbind res_mbind join].
    rewrite Hm in Hl.
    apply (rebalance_rep_spec h m (Node ll m lr)); [done|done|cbn [elements]; set_solver]. }
  pose proof Hr as [Hy (Hy0 & _)]%rep_linked. rewrite Hy, (proj2 (Z.eqb_neq y 0)) by done.
  destruct (erase_min_spec fuel rl y rr h) as (p1 & h1 & -> & Hr1 & Hs1 & Hx); [by rewrite Hy in Hr|done|done|].
  cbn [mbind res_mbind join]. pose proof (take_min_elements rl y rr) as Hel.
  destruct (take_min rl y rr) as [x r'] eqn:Htm. cbn [fst snd] in *. rewrite Hel in Hnr, Hlr, Hs1.
  assert (x ∉ elements r' /\ NoDup (elements r')) as [Hxr' Hndr'] by (rewrite Hel in Hndr; by apply NoDup_cons in Hndr).
  assert (n <> x) as Hnx by set_solver.
  rewrite !assign_eq by done. cbn [mbind res_mbind]. rewrite !assign_eq by done. cbn [mbind res_mbind].
  rewrite assign_eq by done. cbn [mbind res_mbind]. rewrite (proj2 (Z.eqb_neq x 0)) by done.
  set (h2 := alter (fun k : avl_node => k <| right := p1 |>) n h1). set (h3 := alter _ x h2). set (h4 := alter _ x h3).
  assert (right (h2 n) = p1 /\ left (h2 n) = left (h n)) as [H2r H2l].
  { unfold h2. rewrite fn_lookup_alter. split; [done|]. change (left (h1 n) = left (h n)). f_equal. apply Hs1. set_solver. }
  assert (left (h4 x) = left (h n) /\ right (h4 x) = p1) as [H4l H4r].
  { unfold h4. rewrite fn_lookup_alter. change (left (h3 n) = left (h n) /\ right (h3 x) = p1). unfold h3 at 2.
    rewrite fn_lookup_alter. split; [|exact H2r]. unfold h3. by rewrite fn_lookup_alter_ne. }
  assert (same_outside [n; x] h1 h4) as Hs4.
  { eapply same_outside_trans; [|eapply same_outside_trans]; apply same_outside_alter; set_solver. }
  assert (linked h4 (Node ll m lr) x r') as Hlk4.
  { split; [done|]. rewrite H4l, H4r. split; (eapply rep_outside; [exact Hs4|set_solver|]); [|done].
    eapply rep_outside; [exact Hs1| |done]. intros j Hj. apply Hlr, Hj. }
  assert (NoDup (elements (Node (Node ll m lr) x r'))) as Hnd4.
  { change (NoDup (elements (Node ll m lr) ++ x :: elements r')). rewrite NoDup_app, NoDup_cons. set_solver. }
  eapply builds_trans; [|eapply builds_mono; [by apply rebalance_spec|]].
  - eapply same_outside_trans; eapply same_outside_mono; [exact Hs1| |exact Hs4|];
      change (elements (Node (Node ll m lr) n (Node rl y rr))) with (elements (Node ll m lr) ++ n :: elements (Node rl y rr));
      rewrite Hel; set_solver.
  - change (elements (Node (Node ll m lr) n (Node rl y rr))) with (elements (Node ll m lr) ++ n :: elements (Node rl y rr)).
    change (elements (Node (Node ll m lr) x r')) with (elements (Node ll m lr) ++ x :: elements r'). rewrite Hel. set_solver.
Qed.

Lemma elements_join l r : elements (join l r) = elements l ++ elements r.
Proof.
  destruct l as [|ll m lr]; cbn [join]; [apply elements_balance|].
  destruct r as [|rl y rr]; [rewrite elements_balance; by rewrite app_nil_r|].
  pose proof (take_min_elements rl y rr) as Hel. destruct (take_min rl y rr) as [x r']. rewrite elements_balance.
  change (elements (Node (Node ll m lr) x r')) with (elements (Node ll m lr) ++ x :: elements r'). by rewrite Hel.
Qed.

Lemma elements_del_sublist x t : elements (del key x t) `sublist_of` elements t.
Proof.
  induction t as [|l IHl n r IHr]; [done|]. cbn [del]. destruct (_ <? _); [|destruct (_ <? _)].
  - rewrite elements_balance. cbn [elements]. by apply sublist_app.
  - rewrite elements_balance. cbn [elements]. apply sublist_app; [done|]. by apply sublist_skip.
  - rewrite elements_join. cbn [elements]. apply sublist_app; [done|]. by apply sublist_cons.
Qed.

Lemma erase_recur_spec fuel x p t h :
  rep h p t -> NoDup (elements t) -> ht t < Z.of_nat fuel ->
  builds (avl_erase_recur (compare_keys key) fuel x p h) (del key x t) (elements t) h.
Proof.
  revert p t h. induction fuel as [|fuel IH]; intros p t h Hrep Hnd Hf; [pose proof (ht_nonneg t); lia|].
  cbn [avl_erase_recur]. destruct t as [|l n r]; [cbn in Hrep; rewrite Hrep; exists 0, h; by split|].
  pose proof (NoDup_node _ _ _ Hnd) as (Hndl & Hndr & Hnl & Hnr & Hlr). pose proof Hrep as [-> Hlk]%rep_linked.
  pose proof Hlk as (Hn & Hl & Hr). rewrite (proj2 (Z.eqb_neq n 0)) by done. cbn [ht] in Hf. rewrite compare_keys_eq. cbn [del].
  pose proof (elements_del_sublist x l) as Hsl. pose proof (elements_del_sublist x r) as Hsr.
  pose proof (sublist_subseteq _ _ Hsl) as Hel. pose proof (sublist_subseteq _ _ Hsr) as Her.
  destruct (Z.ltb_spec (key x) (key n)); [|destruct (Z.ltb_spec (key n) (key x))].
  - change (-1 =? -1) with true. cbn iota. destruct (IH _ l h Hl Hndl) as (p1 & h1 & -> & Hr1 & Hs1); [lia|]. cbn [mbind res_mbind].
    destruct (relink_left h h1 l (del key x l) n r p1 (elements l)) as (h2 & -> & Hlk2 & Hs2);
      [done|done|done|done|auto|done|intros j Hj Hj'; by apply (Hlr j)|].
    cbn [mbind res_mbind]. rewrite (proj2 (Z.eqb_neq n 0)) by done.
    assert (NoDup (elements (Node (del key x l) n r))) as Hnd2.
    { eapply sublist_NoDup; [exact Hnd|]. cbn [elements]. by apply sublist_app. }
    eapply builds_trans; [eapply same_outside_mono; [exact Hs2|cbn [elements]; set_solver]|].
    eapply builds_mono; [by apply rebalance_spec|]. cbn [elements]. set_solver.
  - change (1 =? -1) with false. change (1 =? 1) with true. cbn iota.
    destruct (IH _ r h Hr Hndr) as (p1 & h1 & -> & Hr1 & Hs1); [lia|]. cbn [mbind res_mbind].
    destruct (relink_right h h1 l r (del key x r) n p1 (elements r)) as (h2 & -> & Hlk2 & Hs2);
      [done|done|done|done|auto|done|done|].
    cbn [mbind res_mbind]. rewrite (proj2 (Z.eqb_neq n 0)) by done.
    assert (NoDup (elements (Node l n (del key x r)))) as Hnd2.
    { eapply sublist_NoDup; [exact Hnd|]. cbn [elements]. apply sublist_app; [done|]. by apply sublist_skip. }
    eapply builds_trans; [eapply same_outside_mono; [exact Hs2|cbn [elements]; set_solver]|].
    eapply builds_mono; [by apply rebalance_spec|]. cbn [elements]. set_solver.
  - change (0 =? -1) with false. change (0 =? 1) with false. cbn iota. apply erase_here_spec; [done|done|lia].
Qed.

(** ** Sequences *)

Definition before (a b : Z) : Prop := key a < key b.
Definition sorted (l : list Z) : Prop := StronglySorted before l.

(** Insertion into a sequence *)
Fixpoint place (x : Z) (l : list Z) : list Z :=
  match l with
  | [] => [x]
  | y :: l' => if key x <? key y then x :: l else y :: place x l'
  end.

Lemma place_left x n L R : key x < key n -> place x (L ++ n :: R) = place x L ++ n :: R.
Proof.
  intros Hx. induction L as [|y L IH]; cbn [app place]; [by rewrite (proj2 (Z.ltb_lt _ _))|].
  destruct (_ <? _); [done|]. cbn [app]. by f_equal.
Qed.

Lemma place_right x n L R : key n <= key x -> Forall (fun y => before y n) L -> place x (L ++ n :: R) = L ++ n :: place x R.
Proof.
  intros Hx HL. induction HL as [|y L Hy _ IH]; cbn [app place]; [by rewrite (proj2 (Z.ltb_ge _ _))|].
  unfold before in Hy. rewrite (proj2 (Z.ltb_ge _ _)) by lia. by f_equal.
Qed.

Lemma sorted_node l n r :
  sorted (elements (Node l n r)) ->
  sorted (elements l) /\ sorted (elements r) /\ Forall (fun y => before y n) (elements l) /\ Forall (before n) (elements r).
Proof.
  intros Hs. pose proof Hs as Hs'. cbn [elements] in Hs'. apply StronglySorted_app_1_r in Hs' as Hr.
  apply StronglySorted_cons in Hr as [Hr1 Hr2]. split; [by apply StronglySorted_app_1_l in Hs'|]. split; [done|]. split; [|done].
  apply Forall_forall. intros y Hy. eapply StronglySorted_app_1_elem_of; [exact Hs'|done|set_solver].
Qed.

Lemma elements_ins_place x t : sorted (elements t) -> elements (ins key x t) = place x (elements t).
Proof.
  induction t as [|l IHl n r IHr]; [done|]. intros (Hl & Hr & Hln & _)%sorted_node. cbn [ins].
  destruct (Z.ltb_spec (key x) (key n)); rewrite elements_balance; cbn [elements].
  - by rewrite place_left, IHl.
  - by rewrite place_right, IHr.
Qed.

Lemma elements_del_filter x t : sorted (elements t) -> elements (del key x t) = filter (fun n => key n <> key x) (elements t).
Proof.
  induction t as [|l IHl n r IHr]; [done|]. intros (Hl & Hr & Hln & Hnr)%sorted_node. cbn [del elements].
  rewrite filter_app, filter_cons. rewrite Forall_forall in Hln, Hnr.
  destruct (Z.ltb_spec (key x) (key n)); [|destruct (Z.ltb_spec (key n) (key x))].
  - rewrite elements_balance, decide_True by lia. cbn [elements]. rewrite IHl by done. do 2 f_equal.
    symmetry. apply list_filter_id. intros y Hy. specialize (Hnr y Hy). unfold before in Hnr. lia.
  - rewrite elements_balance, decide_True by lia. cbn [elements]. rewrite IHr by done. f_equal.
    symmetry. apply list_filter_id. intros y Hy. specialize (Hln y Hy). unfold before in Hln. lia.
  - rewrite elements_join, decide_False by lia. symmetry.
    rewrite !list_filter_id; [done|intros y Hy; specialize (Hnr y Hy)|intros y Hy; specialize (Hln y Hy)]; unfold before in *; lia.
Qed.

Lemma place_perm x l : place x l ≡ₚ x :: l.
Proof. induction l as [|y l IH]; [done|]. cbn [place]. destruct (_ <? _); [done|]. rewrite IH. apply Permutation_swap. Qed.

Lemma sorted_place x l : sorted l -> Forall (fun y => key y <> key x) l -> sorted (place x l).
Proof.
  induction 1 as [|y l Hs IH Hy]; intros Hx; [repeat constructor|]. apply Forall_cons in Hx as [Hxy Hx]. cbn [place].
  destruct (Z.ltb_spec (key x) (key y)) as [Hlt|Hge].
  - apply StronglySorted_cons. split; [|by apply StronglySorted_cons]. apply Forall_cons. split; [done|].
    eapply Forall_impl; [exact Hy|]. intros z Hz. unfold before in *. lia.
  - apply StronglySorted_cons. split; [|by apply IH]. rewrite place_perm. apply Forall_cons. split; [unfold before; lia|done].
Qed.

Lemma sorted_filter (P : Z -> Prop) `{forall x, Decision (P x)} l : sorted l -> sorted (filter P l).
Proof.
  induction 1 as [|y l Hs IH Hy]; [constructor|]. rewrite filter_cons. destruct (decide (P y)); [|done].
  apply StronglySorted_cons. split; [|done]. apply Forall_forall. intros z [_ Hz]%list_elem_of_filter. by rewrite Forall_forall in Hy; apply Hy.
Qed.

Lemma sorted_NoDup l : sorted l -> NoDup l.
Proof.
  induction 1 as [|y l Hs IH Hy]; constructor; [|done]. intros Hin. rewrite Forall_forall in Hy. specialize (Hy y Hin).
  unfold before in Hy. lia.
Qed.

(** ** Balance *)

Fixpoint balanced (t : tree) : Prop :=
  match t with
  | Leaf => True
  | Node l _ r => -1 <= ht r - ht l <= 1 /\ balanced l /\ balanced r
  end.

Lemma balance_balanced l n r :
  balanced l -> balanced r -> -2 <= ht r - ht l <= 2 ->
  balanced (balance (Node l n r)) /\ Z.max (ht l) (ht r) <= ht (balance (Node l n r)) <= Z.max (ht l) (ht r) + 1 /\
  (-1 <= ht r - ht l <= 1 -> ht (balance (Node l n r)) = Z.max (ht l) (ht r) + 1).
Proof.
  intros Hl Hr Hd. cbn [balance]. pose proof (ht_nonneg l). pose proof (ht_nonneg r).
  destruct (Z.eqb_spec (ht r - ht l) 2); [|destruct (Z.eqb_spec (ht r - ht l) (-2))].
  - destruct r as [|rl m rr]; [cbn [ht] in *; lia|]. cbn [balanced ht] in *. destruct Hr as (Hr & Hrl & Hrr).
    pose proof (ht_nonneg rl). pose proof (ht_nonneg rr). destruct (Z.leb_spec (ht rl) (ht rr)); [cbn [balanced ht rotate_left]; repeat split; done || lia|].
    destruct rl as [|b1 z b2]; [cbn [ht] in *; lia|]. cbn [balanced ht rotate_left rotate_right] in *. repeat split; try tauto; lia.
  - destruct l as [|ll m lr]; [cbn [ht] in *; lia|]. cbn [balanced ht] in *. destruct Hl as (Hl & Hll & Hlr).
    pose proof (ht_nonneg ll). pose proof (ht_nonneg lr). destruct (Z.leb_spec (ht lr) (ht ll)); [cbn [balanced ht rotate_right]; repeat split; done || lia|].
    destruct lr as [|b1 z b2]; [cbn [ht] in *; lia|]. cbn [balanced ht rotate_left rotate_right] in *. repeat split; try tauto; lia.
  - cbn [balanced ht]. split; [|lia]. split; [lia|done].
Qed.

Lemma ins_balanced x t : balanced t -> balanced (ins key x t) /\ ht t <= ht (ins key x t) <= ht t + 1.
Proof.
  induction t as [|l IHl n r IHr]; [cbn; lia|]. cbn [balanced]. intros (Hd & Hl & Hr). cbn [ins].
  destruct (_ <? _).
  - destruct (IHl Hl) as [Hb Hh]. destruct (balance_balanced (ins key x l) n r Hb Hr) as (Hb' & Hh' & He); [lia|].
    split; [done|]. cbn [ht]. lia.
  - destruct (IHr Hr) as [Hb Hh]. destruct (balance_balanced l n (ins key x r) Hl Hb) as (Hb' & Hh' & He); [lia|].
    split; [done|]. cbn [ht]. lia.
Qed.

(** A balanced tree is not deep. *)
Lemma balanced_size t : balanced t -> 2 ^ (ht t / 2) <= Z.of_nat (length (elements t)) + 1.
Proof.
  induction t as [|l IHl n r IHr]; [done|]. cbn [balanced elements ht]. intros (Hd & Hl & Hr). specialize (IHl Hl). specialize (IHr Hr).
  rewrite length_app. cbn [length]. pose proof (ht_nonneg l). pose proof (ht_nonneg r).
  set (k := Z.max (ht l) (ht r)) in *.
  assert (forall a, k - 1 <= a -> 0 <= a -> 2 ^ ((k + 1) / 2) <= 2 * 2 ^ (a / 2)) as Hpow.
  { intros a Ha Ha0. rewrite <- Z.pow_succ_r by (apply Z.div_pos; lia). apply Z.pow_le_mono_r; [lia|].
    rewrite <- Z.add_1_r. replace (a / 2 + 1) with ((a + 1 * 2) / 2) by (rewrite Z.div_add; lia). apply Z.div_le_mono; lia. }
  pose proof (Hpow (ht l) ltac:(lia) ltac:(lia)). pose proof (Hpow (ht r) ltac:(lia) ltac:(lia)). lia.
Qed.

Lemma ht_size t : ht t <= Z.of_nat (length (elements t)).
Proof. induction t as [|l IHl n r IHr]; [done|]. cbn [ht elements]. rewrite length_app. cbn [length]. lia. Qed.
End refinement.

(** ** Facts on sorted sequences and on the nodes of a tree *)

Lemma filter_none (P : Z -> Prop) `{forall x, Decision (P x)} l : (forall x, x ∈ l -> ~ P x) -> filter P l = [].
Proof. induction l as [|x l IH]; intros Hn; [done|]. rewrite filter_cons, decide_False by (apply Hn; set_solver). apply IH. set_solver. Qed.

(** A sorted sequence below and from a limit on *)
Lemma sorted_split key k l : sorted key l -> l = filter (fun n => key n < k) l ++ filter (fun n => k <= key n) l.
Proof.
  induction 1 as [|x l Hs IH Hx]; [done|]. rewrite !filter_cons. destruct (decide (key x < k)) as [Hlt|Hge].
  - rewrite decide_False by lia. cbn [app]. by f_equal.
  - rewrite decide_True by lia. rewrite Forall_forall in Hx. rewrite (filter_none (fun n => key n < k)).
    + cbn [app]. f_equal. symmetry. apply list_filter_id. intros y Hy. specialize (Hx y Hy). unfold before in Hx. lia.
    + intros y Hy. specialize (Hx y Hy). unfold before in Hx. lia.
Qed.

Lemma elements_nonzero h p u n : rep h p u -> n ∈ elements u -> n <> 0.
Proof.
  revert p. induction u as [|l IHl m r IHr]; intros p Hrep Hn; [by apply elem_of_nil in Hn|].
  destruct Hrep as (-> & Hm & _ & Hl & Hr). cbn [elements] in Hn. apply elem_of_app in Hn as [Hn|[->|Hn]%elem_of_cons]; eauto.
Qed.

Lemma sorted_middle key L n R m : sorted key (L ++ n :: R) -> (m ∈ L -> key m < key n) /\ (m ∈ R -> key n < key m).
Proof.
  intros Hs. split; intros Hm.
  - apply (StronglySorted_app_1_elem_of _ _ _ m n Hs Hm). set_solver.
  - apply StronglySorted_app_1_r, StronglySorted_cons in Hs as [Hb _]. rewrite Forall_forall in Hb. by apply Hb.
Qed.

Lemma sorted_ext key key' l : sorted key l -> (forall n, n ∈ l -> key' n = key n) -> sorted key' l.
Proof.
  induction 1 as [|x l Hs IH Hx]; intros He; [constructor|]. apply StronglySorted_cons. rewrite Forall_forall in Hx |- *. split.
  - intros y Hy. unfold before. rewrite !He by set_solver. by apply Hx.
  - apply IH. set_solver.
Qed.

(** ** Heights: an insertion adds one level at most, a removal none *)

Lemma ht_balance t : ht (balance t) <= ht t.
Proof.
  destruct t as [|l n r]; [done|]. cbn [balance]. destruct (Z.eqb_spec (ht r - ht l) 2).
  - destruct r as [|rl m rr]; [done|]. destruct (Z.leb_spec (ht rl) (ht rr)); [cbn [rotate_left ht] in *; lia|].
    destruct rl as [|a x b]; cbn [rotate_right rotate_left ht] in *; lia.
  - destruct (Z.eqb_spec (ht r - ht l) (-2)); [|done]. destruct l as [|ll m lr]; [done|].
    destruct (Z.leb_spec (ht lr) (ht ll)); [cbn [rotate_right ht] in *; lia|].
    destruct lr as [|a x b]; cbn [rotate_right rotate_left ht] in *; lia.
Qed.

Lemma ht_ins key x t : ht (ins key x t) <= ht t + 1.
Proof.
  induction t as [|l IHl n r IHr]; [done|]. cbn [ins]. destruct (_ <? _); etrans; try apply ht_balance; cbn [ht]; lia.
Qed.

Lemma ht_take_min l n r : ht (snd (take_min l n r)) <= ht (Node l n r).
Proof.
  revert n r. induction l as [|ll IH m lr _]; intros n r; cbn [take_min]; [cbn [snd ht]; pose proof (ht_nonneg r); lia|].
  specialize (IH m lr). destruct (take_min ll m lr) as [x l']. cbn [snd ht] in *. lia.
Qed.

Lemma ht_del key x t : ht (del key x t) <= ht t.
Proof.
  induction t as [|l IHl n r IHr]; [done|]. cbn [del]. destruct (_ <? _); [etrans; [apply ht_balance|cbn [ht]; lia]|].
  destruct (_ <? _); [etrans; [apply ht_balance|cbn [ht]; lia]|]. unfold join.
  pose proof (ht_balance r). pose proof (ht_balance l). destruct l as [|ll m lr]; [cbn [ht]; lia|]. destruct r as [|rl m' rr]; [cbn [ht] in *; lia|].
  pose proof (ht_take_min rl m' rr). destruct (take_min rl m' rr) as [y r']. etrans; [apply ht_balance|]. cbn [snd ht] in *. lia.
Qed.
