(* ===== verification/AvlIter.v ===== *)
(** * Iterators of balanced trees

    Theorems on the iterators of [Avl]: where [avl_start_iter] starts, and that
    [avl_inc_iter] and [avl_dec_iter] go to the next and the previous node in
    order. *)

From stdpp Require Import sorting.
From S2P Require Import Prelude Bitmap Avl AvlTree AvlProps.

(** ** Paths *)

Definition label (t : tree) : Z := match t with Leaf => 0 | Node _ n _ => n end.
Definition child (d : bool) (t : tree) : tree :=
  match t with Leaf => Leaf | Node l _ r => if d then r else l end.

(** The subtree that the branches [ds] lead to; [true] is a branch to the right. *)
Fixpoint subtree (ds : list bool) (t : tree) : tree :=
  match ds with
  | [] => t
  | d :: ds => subtree ds (child d t)
  end.

(** The elements of a tree from one side to the other, towards the side [dir] *)
Definition towards (dir : bool) (t : tree) : list Z := if dir then elements t else rev (elements t).

(** The elements beyond a subtree on the side [dir], the nearest first *)
Fixpoint beyond (dir : bool) (ds : list bool) (t : tree) : list Z :=
  match ds with
  | [] => []
  | d :: ds => beyond dir ds (child d t) ++ (if Bool.eqb d dir then [] else label t :: towards dir (child dir t))
  end.

(** What comes after the node at [ds] *)
Definition rest (dir : bool) (ds : list bool) (t : tree) : list Z :=
  towards dir (child dir (subtree ds t)) ++ beyond dir ds t.

Definition is_node (t : tree) : bool := match t with Leaf => false | Node _ _ _ => true end.

Lemma elem_of_towards dir m t : m ∈ towards dir t -> m ∈ elements t.
Proof. destruct dir; [done|]. unfold towards. by rewrite <- Permutation_rev. Qed.

Lemma towards_node dir l n r :
  towards dir (Node l n r) = towards dir (child (negb dir) (Node l n r)) ++ n :: towards dir (child dir (Node l n r)).
Proof.
  destruct dir; unfold towards; cbn [elements child negb]; [done|]. rewrite rev_app_distr. cbn [rev]. by rewrite <- app_assoc.
Qed.

Lemma subtree_snoc ds d t : subtree (ds ++ [d]) t = child d (subtree ds t).
Proof. revert t. induction ds as [|d' ds IH]; intros t; [done|]. apply IH. Qed.

Lemma beyond_snoc dir ds d t :
  beyond dir (ds ++ [d]) t =
  (if Bool.eqb d dir then [] else label (subtree ds t) :: towards dir (child dir (subtree ds t))) ++ beyond dir ds t.
Proof.
  revert t. induction ds as [|d' ds IH]; intros t; cbn [app beyond subtree]; [by rewrite app_nil_r|].
  by rewrite IH, app_assoc.
Qed.

Lemma subtree_child_leaf ds : subtree ds Leaf = Leaf.
Proof. induction ds as [|d ds IH]; [done|]. apply IH. Qed.

(** The elements in order, seen from a node *)
Lemma elements_around ds t :
  is_node (subtree ds t) = true -> elements t = rev (rest false ds t) ++ label (subtree ds t) :: rest true ds t.
Proof.
  induction ds as [|d ds IH] using rev_ind; unfold rest.
  - cbn [subtree beyond]. rewrite !app_nil_r. destruct t as [|l n r]; [done|]. intros _. cbn. by rewrite rev_involutive.
  - intros Hn. rewrite !beyond_snoc, subtree_snoc in *. assert (is_node (subtree ds t) = true) as Hn'.
    { destruct (subtree ds t); [by destruct d|done]. }
    rewrite (IH Hn'). unfold rest. destruct (subtree ds t) as [|l n r]; [done|]. cbn [child label towards] in *.
    destruct d; [destruct r as [|rl m rr]|destruct l as [|ll m lr]]; try done; cbn [Bool.eqb];
      repeat (progress (unfold towards; cbn [rev app elements child label]; rewrite ?rev_app_distr, ?rev_involutive, <- ?app_assoc)); done.
Qed.

(** ** Cursors *)

(** The path and the branches that an iterator remembers lead along [ds]. *)
Definition trail (it : avl_iter) (ds : list bool) (t : tree) : Prop :=
  forall k d, ds !! k = Some d ->
    went_right (Z.of_nat k) it = d /\ path it (Z.of_nat k) = label (subtree (take (S k) ds) t).

Definition cursor (it : avl_iter) (ds : list bool) (t : tree) : Prop :=
  depth it = Z.of_nat (length ds) /\ trail it ds t /\ is_node (subtree ds t) = true.

Lemma branch_bit_small d : 0 <= d < 31 -> branch_bit d = Z.shiftl 1 d.
Proof.
  intros Hd. unfold branch_bit. rewrite Z.shiftl_1_l.
  assert (0 < 2 ^ d <= 2 ^ 30) as Hp by (split; [apply Z.pow_pos_nonneg; lia|apply Z.pow_le_mono_r; lia]).
  rewrite wraps_small by lia. apply wrapu_small. lia.
Qed.

Lemma went_right_bit d it : 0 <= d < 31 -> went_right d it = Z.testbit (branch it) d.
Proof. intros Hd. unfold went_right. rewrite branch_bit_small by done. apply land_pow2_testbit. lia. Qed.

Lemma take_branch_spec d to_right cur it :
  0 <= d < 31 ->
  exists it', take_branch d to_right cur it = Ret it' /\ depth it' = depth it /\ path it' = <[d := cur]> (path it) /\
    went_right d it' = to_right /\ (forall k, 0 <= k < d -> went_right k it' = went_right k it).
Proof.
  intros Hd. unfold take_branch. rewrite (proj2 (Z.leb_gt _ _)) by (unfold AVL_MAX_DEPTH; lia).
  eexists. split; [done|]. split; [done|]. split; [done|]. set (it' := _ <| path ::= _ |>).
  assert (branch it' = if to_right then Z.lor (branch it) (Z.shiftl 1 d) else Z.land (branch it) (notu 64 (Z.shiftl 1 d))) as Hb.
  { rewrite <- (branch_bit_small d Hd). done. }
  split; [|intros k Hk]; rewrite !went_right_bit by lia; rewrite Hb, Z.shiftl_1_l; destruct to_right;
    rewrite ?Z.lor_spec, ?Z.land_spec, ?testbit_notu by lia.
  - rewrite Z.pow2_bits_true by lia. apply orb_true_r.
  - rewrite Z.pow2_bits_true by lia. apply andb_false_r.
  - rewrite Z.pow2_bits_false by lia. apply orb_false_r.
  - rewrite Z.pow2_bits_false by lia. apply andb_true_r.
Qed.

(** A trail survives changes at its end. *)
Lemma trail_same it it' ds t :
  trail it ds t -> (forall k, 0 <= k < Z.of_nat (length ds) -> went_right k it' = went_right k it /\ path it' k = path it k) ->
  trail it' ds t.
Proof.
  intros Htr Hs k d Hk. apply lookup_lt_Some in Hk as Hlt. destruct (Hs (Z.of_nat k)) as [-> ->]; [lia|]. by apply Htr.
Qed.

Lemma trail_extend it it' ds d t :
  trail it ds t -> path it' = <[Z.of_nat (length ds) := label (child d (subtree ds t))]> (path it) ->
  went_right (Z.of_nat (length ds)) it' = d ->
  (forall k, 0 <= k < Z.of_nat (length ds) -> went_right k it' = went_right k it) ->
  trail it' (ds ++ [d]) t.
Proof.
  intros Htr Hp Hd Hw k d' Hk. destruct (decide (k = length ds)) as [->|Hne].
  - rewrite lookup_app_r, Nat.sub_diag in Hk by done. injection Hk as <-. split; [done|].
    rewrite Hp, fn_lookup_insert. rewrite take_ge by (rewrite length_app; cbn; lia). by rewrite subtree_snoc.
  - apply lookup_lt_Some in Hk as Hlt. rewrite length_app in Hlt. cbn in Hlt. rewrite lookup_app_l in Hk by lia.
    destruct (Htr k d' Hk) as [<- Hpath]. rewrite Hw by lia. split; [done|]. rewrite Hp, fn_lookup_insert_ne by lia.
    rewrite take_app_le by lia. done.
Qed.

Lemma trail_prefix it ds d t : trail it (ds ++ [d]) t -> trail it ds t.
Proof.
  intros Htr k d' Hk. apply lookup_lt_Some in Hk as Hlt. destruct (Htr k d') as [H1 H2]; [by rewrite lookup_app_l|].
  split; [done|]. by rewrite take_app_le in H2 by lia.
Qed.

Lemma trail_last it ds d t : trail it (ds ++ [d]) t -> went_right (Z.of_nat (length ds)) it = d.
Proof. intros Htr. apply (Htr (length ds) d). by rewrite lookup_app_r, Nat.sub_diag. Qed.

Lemma get_iter_cursor root it ds t : cursor it ds t -> root = label t -> avl_get_iter root it = label (subtree ds t).
Proof.
  intros (Hd & Htr & _) ->. unfold avl_get_iter. rewrite Hd. rewrite (proj2 (Z.eqb_neq _ _)) by lia.
  destruct ds as [|d ds _] using rev_ind; [done|]. rewrite length_app in *. cbn [length] in *.
  rewrite (proj2 (Z.eqb_neq _ _)) by lia. replace (Z.of_nat (length ds + 1) - 1) with (Z.of_nat (length ds)) by lia.
  destruct (Htr (length ds) d) as [_ ->]; [by rewrite lookup_app_r, Nat.sub_diag|].
  by rewrite take_ge by (rewrite length_app; cbn; lia).
Qed.

(** ** Steps *)

Definition pointer (d : bool) (n : avl_node) : Z := if d then right n else left n.

Lemma rep_label h p t : rep h p t -> p = label t.
Proof. destruct t as [|l n r]; [done|]. by intros [-> _]. Qed.

Lemma rep_child h p d t : rep h p t -> is_node t = true -> rep h (pointer d (h p)) (child d t).
Proof. destruct t as [|l n r]; [done|]. intros (-> & _ & _ & Hl & Hr) _. by destruct d. Qed.

Lemma rep_subtree h p ds t : rep h p t -> rep h (label (subtree ds t)) (subtree ds t).
Proof.
  revert p t. induction ds as [|d ds IH]; intros p t Hrep; cbn [subtree].
  - by rewrite <- (rep_label _ _ _ Hrep).
  - destruct (is_node t) eqn:Hn.
    + eapply IH, rep_child; [exact Hrep|done].
    + destruct t; [|done]. cbn [child]. by rewrite subtree_child_leaf.
Qed.

Lemma label_zero h p t : rep h p t -> (label t =? 0) = negb (is_node t).
Proof. destruct t as [|l n r]; [done|]. intros (_ & Hn & _). by apply Z.eqb_neq. Qed.

Lemma ht_child d t : is_node t = true -> ht (child d t) < ht t.
Proof. destruct t as [|l n r]; [done|]. intros _. destruct d; cbn [child ht]; lia. Qed.

Lemma ht_subtree ds t : Z.of_nat (length ds) + ht (subtree ds t) <= ht t \/ is_node (subtree ds t) = false.
Proof.
  revert t. induction ds as [|d ds IH]; intros t; cbn [subtree length]; [left; lia|].
  destruct (is_node t) eqn:Hn.
  - pose proof (ht_child d t Hn). destruct (IH (child d t)); [left; lia|by right].
  - destruct t; [|done]. right. cbn [child]. by rewrite subtree_child_leaf.
Qed.

Section steps.
Context (h : Z -> avl_node) (root : Z) (t : tree).
Hypothesis Hrep : rep h root t.
Hypothesis Hdepth : ht t <= 32.

Lemma cursor_bound it ds : cursor it ds t -> Z.of_nat (length ds) + ht (subtree ds t) <= 32.
Proof. intros (_ & _ & Hn). destruct (ht_subtree ds t) as [?|Hf]; [lia|congruence]. Qed.

(** One branch down *)
Lemma cursor_down it ds d :
  cursor it ds t -> is_node (child d (subtree ds t)) = true ->
  exists it', take_branch (depth it) d (label (child d (subtree ds t))) it = Ret it' /\
    cursor (it' <| depth ::= Z.succ |>) (ds ++ [d]) t.
Proof.
  intros Hc Hn. pose proof (cursor_bound it ds Hc) as Hb. destruct Hc as (Hd & Htr & Hnode). rewrite Hd.
  pose proof (ht_child d (subtree ds t) Hnode) as Hht.
  assert (1 <= ht (child d (subtree ds t))) as Hpos.
  { destruct (child d (subtree ds t)) as [|l n r]; [done|]. cbn [ht]. pose proof (ht_nonneg l). lia. }
  destruct (take_branch_spec (Z.of_nat (length ds)) d (label (child d (subtree ds t))) it) as (it' & -> & Hd' & Hp & Hw & Hws);
    [lia|]. exists it'. split; [done|]. split; [|split].
  - change (Z.succ (depth it') = Z.of_nat (length (ds ++ [d]))). rewrite Hd', Hd, length_app. cbn [length]. lia.
  - by apply (trail_extend it it').
  - by rewrite subtree_snoc.
Qed.

Lemma descend_spec fuel dir it ds :
  cursor it ds t -> ht (subtree ds t) <= Z.of_nat fuel ->
  exists it' ds', descend fuel (negb dir) (label (subtree ds t)) it h = Ret it' /\ cursor it' ds' t /\
    towards dir (subtree ds t) ++ beyond dir ds t = label (subtree ds' t) :: rest dir ds' t.
Proof.
  revert it ds. induction fuel as [|fuel IH]; intros it ds Hc Hf.
  { destruct Hc as (_ & _ & Hn). destruct (subtree ds t) as [|l n r]; [done|]. cbn [ht] in Hf.
    pose proof (ht_nonneg l). lia. }
  cbn [descend]. pose proof Hc as (_ & _ & Hn). pose proof (rep_subtree h root ds t Hrep) as Hr.
  pose proof (rep_child h _ (negb dir) _ Hr Hn) as Hrc. pose proof (rep_label _ _ _ Hrc) as Hlab. unfold pointer in Hlab.
  set (cur := if negb dir then _ else _). assert (cur = label (child (negb dir) (subtree ds t))) as -> by exact Hlab.
  rewrite (label_zero h _ _ Hrc). destruct (is_node (child (negb dir) (subtree ds t))) eqn:Hchild; cbn [negb].
  - destruct (cursor_down it ds (negb dir) Hc Hchild) as (it1 & -> & Hc1). cbn [mbind res_mbind].
    destruct (IH _ _ Hc1) as (it' & ds' & He & Hc' & Hrest).
    { rewrite subtree_snoc. pose proof (ht_child (negb dir) _ Hn). lia. }
    rewrite subtree_snoc in He, Hrest. exists it', ds'. split; [done|]. split; [done|]. rewrite <- Hrest, beyond_snoc.
    assert (Bool.eqb (negb dir) dir = false) as -> by by destruct dir. destruct (subtree ds t) as [|l n r]; [done|].
    rewrite towards_node, <- app_assoc. done.
  - exists it, ds. split; [done|]. split; [done|]. unfold rest. destruct (subtree ds t) as [|l n r]; [done|].
    rewrite towards_node. destruct (child (negb dir) (Node l n r)); [by destruct dir|done].
Qed.

Lemma climb_spec fuel dir it ds :
  depth it = Z.of_nat (length ds) -> trail it ds t -> (length ds < fuel)%nat ->
  (forall k, (k <= length ds)%nat -> is_node (subtree (take k ds) t) = true) ->
  exists it', climb fuel (negb dir) it = Ret it' /\
    ((beyond dir ds t = [] /\ depth it' = -1) \/
     exists ds', cursor it' ds' t /\ beyond dir ds t = label (subtree ds' t) :: rest dir ds' t).
Proof.
  revert it fuel. induction ds as [|d ds IH] using rev_ind; intros it fuel Hd Htr Hf Hn.
  - destruct fuel as [|fuel]; [cbn in Hf; lia|]. cbn [climb]. rewrite Hd. change (Z.of_nat (length []) =? 0) with true.
    eexists. split; [done|]. by left.
  - destruct fuel as [|fuel]; [lia|]. rewrite length_app in *. cbn [length climb] in *.
    rewrite Hd, (proj2 (Z.eqb_neq _ _)) by lia. set (it1 := it <| depth ::= Z.pred |>).
    assert (depth it1 = Z.of_nat (length ds)) as Hd1 by (change (Z.pred (depth it) = Z.of_nat (length ds)); lia).
    assert (trail it1 ds t) as Htr1 by (by apply (trail_prefix it ds d)).
    assert (went_right (depth it1) it1 = d) as -> by (rewrite Hd1; by apply (trail_last it ds d t)).
    assert (forall k, (k <= length ds)%nat -> is_node (subtree (take k ds) t) = true) as Hn1.
    { intros k Hk. rewrite <- (take_app_le ds [d]) by done. apply Hn. lia. }
    rewrite beyond_snoc. destruct d, dir; cbn [Bool.eqb negb app];
      try (destruct (IH it1 fuel Hd1 Htr1 ltac:(lia) Hn1) as (it' & He & Hr); exists it'; by split).
    all: eexists; split; [done|]; right; exists ds; split; [|done]; split; [done|]; split; [done|];
      specialize (Hn1 (length ds) ltac:(lia)); by rewrite firstn_all in Hn1.
Qed.

Lemma nodes_along ds : is_node (subtree ds t) = true -> forall k, (k <= length ds)%nat -> is_node (subtree (take k ds) t) = true.
Proof.
  clear. revert t. induction ds as [|d ds IH]; intros t Hn k Hk; [by destruct k|].
  destruct k as [|k]; cbn [take subtree] in *.
  - destruct t; [|done]. cbn [child] in Hn. by rewrite subtree_child_leaf in Hn.
  - apply IH; [done|]. cbn in Hk. lia.
Qed.

Lemma step_spec dir it ds :
  cursor it ds t ->
  exists it', avl_step_iter dir root it h = Ret it' /\
    ((rest dir ds t = [] /\ depth it' = -1) \/
     exists ds', cursor it' ds' t /\ rest dir ds t = label (subtree ds' t) :: rest dir ds' t).
Proof.
  intros Hc. pose proof Hc as (Hd & Htr & Hn). pose proof (cursor_bound it ds Hc) as Hb. pose proof (ht_nonneg (subtree ds t)).
  unfold avl_step_iter. rewrite (proj2 (Z.eqb_neq _ _)) by lia.
  rewrite (get_iter_cursor root it ds t Hc (rep_label _ _ _ Hrep)).
  pose proof (rep_subtree h root ds t Hrep) as Hr. pose proof (rep_child h _ dir _ Hr Hn) as Hrc.
  rewrite member_eq by (apply Z.eqb_neq; rewrite (label_zero h _ _ Hr); by rewrite Hn). cbn [mbind res_mbind].
  pose proof (rep_label _ _ _ Hrc) as Hlab. unfold pointer in Hlab.
  set (cur := (if dir then right else left) _). assert (cur = label (child dir (subtree ds t))) as -> by (unfold cur; by destruct dir).
  rewrite (label_zero h _ _ Hrc). unfold rest at 1 2. destruct (is_node (child dir (subtree ds t))) eqn:Hchild; cbn [negb].
  - destruct (cursor_down it ds dir Hc Hchild) as (it1 & -> & Hc1). cbn [mbind res_mbind].
    destruct (descend_spec ITER_FUEL dir _ _ Hc1) as (it' & ds' & He & Hc' & Hrest).
    { pose proof (cursor_bound _ _ Hc1) as Hb1. pose proof (ht_nonneg (subtree (ds ++ [dir]) t)). unfold ITER_FUEL. lia. }
    rewrite subtree_snoc in He, Hrest. exists it'. split; [done|]. right. exists ds'. split; [done|]. rewrite <- Hrest, beyond_snoc.
    by rewrite eqb_reflx.
  - destruct (child dir (subtree ds t)) eqn:He; [|done].
    destruct (climb_spec ITER_FUEL dir it ds Hd Htr) as (it' & Hcl & Hr'); [unfold ITER_FUEL; lia|by apply nodes_along|].
    exists it'. split; [done|]. assert (towards dir Leaf = []) as -> by by destruct dir. done.
Qed.
End steps.

(** ** The first element with a property *)

Lemma list_find_app_None {A} (P : A -> Prop) `{forall x, Decision (P x)} l1 l2 :
  (forall x, x ∈ l1 -> ~ P x) -> snd <$> list_find P (l1 ++ l2) = snd <$> list_find P l2.
Proof.
  intros Hn. induction l1 as [|x l1 IH]; [done|]. cbn [app list_find]. rewrite decide_False by (apply Hn; set_solver).
  rewrite <- IH by (intros; apply Hn; set_solver). by destruct (list_find P (l1 ++ l2)) as [[]|].
Qed.

Lemma list_find_app {A} (P : A -> Prop) `{forall x, Decision (P x)} l1 l2 :
  snd <$> list_find P (l1 ++ l2) = match list_find P l1 with Some (_, x) => Some x | None => snd <$> list_find P l2 end.
Proof.
  induction l1 as [|x l1 IH]; [done|]. cbn [app list_find]. destruct (decide (P x)); [done|].
  destruct (list_find P (l1 ++ l2)) as [[]|], (list_find P l1) as [[]|]; cbn in *; done.
Qed.

Lemma list_find_middle (P : Z -> Prop) `{forall x, Decision (P x)} A x B :
  P x -> (forall y, y ∈ A -> ~ P y) -> list_find P (A ++ x :: B) = Some (length A, x).
Proof.
  intros Hx. induction A as [|y A IH]; intros HA; cbn [app list_find length]; [by rewrite decide_True|].
  rewrite decide_False by (apply HA; set_solver). rewrite IH by (intros; apply HA; set_solver). done.
Qed.

Lemma list_find_first (P : Z -> Prop) `{forall x, Decision (P x)} A B :
  (forall x, x ∈ A -> ~ P x) -> (forall x, x ∈ B -> P x) -> snd <$> list_find P (A ++ B) = head B.
Proof.
  intros HA HB. rewrite list_find_app_None by done. destruct B as [|x B]; [done|]. cbn [list_find].
  rewrite decide_True by (apply HB; set_solver). done.
Qed.

(** ** Starts *)

Section start.
Context (h : Z -> avl_node) (root : Z) (t : tree) (key : Z -> Z) (kv flags target : Z).
Hypothesis Hrep : rep h root t.
Hypothesis Hdepth : ht t <= 32.
Hypothesis Hsorted : sorted key (elements t).

Let cmp (n : Z) : Z := compare_key key kv n.

(** The nodes that are asked for *)
Definition wanted (n : Z) : bool :=
  (compare_key key kv n =? target) || ((compare_key key kv n =? 0) && has_flag flags AVL_EQUAL).

(** The side on which the search ends *)
Let dir : bool := negb (target =? 1).

(** The search below [ds] ended at the first node wanted, or did not find one. *)
Definition found (ds : list bool) (s : tree) (it it' : avl_iter) : Prop :=
  match list_find (fun n => wanted n = true) (towards dir s) with
  | Some (_, n) => exists ds', cursor it' ds' t /\ label (subtree ds' t) = n
  | None => depth it' = depth it /\
      forall k, 0 <= k < Z.of_nat (length ds) -> went_right k it' = went_right k it /\ path it' k = path it k
  end.

Lemma sorted_subtree ds : sorted key (elements (subtree ds t)).
Proof.
  clear -Hsorted. revert t Hsorted. induction ds as [|d ds IH]; intros t Hs; [done|]. cbn [subtree]. apply IH.
  destruct t as [|l n r]; [by destruct d|]. apply sorted_node in Hs as (Hl & Hr & _). by destruct d.
Qed.

Lemma found_ext ds s s' it it' :
  snd <$> list_find (fun n => wanted n = true) (towards dir s) = snd <$> list_find (fun n => wanted n = true) (towards dir s') ->
  found ds s it it' -> found ds s' it it'.
Proof.
  unfold found. destruct (list_find _ (towards dir s)) as [[]|], (list_find _ (towards dir s')) as [[]|]; cbn; intros [=]; by subst.
Qed.

(** The side of a node on which the nodes compare as it does *)
Lemma cmp_side l n r m :
  sorted key (elements (Node l n r)) ->
  (m ∈ elements r -> cmp n <> 1 -> cmp m = -1) /\ (m ∈ elements l -> cmp n <> -1 -> cmp m = 1).
Proof.
  intros (_ & _ & Hl & Hr)%sorted_node. rewrite Forall_forall in Hl, Hr. unfold cmp, compare_key.
  split; intros Hm; [specialize (Hr m Hm)|specialize (Hl m Hm)]; unfold before in *;
    destruct (Z.ltb_spec kv (key n)), (Z.ltb_spec (key n) kv), (Z.ltb_spec kv (key m)), (Z.ltb_spec (key m) kv); lia.
Qed.

Definition search (fuel : nat) (ds : list bool) (it it' : avl_iter) : Prop :=
  start_loop fuel cmp flags target (Z.of_nat (length ds)) (label (subtree ds t)) it h = Ret it' /\ found ds (subtree ds t) it it'.

(** The search goes on at one side. *)
Lemma search_side fuel ds d it :
  (forall it ds, trail it ds t -> is_node (subtree ds t) = true -> ht (subtree ds t) <= Z.of_nat fuel -> exists it', search fuel ds it it') ->
  trail it ds t -> is_node (subtree ds t) = true -> ht (subtree ds t) <= Z.of_nat (S fuel) ->
  exists it', (let cur := pointer d (h (label (subtree ds t))) in
    if cur =? 0 then Ret it
    else it ← take_branch (Z.of_nat (length ds)) d cur it;
         start_loop fuel cmp flags target (Z.of_nat (length ds) + 1) cur it h) = Ret it' /\
    found ds (child d (subtree ds t)) it it'.
Proof.
  intros IH Htr Hn Hf. pose proof (rep_subtree h root ds t Hrep) as Hr. pose proof (rep_child h _ d _ Hr Hn) as Hrc. cbv zeta.
  rewrite (rep_label _ _ _ Hrc), (label_zero h _ _ Hrc). pose proof (ht_child d _ Hn) as Hht.
  destruct (is_node (child d (subtree ds t))) eqn:Hchild; cbn [negb].
  - assert (Z.of_nat (length ds) < 31) as Hlen.
    { destruct (ht_subtree (ds ++ [d]) t) as [Hle|Hf']; [|rewrite subtree_snoc in Hf'; congruence].
      rewrite subtree_snoc, length_app in Hle. destruct (child d (subtree ds t)) as [|l n r]; [done|]. cbn [ht length] in Hle.
      pose proof (ht_nonneg l). lia. }
    destruct (take_branch_spec (Z.of_nat (length ds)) d (label (child d (subtree ds t))) it ltac:(lia)) as (it1 & -> & Hd1 & Hp & Hw & Hws).
    cbn [mbind res_mbind]. destruct (IH it1 (ds ++ [d])) as (it' & He & Hfd).
    + by apply (trail_extend it it1).
    + by rewrite subtree_snoc.
    + rewrite subtree_snoc. lia.
    + rewrite subtree_snoc, length_app in He. cbn [length] in He. rewrite Nat2Z.inj_add in He. exists it'. split; [done|].
      rewrite subtree_snoc in Hfd. unfold found in Hfd |- *. destruct (list_find _ _) as [[]|]; [done|].
      destruct Hfd as [Hd' Hs]. split; [congruence|]. intros k Hk. destruct (Hs k) as [-> ->]; [rewrite length_app; lia|].
      rewrite Hws by done. split; [done|]. by rewrite Hp, fn_lookup_insert_ne by lia.
  - exists it. split; [done|]. destruct (child d (subtree ds t)); [|done]. unfold found.
    assert (towards dir Leaf = []) as -> by by destruct dir. done.
Qed.

(** The nodes before the side [dir], and the node itself, are not wanted. *)
Lemma found_skip ds it it' :
  is_node (subtree ds t) = true -> wanted (label (subtree ds t)) = false ->
  (forall m, m ∈ elements (child (negb dir) (subtree ds t)) -> wanted m = false) ->
  found ds (child dir (subtree ds t)) it it' -> found ds (subtree ds t) it it'.
Proof.
  intros Hn Hw Hside. apply found_ext. destruct (subtree ds t) as [|l n r]; [done|]. rewrite towards_node.
  rewrite list_find_app_None.
  - cbn [list_find]. cbn [label] in Hw. rewrite decide_False by congruence. by destruct (list_find _ _) as [[]|].
  - intros m Hm. rewrite (Hside m); [done|]. by apply elem_of_towards in Hm.
Qed.

(** The node itself is wanted if none before it is. *)
Lemma found_candidate ds it it1 it' :
  trail it ds t -> is_node (subtree ds t) = true -> wanted (label (subtree ds t)) = true ->
  it1 = it <| depth := Z.of_nat (length ds) |> ->
  found ds (child (negb dir) (subtree ds t)) it1 it' -> found ds (subtree ds t) it it'.
Proof.
  intros Htr Hn Hw -> Hf. unfold found in Hf |- *. destruct (subtree ds t) as [|l n r] eqn:Hs; [done|].
  pose proof (list_find_app (fun n => wanted n = true) (towards dir (child (negb dir) (Node l n r))) (n :: towards dir (child dir (Node l n r)))) as Happ.
  rewrite <- towards_node in Happ. cbn [label] in Hw.
  destruct (list_find _ (towards dir (child (negb dir) (Node l n r)))) as [[i m]|].
  - destruct (list_find _ (towards dir (Node l n r))) as [[j m']|]; [|done]. injection Happ as ->. done.
  - cbn [list_find] in Happ. rewrite decide_True in Happ by done.
    destruct (list_find _ (towards dir (Node l n r))) as [[j m']|]; [|done]. injection Happ as ->. destruct Hf as [Hd Hsame].
    exists ds. rewrite Hs. split; [|done]. split; [exact Hd|]. split; [|by rewrite Hs]. by apply (trail_same it it').
Qed.

(** No node from this one on is wanted. *)
Lemma found_before ds it it' :
  is_node (subtree ds t) = true -> wanted (label (subtree ds t)) = false ->
  (forall m, m ∈ elements (child dir (subtree ds t)) -> wanted m = false) ->
  found ds (child (negb dir) (subtree ds t)) it it' -> found ds (subtree ds t) it it'.
Proof.
  intros Hn Hw Hside. apply found_ext. destruct (subtree ds t) as [|l n r]; [done|]. rewrite (towards_node dir), list_find_app.
  destruct (list_find _ (towards dir (child (negb dir) (Node l n r)))) as [[]|]; [done|]. cbn [list_find label] in *.
  rewrite decide_False by congruence. pose proof (list_find_app_None (fun n => wanted n = true) (towards dir (child dir (Node l n r))) []) as Hnone.
  rewrite app_nil_r in Hnone. destruct (list_find _ (towards dir (child dir (Node l n r)))) as [[]|]; [|done]. cbn in Hnone |- *.
  symmetry. apply Hnone. intros m Hm. rewrite (Hside m); [done|]. by apply elem_of_towards in Hm.
Qed.

Hypothesis Htarget : target = 1 \/ target = -1 \/ (target = 0 /\ has_flag flags AVL_EQUAL = true).

Lemma cmp_cases n : cmp n = -1 \/ cmp n = 0 \/ cmp n = 1.
Proof. unfold cmp, compare_key. destruct (_ <? _); [auto|]. destruct (_ <? _); auto. Qed.

Lemma wanted_eq n : wanted n = (cmp n =? target) || ((cmp n =? 0) && has_flag flags AVL_EQUAL).
Proof. done. Qed.

Lemma found_here ds it :
  trail it ds t -> is_node (subtree ds t) = true -> wanted (label (subtree ds t)) = true ->
  (forall m, m ∈ elements (child (negb dir) (subtree ds t)) -> wanted m = false) ->
  found ds (subtree ds t) it (it <| depth := Z.of_nat (length ds) |>).
Proof.
  intros Htr Hn Hw Hside. eapply found_candidate; [done|done|done|reflexivity|]. unfold found.
  pose proof (list_find_app_None (fun n => wanted n = true) (towards dir (child (negb dir) (subtree ds t))) []) as Hnone.
  rewrite app_nil_r in Hnone. destruct (list_find _ _) as [[]|]; [|done]. cbn in Hnone. specialize (Hnone ltac:(
    intros m Hm%elem_of_towards; rewrite (Hside m); done)). done.
Qed.

Lemma start_loop_spec fuel it ds :
  trail it ds t -> is_node (subtree ds t) = true -> ht (subtree ds t) <= Z.of_nat fuel -> exists it', search fuel ds it it'.
Proof.
  revert it ds. induction fuel as [|fuel IH]; intros it ds Htr Hn Hf.
  { destruct (subtree ds t) as [|l n r]; [done|]. cbn [ht] in Hf. pose proof (ht_nonneg l). lia. }
  unfold search. cbn [start_loop]. pose proof (sorted_subtree ds) as Hs.
  assert (forall m, (m ∈ elements (child true (subtree ds t)) -> cmp (label (subtree ds t)) <> 1 -> cmp m = -1) /\
                    (m ∈ elements (child false (subtree ds t)) -> cmp (label (subtree ds t)) <> -1 -> cmp m = 1)) as Hside.
  { intros m. destruct (subtree ds t) as [|l n r]; [done|]. by apply cmp_side. }
  pose proof (fun d it => search_side fuel ds d it IH) as Hgo. clear IH.
  set (n := label (subtree ds t)) in *. pose proof (wanted_eq n) as Hw.
  assert (dir = negb (target =? 1)) as Hdir by done.
  pose (it1 := it <| depth := Z.of_nat (length ds) |>).
  destruct (cmp_cases n) as [Hc|[Hc|Hc]]; rewrite Hc in *; cbv zeta.
  - change (-1 =? 0) with false in *. cbn [andb orb] in *. destruct Htarget as [E|[E|[E Heq]]]; rewrite E in Hdir, Hw.
    + destruct (Hgo false it Htr Hn Hf) as (it' & He & Hfd). exists it'. rewrite E in He |- *. split; [exact He|].
      apply found_skip; rewrite ?Hdir; try done. intros m Hm. rewrite wanted_eq, E. by rewrite (proj1 (Hside m)).
    + destruct (Hgo false it1 Htr Hn Hf) as (it' & He & Hfd). exists it'.
      rewrite E in He |- *. split; [exact He|]. eapply found_candidate; [done|done|done|reflexivity|]. by rewrite Hdir.
    + destruct (Hgo false it Htr Hn Hf) as (it' & He & Hfd). exists it'. rewrite E in He |- *. split; [exact He|].
      apply found_before; rewrite ?Hdir; try done. intros m Hm. rewrite wanted_eq, E. by rewrite (proj1 (Hside m)).
  - change (0 =? 0) with true in *. destruct (has_flag flags AVL_EQUAL) eqn:Heq; cbn [andb] in *.
    + eexists. split; [reflexivity|]. apply found_here; [done|done|change (wanted n = true); by rewrite Hw, orb_true_r|].
      intros m Hm. rewrite wanted_eq. destruct Htarget as [E|[E|[E _]]]; rewrite E in Hdir |- *; rewrite Hdir in Hm.
      * by rewrite (proj1 (Hside m)).
      * by rewrite (proj2 (Hside m)).
      * by rewrite (proj2 (Hside m)).
    + destruct Htarget as [E|[E|[_ ?]]]; [| |done]; rewrite E in Hdir, Hw.
      * destruct (Hgo false it Htr Hn Hf) as (it' & He & Hfd). exists it'. rewrite E in He |- *. split; [exact He|].
        apply found_skip; rewrite ?Hdir; try done. intros m Hm. rewrite wanted_eq, E. by rewrite (proj1 (Hside m)).
      * destruct (Hgo true it Htr Hn Hf) as (it' & He & Hfd). exists it'. rewrite E in He |- *. split; [exact He|].
        apply found_skip; rewrite ?Hdir; try done. intros m Hm. rewrite wanted_eq, E. by rewrite (proj2 (Hside m)).
  - change (1 =? 0) with false in *. cbn [andb orb] in *. destruct Htarget as [E|[E|[E Heq]]]; rewrite E in Hdir, Hw.
    + destruct (Hgo true it1 Htr Hn Hf) as (it' & He & Hfd). exists it'.
      rewrite E in He |- *. split; [exact He|]. eapply found_candidate; [done|done|done|reflexivity|]. by rewrite Hdir.
    + destruct (Hgo true it Htr Hn Hf) as (it' & He & Hfd). exists it'. rewrite E in He |- *. split; [exact He|].
      apply found_skip; rewrite ?Hdir; try done. intros m Hm. rewrite wanted_eq, E. by rewrite (proj2 (Hside m)).
    + destruct (Hgo true it Htr Hn Hf) as (it' & He & Hfd). exists it'. rewrite E in He |- *. split; [exact He|].
      apply found_skip; rewrite ?Hdir; try done. intros m Hm. rewrite wanted_eq, E. by rewrite (proj2 (Hside m)).
Qed.
End start.

(** ** Iterators as positions in the sequence of nodes *)

(** The iterator is at a node, with the nodes before and after it, or past the ends. *)
Definition iter_at (it : avl_iter) (t : tree) (o : option (list Z * Z * list Z)) : Prop :=
  match o with
  | None => depth it = -1
  | Some (L, n, R) => exists ds, cursor it ds t /\ label (subtree ds t) = n /\ rest false ds t = rev L /\ rest true ds t = R
  end.

Definition first_of (A B : list Z) : option (list Z * Z * list Z) := match B with [] => None | n :: R => Some (A, n, R) end.
Definition last_of (A B : list Z) : option (list Z * Z * list Z) := match rev A with [] => None | n :: L => Some (rev L, n, B) end.

Lemma iter_at_elements it t L n R : iter_at it t (Some (L, n, R)) -> elements t = L ++ n :: R.
Proof.
  intros (ds & (_ & _ & Hn) & <- & HL & <-). rewrite (elements_around ds t Hn) at 1. by rewrite HL, rev_involutive.
Qed.

Lemma middle_unique (x : Z) l1 l2 k1 k2 : NoDup (l1 ++ x :: l2) -> l1 ++ x :: l2 = k1 ++ x :: k2 -> l1 = k1 /\ l2 = k2.
Proof.
  revert k1. induction l1 as [|y l1 IH]; intros [|z k1]; cbn [app]; intros Hnd He.
  - by injection He as ->.
  - injection He as <- ->. apply NoDup_cons in Hnd as [Hx _]. set_solver.
  - injection He as -> <-. apply NoDup_cons in Hnd as [Hx _]. set_solver.
  - injection He as <- He. apply NoDup_cons in Hnd as [_ Hnd]. destruct (IH k1 Hnd He) as [-> ->]. done.
Qed.

Lemma iter_at_intro it t ds L n R :
  NoDup (elements t) -> cursor it ds t -> label (subtree ds t) = n -> elements t = L ++ n :: R -> iter_at it t (Some (L, n, R)).
Proof.
  intros Hnd Hc Hl He. pose proof Hc as (_ & _ & Hn). pose proof (elements_around ds t Hn) as Ha. rewrite Hl, He in Ha.
  rewrite He in Hnd. destruct (middle_unique n _ _ _ _ Hnd Ha) as [HL HR]. exists ds. rewrite HL, rev_involutive. done.
Qed.

Lemma get_iter_at root it t o :
  root = label t -> iter_at it t o -> avl_get_iter root it = match o with None => 0 | Some (_, n, _) => n end.
Proof.
  intros Hroot. destruct o as [[[L n] R]|].
  - intros (ds & Hc & <- & _). by apply get_iter_cursor.
  - intros Hd. unfold avl_get_iter. change (depth it = -1) in Hd. by rewrite Hd.
Qed.

Lemma sorted_keys_differ key L n R m : sorted key (L ++ n :: R) -> m ∈ L ++ n :: R -> m <> n -> key m <> key n.
Proof.
  intros Hs Hm Hne. apply elem_of_app in Hm as [Hm|[->|Hm]%elem_of_cons]; [|done|].
  - pose proof (StronglySorted_app_1_elem_of _ _ _ m n Hs Hm ltac:(set_solver)) as Hb. unfold before in Hb. lia.
  - apply StronglySorted_app_1_r, StronglySorted_cons in Hs as [Hb _]. rewrite Forall_forall in Hb. specialize (Hb m Hm).
    unfold before in Hb. lia.
Qed.

Section walk.
Context (h : Z -> avl_node) (root : Z) (t : tree).
Hypothesis Hrep : rep h root t.
Hypothesis Hdepth : ht t <= 32.
Hypothesis Hnd : NoDup (elements t).

Lemma inc_iter_at it L n R :
  iter_at it t (Some (L, n, R)) -> exists it', avl_inc_iter root it h = Ret it' /\ iter_at it' t (first_of (L ++ [n]) R).
Proof.
  intros Hat. pose proof (iter_at_elements _ _ _ _ _ Hat) as He. destruct Hat as (ds & Hc & Hl & HL & HR).
  destruct (step_spec h root t Hrep Hdepth true it ds Hc) as (it' & Hs & [[Hr Hd]|(ds' & Hc' & Hr)]); exists it'; (split; [exact Hs|]);
    rewrite HR in Hr; rewrite Hr; [done|]. cbn [first_of].
  eapply iter_at_intro; [done|exact Hc'|done|]. rewrite He, Hr, <- app_assoc. done.
Qed.

Lemma dec_iter_at it L n R :
  iter_at it t (Some (L, n, R)) -> exists it', avl_dec_iter root it h = Ret it' /\ iter_at it' t (last_of L (n :: R)).
Proof.
  intros Hat. pose proof (iter_at_elements _ _ _ _ _ Hat) as He. destruct Hat as (ds & Hc & Hl & HL & HR).
  destruct (step_spec h root t Hrep Hdepth false it ds Hc) as (it' & Hs & [[Hr Hd]|(ds' & Hc' & Hr)]); exists it'; (split; [exact Hs|]);
    unfold last_of; rewrite HL in Hr; rewrite Hr; [done|].
  eapply iter_at_intro; [done|exact Hc'|done|]. rewrite He. replace L with (rev (rev L)) by apply rev_involutive.
  rewrite Hr. cbn [rev]. by rewrite <- app_assoc.
Qed.

Context (key : Z -> Z) (kv : Z).
Hypothesis Hsorted : sorted key (elements t).

Definition target_of (flags : Z) : Z := if has_flag flags AVL_LESS then 1 else if has_flag flags AVL_GREATER then -1 else 0.

Lemma start_iter_spec flags it :
  (target_of flags = 1 \/ target_of flags = -1 \/ (target_of flags = 0 /\ has_flag flags AVL_EQUAL = true)) ->
  exists it', avl_start_iter (compare_key key kv) flags root it h = Ret it' /\
    match list_find (fun n => wanted key kv flags (target_of flags) n = true) (towards (negb (target_of flags =? 1)) t) with
    | Some (_, n) => exists ds, cursor it' ds t /\ label (subtree ds t) = n
    | None => depth it' = -1
    end.
Proof.
  intros Ht. unfold avl_start_iter. rewrite (rep_label _ _ _ Hrep), (label_zero h root t Hrep).
  destruct (is_node t) eqn:Hn; cbn [negb].
  - pose (it0 := it <| depth := -1 |> <| branch := 0 |>).
    destruct (start_loop_spec h root t key kv flags (target_of flags) Hrep Hdepth Hsorted Ht ITER_FUEL it0 []) as (it' & He & Hf).
    + intros k d. by rewrite lookup_nil.
    + done.
    + unfold ITER_FUEL. cbn [subtree]. lia.
    + exists it'. split; [exact He|]. unfold found in Hf. cbn [subtree] in Hf. destruct (list_find _ _) as [[]|]; [done|]. apply Hf.
  - destruct t; [|done]. eexists. split; [done|]. by destruct (negb _).
Qed.

(** The first node that is wanted, from the left *)
Lemma start_at_first flags it A B :
  target_of flags = -1 -> elements t = A ++ B ->
  (forall n, n ∈ A -> wanted key kv flags (-1) n = false) -> (forall n, n ∈ B -> wanted key kv flags (-1) n = true) ->
  exists it', avl_start_iter (compare_key key kv) flags root it h = Ret it' /\ iter_at it' t (first_of A B).
Proof.
  intros Ht He HA HB. destruct (start_iter_spec flags it ltac:(auto)) as (it' & Hs & Hf). exists it'. split; [done|].
  rewrite Ht in Hf. change (negb (-1 =? 1)) with true in Hf. cbn [towards] in Hf. rewrite He in Hf.
  pose proof (list_find_first (fun n => wanted key kv flags (-1) n = true) A B) as Hfind.
  specialize (Hfind ltac:(intros x Hx; cbv beta; by rewrite (HA x Hx)) HB).
  destruct (list_find _ (A ++ B)) as [[i n]|]; destruct B as [|m B]; try done. injection Hfind as ->.
  destruct Hf as (ds & Hc & Hl). by eapply iter_at_intro.
Qed.

(** The last node that is wanted *)
Lemma start_at_last flags it A B :
  target_of flags = 1 -> elements t = A ++ B ->
  (forall n, n ∈ A -> wanted key kv flags 1 n = true) -> (forall n, n ∈ B -> wanted key kv flags 1 n = false) ->
  exists it', avl_start_iter (compare_key key kv) flags root it h = Ret it' /\ iter_at it' t (last_of A B).
Proof.
  intros Ht He HA HB. destruct (start_iter_spec flags it ltac:(auto)) as (it' & Hs & Hf). exists it'. split; [done|].
  rewrite Ht in Hf. change (negb (1 =? 1)) with false in Hf. cbn [towards] in Hf. rewrite He, rev_app_distr in Hf.
  pose proof (list_find_first (fun n => wanted key kv flags 1 n = true) (rev B) (rev A)) as Hfind.
  specialize (Hfind ltac:(intros x Hx; rewrite <- Permutation_rev in Hx; cbv beta; by rewrite (HB x Hx))
                    ltac:(intros x Hx; rewrite <- Permutation_rev in Hx; by apply HA)).
  unfold last_of. destruct (list_find _ (rev B ++ rev A)) as [[i n]|]; destruct (rev A) as [|m A'] eqn:HrA; try done.
  injection Hfind as ->. destruct Hf as (ds & Hc & Hl). eapply iter_at_intro; [done|done|done|]. rewrite He.
  replace A with (rev (rev A)) by apply rev_involutive. rewrite HrA. cbn [rev]. by rewrite <- app_assoc.
Qed.

(** The node with the key *)
Lemma start_at_equal it L n R :
  elements t = L ++ n :: R -> key n = kv ->
  exists it', avl_start_iter (compare_key key kv) AVL_EQUAL root it h = Ret it' /\ iter_at it' t (Some (L, n, R)).
Proof.
  intros He Hk. destruct (start_iter_spec AVL_EQUAL it ltac:(right; right; done)) as (it' & Hs & Hf). exists it'. split; [done|].
  change (target_of AVL_EQUAL) with 0 in Hf. change (negb (0 =? 1)) with true in Hf. cbn [towards] in Hf. rewrite He in Hf.
  assert (forall m, m ∈ L ++ n :: R -> wanted key kv AVL_EQUAL 0 m = bool_decide (m = n)) as Hw.
  { intros m Hm. unfold wanted, compare_key. destruct (decide (m = n)) as [->|Hne].
    - rewrite Hk, Z.ltb_irrefl. by rewrite bool_decide_eq_true_2.
    - rewrite bool_decide_eq_false_2 by done. rewrite He in Hsorted.
      pose proof (sorted_keys_differ key L n R m Hsorted Hm Hne). destruct (Z.ltb_spec kv (key m)); [done|].
      rewrite (proj2 (Z.ltb_lt (key m) kv)) by lia. done. }
  rewrite list_find_middle in Hf.
  - destruct Hf as (ds & Hc & Hl). by eapply iter_at_intro.
  - rewrite Hw by set_solver. by apply bool_decide_eq_true.
  - intros m Hm. rewrite Hw by set_solver. intros ->%bool_decide_eq_true. rewrite He in Hnd. apply NoDup_app in Hnd as (_ & Hd & _).
    apply (Hd n Hm). set_solver.
Qed.
End walk.
