(* ===== verification/AvlRefine.v ===== *)
(** * Trees as sequences

    Theorems on [Avl]: insertions, removals and iterations do on the nodes what
    they do on the sorted sequence of the nodes. *)

From stdpp Require Import sorting.
From S2P Require Import Prelude Avl AvlTree AvlProps AvlIter.

(** The nodes from one on, as a loop over an iterator has them *)
Fixpoint avl_scan (fuel : nat) (root : Z) (it : avl_iter) (h : Z -> avl_node) : res (list Z) :=
  match fuel with
  | O => Crash OutOfFuel
  | S fuel =>
      let n := avl_get_iter root it in
      if n =? 0 then Ret []
      else it ← avl_inc_iter root it h; l ← avl_scan fuel root it h; Ret (n :: l)
  end.

Lemma scan_spec fuel root h t it o :
  rep h root t -> ht t <= 32 -> NoDup (elements t) -> iter_at it t o ->
  (match o with None => 0 | Some (_, _, R) => S (length R) end < fuel)%nat ->
  avl_scan fuel root it h = Ret (match o with None => [] | Some (_, n, R) => n :: R end).
Proof.
  intros Hrep Hht Hnd. revert it o. induction fuel as [|fuel IH]; intros it o Hat Hf; [lia|]. cbn [avl_scan].
  rewrite (get_iter_at root it t o (rep_label _ _ _ Hrep) Hat). destruct o as [[[L n] R]|]; [|done].
  assert (n <> 0) as Hn by (eapply elements_nonzero; [exact Hrep|rewrite (iter_at_elements _ _ _ _ _ Hat); set_solver]).
  rewrite (proj2 (Z.eqb_neq n 0) Hn). destruct (inc_iter_at h root t Hrep Hht Hnd it L n R Hat) as (it' & -> & Hat'). cbn [mbind res_mbind].
  rewrite (IH it' _ Hat') by (destruct R; cbn in *; lia). by destruct R.
Qed.

(** ** Sequences of operations *)

Inductive avl_op :=
| Insert (n : Z)
| Erase (n : Z).

Section ops.
Context (key : Z -> Z).

Definition avl_perform (fuel : nat) (op : avl_op) (s : Z * (Z -> avl_node)) : res (Z * (Z -> avl_node)) :=
  match op with
  | Insert n => avl_insert (compare_keys key) fuel n s.1 s.2
  | Erase n => avl_erase (compare_keys key) fuel n s.1 s.2
  end.

Fixpoint avl_run (fuel : nat) (ops : list avl_op) (s : Z * (Z -> avl_node)) : res (Z * (Z -> avl_node)) :=
  match ops with
  | [] => Ret s
  | op :: ops => s ← avl_perform fuel op s; avl_run fuel ops s
  end.

(** The sequence after an operation *)
Definition seq_perform (op : avl_op) (l : list Z) : list Z :=
  match op with
  | Insert n => place key n l
  | Erase n => filter (fun x => x <> n) l
  end.

Definition seq_run (ops : list avl_op) (l : list Z) : list Z := foldl (fun l op => seq_perform op l) l ops.

(** A node is inserted once, with a key of its own, and removed if it is there. *)
Definition op_legal (op : avl_op) (l : list Z) : bool :=
  match op with
  | Insert n => negb (n =? 0) && forallb (fun x => negb (key x =? key n)) l
  | Erase n => bool_decide (n ∈ l)
  end.

Fixpoint ops_legal (ops : list avl_op) (l : list Z) : bool :=
  match ops with
  | [] => true
  | op :: ops => op_legal op l && ops_legal ops (seq_perform op l)
  end.

Lemma perform_spec fuel op root h t :
  rep h root t -> sorted key (elements t) -> op_legal op (elements t) = true -> (length (elements t) < fuel)%nat ->
  exists root' h' t', avl_perform fuel op (root, h) = Ret (root', h') /\ rep h' root' t' /\ elements t' = seq_perform op (elements t) /\
    sorted key (elements t') /\ (forall n, op = Insert n -> t' = ins key n t).
Proof.
  intros Hrep Hs Hl Hf. pose proof (ht_size t). pose proof (sorted_NoDup _ _ Hs) as Hnd. destruct op as [n|n]; cbn [op_legal avl_perform seq_perform] in *.
  - rewrite andb_true_iff, negb_true_iff, Z.eqb_neq, forallb_forall in Hl. destruct Hl as [Hn Hk].
    assert (Forall (fun y => key y <> key n) (elements t)) as Hkeys.
    { apply Forall_forall. intros y Hy%list_elem_of_In%Hk. by apply negb_true_iff, Z.eqb_neq in Hy. }
    assert (n ∉ elements t) as Hnt by (intros Hin; rewrite Forall_forall in Hkeys; by apply (Hkeys n Hin)).
    destruct (insert_recur_spec key fuel n root t h Hrep) as (r & h' & He & Hrep' & _); [by constructor|done|lia|].
    exists r, h', (ins key n t). split; [exact He|]. split; [done|]. rewrite elements_ins_place by done. split; [done|].
    split; [by apply sorted_place|]. by intros ? [= ->].
  - apply bool_decide_eq_true in Hl. destruct (erase_recur_spec key fuel n root t h Hrep Hnd ltac:(lia)) as (r & h' & He & Hrep' & _).
    exists r, h', (del key n t). split; [exact He|]. split; [done|]. assert (elements (del key n t) = filter (fun x => x <> n) (elements t)) as Hdel.
    { rewrite elements_del_filter by done. apply list_filter_ext. intros x Hx. split; [by intros Hk ->|]. intros Hne Hk.
      apply list_elem_of_split in Hl as (L & R & HLR). rewrite HLR in Hs, Hx. by apply (sorted_keys_differ _ _ _ _ x Hs Hx Hne). }
    rewrite Hdel. split; [done|]. split; [by apply sorted_filter|done].
Qed.

Lemma seq_length op l : (length (seq_perform op l) <= S (length l))%nat.
Proof. destruct op as [n|n]; cbn [seq_perform]; [by rewrite place_perm|]. pose proof (length_filter (fun x => x <> n) l). lia. Qed.

Definition is_insert (op : avl_op) : bool := match op with Insert _ => true | Erase _ => false end.

Lemma run_spec fuel ops root h t :
  rep h root t -> sorted key (elements t) -> ops_legal ops (elements t) = true -> (length ops + length (elements t) < fuel)%nat ->
  exists root' h' t', avl_run fuel ops (root, h) = Ret (root', h') /\ rep h' root' t' /\ elements t' = seq_run ops (elements t) /\
    sorted key (elements t') /\ (forallb is_insert ops = true -> balanced t -> balanced t').
Proof.
  revert root h t. induction ops as [|op ops IH]; intros root h t Hrep Hs Hl Hf; [by exists root, h, t|]. cbn [ops_legal length] in *.
  apply andb_true_iff in Hl as [Hop Hops]. destruct (perform_spec fuel op root h t Hrep Hs Hop ltac:(lia)) as (r1 & h1 & t1 & E1 & Hrep1 & He1 & Hs1 & Hi1).
  cbn [avl_run]. rewrite E1. cbn [mbind res_mbind]. rewrite <- He1 in Hops. pose proof (seq_length op (elements t)) as Hlen. rewrite <- He1 in Hlen.
  destruct (IH r1 h1 t1 Hrep1 Hs1 Hops ltac:(lia)) as (r' & h' & t' & E' & Hrep' & He' & Hs' & Hb'). exists r', h', t'. split; [done|]. split; [done|].
  split; [rewrite He', He1; done|]. split; [done|]. cbn [forallb]. intros [Hi Hins]%andb_true_iff Hb. apply Hb'; [done|].
  destruct op as [n|n]; [|done]. rewrite (Hi1 n eq_refl). by apply ins_balanced.
Qed.
End ops.

(** C31: for every sequence of insertions and removals of nodes with keys of their
    own, the functions on nodes do not fail, the nodes of the tree are those of
    the sequence in which each node is put in its place by its key and taken out
    again, in that order, and every node has the right height; a loop over an
    iterator that starts at a key visits the nodes from that key on, each once and
    in order, if the tree is not higher than the 32 levels an iterator has room
    for; without removals the tree is balanced, and its height at most twice the
    logarithm of the number of nodes. *)
Theorem avl_refines_sequences (key : Z -> Z) (fuel : nat) (ops : list avl_op) (h : Z -> avl_node) (l : list Z) :
  ops_legal key ops [] = true -> (length ops < fuel)%nat -> l = seq_run key ops [] ->
  exists root h', avl_run key fuel ops (0, h) = Ret (root, h') /\
    (exists t, rep h' root t /\ elements t = l) /\ sorted key l /\
    (avl_tree_height root h' <= 32 -> forall k it, exists it', avl_start_iter (compare_key key k) AVL_GREATER_EQUAL root it h' = Ret it' /\
       avl_scan (S (S (length l))) root it' h' = Ret (filter (fun n => k <= key n) l)) /\
    (forallb is_insert ops = true -> 2 ^ (avl_tree_height root h' / 2) <= Z.of_nat (length l) + 1).
Proof.
  intros Hl Hf ->. destruct (run_spec key fuel ops 0 h Leaf) as (r & h' & t & E & Hrep & He & Hs & Hb); [done|constructor|done|cbn; lia|].
  exists r, h'. split; [done|]. split; [by exists t|]. cbn [elements] in He. rewrite <- He. split; [done|].
  rewrite (rep_height _ _ _ Hrep). split.
  - intros Hht k it. pose proof (sorted_split key k _ Hs) as Hsp. set (A := filter (fun n => key n < k) (elements t)) in *.
    set (B := filter (fun n => k <= key n) (elements t)) in *.
    destruct (start_at_first h' r t Hrep Hht (sorted_NoDup _ _ Hs) key k Hs AVL_GREATER_EQUAL it A B) as (it' & Hst & Hat); [done|done|..].
    { intros n [Hn _]%list_elem_of_filter. unfold wanted, compare_key. rewrite (proj2 (Z.ltb_ge _ _)), (proj2 (Z.ltb_lt _ _)) by lia. done. }
    { intros n [Hn _]%list_elem_of_filter. unfold wanted, compare_key. destruct (Z.ltb_spec k (key n)); [done|]. rewrite (proj2 (Z.ltb_ge _ _)) by lia. done. }
    exists it'. split; [done|]. rewrite (scan_spec _ r h' t it' _ Hrep Hht (sorted_NoDup _ _ Hs) Hat); [by destruct B|].
    apply (f_equal length) in Hsp. rewrite length_app in Hsp. destruct B as [|b B]; cbn in *; lia.
  - intros Hi. apply balanced_size, Hb; done.
Qed.

Definition some_nodes : list avl_op := [Insert 1; Insert 2; Insert 3; Insert 4; Insert 5; Insert 6; Erase 4; Erase 1].

Lemma avl_refines_sequences_witness :
  ops_legal (fun n => 10 * n) some_nodes [] = true /\ seq_run (fun n => 10 * n) some_nodes [] = [2; 3; 5; 6] /\
  exists root h', avl_run (fun n => 10 * n) 9 some_nodes (0, fun _ => mk_node 0 0 0) = Ret (root, h').
Proof.
  split; [vm_compute; reflexivity|]. split; [vm_compute; reflexivity|].
  destruct (avl_refines_sequences (fun n => 10 * n) 9 some_nodes (fun _ => mk_node 0 0 0) [2; 3; 5; 6]) as (root & h' & E & _);
    [vm_compute; reflexivity|cbn; lia|vm_compute; reflexivity|]. by exists root, h'.
Defined.
