(* ===== verification/Idr.v ===== *)
(** * Identifiers

    lib/liblyos/idr.c: numbers handed out with a pointer for each, kept in a tree
    of [Avl] by number. Numbers are stored relative to [base]. [fuel] bounds the
    depth of the tree and the nodes an allocation looks at; [memory] is the node
    that [malloc] returns, if it has one. The field [next] is set to 0 and not used. *)

From stdpp Require Import sorting.
From S2P Require Import Prelude Avl AvlTree AvlProps AvlIter.

Definition INT_MAX : Z := 2147483647.

Record id_node := mk_id_node { id : Z; ptr : Z }.

Record idr := mk_idr { avl : Z -> avl_node; ids : Z -> id_node; root : Z; base : Z }.
#[export] Instance rebuild_idr : Rebuild idr := fun s => mk_idr (avl s) (ids s) (root s) (base s).

Definition idr_key (s : idr) (node : Z) : Z := id (ids s node).

(** [idr_key_node_comp] and [idr_node_node_comp] *)
Definition idr_key_node_comp (s : idr) (key node : Z) : Z := compare_key (idr_key s) key node.
Definition idr_node_node_comp (s : idr) (node1 node2 : Z) : Z := compare_keys (idr_key s) node1 node2.

Definition idr_init_base (b : Z) (s : idr) : idr := s <| root := 0 |> <| base := b |>.
Definition idr_init (s : idr) : idr := idr_init_base 0 s.

(** The loop of [idr_alloc_u32], down from the first number that is not below the
    limit: a number after that of the previous node, unless it is taken or below
    [from] *)
Fixpoint alloc_loop (fuel : nat) (from : Z) (it : avl_iter) (s : idr) : res (option Z) :=
  match fuel with
  | O => Crash OutOfFuel
  | S fuel =>
      let node := avl_get_iter (root s) it in
      if node =? 0 then Ret None
      else
        it ← avl_dec_iter (root s) it (avl s);
        let prev_node := avl_get_iter (root s) it in
        if prev_node =? 0 then Crash NullDeref
        else
          let slot := wrapu 32 (id (ids s prev_node) + 1) in
          if (slot <? id (ids s node)) && (from <=? slot) then Ret (Some slot) else alloc_loop fuel from it s
  end.

Definition find_slot (fuel : nat) (from limit : Z) (it : avl_iter) (s : idr) : res (option Z) :=
  it ← avl_start_iter (idr_key_node_comp s limit) AVL_GREATER_EQUAL (root s) it (avl s);
  if avl_get_iter (root s) it =? 0 then
    it ← avl_start_iter (idr_key_node_comp s limit) AVL_LESS (root s) it (avl s);
    let last := avl_get_iter (root s) it in
    Ret (Some (if last =? 0 then from else wrapu 32 (id (ids s last) + 1)))
  else alloc_loop fuel from it s.

(** The return value and [*nextid] *)
Definition idr_alloc_u32 (fuel : nat) (memory : option Z) (it : avl_iter) (p nextid max : Z) (s : idr) : res (idr * Z * Z) :=
  let from := if nextid <? base s then 0 else nextid - base s in
  slot ← find_slot fuel from (wrapu 64 (max - base s)) it s;
  match slot with
  | None => Ret (s, - ENOSPC, nextid)
  | Some slot =>
      match memory with
      | None => Ret (s, - ENOMEM, nextid)
      | Some node =>
          let s := s <| ids ::= <[node := mk_id_node slot p]> |> in
          '(r, h) ← avl_insert (idr_node_node_comp s) fuel node (root s) (avl s);
          Ret (s <| avl := h |> <| root := r |>, 0, wrapu 32 (base s + slot))
      end
  end.

Definition idr_alloc (fuel : nat) (memory : option Z) (it : avl_iter) (p start end_ : Z) (s : idr) : res (idr * Z) :=
  if start <? 0 then Ret (s, - EINVAL)
  else
    '(s, ret, i) ← idr_alloc_u32 fuel memory it p start (if 0 <? end_ then end_ - 1 else INT_MAX) s;
    Ret (s, if negb (ret =? 0) then ret else wraps 32 i).

(** The loop of [idr_find] and of [idr_remove] *)
Fixpoint id_search (fuel : nat) (i node : Z) (s : idr) : res Z :=
  match fuel with
  | O => Crash OutOfFuel
  | S fuel =>
      if node =? 0 then Ret 0
      else if i =? id (ids s node) then Ret node
      else if i <? id (ids s node) then id_search fuel i (left (avl s node)) s
      else id_search fuel i (right (avl s node)) s
  end.

Definition idr_remove (fuel : nat) (i : Z) (s : idr) : res (idr * Z) :=
  if i <? base s then Ret (s, 0)
  else
    node ← id_search fuel (i - base s) (root s) s;
    if node =? 0 then Ret (s, 0)
    else
      let p := ptr (ids s node) in
      '(r, h) ← avl_erase (idr_node_node_comp s) fuel node (root s) (avl s);
      Ret (s <| avl := h |> <| root := r |>, p).

Definition idr_find (fuel : nat) (i : Z) (s : idr) : res Z :=
  if i <? base s then Ret 0
  else
    node ← id_search fuel (i - base s) (root s) s;
    Ret (if node =? 0 then 0 else ptr (ids s node)).

(** ** The tree of an allocator *)

Record idr_ok (s : idr) (t : tree) : Prop := {
  i_rep : rep (avl s) (root s) t;
  i_sorted : sorted (idr_key s) (elements t);
  i_range : forall n, n ∈ elements t -> 0 <= idr_key s n <= INT_MAX - base s;
  i_base : 0 <= base s <= INT_MAX
}.

Lemma id_search_spec fuel i p u s :
  rep (avl s) p u -> sorted (idr_key s) (elements u) -> ht u < Z.of_nat fuel ->
  exists r, id_search fuel i p s = Ret r /\
    ((r ∈ elements u /\ idr_key s r = i /\ r <> 0) \/ (r = 0 /\ forall n, n ∈ elements u -> idr_key s n <> i)).
Proof.
  revert p u. induction fuel as [|fuel IH]; intros p u Hrep Hs Hf; [pose proof (ht_nonneg u); lia|].
  cbn [id_search]. destruct u as [|l n r].
  { cbn in Hrep. rewrite Hrep. exists 0. split; [done|]. right. split; [done|]. intros m Hm. by apply elem_of_nil in Hm. }
  pose proof Hrep as [-> (Hn & Hl & Hr)]%rep_linked. rewrite (proj2 (Z.eqb_neq n 0)) by done.
  apply sorted_node in Hs as (Hsl & Hsr & Hln & Hnr). rewrite Forall_forall in Hln, Hnr. cbn [ht elements] in *.
  change (id (ids s n)) with (idr_key s n). destruct (Z.eqb_spec i (idr_key s n)) as [He|He].
  { exists n. split; [done|]. left. split; [set_solver|done]. }
  destruct (Z.ltb_spec i (idr_key s n)).
  - destruct (IH _ l Hl Hsl ltac:(lia)) as (x & -> & Hx). exists x. split; [done|]. destruct Hx as [[Hx ?]|[-> Hx]]; [left; set_solver|].
    right. split; [done|]. intros m [Hm|[->|Hm]%elem_of_cons]%elem_of_app; [by apply Hx|lia|].
    specialize (Hnr m Hm). unfold before in Hnr. lia.
  - destruct (IH _ r Hr Hsr ltac:(lia)) as (x & -> & Hx). exists x. split; [done|]. destruct Hx as [[Hx ?]|[-> Hx]]; [left; set_solver|].
    right. split; [done|]. intros m [Hm|[->|Hm]%elem_of_cons]%elem_of_app; [|lia|by apply Hx].
    specialize (Hln m Hm). unfold before in Hln. lia.
Qed.

(** ** The number an allocation takes *)

(** The first number after one of [below], the nearest first, that is below the
    next one and not below [from] *)
Fixpoint gap (key : Z -> Z) (from next : Z) (below : list Z) : option Z :=
  match below with
  | [] => None
  | p :: below => if (key p + 1 <? next) && (from <=? key p + 1) then Some (key p + 1) else gap key from (key p) below
  end.

Definition slot_for (key : Z -> Z) (from limit : Z) (l : list Z) : option Z :=
  let below := rev (filter (fun n => key n < limit) l) in
  match filter (fun n => limit <= key n) l with
  | [] => Some (match below with [] => from | p :: _ => key p + 1 end)
  | b :: _ => gap key from (key b) below
  end.

Section slots.
Context (s : idr) (t : tree).
Hypothesis Hok : idr_ok s t.
Hypothesis Hdepth : ht t <= 32.

Lemma range_wrap n : n ∈ elements t -> wrapu 32 (idr_key s n + 1) = idr_key s n + 1.
Proof. intros Hn. pose proof (i_range _ _ Hok n Hn). pose proof (i_base _ _ Hok). unfold INT_MAX in *. apply wrapu_small. lia. Qed.

Lemma gap_loop_spec fuel from it L n R :
  iter_at it t (Some (L, n, R)) -> (length L < fuel)%nat ->
  alloc_loop fuel from it s = match gap (idr_key s) from (idr_key s n) (rev L) with Some k => Ret (Some k) | None => Crash NullDeref end.
Proof.
  revert it L n R. induction fuel as [|fuel IH]; intros it L n R Hat Hf; [lia|]. cbn [alloc_loop].
  pose proof (i_rep _ _ Hok) as Hrep. pose proof (rep_label _ _ _ Hrep) as Hroot.
  pose proof (sorted_NoDup _ _ (i_sorted _ _ Hok)) as Hnd. pose proof (iter_at_elements _ _ _ _ _ Hat) as He.
  rewrite (get_iter_at _ _ _ _ Hroot Hat). rewrite (proj2 (Z.eqb_neq n 0)) by (eapply elements_nonzero; [done|rewrite He; set_solver]).
  destruct (dec_iter_at (avl s) (root s) t Hrep Hdepth Hnd it L n R Hat) as (it' & -> & Hat'). cbn [mbind res_mbind].
  rewrite (get_iter_at _ _ _ _ Hroot Hat'). unfold last_of in *. destruct (rev L) as [|m L'] eqn:HrL; [done|].
  assert (L = rev L' ++ [m]) as HL by (rewrite <- (rev_involutive L), HrL; done).
  rewrite (proj2 (Z.eqb_neq m 0)) by (eapply elements_nonzero; [done|rewrite He, HL; set_solver]).
  change (id (ids s m)) with (idr_key s m). change (id (ids s n)) with (idr_key s n). rewrite range_wrap by (rewrite He, HL; set_solver).
  cbn [gap]. destruct (_ && _); [done|]. rewrite (IH it' (rev L') m (n :: R) Hat'); [by rewrite rev_involutive|].
  rewrite HL, length_app in Hf. cbn in Hf. lia.
Qed.

Lemma find_slot_spec fuel from limit it :
  (length (elements t) < fuel)%nat ->
  find_slot fuel from limit it s =
    match slot_for (idr_key s) from limit (elements t) with Some k => Ret (Some k) | None => Crash NullDeref end.
Proof.
  intros Hf. pose proof (i_rep _ _ Hok) as Hrep. pose proof (rep_label _ _ _ Hrep) as Hroot. pose proof (i_sorted _ _ Hok) as Hs.
  pose proof (sorted_NoDup _ _ Hs) as Hnd. pose proof (sorted_split (idr_key s) limit _ Hs) as Hsp. unfold find_slot, slot_for.
  set (A := filter (fun n => idr_key s n < limit) _) in *. set (B := filter (fun n => limit <= idr_key s n) _) in *.
  assert (forall n, n ∈ A -> idr_key s n < limit) as HA by (intros n [? _]%list_elem_of_filter; done).
  assert (forall n, n ∈ B -> limit <= idr_key s n) as HB by (intros n [? _]%list_elem_of_filter; done).
  destruct (start_at_first (avl s) (root s) t Hrep Hdepth Hnd (idr_key s) limit Hs AVL_GREATER_EQUAL it A B) as (it1 & He1 & Hat1).
  { done. } { done. }
  { intros n Hn. specialize (HA n Hn). unfold wanted, compare_key. rewrite (proj2 (Z.ltb_ge _ _)), (proj2 (Z.ltb_lt _ _)) by lia. done. }
  { intros n Hn. specialize (HB n Hn). unfold wanted, compare_key. destruct (Z.ltb_spec limit (idr_key s n)); [done|].
    rewrite (proj2 (Z.ltb_ge _ _)) by lia. done. }
  change (idr_key_node_comp s limit) with (compare_key (idr_key s) limit). rewrite He1. cbn [mbind res_mbind].
  rewrite (get_iter_at _ _ _ _ Hroot Hat1). destruct B as [|b B'] eqn:HBe; cbn [first_of] in *.
  - change (0 =? 0) with true. cbn iota.
    destruct (start_at_last (avl s) (root s) t Hrep Hdepth Hnd (idr_key s) limit Hs AVL_LESS it1 A []) as (it2 & He2 & Hat2).
    { done. } { done. }
    { intros n Hn. specialize (HA n Hn). unfold wanted, compare_key. rewrite (proj2 (Z.ltb_ge _ _)), (proj2 (Z.ltb_lt _ _)) by lia. done. }
    { intros n Hn. by apply elem_of_nil in Hn. }
    rewrite He2. cbn [mbind res_mbind]. rewrite (get_iter_at _ _ _ _ Hroot Hat2). unfold last_of.
    destruct (rev A) as [|m A'] eqn:HrA; [done|]. assert (m ∈ elements t) as Hm.
    { rewrite Hsp, app_nil_r, (Permutation_rev A), HrA. set_solver. }
    rewrite (proj2 (Z.eqb_neq m 0)) by (by eapply elements_nonzero). change (id (ids s m)) with (idr_key s m). by rewrite range_wrap.
  - rewrite (proj2 (Z.eqb_neq b 0)) by (eapply elements_nonzero; [done|rewrite Hsp; set_solver]).
    apply (gap_loop_spec _ _ _ A b B'); [done|]. rewrite Hsp, length_app in Hf. lia.
Qed.
End slots.

Section choice.
Context (key : Z -> Z) (from : Z).

Lemma gap_spec below q R :
  sorted key (rev below ++ q :: R) ->
  match gap key from (key q) below with
  | Some k => from <= k /\ (exists p, p ∈ below /\ k = key p + 1) /\ forall n, n ∈ rev below ++ q :: R -> key n <> k
  | None => forall p, p ∈ below -> from <= key p + 1 -> exists n, n ∈ rev below ++ q :: R /\ key n = key p + 1
  end.
Proof.
  revert q R. induction below as [|p below IH]; intros q R; cbn [gap rev].
  { intros _ p Hp. by apply elem_of_nil in Hp. }
  rewrite <- app_assoc. cbn [app]. intros Hs. specialize (IH p (q :: R) Hs). pose proof (fun m => sorted_middle key (rev below) p (q :: R) m Hs) as Hmid.
  assert (key p < key q) as Hpq by (apply (Hmid q); set_solver).
  destruct (Z.ltb_spec (key p + 1) (key q)), (Z.leb_spec from (key p + 1)); cbn [andb].
  - split; [done|]. split; [exists p; set_solver|]. intros n [Hn|[->|[->|Hn]%elem_of_cons]%elem_of_cons]%elem_of_app; [|lia|lia|].
    + pose proof (proj1 (Hmid n) Hn). lia.
    + change (p :: q :: R) with ([p] ++ q :: R) in Hs. rewrite app_assoc in Hs. pose proof (proj2 (sorted_middle key _ q R n Hs) Hn). lia.
  - destruct (gap key from (key p) below).
    + destruct IH as (Hk & (p' & Hp' & Hk') & Hf). split; [done|]. split; [exists p'; set_solver|done].
    + intros p' [->|Hp']%elem_of_cons Hfr; [lia|by apply IH].
  - destruct (gap key from (key p) below).
    + destruct IH as (Hk & (p' & Hp' & Hk') & Hf). split; [done|]. split; [exists p'; set_solver|done].
    + intros p' [->|Hp']%elem_of_cons Hfr; [exists q; split; [set_solver|lia]|by apply IH].
  - destruct (gap key from (key p) below).
    + destruct IH as (Hk & (p' & Hp' & Hk') & Hf). split; [done|]. split; [exists p'; set_solver|done].
    + intros p' [->|Hp']%elem_of_cons Hfr; [lia|by apply IH].
Qed.

Lemma slot_for_spec limit l :
  sorted key l ->
  match slot_for key from limit l with
  | Some k => (forall n, n ∈ l -> key n <> k) /\ ((forall n, n ∈ l -> from <= key n) -> from <= k) /\
      ((k = from /\ l = []) \/
       exists p, p ∈ l /\ key p < limit /\ k = key p + 1 /\ (from <= k \/ forall n, n ∈ l -> key n < limit))
  | None => (exists b, b ∈ l /\ limit <= key b) /\
      forall p, p ∈ l -> key p < limit -> from <= key p + 1 -> exists n, n ∈ l /\ key n = key p + 1
  end.
Proof.
  intros Hs. pose proof (sorted_split key limit l Hs) as Hsp. unfold slot_for.
  set (A := filter (fun n => key n < limit) l) in *. set (B := filter (fun n => limit <= key n) l) in *.
  assert (forall n, n ∈ A <-> key n < limit /\ n ∈ l) as HA by (intros n; unfold A; by rewrite list_elem_of_filter).
  assert (forall n, n ∈ B <-> limit <= key n /\ n ∈ l) as HB by (intros n; unfold B; by rewrite list_elem_of_filter).
  destruct B as [|b B'].
  - rewrite app_nil_r in Hsp. destruct (rev A) as [|m A'] eqn:HrA.
    { assert (l = []) as -> by (rewrite Hsp; by rewrite <- (rev_involutive A), HrA). split; [intros n Hn; by apply elem_of_nil in Hn|].
      split; [done|by left]. }
    assert (l = rev A' ++ [m]) as Hl by (rewrite Hsp, <- (rev_involutive A), HrA; done).
    assert (m ∈ A) as Hm by (rewrite <- Hsp, Hl; set_solver). apply HA in Hm as [Hm1 Hm2]. split.
    + intros n. rewrite Hl. rewrite Hl in Hs. pose proof (sorted_middle key _ m [] n Hs) as [Hlt _].
      intros [Hn|[->|Hn]%elem_of_cons]%elem_of_app; [specialize (Hlt Hn); lia|lia|by apply elem_of_nil in Hn].
    + split; [intros Hf; specialize (Hf m Hm2); lia|]. right. exists m.
      split; [done|]. split; [done|]. split; [done|]. right. intros n. rewrite Hsp at 1. by intros [? _]%HA.
  - pose proof (gap_spec (rev A) b B') as Hg. rewrite rev_involutive, <- Hsp in Hg. specialize (Hg Hs).
    destruct (gap key from (key b) (rev A)) as [k|].
    + destruct Hg as (Hk & (p & Hp & Hk') & Hf). split; [done|]. split; [done|]. right. exists p.
      rewrite <- Permutation_rev in Hp. apply HA in Hp as [? ?]. auto.
    + split.
      * exists b. apply and_comm, HB. set_solver.
      * intros p Hp Hlim Hfr. apply Hg; [|done]. rewrite <- Permutation_rev. by apply HA.
Qed.
End choice.

(** ** The numbers as a map *)

(** Each number in use, with its node and its pointer *)
Record means (s : idr) (t : tree) (m : gmap Z (Z * Z)) : Prop := {
  m_node : forall n, n ∈ elements t -> m !! (base s + idr_key s n) = Some (n, ptr (ids s n));
  m_in : forall i n p, m !! i = Some (n, p) -> n ∈ elements t /\ i = base s + idr_key s n /\ p = ptr (ids s n)
}.

Definition idr_inv (s : idr) (m : gmap Z (Z * Z)) : Prop := exists t, idr_ok s t /\ means s t m.

Lemma means_size s t m : idr_ok s t -> means s t m -> Z.of_nat (length (elements t)) <= Z.of_nat (size m).
Proof.
  intros Hok Hm. set (l := (fun n => base s + idr_key s n) <$> elements t).
  assert (NoDup l) as Hnd.
  { apply NoDup_fmap_2_strong; [|by apply (sorted_NoDup (idr_key s)), Hok]. intros x y Hx Hy Hxy.
    pose proof (m_node _ _ _ Hm x Hx) as H1. pose proof (m_node _ _ _ Hm y Hy) as H2. rewrite Hxy in H1. congruence. }
  rewrite <- (length_fmap (fun n => base s + idr_key s n) (elements t)). fold l.
  rewrite <- (size_list_to_set (C := gset Z) l Hnd), <- size_dom. apply inj_le, subseteq_size. intros i Hi.
  apply elem_of_list_to_set in Hi. unfold l in Hi. apply list_elem_of_fmap in Hi as (n & -> & Hn). apply elem_of_dom.
  by rewrite (m_node _ _ _ Hm n Hn).
Qed.

Lemma idr_lookup fuel i s t m :
  idr_ok s t -> means s t m -> ht t < Z.of_nat fuel -> base s <= i ->
  exists r, id_search fuel (i - base s) (root s) s = Ret r /\
    match m !! i with
    | Some (n, p) => r = n /\ n ∈ elements t /\ n <> 0 /\ p = ptr (ids s n)
    | None => r = 0
    end.
Proof.
  intros Hok Hm Hf Hi. destruct (id_search_spec fuel (i - base s) (root s) t s (i_rep _ _ Hok) (i_sorted _ _ Hok) Hf) as (r & -> & Hr).
  exists r. split; [done|]. destruct Hr as [(Hin & Hk & Hr0)|[-> Hno]].
  - pose proof (m_node _ _ _ Hm r Hin) as Hmr. replace (base s + idr_key s r) with i in Hmr by lia. by rewrite Hmr.
  - destruct (m !! i) as [[n p]|] eqn:He; [|done]. destruct (m_in _ _ _ Hm i n p He) as (Hn & Hi' & _).
    destruct (Hno n Hn). lia.
Qed.

Lemma idr_find_spec fuel i s m :
  idr_inv s m -> Z.of_nat (size m) < Z.of_nat fuel -> 0 <= i ->
  idr_find fuel i s = Ret (match m !! i with Some (_, p) => p | None => 0 end).
Proof.
  intros (t & Hok & Hm) Hf Hi. pose proof (means_size s t m Hok Hm). pose proof (ht_size t). unfold idr_find.
  destruct (Z.ltb_spec i (base s)).
  - destruct (m !! i) as [[n p]|] eqn:He; [|done]. destruct (m_in _ _ _ Hm i n p He) as (Hn & Hi' & _).
    pose proof (i_range _ _ Hok n Hn). lia.
  - destruct (idr_lookup fuel i s t m Hok Hm ltac:(lia) ltac:(lia)) as (r & -> & Hr). cbn [mbind res_mbind].
    destruct (m !! i) as [[n p]|].
    + destruct Hr as (-> & _ & Hn & ->). by rewrite (proj2 (Z.eqb_neq n 0)).
    + by rewrite Hr.
Qed.

Lemma idr_remove_spec fuel i s m :
  idr_inv s m -> Z.of_nat (size m) < Z.of_nat fuel -> 0 <= i ->
  exists s', idr_remove fuel i s = Ret (s', match m !! i with Some (_, p) => p | None => 0 end) /\ idr_inv s' (delete i m) /\
    base s' = base s.
Proof.
  intros (t & Hok & Hm) Hf Hi. pose proof (means_size s t m Hok Hm). pose proof (ht_size t). unfold idr_remove.
  assert (m !! i = None -> idr_inv s (delete i m)) as Hnone by (intros He; rewrite delete_id by done; by exists t).
  destruct (Z.ltb_spec i (base s)).
  - destruct (m !! i) as [[n p]|] eqn:He; [|by exists s; auto]. destruct (m_in _ _ _ Hm i n p He) as (Hn & Hi' & _).
    pose proof (i_range _ _ Hok n Hn). lia.
  - destruct (idr_lookup fuel i s t m Hok Hm ltac:(lia) ltac:(lia)) as (r & -> & Hr). cbn [mbind res_mbind].
    destruct (m !! i) as [[n p]|] eqn:He; [|rewrite Hr; by exists s; auto]. destruct Hr as (-> & Hn & Hn0 & Hp).
    rewrite (proj2 (Z.eqb_neq n 0)) by done. pose proof (sorted_NoDup _ _ (i_sorted _ _ Hok)) as Hnd.
    destruct (erase_recur_spec (idr_key s) fuel n (root s) t (avl s) (i_rep _ _ Hok) Hnd ltac:(lia)) as (r & h & Her & Hrep & _).
    unfold avl_erase. change (idr_node_node_comp s) with (compare_keys (idr_key s)). rewrite Her. cbn [mbind res_mbind].
    eexists. split; [by rewrite <- Hp|]. split; [|done]. exists (del (idr_key s) n t).
    pose proof (elements_del_filter (idr_key s) n t (i_sorted _ _ Hok)) as Hel.
    assert (forall x, x ∈ elements (del (idr_key s) n t) <-> idr_key s x <> idr_key s n /\ x ∈ elements t) as Hin
      by (intros x; rewrite Hel; by rewrite list_elem_of_filter).
    destruct (m_in _ _ _ Hm i n p He) as (_ & Hi' & _). split; split; try done.
    + change (sorted (idr_key s) (elements (del (idr_key s) n t))). rewrite Hel. apply sorted_filter, Hok.
    + intros x [_ Hx]%Hin. by apply Hok.
    + apply Hok.
    + intros x [Hk Hx]%Hin. change (delete i m !! (base s + idr_key s x) = Some (x, ptr (ids s x))).
      rewrite lookup_delete_ne by lia. by apply Hm.
    + intros j x q [Hj Hq]%lookup_delete_Some. destruct (m_in _ _ _ Hm j x q Hq) as (Hx & Hjx & Hqx). split; [|done].
      apply Hin. split; [lia|done].
Qed.

(** ** Allocation *)

(** There is a number to take: all numbers in use are below the limit, or one
    below it is followed by a number that is free. *)
Definition room (m : gmap Z (Z * Z)) (from max : Z) : bool :=
  forallb (fun i => i <? max) (map_to_list m).*1 ||
  existsb (fun i => (i <? max) && (from <=? i + 1) && bool_decide (m !! (i + 1) = None)) (map_to_list m).*1.

Lemma elem_of_keys (m : gmap Z (Z * Z)) i : i ∈ (map_to_list m).*1 <-> is_Some (m !! i).
Proof.
  rewrite list_elem_of_fmap. split.
  - intros ([j x] & -> & Hx%elem_of_map_to_list). by exists x.
  - intros [x Hx]. exists (i, x). split; [done|]. by apply elem_of_map_to_list.
Qed.

Definition limit_of (end_ : Z) : Z := if 0 <? end_ then end_ - 1 else INT_MAX.

Section alloc.
Context (s : idr) (t : tree) (m : gmap Z (Z * Z)) (start max : Z).
Hypothesis Hok : idr_ok s t.
Hypothesis Hm : means s t m.
Hypothesis Hstart : 0 <= start <= max.
Hypothesis Hmax : base s <= max <= INT_MAX.

Let from : Z := if start <? base s then 0 else start - base s.

Lemma from_eq : base s + from = Z.max start (base s).
Proof. unfold from. destruct (Z.ltb_spec start (base s)); lia. Qed.

Lemma limit_eq : wrapu 64 (max - base s) = max - base s.
Proof. pose proof (i_base _ _ Hok). unfold INT_MAX in *. apply wrapu_small. lia. Qed.

Lemma room_exact :
  room m (Z.max start (base s)) max = bool_decide (slot_for (idr_key s) from (max - base s) (elements t) <> None).
Proof.
  pose proof (slot_for_spec (idr_key s) from (max - base s) (elements t) (i_sorted _ _ Hok)) as Hs. pose proof from_eq as Hfrom.
  pose proof (i_base _ _ Hok) as Hb. unfold room. symmetry. apply eq_true_iff_eq. rewrite bool_decide_eq_true, orb_true_iff.
  rewrite forallb_forall, existsb_exists. setoid_rewrite <- list_elem_of_In. split.
  - intros Hne. destruct (slot_for _ _ _ _) as [k|] eqn:Hk; [|done]. destruct Hs as (Hfresh & Hfr & [[-> Hnil]|(p & Hp & Hlt & -> & Hcase)]).
    + left. intros i [[n q] Hi]%elem_of_keys. destruct (m_in _ _ _ Hm i n q Hi) as [Hn _]. rewrite Hnil in Hn. by apply elem_of_nil in Hn.
    + destruct Hcase as [Hle|Hall].
      * right. exists (base s + idr_key s p). split; [apply elem_of_keys; by rewrite (m_node _ _ _ Hm p Hp)|].
        rewrite !andb_true_iff, Z.ltb_lt, Z.leb_le, bool_decide_eq_true. split; [lia|].
        destruct (m !! _) as [[n q]|] eqn:He; [|done]. destruct (m_in _ _ _ Hm _ n q He) as (Hn & Hk' & _). destruct (Hfresh n Hn). lia.
      * left. intros i [[n q] Hi]%elem_of_keys. destruct (m_in _ _ _ Hm i n q Hi) as (Hn & -> & _). apply Z.ltb_lt.
        specialize (Hall n Hn). lia.
  - intros Hr Hnone. rewrite Hnone in Hs. destruct Hs as [(b & Hb1 & Hb2) Hall]. destruct Hr as [Hr|(i & Hi & Hc)].
    + specialize (Hr (base s + idr_key s b)). rewrite Z.ltb_lt in Hr. pose proof (m_node _ _ _ Hm b Hb1) as Hmb.
      specialize (Hr (proj2 (elem_of_keys m _) ltac:(by eexists))). lia.
    + rewrite !andb_true_iff, Z.ltb_lt, Z.leb_le, bool_decide_eq_true in Hc. destruct Hc as [[H1 H2] H3].
      apply elem_of_keys in Hi as [[n q] Hi]. destruct (m_in _ _ _ Hm i n q Hi) as (Hn & -> & _).
      destruct (Hall n Hn ltac:(lia) ltac:(lia)) as (n' & Hn' & Hk). pose proof (m_node _ _ _ Hm n' Hn') as Hm'.
      replace (base s + idr_key s n') with (base s + idr_key s n + 1) in Hm' by lia. congruence.
Qed.

Hypothesis Hdepth : ht t <= 32.
Context (fuel : nat) (it : avl_iter) (p : Z).
Hypothesis Hfuel : Z.of_nat (size m) < Z.of_nat fuel.

Lemma alloc_find_slot :
  find_slot fuel from (wrapu 64 (max - base s)) it s =
    match slot_for (idr_key s) from (max - base s) (elements t) with Some k => Ret (Some k) | None => Crash NullDeref end.
Proof.
  rewrite limit_eq. apply find_slot_spec; [done|done|]. pose proof (means_size s t m Hok Hm). lia.
Qed.

(** Without room the code follows a null pointer. *)
Lemma alloc_no_room memory : room m (Z.max start (base s)) max = false -> idr_alloc_u32 fuel memory it p start max s = Crash NullDeref.
Proof.
  rewrite room_exact. intros Hr%bool_decide_eq_false. unfold idr_alloc_u32. fold from. rewrite alloc_find_slot.
  destruct (slot_for _ _ _ _) as [k|]; [|done]. destruct Hr. done.
Qed.

Lemma alloc_u32_spec node :
  room m (Z.max start (base s)) max = true -> node <> 0 -> node ∉ elements t ->
  exists s' i, idr_alloc_u32 fuel (Some node) it p start max s = Ret (s', 0, i) /\ idr_inv s' (<[i := (node, p)]> m) /\
    base s' = base s /\ m !! i = None /\ base s <= i <= max /\
    ((forall j, is_Some (m !! j) -> start <= j) -> start <= i).
Proof.
  rewrite room_exact. intros Hr%bool_decide_eq_true Hn0 Hfresh. unfold idr_alloc_u32. fold from. rewrite alloc_find_slot.
  pose proof (slot_for_spec (idr_key s) from (max - base s) (elements t) (i_sorted _ _ Hok)) as Hs. pose proof from_eq as Hfrom.
  pose proof (i_base _ _ Hok) as Hb. destruct (slot_for _ _ _ _) as [k|]; [|done]. cbn [mbind res_mbind]. clear Hr.
  destruct Hs as (Hk & Hge & Hcase). set (s1 := s <| ids ::= _ |>).
  assert (forall n, n ∈ elements t -> idr_key s1 n = idr_key s n /\ ids s1 n = ids s n) as Hsame.
  { intros n Hn. unfold idr_key. change (ids s1) with (<[node := mk_id_node k p]> (ids s)).
    rewrite fn_lookup_insert_ne; [done|]. by intros ->. }
  assert (ids s1 node = mk_id_node k p) as Hnode by apply fn_lookup_insert.
  assert (0 <= k <= max - base s) as Hrange.
  { destruct Hcase as [[-> _]|(q & Hq & Hlt & -> & _)]; [lia|]. pose proof (i_range _ _ Hok q Hq). lia. }
  assert (sorted (idr_key s1) (elements t)) as Hs1 by (eapply sorted_ext; [apply Hok|intros n Hn; by apply Hsame]).
  assert (NoDup (node :: elements t)) as Hnd by (constructor; [done|by apply (sorted_NoDup (idr_key s)), Hok]).
  pose proof (means_size s t m Hok Hm). pose proof (ht_size t).
  destruct (insert_recur_spec (idr_key s1) fuel node (root s) t (avl s) (i_rep _ _ Hok) Hnd Hn0 ltac:(lia)) as (r & h & Hins & Hrep & _).
  unfold avl_insert. change (idr_node_node_comp s1) with (compare_keys (idr_key s1)).
  change (root s1) with (root s). change (avl s1) with (avl s). change (base s1) with (base s). rewrite Hins. cbn [mbind res_mbind].
  rewrite wrapu_small by (unfold INT_MAX in *; lia). eexists _, _. split; [reflexivity|].
  set (s2 := _ <| root := r |>). assert (forall n, idr_key s2 n = idr_key s1 n) as Hk2 by done.
  assert (idr_key s1 node = k) as Hkn by (unfold idr_key; by rewrite Hnode).
  assert (forall x, x ∈ elements (ins (idr_key s1) node t) <-> x = node \/ x ∈ elements t) as Hin.
  { intros x. rewrite elements_ins. apply elem_of_cons. }
  assert (m !! (base s + k) = None) as Hnone.
  { destruct (m !! (base s + k)) as [[n q]|] eqn:He; [|done]. destruct (m_in _ _ _ Hm _ n q He) as (Hn & Hk' & _).
    destruct (Hk n Hn). lia. }
  split; [|split; [done|split; [done|split; [lia|]]]].
  - exists (ins (idr_key s1) node t). split; split; try done.
    + change (sorted (idr_key s1) (elements (ins (idr_key s1) node t))). rewrite elements_ins_place by done.
      apply sorted_place; [done|]. apply Forall_forall. intros n Hn. rewrite (proj1 (Hsame n Hn)), Hkn. by apply Hk.
    + intros n [->|Hn]%Hin; rewrite Hk2; [rewrite Hkn; change (base s2) with (base s); lia|].
      rewrite (proj1 (Hsame n Hn)). by apply Hok.
    + intros n [->|Hn]%Hin; rewrite Hk2; change (base s2) with (base s); change (ids s2) with (ids s1).
      * rewrite Hkn, lookup_insert_eq. by rewrite Hnode.
      * destruct (Hsame n Hn) as [-> ->]. rewrite lookup_insert_ne; [by apply Hm|]. intros He. destruct (Hk n Hn). lia.
    + intros j n q. rewrite Hk2. change (base s2) with (base s). change (ids s2) with (ids s1).
      intros [[<- [= <- <-]]|[Hne Hj]]%lookup_insert_Some; [rewrite Hkn, Hnode; split; [apply Hin; by left|done]|].
      destruct (m_in _ _ _ Hm j n q Hj) as (Hn & -> & ->). destruct (Hsame n Hn) as [-> ->]. split; [apply Hin; by right|done].
  - intros Hall. assert (forall n, n ∈ elements t -> from <= idr_key s n) as Hfr.
    { intros n Hn. specialize (Hall (base s + idr_key s n) ltac:(rewrite (m_node _ _ _ Hm n Hn); by eexists)).
      pose proof (i_range _ _ Hok n Hn). lia. }
    specialize (Hge Hfr). lia.
Qed.

Lemma alloc_no_memory : room m (Z.max start (base s)) max = true -> idr_alloc_u32 fuel None it p start max s = Ret (s, - ENOMEM, start).
Proof.
  rewrite room_exact. intros Hr%bool_decide_eq_true. unfold idr_alloc_u32. fold from. rewrite alloc_find_slot.
  by destruct (slot_for _ _ _ _) as [k|].
Qed.
End alloc.

(** ** Runs *)

Inductive idr_op :=
| OpAlloc (memory : option Z) (it : avl_iter) (p start end_ : Z)
| OpRemove (i : Z)
| OpFind (i : Z).

Definition idr_perform (fuel : nat) (op : idr_op) (s : idr) : res (idr * Z) :=
  match op with
  | OpAlloc memory it p start end_ => idr_alloc fuel memory it p start end_ s
  | OpRemove i => idr_remove fuel i s
  | OpFind i => p ← idr_find fuel i s; Ret (s, p)
  end.

(** The numbers in use after an operation that answers [out] *)
Definition idr_next (op : idr_op) (out : Z) (m : gmap Z (Z * Z)) : gmap Z (Z * Z) :=
  match op with
  | OpAlloc (Some node) _ p start _ => if start <? 0 then m else <[out := (node, p)]> m
  | OpRemove i => delete i m
  | _ => m
  end.

(** The answer a map of numbers would give; an allocation takes some number that
    is free, between [base] and the limit, and not below [start] if no number in
    use is. *)
Definition idr_answer (b : Z) (op : idr_op) (out : Z) (m : gmap Z (Z * Z)) : Prop :=
  match op with
  | OpAlloc memory _ _ start end_ =>
      if start <? 0 then out = - EINVAL
      else
        match memory with
        | None => out = - ENOMEM
        | Some _ => m !! out = None /\ b <= out <= limit_of end_ /\ ((forall j, is_Some (m !! j) -> start <= j) -> start <= out)
        end
  | OpRemove i | OpFind i => out = match m !! i with Some (_, p) => p | None => 0 end
  end.

(** An allocation asks for a range of numbers with room, the tree is not too deep
    for an iterator, and [malloc] returns a node that is not in use. *)
Definition idr_legal (fuel : nat) (op : idr_op) (s : idr) (m : gmap Z (Z * Z)) : bool :=
  (Z.of_nat (size m) <? Z.of_nat fuel) &&
  match op with
  | OpAlloc memory _ _ start end_ =>
      (start <? 0) ||
      ((start <=? limit_of end_) && (base s <=? limit_of end_) && (end_ <=? INT_MAX) &&
       (avl_tree_height (root s) (avl s) <=? 32) && room m (Z.max start (base s)) (limit_of end_) &&
       match memory with Some n => negb (n =? 0) && forallb (fun x => negb (x.2.1 =? n)) (map_to_list m) | None => true end)
  | OpRemove i | OpFind i => 0 <=? i
  end.

Fixpoint idr_run (fuel : nat) (ops : list idr_op) (s : idr) : res (idr * list Z) :=
  match ops with
  | [] => Ret (s, [])
  | op :: ops =>
      '(s, out) ← idr_perform fuel op s;
      '(s, outs) ← idr_run fuel ops s;
      Ret (s, out :: outs)
  end.

Fixpoint idr_legal_run (fuel : nat) (ops : list idr_op) (s : idr) (m : gmap Z (Z * Z)) : bool :=
  match ops with
  | [] => true
  | op :: ops => idr_legal fuel op s m &&
      match idr_perform fuel op s with Ret (s', out) => idr_legal_run fuel ops s' (idr_next op out m) | Crash _ => true end
  end.

Fixpoint idr_answers (b : Z) (ops : list idr_op) (outs : list Z) (m : gmap Z (Z * Z)) : Prop :=
  match ops, outs with
  | [], [] => True
  | op :: ops, out :: outs => idr_answer b op out m /\ idr_answers b ops outs (idr_next op out m)
  | _, _ => False
  end.

Lemma idr_alloc_step fuel memory it p start end_ s m :
  idr_inv s m -> idr_legal fuel (OpAlloc memory it p start end_) s m = true ->
  exists s' out, idr_alloc fuel memory it p start end_ s = Ret (s', out) /\ base s' = base s /\
    idr_answer (base s) (OpAlloc memory it p start end_) out m /\ idr_inv s' (idr_next (OpAlloc memory it p start end_) out m).
Proof.
  intros (t & Hok & Hm) Hl. unfold idr_legal in Hl. rewrite andb_true_iff, Z.ltb_lt in Hl. destruct Hl as [Hf Hl].
  unfold idr_alloc, idr_answer, idr_next. destruct (Z.ltb_spec start 0) as [Hneg|Hpos].
  { exists s, (- EINVAL). do 3 (split; [done|]). destruct memory; by exists t. }
  cbn [orb] in Hl. rewrite !andb_true_iff, !Z.leb_le in Hl. destruct Hl as [[[[[H1 H2] H3] H4] H5] H6].
  rewrite (rep_height _ _ _ (i_rep _ _ Hok)) in H4. fold (limit_of end_).
  assert (limit_of end_ <= INT_MAX) as Hlim by (unfold limit_of; destruct (Z.ltb_spec 0 end_); lia).
  pose proof (i_base _ _ Hok) as Hb. destruct memory as [node|].
  - rewrite andb_true_iff, negb_true_iff, Z.eqb_neq, forallb_forall in H6. destruct H6 as [Hn0 Hfresh].
    destruct (alloc_u32_spec s t m start (limit_of end_) Hok Hm ltac:(lia) ltac:(lia) H4 fuel it p Hf node H5 Hn0)
      as (s' & i & -> & Hinv & Hbase & Hnone & Hrange & Hge).
    { intros Hin. specialize (Hfresh (base s + idr_key s node, (node, ptr (ids s node)))). cbn [fst snd] in Hfresh.
      rewrite Z.eqb_refl in Hfresh. specialize (Hfresh ltac:(apply list_elem_of_In, elem_of_map_to_list; by apply Hm)). done. }
    cbn [mbind res_mbind negb Z.eqb]. rewrite wraps_small by (unfold INT_MAX in *; lia). exists s', i. by do 3 (split; [done|]).
  - rewrite (alloc_no_memory s t m start (limit_of end_) Hok Hm ltac:(lia) H4 fuel it p Hf H5). cbn [mbind res_mbind].
    exists s, (- ENOMEM). do 3 (split; [done|]). by exists t.
Qed.

Lemma idr_step fuel op s m :
  idr_inv s m -> idr_legal fuel op s m = true ->
  exists s' out, idr_perform fuel op s = Ret (s', out) /\ base s' = base s /\ idr_answer (base s) op out m /\ idr_inv s' (idr_next op out m).
Proof.
  intros Hinv Hl. destruct op as [memory it p start end_|i|i].
  - by apply idr_alloc_step.
  - unfold idr_legal in Hl. rewrite andb_true_iff, Z.ltb_lt, Z.leb_le in Hl. destruct Hl as [Hf Hi].
    destruct (idr_remove_spec fuel i s m Hinv Hf Hi) as (s' & He & Hinv' & Hb). eexists _, _. by split; [exact He|].
  - unfold idr_legal in Hl. rewrite andb_true_iff, Z.ltb_lt, Z.leb_le in Hl. destruct Hl as [Hf Hi].
    cbn [idr_perform]. rewrite (idr_find_spec fuel i s m Hinv Hf Hi). cbn [mbind res_mbind]. by eexists _, _.
Qed.

Lemma idr_run_ok fuel ops s m :
  idr_inv s m -> idr_legal_run fuel ops s m = true ->
  exists s' outs, idr_run fuel ops s = Ret (s', outs) /\ idr_answers (base s) ops outs m.
Proof.
  revert s m. induction ops as [|op ops IH]; intros s m Hinv; cbn [idr_legal_run idr_run]; [by eexists _, _|].
  rewrite andb_true_iff. intros [Hl Hrest]. destruct (idr_step fuel op s m Hinv Hl) as (s1 & out & He & Hb & Ha & Hinv1).
  rewrite He in *. cbn [mbind res_mbind]. destruct (IH s1 _ Hinv1 Hrest) as (s2 & outs & -> & Hans). cbn [mbind res_mbind].
  eexists _, _. split; [reflexivity|]. cbn [idr_answers]. rewrite Hb in Hans. done.
Qed.

Lemma idr_init_inv b s : 0 <= b <= INT_MAX -> idr_inv (idr_init_base b s) ∅.
Proof.
  intros Hb. exists Leaf. split; split; try done.
  - constructor.
  - intros n Hn. by apply elem_of_nil in Hn.
  - intros n Hn. by apply elem_of_nil in Hn.
Qed.


Definition no_iter : avl_iter := mk_iter (-1) 0 (fun _ => 0).
Definition blank_idr : idr := mk_idr (fun _ => mk_node 0 0 0) (fun _ => mk_id_node 0 0) 0 0.
Definition some_ids : list idr_op :=
  [OpAlloc (Some 1) no_iter 77 1 0; OpAlloc (Some 2) no_iter 78 1 0; OpAlloc None no_iter 79 1 0; OpAlloc (Some 3) no_iter 79 (-1) 0; OpFind 2; OpRemove 1; OpFind 1].

