(* ===== verification/Region.v ===== *)
(** * Address spaces

    servers/mm/region.c, region_avl.c and [mmap_region] of mmap.c: the regions of
    an address space, in a tree of [Avl] by address and in a list, with the pages
    of each region. A region is a number, 0 is NULL. What the operations of a
    region type answer, which allocations succeed and the pages that a region is
    filled with are arguments. The counts of pages (page.c) and the page tables are
    not modelled: the ranges that are taken out of them are recorded. Addresses are
    those of 64-bit x86. *)

From S2P Require Import Prelude Avl.

Definition VM_STACK_TOP : Z := 0x800000000000.
Definition ARCH_BIG_PAGE_SIZE : Z := 0x200000.
Definition FREE_REGION_FAILED : Z := 2 ^ 64 - 1.
Definition RF_UNINITIALIZED : Z := 16.
Definition MRF_PREALLOC : Z := 1.
Definition MAP_FIXED : Z := 8.
Definition MAP_POPULATE : Z := 16.

Record phys_region := mk_phys { page : Z; offset : Z }.

(** The operations of a region type that are looked at: whether there is a
    [rop_split], and what [rop_shrink_low] answers, if there is one *)
Record region_operations := mk_rops { rop_split : bool; rop_shrink_low : option Z }.

Record vir_region := mk_region {
  vir_addr : Z;
  length : Z;
  flags : Z;
  rops : region_operations;
  phys_regions : Z -> option phys_region
}.
#[export] Instance rebuild_region : Rebuild vir_region := fun r =>
  mk_region (vir_addr r) (length r) (flags r) (rops r) (phys_regions r).

Record mm_struct := mk_mm {
  avl : Z -> avl_node;
  regions : Z -> vir_region;
  mem_avl : Z;
  mem_regions : list Z;
  vm_total : Z;
  unmapped : list (Z * Z)
}.
#[export] Instance rebuild_mm : Rebuild mm_struct := fun m =>
  mk_mm (avl m) (regions m) (mem_avl m) (mem_regions m) (vm_total m) (unmapped m).

(** [mm_init], with [region_init_avl] *)
Definition mm_init (m : mm_struct) : mm_struct := m <| mem_avl := 0 |> <| mem_regions := [] |> <| vm_total := 0 |>.

Definition upd_region (vr : Z) (f : vir_region -> vir_region) (m : mm_struct) : mm_struct := m <| regions ::= alter f vr |>.

Definition addu (x y : Z) : Z := wrapu 64 (x + y).
Definition subu (x y : Z) : Z := wrapu 64 (x - y).
Definition roundup (x align : Z) : Z := if x mod align =? 0 then x else wrapu 64 (x + align - x mod align).

(** ** The tree *)

Definition region_key (m : mm_struct) (vr : Z) : Z := vir_addr (regions m vr).
Definition region_key_node_comp (m : mm_struct) (key node : Z) : Z := compare_key (region_key m) key node.
Definition region_node_node_comp (m : mm_struct) (node1 node2 : Z) : Z := compare_keys (region_key m) node1 node2.

Fixpoint lookup_loop (fuel : nat) (addr node : Z) (m : mm_struct) : res Z :=
  match fuel with
  | O => Crash OutOfFuel
  | S fuel =>
      if node =? 0 then Ret 0
      else
        let vr := regions m node in
        if (vir_addr vr <=? addr) && (addr <? addu (vir_addr vr) (length vr)) then Ret node
        else if addr <? vir_addr vr then lookup_loop fuel addr (left (avl m node)) m
        else if vir_addr vr <? addr then lookup_loop fuel addr (right (avl m node)) m
        else lookup_loop fuel addr node m
  end.
Definition region_lookup (fuel : nat) (addr : Z) (m : mm_struct) : res Z := lookup_loop fuel addr (mem_avl m) m.

Definition start_region_iter (key fl : Z) (it : avl_iter) (m : mm_struct) : res avl_iter :=
  avl_start_iter (region_key_node_comp m key) fl (mem_avl m) it (avl m).
Definition region_avl_get_iter (it : avl_iter) (m : mm_struct) : Z := avl_get_iter (mem_avl m) it.
Definition region_avl_inc_iter (it : avl_iter) (m : mm_struct) : res avl_iter := avl_inc_iter (mem_avl m) it (avl m).
Definition region_avl_dec_iter (it : avl_iter) (m : mm_struct) : res avl_iter := avl_dec_iter (mem_avl m) it (avl m).

(** [list_add] and [avl_insert], [list_del] and [avl_erase] *)
Definition link_region (fuel : nat) (vr : Z) (m : mm_struct) : res mm_struct :=
  '(r, h) ← avl_insert (region_node_node_comp m) fuel vr (mem_avl m) (avl m);
  Ret (m <| mem_regions ::= cons vr |> <| avl := h |> <| mem_avl := r |>).
Definition unlink_region (fuel : nat) (vr : Z) (m : mm_struct) : res mm_struct :=
  '(r, h) ← avl_erase (region_node_node_comp m) fuel vr (mem_avl m) (avl m);
  Ret (m <| mem_regions ::= filter (fun x => x <> vr) |> <| avl := h |> <| mem_avl := r |>).

(** ** Free ranges *)

Definition TRY_ALLOC_REGION (minv maxv len start end_ : Z) : option Z :=
  let rstart := if minv <? start then start else minv in
  let rend := if end_ <? maxv then end_ else maxv in
  if (rstart <? rend) && (len <=? rend - rstart) then Some (rend - len) else None.

Definition ALLOC_REGION (minv maxv len start end_ : Z) : option Z :=
  match TRY_ALLOC_REGION minv maxv len (addu start ARCH_PG_SIZE) (subu end_ ARCH_PG_SIZE) with
  | Some v => Some v
  | None => TRY_ALLOC_REGION minv maxv len start end_
  end.

(** The end of a region, or 0 *)
Definition region_end (vr : Z) (m : mm_struct) : Z :=
  if vr =? 0 then 0 else addu (vir_addr (regions m vr)) (length (regions m vr)).

Fixpoint free_loop (fuel : nat) (minv maxv len : Z) (it : avl_iter) (m : mm_struct) : res Z :=
  match fuel with
  | O => Crash OutOfFuel
  | S fuel =>
      let vr := region_avl_get_iter it m in
      if vr =? 0 then Ret FREE_REGION_FAILED
      else
        it ← region_avl_dec_iter it m;
        let nextvr := region_avl_get_iter it m in
        match ALLOC_REGION minv maxv len (region_end nextvr m) (vir_addr (regions m vr)) with
        | Some vaddr => Ret vaddr
        | None => free_loop fuel minv maxv len it m
        end
  end.

Definition region_find_free_region (fuel : nat) (it : avl_iter) (minv maxv len : Z) (m : mm_struct) : res Z :=
  let maxv := if maxv =? 0 then addu minv len else maxv in
  if maxv <? addu minv len then Ret FREE_REGION_FAILED
  else
    it ← start_region_iter maxv AVL_GREATER_EQUAL it m;
    if region_avl_get_iter it m =? 0 then
      it ← start_region_iter maxv AVL_LESS it m;
      let last := region_avl_get_iter it m in
      match ALLOC_REGION minv maxv len (region_end last m) VM_STACK_TOP with
      | Some vaddr => Ret vaddr
      | None => free_loop fuel minv maxv len it m
      end
    else free_loop fuel minv maxv len it m.

(** ** Pages of a region *)

Definition phys_slot (off : Z) : res Z :=
  if negb (off mod ARCH_PG_SIZE =? 0) then Crash Panic else Ret (off / ARCH_PG_SIZE).

Definition phys_region_get (vr off : Z) (m : mm_struct) : res (option phys_region) :=
  if length (regions m vr) <=? off then Crash Panic
  else
    i ← phys_slot off;
    match phys_regions (regions m vr) i with
    | Some pr => if offset pr =? off then Ret (Some pr) else Crash Panic
    | None => Ret None
    end.

Definition phys_region_set (vr off : Z) (pr : option phys_region) (m : mm_struct) : res mm_struct :=
  if length (regions m vr) <=? off then Crash Panic
  else
    i ← phys_slot off;
    match pr, phys_regions (regions m vr) i with
    | Some p, None =>
        if offset p =? off then
          Ret ((upd_region vr (fun r => r <| phys_regions ::= <[i := Some p]> |>) m) <| vm_total ::= fun n => n + ARCH_PG_SIZE |>)
        else Crash Panic
    | None, Some _ =>
        Ret ((upd_region vr (fun r => r <| phys_regions ::= <[i := None]> |>) m) <| vm_total ::= fun n => n - ARCH_PG_SIZE |>)
    | _, _ => Crash Panic
    end.

(** The slots of a region when its array is allocated anew *)
Definition resized (slots : Z) (f : Z -> option phys_region) (i : Z) : option phys_region :=
  if (0 <=? i) && (i <? slots) then f i else None.

Definition phys_region_resize (memory : bool) (vr new_length : Z) (m : mm_struct) : res (mm_struct * Z) :=
  if (length (regions m vr) =? 0) || (new_length =? 0) then Crash Panic
  else
    cur_slots ← phys_slot (length (regions m vr));
    new_slots ← phys_slot new_length;
    if negb memory then Ret (m, ENOMEM)
    else Ret (upd_region vr (fun r => r <| phys_regions ::= resized (Z.min cur_slots new_slots) |>) m, 0).

(** [region_new]: [memory] is the region allocated, with its array of pages. *)
Definition region_new (memory : option Z) (base len fl : Z) (ops : region_operations) (m : mm_struct) : res (mm_struct * Z) :=
  match memory with
  | None => Ret (m, 0)
  | Some vr =>
      _ ← phys_slot len;
      Ret (m <| regions ::= <[vr := mk_region base len fl ops (fun _ => None)]> |>, vr)
  end.

(** The offsets of the pages from [start] up to [start + len] *)
Definition page_offsets (start len : Z) : list Z :=
  (fun i => start + i * ARCH_PG_SIZE) <$> seqZ 0 ((len + ARCH_PG_SIZE - 1) / ARCH_PG_SIZE).

Fixpoint subfree_loop (vr start end_ : Z) (offs : list Z) (m : mm_struct) : res mm_struct :=
  match offs with
  | [] => Ret m
  | off :: offs =>
      pr ← phys_region_get vr off m;
      match pr with
      | None => subfree_loop vr start end_ offs m
      | Some p =>
          if (offset p <? start) || (end_ <=? offset p) then Crash Panic
          else m ← phys_region_set vr (offset p) None m; subfree_loop vr start end_ offs m
      end
  end.
Definition region_subfree (vr start len : Z) (m : mm_struct) : res mm_struct :=
  if negb (start mod ARCH_PG_SIZE =? 0) then Crash Panic
  else subfree_loop vr start (addu start len) (page_offsets start len) m.

Definition region_free (vr : Z) (m : mm_struct) : res mm_struct := region_subfree vr 0 (length (regions m vr)) m.

(** [rop_new] and [handle_memory] are what the operation of the region type and
    [region_handle_memory] answer: success, for the second with the pages. *)
Definition region_map (fuel : nat) (it : avl_iter) (memory : option Z) (rop_new : bool)
    (handle_memory : option (Z -> option phys_region)) (minv maxv len fl map_flags : Z) (ops : region_operations)
    (m : mm_struct) : res (mm_struct * Z) :=
  startv ← region_find_free_region fuel it minv maxv len m;
  if startv =? FREE_REGION_FAILED then Ret (m, 0)
  else
    '(m, vr) ← region_new memory startv len fl ops m;
    if vr =? 0 then Ret (m, 0)
    else if negb rop_new then Ret (m, 0)
    else
      let fill := if has_flag map_flags MRF_PREALLOC then handle_memory else Some (phys_regions (regions m vr)) in
      match fill with
      | None => m ← region_free vr m; Ret (m, 0)
      | Some pages =>
          let m := upd_region vr (fun r => r <| phys_regions := pages |> <| flags ::= fun x => clear_flag x RF_UNINITIALIZED |>) m in
          m ← link_region fuel vr m;
          Ret (m, vr)
      end.

(** ** Splitting and unmapping *)

(** The pages of [vr] from [from] on are referenced by [new] as well; [slab] says
    which allocations succeed. *)
Fixpoint reference_loop (slab : Z -> bool) (vr new from : Z) (offs : list Z) (m : mm_struct) : res (mm_struct * bool) :=
  match offs with
  | [] => Ret (m, true)
  | off :: offs =>
      pr ← phys_region_get vr (from + off) m;
      match pr with
      | None => reference_loop slab vr new from offs m
      | Some p =>
          if negb (slab off) then Ret (m, false)
          else m ← phys_region_set new off (Some (mk_phys (page p) off)) m; reference_loop slab vr new from offs m
      end
  end.

Definition free_new (vr : Z) (m : mm_struct) : res mm_struct := if vr =? 0 then Ret m else region_free vr m.

Definition region_split (fuel : nat) (memory1 memory2 : option Z) (slab1 slab2 : Z -> bool) (vr len : Z) (m : mm_struct)
    : res (mm_struct * (Z + Z * Z)) :=
  let r := regions m vr in
  let rem_len := length r - len in
  if negb (rop_split (rops r)) then Ret (m, inl EINVAL)
  else if negb (vir_addr r mod ARCH_PG_SIZE =? 0) then Crash Panic
  else
    slot1 ← phys_slot len;
    slot2 ← phys_slot rem_len;
    slots ← phys_slot (length r);
    if negb (slot1 + slot2 =? slots) then Crash Panic
    else
      '(m, vr1) ← region_new memory1 (vir_addr r) len (flags r) (rops r) m;
      if vr1 =? 0 then Ret (m, inl ENOMEM)
      else
        '(m, vr2) ← region_new memory2 (addu (vir_addr r) len) rem_len (flags r) (rops r) m;
        if vr2 =? 0 then m ← free_new vr1 m; Ret (m, inl ENOMEM)
        else
          '(m, ok) ← reference_loop slab1 vr vr1 0 (page_offsets 0 len) m;
          '(m, ok) ← (if ok : bool then reference_loop slab2 vr vr2 len (page_offsets 0 rem_len) m else Ret (m, false));
          if negb ok then m ← free_new vr1 m; m ← free_new vr2 m; Ret (m, inl ENOMEM)
          else
            m ← unlink_region fuel vr m;
            m ← region_free vr m;
            m ← link_region fuel vr1 m;
            m ← link_region fuel vr2 m;
            Ret (m, inr (vr1, vr2)).

(** The offsets kept with the pages when the low end of a region is cut off *)
Fixpoint shift_loop (vr len : Z) (offs : list Z) (m : mm_struct) : res mm_struct :=
  match offs with
  | [] => Ret m
  | voff :: offs =>
      pr ← phys_region_get vr voff m;
      match pr with
      | None => shift_loop vr len offs m
      | Some p =>
          if offset p <? len then Crash Panic
          else
            shift_loop vr len offs
              (upd_region vr (fun r => r <| phys_regions ::= <[voff / ARCH_PG_SIZE := Some (mk_phys (page p) (offset p - len))]> |>) m)
      end
  end.

Definition moved (free_slots new_slots : Z) (f : Z -> option phys_region) (i : Z) : option phys_region :=
  if (0 <=? i) && (i <? new_slots) then f (free_slots + i) else None.

(** The low end of a region is cut off; [memory] is the allocation of the new
    array, which the code does not check. *)
Definition shrink_low (fuel : nat) (memory : bool) (vr len : Z) (m : mm_struct) : res mm_struct :=
  free_slots ← phys_slot len;
  m ← unlink_region fuel vr m;
  let m := upd_region vr (fun r => r <| vir_addr ::= fun a => addu a len |>) m in
  if length (regions m vr) <=? len then Crash Panic
  else
    new_slots ← phys_slot (length (regions m vr) - len);
    if new_slots =? 0 then Crash Panic
    else
      m ← link_region fuel vr m;
      m ← shift_loop vr len (page_offsets len (length (regions m vr) - len)) m;
      if negb memory then Crash NullDeref
      else
        Ret (upd_region vr (fun r => r <| phys_regions ::= moved free_slots new_slots |> <| length ::= fun n => n - len |>) m).

Definition region_unmap (fuel : nat) (memory : bool) (vr off len : Z) (m : mm_struct) : res (mm_struct * Z) :=
  if length (regions m vr) <? addu off len then Crash Panic
  else
    _ ← phys_slot len;
    m ← region_subfree vr off len m;
    let unmap_start := addu (vir_addr (regions m vr)) off in
    '(m, retval) ← (if len =? length (regions m vr) then
                      m ← unlink_region fuel vr m;
                      m ← region_free vr m;
                      Ret (m, 0)
                    else if off =? 0 then
                      match rop_shrink_low (rops (regions m vr)) with
                      | Some 0 => m ← shrink_low fuel memory vr len m; Ret (m, 0)
                      | _ => Ret (m, EINVAL)
                      end
                    else if addu off len =? length (regions m vr) then
                      '(m, retval) ← phys_region_resize memory vr (length (regions m vr) - len) m;
                      if negb (retval =? 0) then Ret (m, retval)
                      else Ret (upd_region vr (fun r => r <| length ::= fun n => n - len |>) m, 0)
                    else Ret (m, 0));
    if negb (retval =? 0) then Ret (m, retval)
    else Ret (m <| unmapped ::= fun l => l ++ [(unmap_start, len)] |>, 0).

(** What the allocations that unmapping a region makes answer *)
Record unmap_answers := mk_answers {
  a_memory1 : option Z;
  a_memory2 : option Z;
  a_slab1 : Z -> bool;
  a_slab2 : Z -> bool;
  a_memory : bool
}.

(** One region that has addresses in the range: the split, and the unmapping *)
Definition unmap_one (fuel : nat) (a : unmap_answers) (start limit vr : Z) (m : mm_struct) : res (mm_struct * Z) :=
  let r := regions m vr in
  let cur_start := Z.max start (vir_addr r) in
  let cur_limit := Z.min limit (addu (vir_addr r) (length r)) in
  '(m, v) ← (if (vir_addr r <? cur_start) && (cur_limit <? addu (vir_addr r) (length r)) then
               let split_len := cur_limit - vir_addr r in
               if (split_len <=? 0) || (length r <=? split_len) then Crash Panic
               else region_split fuel (a_memory1 a) (a_memory2 a) (a_slab1 a) (a_slab2 a) vr split_len m
             else Ret (m, inr (vr, 0)));
  match (v : Z + Z * Z) with
  | inl retval => Ret (m, retval)
  | inr (vr, _) =>
      let r := regions m vr in
      if (cur_start <? vir_addr r) || (cur_limit <=? vir_addr r) || (addu (vir_addr r) (length r) <? cur_limit) then Crash Panic
      else region_unmap fuel (a_memory a) vr (cur_start - vir_addr r) (cur_limit - cur_start) m
  end.

Fixpoint unmap_loop (fuel : nat) (fuel_avl : nat) (answers : Z -> unmap_answers) (start limit vr : Z) (it : avl_iter) (m : mm_struct)
    : res (mm_struct * Z) :=
  match fuel with
  | O => Crash OutOfFuel
  | S fuel =>
      if (vr =? 0) || (limit <=? vir_addr (regions m vr)) then Ret (m, 0)
      else
        it ← region_avl_inc_iter it m;
        let next_vr := region_avl_get_iter it m in
        let r := regions m vr in
        if Z.min limit (addu (vir_addr r) (length r)) <=? Z.max start (vir_addr r)
        then unmap_loop fuel fuel_avl answers start limit next_vr it m
        else
          '(m, retval) ← unmap_one fuel_avl (answers vr) start limit vr m;
          if negb (retval =? 0) then Ret (m, retval)
          else if next_vr =? 0 then unmap_loop fuel fuel_avl answers start limit next_vr it m
          else
            it ← start_region_iter (vir_addr (regions m next_vr)) AVL_EQUAL it m;
            if negb (region_avl_get_iter it m =? next_vr) then Crash Panic
            else unmap_loop fuel fuel_avl answers start limit next_vr it m
  end.

Definition region_unmap_range (fuel : nat) (answers : Z -> unmap_answers) (it : avl_iter) (start len : Z) (m : mm_struct)
    : res (mm_struct * Z) :=
  let off := start mod ARCH_PG_SIZE in
  let start := start - off in
  let len := roundup (addu len off) ARCH_PG_SIZE in
  let limit := addu start len in
  it ← start_region_iter start AVL_LESS_EQUAL it m;
  if negb (region_avl_get_iter it m =? 0) then unmap_loop fuel fuel answers start limit (region_avl_get_iter it m) it m
  else
    it ← start_region_iter start AVL_GREATER it m;
    if region_avl_get_iter it m =? 0 then Ret (m, 0)
    else unmap_loop fuel fuel answers start limit (region_avl_get_iter it m) it m.

(** ** mmap *)

Record map_answers := mk_map_answers { memory : option Z; rop_new : bool; handle_memory : option (Z -> option phys_region) }.

Definition mmap_region (fuel : nat) (unmaps : Z -> unmap_answers) (first second : map_answers) (it : avl_iter)
    (addr mmap_flags len fl : Z) (ops : region_operations) (m : mm_struct) : res (mm_struct * Z) :=
  let mrflags := if has_flag mmap_flags MAP_POPULATE then MRF_PREALLOC else 0 in
  if len =? 0 then Ret (m, 0)
  else
    let len := roundup len ARCH_PG_SIZE in
    let fixed := has_flag mmap_flags MAP_FIXED in
    '(m, retval) ← (if negb (addr =? 0) && fixed then region_unmap_range fuel unmaps it addr len m else Ret (m, 0));
    if negb (retval =? 0) then Ret (m, 0)
    else
      '(m, vr) ← (if negb (addr =? 0) || fixed
                  then region_map fuel it (memory first) (rop_new first) (handle_memory first) addr 0 len fl mrflags ops m
                  else Ret (m, 0));
      if negb (vr =? 0) || fixed then Ret (m, vr)
      else region_map fuel it (memory second) (rop_new second) (handle_memory second) ARCH_BIG_PAGE_SIZE VM_STACK_TOP len fl mrflags ops m.

(** [do_munmap] for a process that exists *)
Definition do_munmap (fuel : nat) (answers : Z -> unmap_answers) (it : avl_iter) (addr len : Z) (m : mm_struct) : res (mm_struct * Z) :=
  region_unmap_range fuel answers it addr (roundup len ARCH_PG_SIZE) m.
