(* ===== verification/RegionProps.v ===== *)
(** * Free ranges of an address space

    Theorems on [Region]: the invariant of an address space, what
    [region_find_free_region] and [region_lookup] find. *)

From stdpp Require Import sorting.
From S2P Require Import Prelude Avl AvlTree AvlProps AvlIter Region.

(** ** Address spaces *)

Definition end_of (m : mm_struct) (vr : Z) : Z := vir_addr (regions m vr) + length (regions m vr).

(** The pages of a region are in its range, with their offsets. *)
Record region_ok (r : vir_region) : Prop := {
  r_low : ARCH_PG_SIZE <= vir_addr r;
  r_length : 0 < length r;
  r_high : vir_addr r + length r <= VM_STACK_TOP;
  r_aligned : vir_addr r mod ARCH_PG_SIZE = 0;
  r_pages : length r mod ARCH_PG_SIZE = 0;
  r_slots : forall i p, phys_regions r i = Some p -> 0 <= i < length r / ARCH_PG_SIZE /\ offset p = i * ARCH_PG_SIZE
}.

Record mm_ok (m : mm_struct) (t : tree) : Prop := {
  mm_rep : rep (avl m) (mem_avl m) t;
  mm_sorted : sorted (region_key m) (elements t);
  mm_regions : forall vr, vr ∈ elements t -> region_ok (regions m vr);
  mm_apart : forall vr vr', vr ∈ elements t -> vr' ∈ elements t -> region_key m vr < region_key m vr' -> end_of m vr <= region_key m vr';
  mm_list : mem_regions m ≡ₚ elements t
}.

(** No region has an address of the range. *)
Definition free_range (m : mm_struct) (t : tree) (v len : Z) : Prop :=
  forall vr, vr ∈ elements t -> v + len <= region_key m vr \/ end_of m vr <= v.

Lemma try_alloc_spec minv maxv len start end_ :
  0 < len ->
  match TRY_ALLOC_REGION minv maxv len start end_ with
  | Some v => start <= v /\ minv <= v /\ v + len <= end_ /\ v + len <= maxv
  | None => forall v, start <= v -> minv <= v -> v + len <= end_ -> v + len <= maxv -> False
  end.
Proof.
  intros Hl. unfold TRY_ALLOC_REGION. destruct (Z.ltb_spec minv start), (Z.ltb_spec end_ maxv);
    destruct (_ && _) eqn:Hc; rewrite ?andb_true_iff, ?andb_false_iff, ?Z.ltb_lt, ?Z.leb_le, ?Z.ltb_ge, ?Z.leb_gt in Hc; lia.
Qed.

Lemma alloc_spec minv maxv len start end_ :
  0 < len -> 0 <= start <= VM_STACK_TOP -> ARCH_PG_SIZE <= end_ <= VM_STACK_TOP ->
  match ALLOC_REGION minv maxv len start end_ with
  | Some v => start <= v /\ minv <= v /\ v + len <= end_ /\ v + len <= maxv
  | None => forall v, start <= v -> minv <= v -> v + len <= end_ -> v + len <= maxv -> False
  end.
Proof.
  intros Hl Hs He. unfold ALLOC_REGION, addu, subu. unfold VM_STACK_TOP, ARCH_PG_SIZE in *. rewrite !wrapu_small by lia.
  pose proof (try_alloc_spec minv maxv len (start + 4096) (end_ - 4096) Hl) as H1.
  destruct (TRY_ALLOC_REGION _ _ _ (start + 4096) _) as [v|]; [lia|]. by apply try_alloc_spec.
Qed.

Section free.
Context (m : mm_struct) (t : tree).
Hypothesis Hok : mm_ok m t.
Hypothesis Hdepth : ht t <= 32.

Lemma end_of_range vr : vr ∈ elements t -> addu (vir_addr (regions m vr)) (length (regions m vr)) = end_of m vr /\
  ARCH_PG_SIZE <= region_key m vr /\ region_key m vr < end_of m vr <= VM_STACK_TOP.
Proof.
  intros Hv. pose proof (mm_regions _ _ Hok vr Hv) as []. unfold addu, end_of, region_key, ARCH_PG_SIZE, VM_STACK_TOP in *.
  rewrite wrapu_small by lia. lia.
Qed.

Lemma region_nonzero vr : vr ∈ elements t -> vr <> 0.
Proof. intros Hv. eapply elements_nonzero; [apply (mm_rep _ _ Hok)|done]. Qed.

(** Regions in order *)
Lemma region_order L n R x :
  elements t = L ++ n :: R -> (x ∈ L -> end_of m x <= region_key m n) /\ (x ∈ R -> end_of m n <= region_key m x).
Proof.
  intros He. pose proof (mm_sorted _ _ Hok) as Hs. rewrite He in Hs.
  split; intros Hx; apply (mm_apart _ _ Hok); rewrite ?He; try set_solver; by apply (sorted_middle _ _ _ _ x Hs).
Qed.

Lemma region_get_iter it o :
  iter_at it t o -> region_avl_get_iter it m = match o with None => 0 | Some (_, n, _) => n end.
Proof. apply get_iter_at, (rep_label _ _ _ (mm_rep _ _ Hok)). Qed.

Lemma region_NoDup : NoDup (elements t).
Proof. apply (sorted_NoDup (region_key m)), Hok. Qed.

(** The end of the last region of [L] *)
Definition last_end (L : list Z) : Z := match rev L with [] => 0 | x :: _ => end_of m x end.

Lemma last_end_spec L n R :
  elements t = L ++ n :: R -> 0 <= last_end L <= region_key m n /\ (forall x, x ∈ L -> end_of m x <= last_end L).
Proof.
  intros He. unfold last_end. destruct (rev L) as [|y L'] eqn:HrL.
  - assert (L = []) as -> by (rewrite <- (rev_involutive L), HrL; done). split; [|set_solver].
    destruct (end_of_range n) as (_ & Hlow & _); [rewrite He; set_solver|]. unfold ARCH_PG_SIZE in Hlow. lia.
  - assert (L = rev L' ++ [y]) as HL by (rewrite <- (rev_involutive L), HrL; done).
    destruct (end_of_range y) as (_ & Hlow & Hlt & _); [rewrite He, HL; set_solver|]. unfold ARCH_PG_SIZE in Hlow.
    split.
    + split; [lia|]. apply (region_order L n R y He). rewrite HL. set_solver.
    + intros x Hx. rewrite HL, <- app_assoc in He. rewrite HL in Hx. apply elem_of_app in Hx as [Hx|Hx].
      * pose proof (proj1 (region_order (rev L') y ([] ++ n :: R) x He) Hx). lia.
      * apply list_elem_of_singleton in Hx as ->. lia.
Qed.

Lemma free_loop_spec fuel minv maxv len it L n R :
  0 < len -> iter_at it t (Some (L, n, R)) -> (S (List.length L) < fuel)%nat ->
  (exists v, free_loop fuel minv maxv len it m = Ret v /\ v <> FREE_REGION_FAILED /\
     0 <= v /\ minv <= v /\ v + len <= maxv /\ v + len <= region_key m n /\ free_range m t v len) \/
  (free_loop fuel minv maxv len it m = Ret FREE_REGION_FAILED /\
     forall v, 0 <= v -> minv <= v -> v + len <= maxv -> v + len <= region_key m n -> ~ free_range m t v len).
Proof.
  intros Hl. revert it L n R. induction fuel as [|fuel IH]; intros it L n R Hat Hf; [lia|]. cbn [free_loop].
  pose proof (iter_at_elements _ _ _ _ _ Hat) as He. assert (n ∈ elements t) as Hn by (rewrite He; set_solver).
  rewrite (region_get_iter it _ Hat), (proj2 (Z.eqb_neq n 0)) by by apply region_nonzero.
  destruct (dec_iter_at (avl m) (mem_avl m) t (mm_rep _ _ Hok) Hdepth region_NoDup it L n R Hat) as (it' & Hdec & Hat').
  unfold region_avl_dec_iter. rewrite Hdec. cbn [mbind res_mbind]. rewrite (region_get_iter it' _ Hat').
  destruct (last_end_spec L n R He) as [Hle Hends]. destruct (end_of_range n Hn) as (_ & Hlow & Hn1 & Hn2).
  assert (region_end (match last_of L (n :: R) with None => 0 | Some (_, x, _) => x end) m = last_end L) as ->.
  { unfold last_of, last_end, region_end. destruct (rev L) as [|y L'] eqn:HrL; [done|].
    assert (y ∈ elements t) as Hy by (rewrite He, (Permutation_rev L), HrL; set_solver).
    rewrite (proj2 (Z.eqb_neq y 0)) by (by apply region_nonzero). apply (end_of_range y Hy). }
  pose proof (alloc_spec minv maxv len (last_end L) (region_key m n) Hl ltac:(lia) ltac:(lia)) as Ha.
  change (vir_addr (regions m n)) with (region_key m n). destruct (ALLOC_REGION _ _ _ _ _) as [v|].
  - left. exists v. split; [done|]. split; [unfold FREE_REGION_FAILED, VM_STACK_TOP in *; lia|]. split; [lia|]. split; [lia|]. split; [lia|]. split; [lia|].
    intros x Hx. rewrite He in Hx. apply elem_of_app in Hx as [Hx|[->|Hx]%elem_of_cons]; [|left; lia|].
    + right. specialize (Hends x Hx). lia.
    + left. pose proof (proj2 (region_order L n R x He) Hx). lia.
  - unfold last_of, last_end in *. destruct (rev L) as [|y L'] eqn:HrL.
    { right. destruct fuel as [|fuel]; [lia|]. cbn [free_loop]. rewrite (region_get_iter it' None Hat').
      split; [done|]. intros v Hv0 Hv1 Hv2 Hv3 Hfree. apply (Ha v); lia. }
    assert (L = rev L' ++ [y]) as HL by (rewrite <- (rev_involutive L), HrL; done).
    destruct (IH it' (rev L') y (n :: R) Hat') as [(v & Hfl & Hnf & Hv0 & Hv1 & Hv2 & Hv3 & Hfree)|[Hfl Hno]].
    + rewrite HL, length_app in Hf. cbn in Hf. lia.
    + left. exists v. split; [done|]. split; [done|]. split; [done|]. split; [done|]. split; [done|]. split; [|done].
      pose proof (proj1 (region_order L n R y He)) as Hy. rewrite HL in Hy. specialize (Hy ltac:(set_solver)).
      destruct (end_of_range y) as (_ & _ & Hlt & _); [rewrite He, HL; set_solver|]. lia.
    + right. split; [done|]. intros v Hv0 Hv1 Hv2 Hv3 Hfree. apply (Hno v Hv0 Hv1 Hv2); [|done].
      destruct (Hfree y) as [?|Hend]; [rewrite He, HL; set_solver|done|]. destruct (Ha v); lia.
Qed.

(** The limit of a request *)
Definition upper (minv maxv len : Z) : Z := if maxv =? 0 then minv + len else maxv.

Lemma start_ge it k :
  exists it', start_region_iter k AVL_GREATER_EQUAL it m = Ret it' /\
    iter_at it' t (first_of (filter (fun n => region_key m n < k) (elements t)) (filter (fun n => k <= region_key m n) (elements t))).
Proof.
  pose proof (sorted_split (region_key m) k _ (mm_sorted _ _ Hok)) as Hsp.
  apply (start_at_first (avl m) (mem_avl m) t (mm_rep _ _ Hok) Hdepth region_NoDup (region_key m) k (mm_sorted _ _ Hok)); [done|done|..];
    intros n [Hn _]%list_elem_of_filter; unfold wanted, compare_key.
  - rewrite (proj2 (Z.ltb_ge _ _)), (proj2 (Z.ltb_lt _ _)) by lia. done.
  - destruct (Z.ltb_spec k (region_key m n)); [done|]. rewrite (proj2 (Z.ltb_ge _ _)) by lia. done.
Qed.

Lemma start_lt it k :
  exists it', start_region_iter k AVL_LESS it m = Ret it' /\
    iter_at it' t (last_of (filter (fun n => region_key m n < k) (elements t)) (filter (fun n => k <= region_key m n) (elements t))).
Proof.
  pose proof (sorted_split (region_key m) k _ (mm_sorted _ _ Hok)) as Hsp.
  apply (start_at_last (avl m) (mem_avl m) t (mm_rep _ _ Hok) Hdepth region_NoDup (region_key m) k (mm_sorted _ _ Hok)); [done|done|..];
    intros n [Hn _]%list_elem_of_filter; unfold wanted, compare_key.
  - rewrite (proj2 (Z.ltb_ge _ _)), (proj2 (Z.ltb_lt _ _)) by lia. done.
  - destruct (Z.ltb_spec k (region_key m n)); [done|]. rewrite (proj2 (Z.ltb_ge _ _)) by lia. done.
Qed.

Lemma find_free_spec fuel it minv maxv len :
  0 < len -> 0 <= minv -> 0 <= maxv -> upper minv maxv len <= VM_STACK_TOP -> minv + len < 2 ^ 64 ->
  (S (List.length (elements t)) < fuel)%nat ->
  (exists v, region_find_free_region fuel it minv maxv len m = Ret v /\ v <> FREE_REGION_FAILED /\
     minv <= v /\ v + len <= upper minv maxv len /\ free_range m t v len) \/
  (region_find_free_region fuel it minv maxv len m = Ret FREE_REGION_FAILED /\
     forall v, minv <= v -> v + len <= upper minv maxv len -> ~ free_range m t v len).
Proof.
  intros Hl Hmin Hmax Hup Hw Hf. unfold region_find_free_region. unfold addu. rewrite wrapu_small by lia. fold (upper minv maxv len).
  set (k := upper minv maxv len) in *. destruct (Z.ltb_spec k (minv + len)) as [Hlt|Hge]; [right; split; [done|lia]|].
  destruct (start_ge it k) as (it1 & -> & Hat1). cbn [mbind res_mbind]. rewrite (region_get_iter it1 _ Hat1).
  pose proof (sorted_split (region_key m) k _ (mm_sorted _ _ Hok)) as Hsp. destruct (start_lt it1 k) as (it2 & Hs2 & Hat2).
  set (A := filter (fun n => region_key m n < k) (elements t)) in *. set (B := filter (fun n => k <= region_key m n) (elements t)) in *.
  assert (List.length (elements t) = List.length A + List.length B)%nat as Hlen by (rewrite Hsp; apply length_app).
  destruct B as [|b B'] eqn:HB; cbn [first_of] in *.
  - change (0 =? 0) with true. cbn iota. rewrite Hs2. cbn [mbind res_mbind]. rewrite (region_get_iter it2 _ Hat2).
    rewrite app_nil_r in Hsp. unfold last_of in *. destruct (rev A) as [|y A'] eqn:HrA.
    + assert (elements t = []) as Hnil by (rewrite Hsp, <- (rev_involutive A), HrA; done).
      assert (forall v, free_range m t v len) as Hall by (intros v x Hx; rewrite Hnil in Hx; by apply elem_of_nil in Hx).
      pose proof (alloc_spec minv k len 0 VM_STACK_TOP Hl ltac:(done) ltac:(done)) as Ha. change (region_end 0 m) with 0.
      destruct (ALLOC_REGION _ _ _ _ _) as [v|].
      * left. exists v. split; [done|]. split; [unfold FREE_REGION_FAILED, VM_STACK_TOP in *; lia|]. split; [lia|]. split; [lia|done].
      * right. destruct fuel as [|fuel]; [lia|]. cbn [free_loop]. rewrite (region_get_iter it2 None Hat2). split; [done|].
        intros v Hv1 Hv2 _. apply (Ha v); lia.
    + assert (elements t = rev A' ++ y :: []) as He by (rewrite Hsp, <- (rev_involutive A), HrA; done).
      assert (y ∈ elements t) as Hy by (rewrite He; set_solver). destruct (end_of_range y Hy) as (Hend & Hlow & Hy1 & Hy2).
      unfold region_end. rewrite (proj2 (Z.eqb_neq y 0)) by (by apply region_nonzero). rewrite Hend. unfold ARCH_PG_SIZE in Hlow.
      pose proof (alloc_spec minv k len (end_of m y) VM_STACK_TOP Hl ltac:(lia) ltac:(done)) as Ha.
      destruct (ALLOC_REGION _ _ _ _ _) as [v|].
      * left. exists v. split; [done|]. split; [unfold FREE_REGION_FAILED, VM_STACK_TOP in *; lia|]. split; [lia|]. split; [lia|].
        intros x Hx. right. rewrite He in Hx. apply elem_of_app in Hx as [Hx|[->|Hx]%elem_of_cons]; [|lia|by apply elem_of_nil in Hx].
        pose proof (proj1 (region_order _ y [] x He) Hx). lia.
      * destruct (free_loop_spec fuel minv k len it2 (rev A') y [] Hl Hat2) as [(v & -> & Hnf & _ & Hv1 & Hv2 & _ & Hfree)|[-> Hno]].
        { rewrite He, length_app in Hf. cbn in Hf. lia. }
        { left. by exists v. }
        right. split; [done|]. intros v Hv1 Hv2 Hfree. destruct (Hfree y Hy) as [Hv3|Hv3].
        { apply (Hno v); try lia. done. }
        apply (Ha v); lia.
  - rewrite (proj2 (Z.eqb_neq b 0)) by (apply region_nonzero; rewrite Hsp; set_solver).
    assert (k <= region_key m b) as Hb.
    { assert (b ∈ filter (fun n => k <= region_key m n) (elements t)) as [? _]%list_elem_of_filter; [|done]. fold B. rewrite HB. set_solver. }
    destruct (free_loop_spec fuel minv k len it1 A b B' Hl Hat1) as [(v & -> & Hnf & _ & Hv1 & Hv2 & _ & Hfree)|[-> Hno]].
    { cbn in Hlen. lia. }
    { left. by exists v. }
    right. split; [done|]. intros v Hv1 Hv2 Hfree. apply (Hno v); try lia. done.
Qed.

(** ** Free ranges start at pages *)

Lemma try_alloc_aligned minv maxv len start end_ v :
  maxv mod ARCH_PG_SIZE = 0 -> len mod ARCH_PG_SIZE = 0 -> end_ mod ARCH_PG_SIZE = 0 -> TRY_ALLOC_REGION minv maxv len start end_ = Some v ->
  v mod ARCH_PG_SIZE = 0.
Proof.
  intros Hm Hl He. unfold TRY_ALLOC_REGION. destruct (_ && _); [|done]. injection 1 as <-.
  destruct (end_ <? maxv); rewrite Zminus_mod, ?Hm, ?He, Hl; done.
Qed.

Lemma alloc_aligned minv maxv len start end_ v :
  maxv mod ARCH_PG_SIZE = 0 -> len mod ARCH_PG_SIZE = 0 -> end_ mod ARCH_PG_SIZE = 0 -> ALLOC_REGION minv maxv len start end_ = Some v ->
  v mod ARCH_PG_SIZE = 0.
Proof.
  intros Hm Hl He. unfold ALLOC_REGION. destruct (TRY_ALLOC_REGION _ _ _ (addu _ _) _) as [w|] eqn:Hw; [|by apply try_alloc_aligned].
  injection 1 as <-. eapply try_alloc_aligned; [exact Hm|exact Hl| |exact Hw]. unfold subu, wrapu.
  rewrite (Z.mod_mod_divide _ (2 ^ 64) ARCH_PG_SIZE) by (by exists (2 ^ 52)). by rewrite Zminus_mod, He.
Qed.

Lemma free_loop_aligned fuel minv maxv len it o v :
  maxv mod ARCH_PG_SIZE = 0 -> len mod ARCH_PG_SIZE = 0 -> iter_at it t o -> free_loop fuel minv maxv len it m = Ret v ->
  v = FREE_REGION_FAILED \/ v mod ARCH_PG_SIZE = 0.
Proof.
  intros Hm Hl. revert it o. induction fuel as [|fuel IH]; intros it o Hat; [done|]. cbn [free_loop]. rewrite (region_get_iter it _ Hat).
  destruct o as [[[L n] R]|]; [|injection 1 as <-; by left]. pose proof (iter_at_elements _ _ _ _ _ Hat) as He.
  assert (n ∈ elements t) as Hn by (rewrite He; set_solver). rewrite (proj2 (Z.eqb_neq n 0)) by by apply region_nonzero.
  destruct (dec_iter_at (avl m) (mem_avl m) t (mm_rep _ _ Hok) Hdepth region_NoDup it L n R Hat) as (it' & Hdec & Hat').
  unfold region_avl_dec_iter. rewrite Hdec. cbn [mbind res_mbind]. destruct (ALLOC_REGION _ _ _ _ _) as [w|] eqn:Hw.
  - injection 1 as <-. right. eapply alloc_aligned; [exact Hm|exact Hl| |exact Hw]. by apply (mm_regions _ _ Hok).
  - by apply (IH it' (last_of L (n :: R))).
Qed.

Lemma find_free_aligned fuel it minv maxv len v :
  maxv mod ARCH_PG_SIZE = 0 -> minv mod ARCH_PG_SIZE = 0 -> len mod ARCH_PG_SIZE = 0 ->
  region_find_free_region fuel it minv maxv len m = Ret v -> v = FREE_REGION_FAILED \/ v mod ARCH_PG_SIZE = 0.
Proof.
  intros Hmax Hmin Hl. unfold region_find_free_region. set (k := if maxv =? 0 then _ else maxv). assert (k mod ARCH_PG_SIZE = 0) as Hk.
  { unfold k. destruct (maxv =? 0); [|done]. unfold addu, wrapu.
    rewrite (Z.mod_mod_divide _ (2 ^ 64) ARCH_PG_SIZE) by (by exists (2 ^ 52)). by rewrite Zplus_mod, Hmin, Hl. }
  destruct (_ <? _); [injection 1 as <-; by left|]. destruct (start_ge it k) as (it1 & -> & Hat1). cbn [mbind res_mbind].
  destruct (region_avl_get_iter it1 m =? 0); [|by eapply free_loop_aligned]. destruct (start_lt it1 k) as (it2 & -> & Hat2). cbn [mbind res_mbind].
  destruct (ALLOC_REGION _ _ _ _ _) as [w|] eqn:Hw; [|by eapply free_loop_aligned]. injection 1 as <-. right. exact (alloc_aligned _ _ _ _ VM_STACK_TOP _ Hk Hl eq_refl Hw).
Qed.
End free.
