(* ===== verification/RegionPages.v ===== *)
(** * Pages of regions

    Lemmas on [Region]: what the loops over the pages of a region do, and regions
    that enter and leave the tree of an address space. *)

From stdpp Require Import sorting.
From S2P Require Import Prelude Avl AvlTree AvlProps AvlIter Region RegionProps.

Lemma upd_region_eq vr f m : regions (upd_region vr f m) vr = f (regions m vr).
Proof. change (alter f vr (regions m) vr = f (regions m vr)). apply fn_lookup_alter. Qed.

Lemma upd_region_ne vr f m x : x <> vr -> regions (upd_region vr f m) x = regions m x.
Proof. intros Hx. change (alter f vr (regions m) x = regions m x). by apply fn_lookup_alter_ne. Qed.

(** ** Pages *)

(** Two states with the same tree, and with the same regions except for [vr] *)
Record only_pages (vr : Z) (m m' : mm_struct) : Prop := {
  op_avl : avl m' = avl m;
  op_root : mem_avl m' = mem_avl m;
  op_list : mem_regions m' = mem_regions m;
  op_unmapped : unmapped m' = unmapped m;
  op_others : forall x, x <> vr -> regions m' x = regions m x
}.

(** The same region with the pages [f] *)
Record has_pages (f : Z -> option phys_region) (r r' : vir_region) : Prop := {
  hp_addr : vir_addr r' = vir_addr r;
  hp_length : length r' = length r;
  hp_flags : flags r' = flags r;
  hp_rops : rops r' = rops r;
  hp_pages : forall i, phys_regions r' i = f i
}.

Lemma only_pages_refl vr m : only_pages vr m m.
Proof. done. Qed.

Lemma only_pages_trans vr m1 m2 m3 : only_pages vr m1 m2 -> only_pages vr m2 m3 -> only_pages vr m1 m3.
Proof. intros [] []. split; try congruence. intros x Hx. rewrite op_others1 by done. by apply op_others0. Qed.

(** The slots of a region have the right offsets. *)
Definition slots_ok (r : vir_region) : Prop :=
  forall i p, phys_regions r i = Some p -> 0 <= i < length r / ARCH_PG_SIZE /\ offset p = i * ARCH_PG_SIZE.

Lemma slot_of i : phys_slot (i * ARCH_PG_SIZE) = Ret i.
Proof.
  unfold phys_slot. rewrite Z.mod_mul by done. change (negb (0 =? 0)) with false. cbn iota. by rewrite Z.div_mul by done.
Qed.

Lemma slot_below r i : length r mod ARCH_PG_SIZE = 0 -> i < length r / ARCH_PG_SIZE <-> i * ARCH_PG_SIZE < length r.
Proof. intros Hm. unfold ARCH_PG_SIZE in *. pose proof (Z.div_mod (length r) 4096 ltac:(lia)). lia. Qed.

Lemma page_get vr i m :
  slots_ok (regions m vr) -> i * ARCH_PG_SIZE < length (regions m vr) ->
  phys_region_get vr (i * ARCH_PG_SIZE) m = Ret (phys_regions (regions m vr) i).
Proof.
  intros Hs Hi. unfold phys_region_get. rewrite (proj2 (Z.leb_gt _ _)) by done. rewrite slot_of. cbn [mbind res_mbind].
  destruct (phys_regions (regions m vr) i) as [p|] eqn:Hp; [|done]. destruct (Hs i p Hp) as [_ ->]. by rewrite Z.eqb_refl.
Qed.

Lemma page_offsets_eq a n : 0 <= n -> page_offsets (a * ARCH_PG_SIZE) (n * ARCH_PG_SIZE) = (fun j => j * ARCH_PG_SIZE) <$> seqZ a n.
Proof.
  intros Hn. unfold page_offsets, ARCH_PG_SIZE. replace ((n * 4096 + 4096 - 1) / 4096) with n.
  - replace (seqZ a n) with (Z.add a <$> seqZ 0 n) by (rewrite fmap_add_seqZ; f_equal; lia). rewrite <- list_fmap_compose.
    apply list_fmap_ext. intros k x _. cbn. lia.
  - replace (n * 4096 + 4096 - 1) with (4095 + n * 4096) by lia. rewrite Z.div_add by lia. done.
Qed.

Definition between (a b i : Z) : bool := (a <=? i) && (i <? b).

Lemma between_S a n i : between a (a + Z.of_nat (S n)) i = (i =? a) || between (Z.succ a) (Z.succ a + Z.of_nat n) i.
Proof.
  unfold between. destruct (Z.eqb_spec i a), (Z.leb_spec a i), (Z.leb_spec (Z.succ a) i), (Z.ltb_spec i (a + Z.of_nat (S n))),
    (Z.ltb_spec i (Z.succ a + Z.of_nat n)); done || lia.
Qed.

Lemma between_self a n : between (Z.succ a) n a = false.
Proof. unfold between. by rewrite (proj2 (Z.leb_gt _ _)) by lia. Qed.

Lemma between_empty a i : between a (a + Z.of_nat 0) i = false.
Proof. unfold between. destruct (Z.leb_spec a i), (Z.ltb_spec i (a + Z.of_nat 0)); done || lia. Qed.

Lemma subfree_loop_spec vr start end_ n a m :
  slots_ok (regions m vr) -> length (regions m vr) mod ARCH_PG_SIZE = 0 ->
  start <= a * ARCH_PG_SIZE -> (a + Z.of_nat n) * ARCH_PG_SIZE <= end_ -> end_ <= length (regions m vr) ->
  exists m', subfree_loop vr start end_ ((fun j => j * ARCH_PG_SIZE) <$> seqZ a (Z.of_nat n)) m = Ret m' /\ only_pages vr m m' /\
    has_pages (fun i => if between a (a + Z.of_nat n) i then None else phys_regions (regions m vr) i) (regions m vr) (regions m' vr).
Proof.
  revert a m. induction n as [|n IH]; intros a m Hs Hm Ha Hb He.
  - exists m. split; [done|]. split; [done|]. split; try done. intros i. by rewrite between_empty.
  - rewrite seqZ_cons by lia. rewrite fmap_cons. cbn [subfree_loop]. replace (Z.pred (Z.of_nat (S n))) with (Z.of_nat n) by lia.
    unfold ARCH_PG_SIZE in Ha, Hb. rewrite page_get by (done || (unfold ARCH_PG_SIZE; lia)). cbn [mbind res_mbind].
    destruct (phys_regions (regions m vr) a) as [p|] eqn:Hp.
    + destruct (Hs a p Hp) as [Hr Ho]. rewrite Ho. unfold ARCH_PG_SIZE at 1 2.
      rewrite (proj2 (Z.ltb_ge _ _)), (proj2 (Z.leb_gt _ _)) by lia. cbn [orb]. unfold phys_region_set.
      rewrite (proj2 (Z.leb_gt _ _)) by (unfold ARCH_PG_SIZE; lia). rewrite slot_of. cbn [mbind res_mbind]. rewrite Hp.
      cbn [mbind res_mbind]. set (m1 := _ <| vm_total ::= _ |>).
      assert (regions m1 vr = (regions m vr) <| phys_regions ::= <[a := None]> |>) as Hr1 by exact (upd_region_eq vr _ m).
      assert (forall i, phys_regions (regions m1 vr) i = if i =? a then None else phys_regions (regions m vr) i) as Hpg.
      { intros i. rewrite Hr1. change (<[a := None]> (phys_regions (regions m vr)) i = if i =? a then None else phys_regions (regions m vr) i).
        destruct (Z.eqb_spec i a) as [->|Hne]; [apply fn_lookup_insert|by apply fn_lookup_insert_ne]. }
      assert (only_pages vr m m1) as Hop1.
      { split; try done. intros x Hx. exact (upd_region_ne vr _ m x Hx). }
      assert (length (regions m1 vr) = length (regions m vr)) as Hl1 by (by rewrite Hr1).
      destruct (IH (Z.succ a) m1) as (m' & Hl & Hop & [H1 H2 H3 H4 Hpages]).
      * intros i q. rewrite Hpg, Hl1. destruct (i =? a); [done|]. apply Hs.
      * by rewrite Hl1.
      * unfold ARCH_PG_SIZE. lia.
      * unfold ARCH_PG_SIZE. lia.
      * by rewrite Hl1.
      * exists m'. split; [done|]. split; [by eapply only_pages_trans|]. rewrite Hr1 in H1, H2, H3, H4.
        split; try done. intros i. rewrite Hpages, Hpg, between_S.
        destruct (Z.eqb_spec i a) as [->|Hia]; [by rewrite between_self|done].
    + destruct (IH (Z.succ a) m Hs Hm) as (m' & Hl & Hop & [H1 H2 H3 H4 Hpages]); [unfold ARCH_PG_SIZE; lia..|done|].
      exists m'. split; [done|]. split; [done|]. split; try done. intros i. rewrite Hpages, between_S.
      destruct (Z.eqb_spec i a) as [->|Hia]; [by rewrite between_self|done].
Qed.

Lemma subfree_spec vr a n m :
  slots_ok (regions m vr) -> length (regions m vr) mod ARCH_PG_SIZE = 0 -> length (regions m vr) < 2 ^ 64 ->
  0 <= a -> 0 <= n -> (a + n) * ARCH_PG_SIZE <= length (regions m vr) ->
  exists m', region_subfree vr (a * ARCH_PG_SIZE) (n * ARCH_PG_SIZE) m = Ret m' /\ only_pages vr m m' /\
    has_pages (fun i => if between a (a + n) i then None else phys_regions (regions m vr) i) (regions m vr) (regions m' vr).
Proof.
  intros Hs Hm Hlt Ha Hn Hle. unfold region_subfree. rewrite Z.mod_mul by done. change (negb (0 =? 0)) with false. cbn iota.
  rewrite page_offsets_eq by done. unfold addu. rewrite wrapu_small by (unfold ARCH_PG_SIZE in *; lia).
  replace (seqZ a n) with (seqZ a (Z.of_nat (Z.to_nat n))) by (f_equal; lia).
  destruct (subfree_loop_spec vr (a * ARCH_PG_SIZE) (a * ARCH_PG_SIZE + n * ARCH_PG_SIZE) (Z.to_nat n) a m) as (m' & He & Hop & Hp);
    [done|done|lia|unfold ARCH_PG_SIZE; lia|unfold ARCH_PG_SIZE in *; lia|]. exists m'. split; [done|]. split; [done|].
  rewrite Z2Nat.id in Hp by done. done.
Qed.

(** A page of [new] is set. *)
Lemma page_set vr i p m :
  i * ARCH_PG_SIZE < length (regions m vr) -> phys_regions (regions m vr) i = None ->
  exists m', phys_region_set vr (i * ARCH_PG_SIZE) (Some (mk_phys p (i * ARCH_PG_SIZE))) m = Ret m' /\ only_pages vr m m' /\
    has_pages (fun j => if j =? i then Some (mk_phys p (i * ARCH_PG_SIZE)) else phys_regions (regions m vr) j)
      (regions m vr) (regions m' vr).
Proof.
  intros Hi Hn. unfold phys_region_set. rewrite (proj2 (Z.leb_gt _ _)) by done. rewrite slot_of. cbn [mbind res_mbind]. rewrite Hn.
  cbn [offset]. rewrite Z.eqb_refl. eexists. split; [reflexivity|]. set (m1 := _ <| vm_total ::= _ |>).
  pose proof (upd_region_eq vr (fun r => r <| phys_regions ::= <[i := Some (mk_phys p (i * ARCH_PG_SIZE))]> |>) m) as Hr1.
  assert (regions m1 vr = (regions m vr) <| phys_regions ::= <[i := Some (mk_phys p (i * ARCH_PG_SIZE))]> |>) as Hr by exact Hr1.
  split; [split; try done; intros x Hx; exact (upd_region_ne vr _ m x Hx)|]. rewrite Hr. split; try done. intros j.
  change (<[i := Some (mk_phys p (i * ARCH_PG_SIZE))]> (phys_regions (regions m vr)) j =
          if j =? i then Some (mk_phys p (i * ARCH_PG_SIZE)) else phys_regions (regions m vr) j).
  destruct (Z.eqb_spec j i) as [->|Hne]; [apply fn_lookup_insert|by apply fn_lookup_insert_ne].
Qed.

Definition referenced (i : Z) (o : option phys_region) : option phys_region := (fun p => mk_phys (page p) (i * ARCH_PG_SIZE)) <$> o.

Lemma reference_loop_spec slab vr new k n a m :
  vr <> new -> slots_ok (regions m vr) -> slots_ok (regions m new) ->
  (a + Z.of_nat n) * ARCH_PG_SIZE <= length (regions m new) -> (k + a + Z.of_nat n) * ARCH_PG_SIZE <= length (regions m vr) ->
  0 <= a -> length (regions m new) mod ARCH_PG_SIZE = 0 -> (forall i, a <= i -> phys_regions (regions m new) i = None) ->
  exists m' ok f, reference_loop slab vr new (k * ARCH_PG_SIZE) ((fun j => j * ARCH_PG_SIZE) <$> seqZ a (Z.of_nat n)) m = Ret (m', ok) /\
    only_pages new m m' /\ has_pages f (regions m new) (regions m' new) /\ slots_ok (regions m' new) /\
    (ok = true -> forall i, f i = if between a (a + Z.of_nat n) i then referenced i (phys_regions (regions m vr) (k + i))
                                 else phys_regions (regions m new) i).
Proof.
  intros Hne. revert a m. induction n as [|n IH]; intros a m Hsv Hsn Hln Hlv Ha Hm Hnone.
  - exists m, true, (phys_regions (regions m new)). split; [done|]. split; [done|]. split; [done|]. split; [done|]. intros _ i.
    by rewrite between_empty.
  - rewrite seqZ_cons by lia. rewrite fmap_cons. cbn [reference_loop]. replace (Z.pred (Z.of_nat (S n))) with (Z.of_nat n) by lia.
    replace (k * ARCH_PG_SIZE + a * ARCH_PG_SIZE) with ((k + a) * ARCH_PG_SIZE) by lia.
    rewrite page_get by (done || (unfold ARCH_PG_SIZE in *; lia)). cbn [mbind res_mbind].
    destruct (phys_regions (regions m vr) (k + a)) as [p|] eqn:Hp.
    + destruct (negb (slab (a * ARCH_PG_SIZE))).
      { exists m, false, (phys_regions (regions m new)). split; [done|]. split; [done|]. split; [done|]. split; [done|]. intros [=]. }
      destruct (page_set new a (page p) m) as (m1 & -> & Hop1 & Hpg1); [unfold ARCH_PG_SIZE in *; lia|apply Hnone; lia|].
      cbn [mbind res_mbind]. pose proof Hpg1 as [H1 H2 H3 H4 Hpages1].
      assert (regions m1 vr = regions m vr) as Hvr by (by apply Hop1).
      destruct (IH (Z.succ a) m1) as (m' & ok & f & He & Hop & [H5 H6 H7 H8 Hpages] & Hslots & Hf).
      * by rewrite Hvr.
      * intros i q. rewrite Hpages1, H2. destruct (Z.eqb_spec i a) as [->|?]; [|apply Hsn]. intros [= <-]. split; [|done].
        split; [done|]. apply slot_below; [done|]. unfold ARCH_PG_SIZE in *. lia.
      * rewrite H2. unfold ARCH_PG_SIZE in *. lia.
      * rewrite Hvr. unfold ARCH_PG_SIZE in *. lia.
      * lia.
      * by rewrite H2.
      * intros i Hi. rewrite Hpages1. rewrite (proj2 (Z.eqb_neq _ _)) by lia. apply Hnone. lia.
      * exists m', ok, f. split; [done|]. split; [by eapply only_pages_trans|]. split; [split; congruence|]. split; [done|].
        intros Hok i. rewrite (Hf Hok i), Hvr, Hpages1, between_S.
        destruct (Z.eqb_spec i a) as [->|Hia]; [by rewrite between_self, Hp|done].
    + destruct (IH (Z.succ a) m Hsv Hsn) as (m' & ok & f & He & Hop & Hpg & Hslots & Hf);
        [unfold ARCH_PG_SIZE in *; lia|unfold ARCH_PG_SIZE in *; lia|lia|done|intros i Hi; apply Hnone; lia|].
      exists m', ok, f. split; [done|]. split; [done|]. split; [done|]. split; [done|]. intros Hok i. rewrite (Hf Hok i), between_S.
      destruct (Z.eqb_spec i a) as [->|Hia]; [rewrite between_self, Hp; apply Hnone; lia|done].
Qed.

Lemma shift_pages_spec vr c n a m :
  (forall i p, a <= i -> phys_regions (regions m vr) i = Some p -> offset p = i * ARCH_PG_SIZE) ->
  (a + Z.of_nat n) * ARCH_PG_SIZE <= length (regions m vr) -> c <= a ->
  exists m', shift_loop vr (c * ARCH_PG_SIZE) ((fun j => j * ARCH_PG_SIZE) <$> seqZ a (Z.of_nat n)) m = Ret m' /\ only_pages vr m m' /\
    has_pages (fun i => if between a (a + Z.of_nat n) i then referenced (i - c) (phys_regions (regions m vr) i)
                        else phys_regions (regions m vr) i) (regions m vr) (regions m' vr).
Proof.
  revert a m. induction n as [|n IH]; intros a m Hs Hl Hc.
  - exists m. split; [done|]. split; [done|]. split; try done. intros i. by rewrite between_empty.
  - rewrite seqZ_cons by lia. rewrite fmap_cons. cbn [shift_loop]. replace (Z.pred (Z.of_nat (S n))) with (Z.of_nat n) by lia.
    unfold phys_region_get. rewrite (proj2 (Z.leb_gt _ _)) by (unfold ARCH_PG_SIZE in *; lia). rewrite slot_of. cbn [mbind res_mbind].
    destruct (phys_regions (regions m vr) a) as [p|] eqn:Hp.
    + rewrite (Hs a p ltac:(lia) Hp), Z.eqb_refl. cbn [mbind res_mbind]. rewrite (Hs a p ltac:(lia) Hp), (proj2 (Z.ltb_ge _ _)) by (unfold ARCH_PG_SIZE; lia).
      rewrite Z.div_mul by done. set (q := mk_phys _ _). set (m1 := upd_region _ _ _).
      assert (regions m1 vr = (regions m vr) <| phys_regions ::= <[a := Some q]> |>) as Hr1 by exact (upd_region_eq vr _ m).
      assert (forall i, phys_regions (regions m1 vr) i = if i =? a then Some q else phys_regions (regions m vr) i) as Hpg.
      { intros i. rewrite Hr1. change (<[a := Some q]> (phys_regions (regions m vr)) i = if i =? a then Some q else phys_regions (regions m vr) i).
        destruct (Z.eqb_spec i a) as [->|Hne]; [apply fn_lookup_insert|by apply fn_lookup_insert_ne]. }
      destruct (IH (Z.succ a) m1) as (m' & He & Hop & [H1 H2 H3 H4 Hpages]).
      * intros i q' Hi. rewrite Hpg, (proj2 (Z.eqb_neq _ _)) by lia. apply Hs. lia.
      * rewrite Hr1. change ((Z.succ a + Z.of_nat n) * ARCH_PG_SIZE <= length (regions m vr)). unfold ARCH_PG_SIZE in *. lia.
      * lia.
      * exists m'. split; [done|]. split.
        { eapply only_pages_trans; [|exact Hop]. split; try done. intros x Hx. exact (upd_region_ne vr _ m x Hx). }
        rewrite Hr1 in H1, H2, H3, H4. split; try done. intros i. rewrite Hpages, Hpg, between_S. destruct (Z.eqb_spec i a) as [->|Hia]; [|done].
        rewrite between_self, Hp. unfold q, referenced. cbn [fmap option_fmap option_map]. do 2 f_equal. pose proof (Hs a p ltac:(lia) Hp). unfold ARCH_PG_SIZE in *. lia.
    + cbn [mbind res_mbind]. destruct (IH (Z.succ a) m) as (m' & He & Hop & [H1 H2 H3 H4 Hpages]);
        [intros i q Hi; apply Hs; lia|unfold ARCH_PG_SIZE in *; lia|lia|].
      exists m'. split; [done|]. split; [done|]. split; try done. intros i. rewrite Hpages, between_S.
      destruct (Z.eqb_spec i a) as [->|Hia]; [by rewrite between_self, Hp|done].
Qed.
