(* ===== verification/RegionUnmap.v ===== *)
(** * Unmapping

    Theorems on [Region]: what an address shows after regions are cut, split and
    taken away. *)

From stdpp Require Import sorting.
From S2P Require Import Prelude Avl AvlTree AvlProps AvlIter Region RegionProps RegionPages.

(** ** Regions that enter and leave the tree *)

Record tree_ok (m : mm_struct) (t : tree) : Prop := {
  to_rep : rep (avl m) (mem_avl m) t;
  to_sorted : sorted (region_key m) (elements t);
  to_list : mem_regions m ≡ₚ elements t
}.

Lemma mm_tree m t : mm_ok m t -> tree_ok m t.
Proof. by intros []. Qed.

Lemma tree_ok_ext m m' t :
  tree_ok m t -> avl m' = avl m -> mem_avl m' = mem_avl m -> mem_regions m' = mem_regions m ->
  (forall x, x ∈ elements t -> region_key m' x = region_key m x) -> tree_ok m' t.
Proof.
  intros [Hrep Hs Hl] Ha Hm Hr Hk. split; [by rewrite Ha, Hm| |by rewrite Hr]. by eapply sorted_ext; [exact Hs|].
Qed.

(** Another region is before or behind. *)
Lemma beside m t vr x :
  mm_ok m t -> vr ∈ elements t -> x ∈ elements t -> x <> vr -> end_of m x <= region_key m vr \/ end_of m vr <= region_key m x.
Proof.
  intros Hok Hv Hx Hne. destruct (Z.lt_trichotomy (region_key m x) (region_key m vr)) as [Hlt|[Heq|Hlt]].
  - left. by apply (mm_apart _ _ Hok).
  - pose proof (mm_sorted _ _ Hok) as Hs'. apply list_elem_of_split in Hv as (L & R & HLR). rewrite HLR in Hs', Hx.
    by destruct (sorted_keys_differ _ _ _ _ x Hs' Hx Hne).
  - right. by apply (mm_apart _ _ Hok).
Qed.

(** The regions are the same, and what is recorded of them *)
Definition same_regions (m m' : mm_struct) : Prop := regions m' = regions m /\ unmapped m' = unmapped m.

Lemma unlink_spec fuel vr m t :
  tree_ok m t -> vr ∈ elements t -> Z.of_nat (List.length (elements t)) < Z.of_nat fuel ->
  exists m' t', unlink_region fuel vr m = Ret m' /\ tree_ok m' t' /\ same_regions m m' /\
    (forall x, x ∈ elements t' <-> x ∈ elements t /\ x <> vr) /\
    Z.of_nat (List.length (elements t')) < Z.of_nat (List.length (elements t)) /\ ht t' <= ht t.
Proof.
  intros [Hrep Hs Hl] Hv Hf. pose proof (sorted_NoDup _ _ Hs) as Hnd. pose proof (ht_size t). unfold unlink_region, avl_erase.
  change (region_node_node_comp m) with (compare_keys (region_key m)).
  destruct (erase_recur_spec (region_key m) fuel vr (mem_avl m) t (avl m) Hrep Hnd ltac:(lia)) as (r & h & -> & Hrep' & _).
  cbn [mbind res_mbind]. eexists _, (del (region_key m) vr t). split; [reflexivity|].
  assert (elements (del (region_key m) vr t) = filter (fun x => x <> vr) (elements t)) as He.
  { rewrite elements_del_filter by done. apply list_filter_ext. intros x Hx. split; [by intros Hk ->|]. intros Hne Hk.
    apply list_elem_of_split in Hv as (L & R & HLR). rewrite HLR in Hs, Hx. by apply (sorted_keys_differ _ _ _ _ x Hs Hx Hne). }
  split; [split|split; [done|split; [|split]]].
  - done.
  - change (sorted (region_key m) (elements (del (region_key m) vr t))). rewrite He. by apply sorted_filter.
  - change (filter (fun x => x <> vr) (mem_regions m) ≡ₚ elements (del (region_key m) vr t)). by rewrite He, Hl.
  - intros x. rewrite He, list_elem_of_filter. tauto.
  - rewrite He. apply inj_lt. apply length_filter_lt with vr; [done|]. by intros [].
  - apply ht_del.
Qed.

Lemma link_spec fuel vr m t :
  tree_ok m t -> vr ∉ elements t -> vr <> 0 -> (forall x, x ∈ elements t -> region_key m x <> region_key m vr) ->
  Z.of_nat (List.length (elements t)) < Z.of_nat fuel ->
  exists m' t', link_region fuel vr m = Ret m' /\ tree_ok m' t' /\ same_regions m m' /\
    (forall x, x ∈ elements t' <-> x = vr \/ x ∈ elements t) /\
    Z.of_nat (List.length (elements t')) = Z.of_nat (List.length (elements t)) + 1 /\ ht t' <= ht t + 1.
Proof.
  intros [Hrep Hs Hl] Hv Hv0 Hk Hf. pose proof (sorted_NoDup _ _ Hs) as Hnd. pose proof (ht_size t). unfold link_region, avl_insert.
  change (region_node_node_comp m) with (compare_keys (region_key m)).
  destruct (insert_recur_spec (region_key m) fuel vr (mem_avl m) t (avl m) Hrep) as (r & h & -> & Hrep' & _);
    [by constructor|done|lia|]. cbn [mbind res_mbind]. eexists _, (ins (region_key m) vr t). split; [reflexivity|].
  split; [split|split; [done|split; [|split]]].
  - done.
  - change (sorted (region_key m) (elements (ins (region_key m) vr t))). rewrite elements_ins_place by done. apply sorted_place; [done|].
    by apply Forall_forall.
  - change (vr :: mem_regions m ≡ₚ elements (ins (region_key m) vr t)). by rewrite elements_ins, Hl.
  - intros x. rewrite elements_ins. apply elem_of_cons.
  - rewrite elements_ins. cbn. lia.
  - apply ht_ins.
Qed.

(** ** What an address shows *)

Definition in_range (start limit addr : Z) : bool := (start <=? addr) && (addr <? limit).

(** Nothing, or the page of a region, if it has one there *)
Definition shows (r : vir_region) (addr : Z) : option (option Z) :=
  if in_range (vir_addr r) (vir_addr r + length r) addr
  then Some (page <$> phys_regions r ((addr - vir_addr r) / ARCH_PG_SIZE)) else None.

Definition look (m : mm_struct) (t : tree) (vr addr : Z) : option (option Z) :=
  if decide (vr ∈ elements t) then shows (regions m vr) addr else None.

(** What the regions of an address space show *)
Definition view (m : mm_struct) (addr : Z) : option (option Z) :=
  match list_find (fun vr => is_Some (shows (regions m vr) addr)) (mem_regions m) with
  | Some (_, vr) => shows (regions m vr) addr
  | None => None
  end.

Lemma shows_in r addr o : shows r addr = Some o -> vir_addr r <= addr < vir_addr r + length r.
Proof. unfold shows, in_range. destruct (Z.leb_spec (vir_addr r) addr), (Z.ltb_spec addr (vir_addr r + length r)); cbn; done || lia. Qed.

Lemma view_spec m t addr o : mm_ok m t -> view m addr = Some o <-> exists vr, vr ∈ elements t /\ shows (regions m vr) addr = Some o.
Proof.
  intros Hok. unfold view. split.
  - destruct (list_find _ _) as [[i vr]|] eqn:Hf; [|done]. apply list_find_Some in Hf as (Hi & _). intros Ho. exists vr. split; [|done].
    rewrite <- (mm_list _ _ Hok). by eapply list_elem_of_lookup_2.
  - intros (vr & Hv & Ho). destruct (list_find _ _) as [[i vr']|] eqn:Hf.
    + apply list_find_Some in Hf as (Hi & [o' Ho'] & _). assert (vr' ∈ elements t) as Hv'.
      { rewrite <- (mm_list _ _ Hok). by eapply list_elem_of_lookup_2. }
      destruct (decide (vr' = vr)) as [->|Hne]; [done|]. exfalso. apply shows_in in Ho, Ho'.
      pose proof (beside m t vr vr' Hok Hv Hv' Hne). unfold end_of, region_key in *. lia.
    + apply list_find_None in Hf. rewrite (mm_list _ _ Hok) in Hf. rewrite Forall_forall in Hf. destruct (Hf vr Hv). by exists o.
Qed.

(** The regions of the new state are regions of the old one, or pieces of [vr]. *)
Lemma pieces_ok (piece : Z -> Prop) m t m' t' vr :
  mm_ok m t -> vr ∈ elements t -> tree_ok m' t' ->
  (forall x, x ∈ elements t' -> (x ∈ elements t /\ x <> vr /\ regions m' x = regions m x) \/ piece x) ->
  (forall x, piece x -> region_ok (regions m' x) /\ region_key m vr <= region_key m' x /\ end_of m' x <= end_of m vr) ->
  (forall x y, piece x -> piece y -> region_key m' x < region_key m' y -> end_of m' x <= region_key m' y) ->
  mm_ok m' t'.
Proof.
  intros Hok Hv [Hrep Hs Hl] Hold Hpiece Hapart. split; try done.
  - intros x Hx. destruct (Hold x Hx) as [(Hx1 & _ & ->)|Hp]; [by apply Hok|by apply Hpiece].
  - assert (forall x, x ∈ elements t -> x <> vr -> end_of m x <= region_key m vr \/ end_of m vr <= region_key m x) as Hside.
    { intros x. by apply beside. }
    assert (forall x, piece x -> region_key m' x < end_of m' x) as Hlen.
    { intros x Hp. destruct (Hpiece x Hp) as [[] _]. unfold region_key, end_of. lia. }
    intros x y Hx Hy Hlt. destruct (Hold x Hx) as [(Hx1 & Hx2 & Hx3)|Hpx], (Hold y Hy) as [(Hy1 & Hy2 & Hy3)|Hpy].
    + unfold end_of, region_key in *. rewrite Hx3, Hy3 in *. by apply (mm_apart _ _ Hok x y).
    + destruct (Hpiece y Hpy) as (_ & H1 & H2). specialize (Hlen y Hpy). destruct (Hside x Hx1 Hx2); unfold end_of, region_key in *; rewrite Hx3 in *;
        [lia|]. pose proof (mm_regions _ _ Hok x Hx1) as []. lia.
    + destruct (Hpiece x Hpx) as (_ & H1 & H2). specialize (Hlen x Hpx). pose proof (mm_regions _ _ Hok y Hy1) as [].
      destruct (Hside y Hy1 Hy2); unfold end_of, region_key in *; rewrite Hy3 in *; lia.
    + by apply Hapart.
Qed.

(** ** Cutting a region *)

(** The addresses from [start] to [limit] of region [vr] are taken away, if the
    answer is 0; the others show what they showed. *)
Record cut (m : mm_struct) (t : tree) (vr start limit : Z) (m' : mm_struct) (t' : tree) (ret : Z) : Prop := {
  c_ok : mm_ok m' t';
  c_member : forall x, x <> vr -> x ∈ elements t' <-> x ∈ elements t;
  c_same : forall x, x <> vr -> x ∈ elements t -> regions m' x = regions m x;
  c_done : ret = 0 -> forall addr, in_range start limit addr = true -> look m' t' vr addr = None;
  c_outside : forall addr, in_range start limit addr = false -> look m' t' vr addr = look m t vr addr;
  c_piece : vr ∈ elements t' -> region_key m vr <= region_key m' vr /\ end_of m' vr <= end_of m vr;
  c_size : Z.of_nat (List.length (elements t')) <= Z.of_nat (List.length (elements t));
  c_height : ht t' <= ht t + 1 /\ (end_of m vr <= limit -> ht t' <= ht t)
}.

Lemma pages_mm_ok vr f m m' t :
  mm_ok m t -> only_pages vr m m' -> has_pages f (regions m vr) (regions m' vr) ->
  (forall i p, f i = Some p -> 0 <= i < length (regions m vr) / ARCH_PG_SIZE /\ offset p = i * ARCH_PG_SIZE) -> mm_ok m' t.
Proof.
  intros [Hrep Hs Hr Ha Hl] [Pa Pr Pl _ Po] [Qa Ql _ _ Qp] Hf.
  assert (forall x, region_key m' x = region_key m x /\ length (regions m' x) = length (regions m x)) as Hk.
  { intros x. unfold region_key. destruct (decide (x = vr)) as [->|Hne]; [done|]. by rewrite Po. }
  split.
  - by rewrite Pa, Pr.
  - eapply sorted_ext; [exact Hs|]. intros n _. apply Hk.
  - intros x Hx. destruct (decide (x = vr)) as [->|Hne]; [|rewrite Po by done; by apply Hr].
    destruct (Hr vr Hx). split; rewrite ?Qa, ?Ql; try done. intros i p. rewrite Qp. apply Hf.
  - intros x y Hx Hy. unfold end_of. change (vir_addr (regions m' x)) with (region_key m' x). destruct (Hk x) as [-> ->], (Hk y) as [-> _].
    by apply Ha.
  - by rewrite Pl.
Qed.

Lemma unmapped_ok l m t : mm_ok m t -> mm_ok (m <| unmapped := l |>) t.
Proof. by intros []. Qed.

(** Region [r'] is the part of [r] from page [k] on. *)
Definition part_of (r r' : vir_region) (k : Z) : Prop :=
  vir_addr r' = vir_addr r + k * ARCH_PG_SIZE /\ 0 <= k /\ k * ARCH_PG_SIZE + length r' <= length r /\
  (forall i, 0 <= i < length r' / ARCH_PG_SIZE -> page <$> phys_regions r' i = page <$> phys_regions r (k + i)).

Lemma shows_part r r' k addr :
  part_of r r' k -> length r' mod ARCH_PG_SIZE = 0 -> in_range (vir_addr r') (vir_addr r' + length r') addr = true -> shows r' addr = shows r addr.
Proof.
  intros (Ha & Hk & Hl & Hp) Hm Hin. unfold shows. rewrite Hin. assert (in_range (vir_addr r) (vir_addr r + length r) addr = true) as ->.
  { unfold in_range, ARCH_PG_SIZE in *. rewrite andb_true_iff, Z.leb_le, Z.ltb_lt in *. lia. }
  f_equal. unfold in_range in Hin. rewrite andb_true_iff, Z.leb_le, Z.ltb_lt in Hin.
  replace ((addr - vir_addr r) / ARCH_PG_SIZE) with (k + (addr - vir_addr r') / ARCH_PG_SIZE).
  - apply Hp. split; [apply Z.div_pos; lia || done|]. unfold ARCH_PG_SIZE in *. pose proof (Z.div_mod (length r') 4096 ltac:(lia)).
    apply Z.div_lt_upper_bound; lia.
  - replace (addr - vir_addr r) with (k * ARCH_PG_SIZE + (addr - vir_addr r')) by lia. by rewrite Z.add_comm, Z.add_comm, Z.div_add_l.
Qed.

Lemma shows_nothing r addr : in_range (vir_addr r) (vir_addr r + length r) addr = false -> shows r addr = None.
Proof. unfold shows. by intros ->. Qed.

Section cutting.
Context (fuel : nat) (m : mm_struct) (t : tree) (vr a n : Z).
Hypothesis Hok : mm_ok m t.
Hypothesis Hv : vr ∈ elements t.
Hypothesis Hfuel : Z.of_nat (List.length (elements t)) < Z.of_nat fuel.
Hypothesis Ha : 0 <= a.
Hypothesis Hn : 0 < n.
Hypothesis Hle : (a + n) * ARCH_PG_SIZE <= length (regions m vr).

Let r := regions m vr.
Let start := vir_addr r + a * ARCH_PG_SIZE.
Let limit := start + n * ARCH_PG_SIZE.

Lemma cut_region_ok : region_ok r.
Proof. by apply (mm_regions _ _ Hok). Qed.

(** After the pages are given back *)
Lemma after_subfree :
  exists m1, region_subfree vr (a * ARCH_PG_SIZE) (n * ARCH_PG_SIZE) m = Ret m1 /\ mm_ok m1 t /\ only_pages vr m m1 /\
    has_pages (fun i => if between a (a + n) i then None else phys_regions r i) r (regions m1 vr).
Proof.
  destruct cut_region_ok as [H1 H2 H3 H4 H5 H6]. unfold VM_STACK_TOP, ARCH_PG_SIZE in H1, H3.
  destruct (subfree_spec vr a n m H6 H5) as (m1 & Hs & Hop & Hp); [unfold r in *; lia|done|lia|done|]. exists m1.
  split; [done|]. split; [|done]. eapply pages_mm_ok; [done|done|done|]. intros i p. cbv beta. destruct (between _ _ i); [done|]. apply H6.
Qed.

Lemma unmap_whole m1 :
  n * ARCH_PG_SIZE = length r -> mm_ok m1 t -> only_pages vr m m1 ->
  has_pages (fun i => if between a (a + n) i then None else phys_regions r i) r (regions m1 vr) ->
  exists m' t', (m ← unlink_region fuel vr m1; m ← region_free vr m; Ret (m, 0)) = Ret (m', 0) /\ cut m t vr start limit m' t' 0.
Proof.
  intros Hlen Hok1 Hop1 [H1 H2 H3 H4 Hp]. destruct cut_region_ok as [R1 R2 R3 R4 R5 R6]. unfold VM_STACK_TOP, ARCH_PG_SIZE in R1, R3.
  destruct (unlink_spec fuel vr m1 t (mm_tree _ _ Hok1) Hv Hfuel) as (m2 & t2 & -> & Ht2 & [Hr2 _] & Hin & Hsz & Hht). cbn [mbind res_mbind].
  unfold region_free. destruct (subfree_spec vr 0 (length r / ARCH_PG_SIZE) m2) as (m3 & Hs3 & Hop3 & Hp3).
  { rewrite Hr2. intros i p. rewrite Hp, H2. destruct (between _ _ i); [done|]. apply R6. }
  { by rewrite Hr2, H2. }
  { rewrite Hr2, H2. lia. }
  { done. } { apply Z.div_pos; lia || done. }
  { rewrite Hr2, H2. rewrite <- Hlen, Z.div_mul by done. lia. }
  change (0 * ARCH_PG_SIZE) with 0 in Hs3. rewrite Hr2, H2. rewrite <- Hlen, Z.div_mul in Hs3 by done. rewrite <- Hlen, Hs3.
  cbn [mbind res_mbind]. exists m3, t2. split; [done|]. destruct Hop3. split.
  - assert (tree_ok m3 t2) as Ht3.
    { apply (tree_ok_ext m2); try done. intros x Hx. unfold region_key. rewrite op_others; [done|]. by apply Hin in Hx as [_ ?]. }
    apply (pieces_ok (fun _ => False) m t m3 t2 vr Hok Hv Ht3); try done. intros x [Hx Hne]%Hin. left. split; [done|]. split; [done|].
    rewrite op_others by done. rewrite Hr2. by apply Hop1.
  - intros x Hx. rewrite Hin. tauto.
  - intros x Hx Hxt. rewrite op_others by done. rewrite Hr2. by apply Hop1.
  - intros _ addr _. unfold look. rewrite decide_False; [done|]. intros [_ ?]%Hin. done.
  - intros addr Hout. unfold look. rewrite decide_False by (intros [_ ?]%Hin; done). rewrite decide_True by done. unfold shows.
    destruct (in_range (vir_addr (regions m vr)) _ addr) eqn:Hi; [|done]. unfold in_range, start, limit in *. fold r in Hi.
    unfold ARCH_PG_SIZE in *. unfold r in *. assert (a = 0) as Ha0 by lia. rewrite Ha0 in Hout.
    rewrite andb_false_iff, Z.leb_gt, Z.ltb_ge in Hout. rewrite andb_true_iff, Z.leb_le, Z.ltb_lt in Hi. lia.
  - by intros [_ ?]%Hin.
  - lia.
  - lia.
Qed.

(** One end of the region is left. *)
Lemma cut_part m' t' k :
  tree_ok m' t' -> (forall x, x ∈ elements t' <-> x ∈ elements t) -> (forall x, x <> vr -> x ∈ elements t -> regions m' x = regions m x) ->
  region_ok (regions m' vr) -> part_of r (regions m' vr) k ->
  (a = 0 /\ k = n /\ length (regions m' vr) = length r - n * ARCH_PG_SIZE) \/
    (k = 0 /\ (a + n) * ARCH_PG_SIZE = length r /\ length (regions m' vr) = a * ARCH_PG_SIZE) ->
  Z.of_nat (List.length (elements t')) <= Z.of_nat (List.length (elements t)) ->
  ht t' <= ht t + 1 /\ (end_of m vr <= limit -> ht t' <= ht t) -> cut m t vr start limit m' t' 0.
Proof.
  intros Ht Hin Hsame Hr Hpart Hcase Hsz Hht. pose proof Hpart as (P1 & P2 & P3 & _).
  assert (forall addr, in_range start limit addr = in_range (vir_addr r) (vir_addr r + length r) addr && negb (in_range (vir_addr (regions m' vr)) (vir_addr (regions m' vr) + length (regions m' vr)) addr)) as Hrange.
  { intros addr. unfold in_range, start, limit, ARCH_PG_SIZE in *. fold r in Hle. apply eq_true_iff_eq. rewrite !andb_true_iff, negb_true_iff, andb_false_iff, !Z.leb_le, !Z.ltb_lt, Z.leb_gt, Z.ltb_ge. rewrite P1. lia. }
  split; try done.
  - apply (pieces_ok (fun x => x = vr) m t m' t' vr Hok Hv Ht).
    + intros x Hx%Hin. destruct (decide (x = vr)); [by right|]. left. auto.
    + intros x ->. split; [done|]. unfold end_of, region_key. fold r. rewrite P1. unfold ARCH_PG_SIZE in *. lia.
    + intros x y -> ->. lia.
  - intros _ addr Ha'. unfold look. rewrite decide_True by by apply Hin. apply shows_nothing. rewrite Hrange in Ha'.
    by apply andb_true_iff in Ha' as [_ ->%negb_true_iff].
  - intros addr Ha'. unfold look. rewrite !decide_True by (done || by apply Hin). fold r. rewrite Hrange in Ha'.
    destruct (in_range (vir_addr (regions m' vr)) _ addr) eqn:Hi.
    + apply (shows_part r _ k); [done|apply Hr|done].
    + rewrite shows_nothing by done. symmetry. apply shows_nothing. cbn [negb] in Ha'. by rewrite andb_true_r in Ha'.
  - intros _. unfold end_of, region_key. fold r. rewrite P1. unfold ARCH_PG_SIZE in *. lia.
Qed.

(** The array of pages of the part that is left when the low end goes *)
Lemma shifted_part r' :
  a = 0 -> n * ARCH_PG_SIZE < length r -> vir_addr r' = vir_addr r + n * ARCH_PG_SIZE -> length r' = length r - n * ARCH_PG_SIZE ->
  (forall i, phys_regions r' i = moved n (length r / ARCH_PG_SIZE - n) (fun i => if between n (length r / ARCH_PG_SIZE) i
     then referenced (i - n) (if between a (a + n) i then None else phys_regions r i) else if between a (a + n) i then None else phys_regions r i) i) ->
  region_ok r' /\ part_of r r' n.
Proof.
  intros Ha0 Hlt Hva Hlen Hp. destruct cut_region_ok as [R1 R2 R3 R4 R5 R6].
  assert (forall i, phys_regions r' i = if between 0 (length r / ARCH_PG_SIZE - n) i then referenced i (phys_regions r (n + i)) else None) as Hp'.
  { intros i. rewrite Hp. unfold moved. fold (between 0 (length r / ARCH_PG_SIZE - n) i).
    destruct (between 0 (length r / ARCH_PG_SIZE - n) i) eqn:Hb; [|done]. unfold between in *.
    apply andb_true_iff in Hb as [Hb1%Z.leb_le Hb2%Z.ltb_lt]. rewrite (proj2 (Z.leb_le n (n + i))), (proj2 (Z.ltb_lt (n + i) _)) by lia.
    rewrite (proj2 (Z.ltb_ge (n + i) (a + n))) by lia. rewrite andb_false_r. cbn [andb]. by replace (n + i - n) with i by lia. }
  assert (length r' / ARCH_PG_SIZE = length r / ARCH_PG_SIZE - n) as Hd.
  { rewrite Hlen. replace (length r - n * ARCH_PG_SIZE) with (length r + (- n) * ARCH_PG_SIZE) by lia. by rewrite Z.div_add. }
  split.
  - split; try (unfold ARCH_PG_SIZE in *; lia).
    + rewrite Hva, Z.mod_add by done. done.
    + rewrite Hlen. replace (length r - n * ARCH_PG_SIZE) with (length r + (- n) * ARCH_PG_SIZE) by lia. by rewrite Z.mod_add.
    + intros i p. rewrite Hp', Hd. destruct (between 0 _ i) eqn:Hb; [|done]. unfold between in Hb.
      apply andb_true_iff in Hb as [Hb1%Z.leb_le Hb2%Z.ltb_lt]. unfold referenced. intros (q & _ & ->)%fmap_Some. cbn [offset]. lia.
  - split; [done|]. split; [lia|]. split; [lia|]. intros i Hi. rewrite Hp'. unfold between.
    rewrite (proj2 (Z.leb_le 0 i)), (proj2 (Z.ltb_lt i _)) by lia. cbn [andb]. unfold referenced. rewrite <- option_fmap_compose. done.
Qed.

(** The region moves to its new address in the tree. *)
Lemma relink_low m1 :
  n * ARCH_PG_SIZE < length r -> mm_ok m1 t -> only_pages vr m m1 -> vir_addr (regions m1 vr) = vir_addr r ->
  exists m2 m3 t3, unlink_region fuel vr m1 = Ret m2 /\ regions m2 = regions m1 /\
    link_region fuel vr (upd_region vr (fun r => r <| vir_addr ::= fun x => addu x (n * ARCH_PG_SIZE) |>) m2) = Ret m3 /\
    tree_ok m3 t3 /\ (forall x, x ∈ elements t3 <-> x ∈ elements t) /\
    Z.of_nat (List.length (elements t3)) <= Z.of_nat (List.length (elements t)) /\ ht t3 <= ht t + 1 /\
    regions m3 vr = (regions m1 vr) <| vir_addr := vir_addr r + n * ARCH_PG_SIZE |> /\ (forall x, x <> vr -> regions m3 x = regions m1 x).
Proof.
  intros Hlt Hok1 [_ _ _ _ Ho] H1. destruct cut_region_ok as [R1 R2 R3 R4 R5 R6].
  destruct (unlink_spec fuel vr m1 t (mm_tree _ _ Hok1) Hv Hfuel) as (m2 & t2 & Hu & Ht2 & [Hr2 _] & Hin & Hsz & Hht).
  set (m3 := upd_region vr (fun r => r <| vir_addr ::= fun x => addu x (n * ARCH_PG_SIZE) |>) m2).
  assert (regions m3 vr = (regions m1 vr) <| vir_addr := vir_addr r + n * ARCH_PG_SIZE |>) as Hr3.
  { unfold m3. rewrite upd_region_eq, Hr2. rewrite <- H1. unfold addu. rewrite <- (wrapu_small 64 (vir_addr (regions m1 vr) + n * ARCH_PG_SIZE)); [done|].
    rewrite H1. unfold ARCH_PG_SIZE, VM_STACK_TOP in *. lia. }
  assert (forall x, x <> vr -> regions m3 x = regions m1 x) as Ho3. { intros x Hx. unfold m3. by rewrite upd_region_ne, Hr2. }
  assert (tree_ok m3 t2) as Ht3.
  { apply (tree_ok_ext m2); try done. intros x [Hx Hne]%Hin. unfold region_key. by rewrite Ho3, Hr2. }
  destruct (link_spec fuel vr m3 t2 Ht3) as (m4 & t4 & Hl & Ht4 & [Hr4 _] & Hin4 & Hsz4 & Hht4).
  { by intros [_ ?]%Hin. }
  { intros E. rewrite E in Hv. by destruct (elements_nonzero _ _ _ 0 (mm_rep _ _ Hok) Hv). }
  { intros x [Hx Hne]%Hin. unfold region_key. rewrite Hr3, Ho3, Ho by done. pose proof (beside m t vr x Hok Hv Hx Hne) as Hb.
    pose proof (mm_regions _ _ Hok x Hx) as []. unfold end_of, region_key in Hb. fold r in Hb. unfold ARCH_PG_SIZE in *.
    change (vir_addr (regions m x) <> vir_addr r + n * 4096). lia. }
  { lia. }
  exists m2, m4, t4. split; [done|]. split; [done|]. split; [done|]. split; [done|]. rewrite Hr4. split; [|split; [lia|split; [lia|done]]].
  intros x. rewrite Hin4, Hin. destruct (decide (x = vr)) as [->|]; tauto.
Qed.

Lemma unmap_low memory m1 :
  a = 0 -> n * ARCH_PG_SIZE < length r -> mm_ok m1 t -> only_pages vr m m1 ->
  has_pages (fun i => if between a (a + n) i then None else phys_regions r i) r (regions m1 vr) ->
  (exists m' t', shrink_low fuel memory vr (n * ARCH_PG_SIZE) m1 = Ret m' /\ cut m t vr start limit m' t' 0) \/
    memory = false /\ shrink_low fuel memory vr (n * ARCH_PG_SIZE) m1 = Crash NullDeref.
Proof.
  intros Ha0 Hlt Hok1 Hop1 [H1 H2 _ _ Hp]. destruct cut_region_ok as [R1 R2 R3 R4 R5 R6]. pose proof (Z.div_mod (length r) ARCH_PG_SIZE ltac:(done)) as Hdm.
  rewrite R5 in Hdm. set (s := length r / ARCH_PG_SIZE) in *. assert (n < s) as Hns by (unfold ARCH_PG_SIZE in *; lia).
  destruct (relink_low m1 Hlt Hok1 Hop1 H1) as (m2 & m4 & t4 & Hu & Hr2 & Hlk & Ht4 & Hin4 & Hsz4 & Hht4 & Hr4 & Ho4).
  unfold shrink_low. rewrite slot_of, Hu. cbn [mbind res_mbind]. rewrite upd_region_eq.
  assert (length (regions m2 vr) = length r) as Hl2 by (by rewrite Hr2).
  change (length ((regions m2 vr) <| vir_addr ::= fun x => addu x (n * ARCH_PG_SIZE) |>)) with (length (regions m2 vr)).
  rewrite Hl2, (proj2 (Z.leb_gt _ _)) by lia.
  replace (length r - n * ARCH_PG_SIZE) with ((s - n) * ARCH_PG_SIZE) by lia. rewrite slot_of. cbn [mbind res_mbind].
  rewrite (proj2 (Z.eqb_neq _ _)) by lia. rewrite Hlk. cbn [mbind res_mbind].
  assert (length (regions m4 vr) = length r) as Hl4 by (rewrite Hr4; exact H2).
  rewrite Hl4. replace (length r - n * ARCH_PG_SIZE) with ((s - n) * ARCH_PG_SIZE) by lia.
  rewrite page_offsets_eq by lia. replace (seqZ n (s - n)) with (seqZ n (Z.of_nat (Z.to_nat (s - n)))) by (f_equal; lia).
  assert (forall i, phys_regions (regions m4 vr) i = if between a (a + n) i then None else phys_regions r i) as Hp4.
  { intros i. rewrite Hr4. apply Hp. }
  destruct (shift_pages_spec vr n (Z.to_nat (s - n)) n m4) as (m5 & -> & [Q1 Q2 Q3 _ Q4] & [P1 P2 _ _ P3]).
  { intros i p _. rewrite Hp4. destruct (between _ _ i); [done|]. apply R6. }
  { rewrite Hl4. lia. } { lia. }
  cbn [mbind res_mbind]. destruct memory; [left|by right]. cbn [negb].
  eexists _, t4. split; [reflexivity|]. set (m6 := upd_region _ _ m5).
  assert (vir_addr (regions m6 vr) = vir_addr r + n * ARCH_PG_SIZE) as V6.
  { unfold m6. rewrite upd_region_eq. change (vir_addr (regions m5 vr) = vir_addr r + n * ARCH_PG_SIZE). by rewrite P1, Hr4. }
  assert (length (regions m6 vr) = length r - n * ARCH_PG_SIZE) as L6.
  { unfold m6. rewrite upd_region_eq. change (length (regions m5 vr) - n * ARCH_PG_SIZE = length r - n * ARCH_PG_SIZE). by rewrite P2, Hl4. }
  destruct (shifted_part (regions m6 vr)) as [Hr6 Hpart]; [done|done|done|done| |].
  { intros i. unfold m6. rewrite upd_region_eq. fold s. change (moved n (s - n) (phys_regions (regions m5 vr)) i = moved n (s - n)
      (fun i => if between n s i then referenced (i - n) (if between a (a + n) i then None else phys_regions r i) else if between a (a + n) i then None else phys_regions r i) i).
    unfold moved. destruct (_ && _); [|done]. rewrite P3, !Hp4. by replace (n + Z.of_nat (Z.to_nat (s - n))) with s by lia. }
  assert (forall x, x <> vr -> regions m6 x = regions m1 x) as O6. { intros x Hx. unfold m6. rewrite upd_region_ne, Q4 by done. by apply Ho4. }
  apply (cut_part m6 t4 n); try done.
  - apply (tree_ok_ext m4); try done. intros x Hx. unfold region_key. destruct (decide (x = vr)) as [->|Hne]; [by rewrite V6, Hr4|]. by rewrite O6, Ho4.
  - intros x Hx _. rewrite O6 by done. by apply Hop1.
  - left. auto.
  - split; [done|]. unfold end_of, limit, start. fold r. lia.
Qed.

(** The pages are given back, and the region stays. *)
Lemma cut_failed ret m1 :
  ret <> 0 -> mm_ok m1 t -> only_pages vr m m1 ->
  has_pages (fun i => if between a (a + n) i then None else phys_regions r i) r (regions m1 vr) -> cut m t vr start limit m1 t ret.
Proof.
  intros Hret Hok1 [_ _ _ _ Ho] [H1 H2 _ _ Hp]. split; try done.
  - intros x Hx _. by apply Ho.
  - intros addr Hout. unfold look. rewrite !decide_True by done. unfold shows. rewrite H1, H2. fold r. destruct (in_range (vir_addr r) _ addr) eqn:Hin; [|done].
    rewrite Hp. unfold in_range, start, limit in *. apply andb_true_iff in Hin as [Hi1%Z.leb_le Hi2%Z.ltb_lt].
    destruct (between a (a + n) _) eqn:Hb; [|done]. exfalso. unfold between in Hb. apply andb_true_iff in Hb as [Hb1%Z.leb_le Hb2%Z.ltb_lt].
    pose proof (Z.div_mod (addr - vir_addr r) ARCH_PG_SIZE ltac:(done)). pose proof (Z.mod_pos_bound (addr - vir_addr r) ARCH_PG_SIZE ltac:(done)).
    rewrite andb_false_iff, Z.leb_gt, Z.ltb_ge in Hout. unfold ARCH_PG_SIZE in *. lia.
  - unfold region_key, end_of. rewrite H1, H2. fold r. lia.
  - lia.
Qed.

Lemma unmap_high m1 :
  0 < a -> (a + n) * ARCH_PG_SIZE = length r -> mm_ok m1 t -> only_pages vr m m1 ->
  has_pages (fun i => if between a (a + n) i then None else phys_regions r i) r (regions m1 vr) ->
  cut m t vr start limit (upd_region vr (fun r => r <| length ::= fun l => l - n * ARCH_PG_SIZE |>)
    (upd_region vr (fun r => r <| phys_regions ::= resized (Z.min (a + n) a) |>) m1)) t 0.
Proof.
  intros Ha0 Hlen Hok1 [Q1 Q2 Q3 _ Ho] [H1 H2 _ _ Hp]. destruct cut_region_ok as [R1 R2 R3 R4 R5 R6]. rewrite Z.min_r by lia.
  set (m2 := upd_region vr _ m1). set (m3 := upd_region vr _ m2).
  assert (forall x, x <> vr -> regions m3 x = regions m1 x) as O3. { intros x Hx. unfold m3, m2. by rewrite !upd_region_ne. }
  assert (regions m3 vr = (regions m1 vr) <| phys_regions := resized a (phys_regions (regions m1 vr)) |> <| length := a * ARCH_PG_SIZE |>) as Hr3.
  { unfold m3, m2. rewrite !upd_region_eq. replace (a * ARCH_PG_SIZE) with (length (regions m1 vr) - n * ARCH_PG_SIZE) by lia. done. }
  assert (forall i, phys_regions (regions m3 vr) i = if between 0 a i then phys_regions r i else None) as Hp3.
  { intros i. rewrite Hr3. change (resized a (phys_regions (regions m1 vr)) i = if between 0 a i then phys_regions r i else None). unfold resized, between.
    destruct (Z.leb_spec 0 i), (Z.ltb_spec i a); cbn [andb]; try done. rewrite Hp. unfold between. by rewrite (proj2 (Z.leb_gt a i)). }
  assert (length (regions m3 vr) = a * ARCH_PG_SIZE) as L3 by (by rewrite Hr3). assert (vir_addr (regions m3 vr) = vir_addr r) as V3 by (by rewrite Hr3).
  apply (cut_part m3 t 0); try done.
  - apply (tree_ok_ext m1); try done; [by apply mm_tree|]. intros x Hx. unfold region_key. destruct (decide (x = vr)) as [->|Hne]; [by rewrite V3|]. by rewrite O3.
  - intros x Hx _. rewrite O3 by done. by apply Ho.
  - split; rewrite ?V3, ?L3, ?Z.mod_mul, ?Z.div_mul by done; try done; try (unfold ARCH_PG_SIZE in *; lia).
    intros i p. rewrite Hp3. destruct (between 0 a i) eqn:Hb; [|done]. unfold between in Hb. apply andb_true_iff in Hb as [Hb1%Z.leb_le Hb2%Z.ltb_lt].
    intros [_ ->]%R6. lia.
  - split; [lia|]. split; [lia|]. split; [rewrite L3; unfold ARCH_PG_SIZE in *; lia|]. intros i. rewrite L3, Z.div_mul by done. intros Hi. rewrite Hp3. unfold between.
    rewrite (proj2 (Z.leb_le 0 i)), (proj2 (Z.ltb_lt i a)) by lia. done.
  - right. done.
  - lia.
Qed.

Lemma region_unmap_spec memory :
  (a = 0 \/ (a + n) * ARCH_PG_SIZE = length r) ->
  (exists m' t' ret, region_unmap fuel memory vr (a * ARCH_PG_SIZE) (n * ARCH_PG_SIZE) m = Ret (m', ret) /\ cut m t vr start limit m' t' ret) \/
    memory = false /\ region_unmap fuel memory vr (a * ARCH_PG_SIZE) (n * ARCH_PG_SIZE) m = Crash NullDeref.
Proof.
  intros Hend. destruct cut_region_ok as [R1 R2 R3 R4 R5 R6]. destruct after_subfree as (m1 & Hs & Hok1 & Hop1 & Hp1). unfold region_unmap.
  assert (addu (a * ARCH_PG_SIZE) (n * ARCH_PG_SIZE) = (a + n) * ARCH_PG_SIZE) as Hadd.
  { unfold addu. rewrite wrapu_small; [lia|]. unfold ARCH_PG_SIZE, VM_STACK_TOP, r in *. lia. }
  rewrite Hadd, (proj2 (Z.ltb_ge _ _)), slot_of, Hs by done. cbn [mbind res_mbind].
  assert (length (regions m1 vr) = length r) as -> by apply Hp1.
  assert (forall m' t' l, cut m t vr start limit m' t' 0 -> cut m t vr start limit (m' <| unmapped := l |>) t' 0) as Hlog.
  { intros m' t' l []. split; try done. by apply unmapped_ok. }
  destruct (Z.eqb_spec (n * ARCH_PG_SIZE) (length r)) as [Hw|Hw].
  { left. destruct (unmap_whole m1 Hw Hok1 Hop1 Hp1) as (m' & t' & He & Hc).
    destruct (unlink_region fuel vr m1) as [m2|]; [|done]. cbn [mbind res_mbind] in *. destruct (region_free vr m2) as [m3|]; [|done].
    cbn [mbind res_mbind] in *. injection He as ->. cbn. eexists _, t', 0. split; [reflexivity|]. by apply Hlog. }
  assert (n * ARCH_PG_SIZE < length r) as Hlt by (unfold ARCH_PG_SIZE, r in *; lia).
  destruct (Z.eqb_spec (a * ARCH_PG_SIZE) 0) as [H0|H0].
  { assert (a = 0) as Ha0 by (unfold ARCH_PG_SIZE in *; lia). destruct (rop_shrink_low (rops (regions m1 vr))) as [[| |]|]; cycle 1.
    1-3: left; cbn; eexists _, t, EINVAL; split; [reflexivity|by apply cut_failed].
    destruct (unmap_low memory m1 Ha0 Hlt Hok1 Hop1 Hp1) as [(m' & t' & -> & Hc)|[-> ->]]; [left|by right].
    cbn. eexists _, t', 0. split; [reflexivity|]. by apply Hlog. }
  left. destruct Hend as [->|Hend]; [done|]. rewrite Hend, Z.eqb_refl. unfold phys_region_resize.
  replace (length r - n * ARCH_PG_SIZE) with (a * ARCH_PG_SIZE) by lia. assert (length (regions m1 vr) = (a + n) * ARCH_PG_SIZE) as -> by (rewrite Hend; apply Hp1).
  rewrite (proj2 (Z.eqb_neq _ _)), (proj2 (Z.eqb_neq _ _)) by (unfold ARCH_PG_SIZE in *; lia). cbn [orb]. rewrite !slot_of. cbn [mbind res_mbind].
  destruct memory; cbn [negb]; cbn; [|eexists _, t, ENOMEM; split; [reflexivity|by apply cut_failed]].
  eexists _, t, 0. split; [reflexivity|]. apply Hlog. apply unmap_high; try done. unfold ARCH_PG_SIZE in *. lia.
Qed.
End cutting.

(** ** Splitting a region *)

(** What is recorded of the regions of the tree is left alone. *)
Record keeps (t : tree) (m m' : mm_struct) : Prop := {
  k_avl : avl m' = avl m;
  k_root : mem_avl m' = mem_avl m;
  k_list : mem_regions m' = mem_regions m;
  k_regions : forall x, x ∈ elements t -> regions m' x = regions m x
}.

Lemma keeps_trans t m1 m2 m3 : keeps t m1 m2 -> keeps t m2 m3 -> keeps t m1 m3.
Proof. intros [A1 A2 A3 A4] [B1 B2 B3 B4]. split; try congruence. intros x Hx. rewrite B4 by done. by apply A4. Qed.

Lemma keeps_pages t vr m m' : vr ∉ elements t -> only_pages vr m m' -> keeps t m m'.
Proof. intros Hv [A1 A2 A3 _ A4]. split; try done. intros x Hx. apply A4. by intros ->. Qed.

Lemma keeps_ok t m m' : keeps t m m' -> mm_ok m t -> mm_ok m' t.
Proof.
  intros [A1 A2 A3 A4] Hok. assert (forall x, x ∈ elements t -> region_key m' x = region_key m x) as Hk.
  { intros x Hx. unfold region_key. by rewrite A4. }
  destruct (tree_ok_ext m m' t (mm_tree _ _ Hok) A1 A2 A3 Hk) as [T1 T2 T3]. split; try done.
  - intros x Hx. rewrite A4 by done. by apply Hok.
  - intros x y Hx Hy. unfold end_of. rewrite !Hk, A4 by done. change (vir_addr (regions m x)) with (region_key m x). by apply Hok.
Qed.

Lemma free_spec vr m :
  slots_ok (regions m vr) -> length (regions m vr) mod ARCH_PG_SIZE = 0 -> 0 <= length (regions m vr) < 2 ^ 64 ->
  exists m', region_free vr m = Ret m' /\ only_pages vr m m'.
Proof.
  intros Hs Hm Hl. pose proof (Z.div_mod (length (regions m vr)) ARCH_PG_SIZE ltac:(done)) as Hdm. rewrite Hm in Hdm.
  destruct (subfree_spec vr 0 (length (regions m vr) / ARCH_PG_SIZE) m) as (m' & He & Hop & _); try done; try lia.
  { apply Z.div_pos; lia || done. }
  exists m'. split; [|done]. unfold region_free. rewrite <- He. f_equal. lia.
Qed.

Section splitting.
Context (m : mm_struct) (t : tree) (vr k : Z).
Hypothesis Hok : mm_ok m t.
Hypothesis Hv : vr ∈ elements t.
Hypothesis Hk : 0 < k.
Hypothesis Hlt : k * ARCH_PG_SIZE < length (regions m vr).

Let r := regions m vr.
Let s := length r / ARCH_PG_SIZE.

Lemma split_sizes : region_ok r /\ length r = s * ARCH_PG_SIZE /\ k < s /\ length r < 2 ^ 64.
Proof.
  pose proof (mm_regions _ _ Hok vr Hv) as Hr. fold r in Hr. split; [done|]. destruct Hr as [R1 R2 R3 R4 R5 R6].
  pose proof (Z.div_mod (length r) ARCH_PG_SIZE ltac:(done)) as Hdm. rewrite R5 in Hdm. fold s in Hdm. fold r in Hlt.
  unfold ARCH_PG_SIZE, VM_STACK_TOP in *. lia.
Qed.

(** The regions of the two parts, filled with the pages of [vr] *)
Definition filled (v from len : Z) (m' : mm_struct) : Prop :=
  vir_addr (regions m' v) = vir_addr r + from * ARCH_PG_SIZE /\ length (regions m' v) = len * ARCH_PG_SIZE /\
  (forall i, phys_regions (regions m' v) i = if between 0 len i then referenced i (phys_regions r (from + i)) else None).

Lemma filled_part v from len m' :
  0 <= from -> 0 < len -> from + len <= s -> filled v from len m' -> region_ok (regions m' v) /\ part_of r (regions m' v) from.
Proof.
  intros Hf Hl Hfl (H1 & H2 & H3). destruct split_sizes as ([R1 R2 R3 R4 R5 R6] & Hs & _ & _). split.
  - split; rewrite ?H1, ?H2; try (unfold ARCH_PG_SIZE in *; lia).
    + by rewrite Z.mod_add.
    + by apply Z.mod_mul.
    + intros i p. rewrite H3, Z.div_mul by done. destruct (between 0 len i) eqn:Hb; [|done]. unfold between in Hb.
      apply andb_true_iff in Hb as [Hb1%Z.leb_le Hb2%Z.ltb_lt]. unfold referenced. intros (q & _ & ->)%fmap_Some. cbn [offset]. lia.
  - split; [done|]. split; [done|]. split; [rewrite H2; unfold ARCH_PG_SIZE in *; lia|]. intros i. rewrite H2, Z.div_mul by done. intros Hi.
    rewrite H3. unfold between. rewrite (proj2 (Z.leb_le 0 i)), (proj2 (Z.ltb_lt i len)) by lia. cbn [andb]. unfold referenced.
    by rewrite <- option_fmap_compose.
Qed.

(** Filling one of them *)
Lemma fill_spec slab v from len m1 :
  0 <= from -> 0 <= len -> from + len <= s -> v <> vr -> regions m1 vr = r ->
  vir_addr (regions m1 v) = vir_addr r + from * ARCH_PG_SIZE -> length (regions m1 v) = len * ARCH_PG_SIZE ->
  (forall i, phys_regions (regions m1 v) i = None) ->
  exists m2 ok, reference_loop slab vr v (from * ARCH_PG_SIZE) (page_offsets 0 (len * ARCH_PG_SIZE)) m1 = Ret (m2, ok) /\
    only_pages v m1 m2 /\ slots_ok (regions m2 v) /\ length (regions m2 v) = len * ARCH_PG_SIZE /\ (ok = true -> filled v from len m2).
Proof.
  intros Hf Hl Hfl Hne Hr Ha Hlen Hnone. destruct split_sizes as ([R1 R2 R3 R4 R5 R6] & Hs & _ & _).
  change 0 with (0 * ARCH_PG_SIZE) at 1. rewrite page_offsets_eq by done. replace (seqZ 0 len) with (seqZ 0 (Z.of_nat (Z.to_nat len))) by (f_equal; lia).
  destruct (reference_loop_spec slab vr v from (Z.to_nat len) 0 m1) as (m2 & ok & f & He & Hop & [P1 P2 _ _ P3] & Hsl & Hfill).
  { done. } { by rewrite Hr. } { intros i p. by rewrite Hnone. } { rewrite Hlen. unfold ARCH_PG_SIZE. lia. } { rewrite Hr, Hs. unfold ARCH_PG_SIZE. lia. } { lia. }
  { rewrite Hlen. by apply Z.mod_mul. } { intros i _. apply Hnone. }
  exists m2, ok. split; [done|]. split; [done|]. split; [done|]. split; [by rewrite P2|]. intros Ht. split; [by rewrite P1|]. split; [by rewrite P2|].
  intros i. rewrite P3, Hfill, Hnone, Hr by done. by replace (0 + Z.of_nat (Z.to_nat len)) with len by lia.
Qed.

Context (fuel : nat).
Hypothesis Hfuel : Z.of_nat (List.length (elements t)) + 1 < Z.of_nat fuel.

(** The two parts take the place of the region. *)
Lemma swap_spec v1 v2 m1 :
  keeps t m m1 -> filled v1 0 k m1 -> filled v2 k (s - k) m1 -> v1 ∉ elements t -> v2 ∉ elements t -> v1 <> 0 -> v2 <> 0 -> v1 <> v2 ->
  exists m' t', (m ← unlink_region fuel vr m1; m ← region_free vr m; m ← link_region fuel v1 m; link_region fuel v2 m) = Ret m' /\
    mm_ok m' t' /\ (forall x, x ∈ elements t' <-> x = v1 \/ x = v2 \/ x ∈ elements t /\ x <> vr) /\
    (forall x, x <> vr -> regions m' x = regions m1 x) /\
    Z.of_nat (List.length (elements t')) <= Z.of_nat (List.length (elements t)) + 1 /\ ht t' <= ht t + 2.
Proof.
  intros Hkeep Hf1 Hf2 Hv1 Hv2 Hn1 Hn2 Hne. destruct split_sizes as ([R1 R2 R3 R4 R5 R6] & Hs & Hks & Hl64).
  assert (regions m1 vr = r) as Hr1 by (by apply Hkeep). pose proof (keeps_ok t m m1 Hkeep Hok) as Hok1.
  destruct (unlink_spec fuel vr m1 t (mm_tree _ _ Hok1) Hv ltac:(lia)) as (m2 & t2 & -> & Ht2 & [Hr2 _] & Hin2 & Hsz2 & Hht2). cbn [mbind res_mbind].
  destruct (free_spec vr m2) as (m3 & -> & [A1 A2 A3 _ A4]); [by rewrite Hr2, Hr1|by rewrite Hr2, Hr1|rewrite Hr2, Hr1; lia|]. cbn [mbind res_mbind].
  assert (forall x, x <> vr -> regions m3 x = regions m1 x) as O3. { intros x Hx. rewrite A4 by done. by rewrite Hr2. }
  assert (v1 <> vr /\ v2 <> vr) as [Hv1r Hv2r]. { split; intros E; by rewrite E in *. }
  assert (forall x, x ∈ elements t2 -> region_key m3 x = region_key m x /\ (end_of m x <= vir_addr r \/ vir_addr r + length r <= vir_addr (regions m x)) /\ 0 < length (regions m x)) as Hside.
  { intros x [Hx Hxr]%Hin2. split; [unfold region_key; rewrite O3 by done; by rewrite (k_regions _ _ _ Hkeep)|].
    split; [exact (beside m t vr x Hok Hv Hx Hxr)|]. by apply (mm_regions _ _ Hok). }
  assert (tree_ok m3 t2) as Ht3. { apply (tree_ok_ext m2); try done. intros x [Hx Hxr]%Hin2. unfold region_key. by rewrite O3, Hr2. }
  pose proof Hf1 as (V1 & L1 & _). pose proof Hf2 as (V2 & L2 & _).
  destruct (link_spec fuel v1 m3 t2 Ht3) as (m4 & t4 & -> & Ht4 & [Hr4 _] & Hin4 & Hsz4 & Hht4); [by intros [? _]%Hin2|done| |lia|].
  { intros x Hx. destruct (Hside x Hx) as (-> & Hb & Hl). unfold region_key, end_of, region_key in *. rewrite O3, V1 by done. lia. }
  cbn [mbind res_mbind].
  destruct (link_spec fuel v2 m4 t4 Ht4) as (m5 & t5 & -> & Ht5 & [Hr5 _] & Hin5 & Hsz5 & Hht5); [by intros [?|[? _]%Hin2]%Hin4|done| |lia|].
  { unfold region_key. rewrite Hr4. intros x [->|Hx]%Hin4; rewrite (O3 v2), V2 by done.
    - rewrite O3, V1 by done. unfold ARCH_PG_SIZE. lia.
    - destruct (Hside x Hx) as (E & Hb & Hl). unfold region_key, end_of, region_key in *. rewrite E. unfold ARCH_PG_SIZE in *. lia. }
  assert (forall x, x <> vr -> regions m5 x = regions m1 x) as O5. { intros x Hx. rewrite Hr5, Hr4. by apply O3. }
  exists m5, t5. split; [done|]. assert (forall x, x ∈ elements t5 <-> x = v1 \/ x = v2 \/ x ∈ elements t /\ x <> vr) as Hin.
  { intros x. rewrite Hin5, Hin4, Hin2. tauto. }
  split; [|split; [done|split; [done|lia]]].
  destruct (filled_part v1 0 k m1) as [Hr1' _]; [lia|done|lia|done|]. destruct (filled_part v2 k (s - k) m1) as [Hr2' _]; [lia|lia|lia|done|].
  apply (pieces_ok (fun x => x = v1 \/ x = v2) m t m5 t5 vr Hok Hv Ht5).
  - intros x [->|[->|[Hx Hxr]]]%Hin; [by right; left|by right; right|]. left. split; [done|]. split; [done|]. rewrite O5 by done. by apply Hkeep.
  - unfold end_of, region_key. fold r. intros x [->| ->]; rewrite O5 by done; (split; [done|]); rewrite ?V1, ?V2, ?L1, ?L2; unfold ARCH_PG_SIZE in *; lia.
  - unfold end_of, region_key. intros x y [->| ->] [->| ->]; rewrite !O5, ?V1, ?V2, ?L1, ?L2 by done; unfold ARCH_PG_SIZE in *; lia.
Qed.

(** A region without pages, in memory that is not in use *)
Lemma new_spec v from len fl ops m1 :
  v ∉ elements t ->
  exists m2, region_new (Some v) (vir_addr r + from * ARCH_PG_SIZE) (len * ARCH_PG_SIZE) fl ops m1 = Ret (m2, v) /\ keeps t m1 m2 /\
    (forall x, x <> v -> regions m2 x = regions m1 x) /\ vir_addr (regions m2 v) = vir_addr r + from * ARCH_PG_SIZE /\
    length (regions m2 v) = len * ARCH_PG_SIZE /\ (forall i, phys_regions (regions m2 v) i = None).
Proof.
  intros Hv1. unfold region_new. rewrite slot_of. cbn [mbind res_mbind]. eexists. split; [reflexivity|]. set (new := mk_region _ _ _ _ _).
  set (m2 := m1 <| regions ::= _ |>). assert (regions m2 v = new) as -> by apply fn_lookup_insert.
  assert (forall x, x <> v -> regions m2 x = regions m1 x) as Ho. { intros x Hx. by apply fn_lookup_insert_ne. }
  split; [|done]. split; try done. intros x Hx. apply Ho. by intros ->.
Qed.

(** The parts that were made are given back. *)
Lemma undo_spec v len m1 :
  v <> 0 -> v ∉ elements t -> keeps t m m1 -> slots_ok (regions m1 v) -> length (regions m1 v) = len * ARCH_PG_SIZE -> 0 <= len <= s ->
  exists m2, free_new v m1 = Ret m2 /\ keeps t m m2 /\ only_pages v m1 m2.
Proof.
  intros Hn Hvt Hkeep Hsl Hlen Hls. destruct split_sizes as (_ & Hs & _ & Hl64). unfold free_new. rewrite (proj2 (Z.eqb_neq v 0) Hn).
  destruct (free_spec v m1 Hsl) as (m2 & -> & Hop); [rewrite Hlen; by apply Z.mod_mul|rewrite Hlen; unfold ARCH_PG_SIZE in *; lia|].
  exists m2. split; [done|]. split; [|done]. eapply keeps_trans; [done|]. by apply (keeps_pages t v).
Qed.

(** Memory for a region that is not in use *)
Definition unused (memory : option Z) : Prop := forall v, memory = Some v -> v <> 0 /\ v ∉ elements t.

(** What [region_split] answers *)
Definition split_result (m' : mm_struct) (v : Z + Z * Z) (memory1 memory2 : option Z) : Prop :=
  match v with
  | inl ret => ret <> 0 /\ keeps t m m'
  | inr (v1, v2) => exists t', memory1 = Some v1 /\ memory2 = Some v2 /\ mm_ok m' t' /\
      (forall x, x ∈ elements t' <-> x = v1 \/ x = v2 \/ x ∈ elements t /\ x <> vr) /\
      (forall x, x ∈ elements t -> x <> vr -> regions m' x = regions m x) /\ filled v1 0 k m' /\ filled v2 k (s - k) m' /\
      Z.of_nat (List.length (elements t')) <= Z.of_nat (List.length (elements t)) + 1 /\ ht t' <= ht t + 2
  end.

(** Both parts are there, and take the pages. *)
Lemma split_fill slab1 slab2 v1 v2 m2 :
  keeps t m m2 -> v1 <> 0 -> v1 ∉ elements t -> v2 <> 0 -> v2 ∉ elements t -> v1 <> v2 ->
  vir_addr (regions m2 v1) = vir_addr r -> length (regions m2 v1) = k * ARCH_PG_SIZE -> (forall i, phys_regions (regions m2 v1) i = None) ->
  vir_addr (regions m2 v2) = vir_addr r + k * ARCH_PG_SIZE -> length (regions m2 v2) = (s - k) * ARCH_PG_SIZE -> (forall i, phys_regions (regions m2 v2) i = None) ->
  exists m' v, ('(m, ok) ← reference_loop slab1 vr v1 0 (page_offsets 0 (k * ARCH_PG_SIZE)) m2;
                '(m, ok) ← (if ok : bool then reference_loop slab2 vr v2 (k * ARCH_PG_SIZE) (page_offsets 0 ((s - k) * ARCH_PG_SIZE)) m else Ret (m, false));
                if negb ok then m ← free_new v1 m; m ← free_new v2 m; Ret (m, inl ENOMEM)
                else
                  m ← unlink_region fuel vr m;
                  m ← region_free vr m;
                  m ← link_region fuel v1 m;
                  m ← link_region fuel v2 m;
                  Ret (m, inr (v1, v2))) = Ret (m', v) /\ split_result m' v (Some v1) (Some v2).
Proof.
  intros K2 Hn1 Hv1 Hn2 Hv2 Hne A1 L1 P1 A2 L2 P2. destruct split_sizes as (_ & Hs & Hks & _).
  assert (v1 <> vr /\ v2 <> vr) as [Hv1r Hv2r]. { split; intros E; by rewrite E in *. }
  destruct (fill_spec slab1 v1 0 k m2) as (m3 & ok & He3 & Hop3 & Hsl3 & Hl3 & Hf3); try done; try lia.
  { by apply K2. }
  change (0 * ARCH_PG_SIZE) with 0 in He3. rewrite He3. cbn [mbind res_mbind].
  assert (keeps t m m3) as K3. { eapply keeps_trans; [done|]. by apply (keeps_pages t v1). }
  assert (regions m3 v2 = regions m2 v2) as E3 by (by apply Hop3).
  destruct ok; cycle 1.
  { cbn [negb mbind res_mbind]. destruct (undo_spec v1 k m3) as (m4 & -> & K4 & Hop4); try done; try lia. cbn [mbind res_mbind].
    assert (regions m4 v2 = regions m2 v2) as E4. { rewrite <- E3. by apply Hop4. }
    destruct (undo_spec v2 (s - k) m4) as (m5 & -> & K5 & _); try done; try lia; rewrite ?E4; try done. { intros i p. by rewrite P2. }
    by exists m5, (inl ENOMEM). }
  destruct (fill_spec slab2 v2 k (s - k) m3) as (m4 & ok & -> & Hop4 & Hsl4 & Hl4 & Hf4); rewrite ?E3; try done; try lia.
  { by apply K3. }
  cbn [mbind res_mbind]. assert (keeps t m m4) as K4. { eapply keeps_trans; [exact K3|]. by apply (keeps_pages t v2). }
  assert (regions m4 v1 = regions m3 v1) as E4 by (by apply Hop4). destruct ok; cbn [negb]; cycle 1.
  { destruct (undo_spec v1 k m4) as (m5 & -> & K5 & Hop5); rewrite ?E4; try done; try lia. cbn [mbind res_mbind].
    assert (regions m5 v2 = regions m4 v2) as E5 by (by apply Hop5).
    destruct (undo_spec v2 (s - k) m5) as (m6 & -> & K6 & _); rewrite ?E5; try done; try lia. by exists m6, (inl ENOMEM). }
  assert (filled v1 0 k m4) as F1. { unfold filled. rewrite E4. by apply Hf3. }
  destruct (swap_spec v1 v2 m4) as (m' & t' & He & Hok' & Hin & Ho & Hsz); try done; [by apply Hf4|].
  destruct (unlink_region fuel vr m4) as [m5|]; [|done]. cbn [mbind res_mbind] in *. destruct (region_free vr m5) as [m6|]; [|done].
  cbn [mbind res_mbind] in *. destruct (link_region fuel v1 m6) as [m7|]; [|done]. cbn [mbind res_mbind] in *. rewrite He. cbn [mbind res_mbind].
  exists m', (inr (v1, v2)). split; [done|]. exists t'. split; [done|]. split; [done|]. split; [done|]. split; [done|].
  split. { intros x Hx Hxr. rewrite Ho by done. by apply K4. }
  unfold filled. rewrite !Ho by done. split; [done|]. split; [by apply Hf4|done].
Qed.

Lemma region_split_spec memory1 memory2 slab1 slab2 :
  unused memory1 -> unused memory2 -> (forall v, memory1 = Some v -> memory2 <> Some v) ->
  exists m' v, region_split fuel memory1 memory2 slab1 slab2 vr (k * ARCH_PG_SIZE) m = Ret (m', v) /\ split_result m' v memory1 memory2.
Proof.
  intros Hu1 Hu2 Hdis. destruct split_sizes as ([R1 R2 R3 R4 R5 R6] & Hs & Hks & Hl64). unfold region_split. fold r.
  destruct (rop_split (rops r)); cbn [negb]; [|by exists m, (inl EINVAL)]. rewrite R4, Z.eqb_refl. cbn [negb].
  replace (length r - k * ARCH_PG_SIZE) with ((s - k) * ARCH_PG_SIZE) by lia. rewrite Hs, !slot_of. cbn [mbind res_mbind].
  replace (k + (s - k)) with s by lia. rewrite Z.eqb_refl. cbn [negb]. destruct memory1 as [v1|]; [|by exists m, (inl ENOMEM)].
  destruct (Hu1 v1 eq_refl) as [Hn1 Hv1].
  destruct (new_spec v1 0 k (flags r) (rops r) m Hv1) as (m1 & He1 & K1 & O1 & A1 & L1 & P1).
  replace (vir_addr r + 0 * ARCH_PG_SIZE) with (vir_addr r) in He1, A1 by lia. rewrite He1. cbn [mbind res_mbind]. rewrite (proj2 (Z.eqb_neq v1 0) Hn1).
  unfold addu. rewrite wrapu_small by (unfold ARCH_PG_SIZE, VM_STACK_TOP in *; lia).
  assert (forall i p, phys_regions (regions m1 v1) i = Some p -> 0 <= i < length (regions m1 v1) / ARCH_PG_SIZE /\ offset p = i * ARCH_PG_SIZE) as Hsl by (intros i p; by rewrite P1).
  destruct memory2 as [v2|]; cycle 1.
  { cbn. destruct (undo_spec v1 k m1) as (m2 & -> & K2 & _); try done; try lia. by exists m2, (inl ENOMEM). }
  destruct (Hu2 v2 eq_refl) as [Hn2 Hv2]. assert (v1 <> v2) as Hne by (intros ->; by apply (Hdis v2)).
  destruct (new_spec v2 k (s - k) (flags r) (rops r) m1 Hv2) as (m2 & -> & K2 & O2 & A2 & L2 & P2). cbn [mbind res_mbind]. rewrite (proj2 (Z.eqb_neq v2 0) Hn2).
  apply split_fill; rewrite ?(O2 v1) by done; try done; by eapply keeps_trans.
Qed.
End splitting.
