(* ===== verification/RegionRange.v ===== *)
(** * Ranges of addresses

    Theorems on [Region]: unmapping a range of addresses, and mapping a region. *)

From stdpp Require Import sorting.
From S2P Require Import Prelude Avl AvlTree AvlProps AvlIter Region RegionProps RegionPages RegionUnmap.

(** ** What changes in the view of an address space *)

Lemma view_none m t addr : mm_ok m t -> (forall x o, x ∈ elements t -> shows (regions m x) addr <> Some o) -> view m addr = None.
Proof.
  intros Hok Hn. destruct (view m addr) as [o|] eqn:Hv; [|done]. apply (view_spec m t addr o Hok) in Hv as (x & Hx & Ho). by destruct (Hn x o Hx).
Qed.

Lemma cut_view m t vr start limit m' t' ret addr :
  mm_ok m t -> vr ∈ elements t -> cut m t vr start limit m' t' ret -> in_range start limit addr = false -> view m' addr = view m addr.
Proof.
  intros Hok Hv [H1 H2 H3 _ H5 _ _ _] Hout. specialize (H5 addr Hout). unfold look in H5. rewrite (decide_True (P := vr ∈ elements t)) in H5 by done.
  apply option_eq. intros o. rewrite (view_spec m t addr o Hok), (view_spec m' t' addr o H1). split; intros (x & Hx & Ho).
  - exists x. destruct (decide (x = vr)) as [->|Hne].
    + rewrite decide_True in H5 by done. by rewrite <- H5.
    + apply H2 in Hx; [|done]. split; [done|]. by rewrite <- H3.
  - exists x. destruct (decide (x = vr)) as [->|Hne].
    + destruct (decide (vr ∈ elements t')); [by rewrite H5|by rewrite <- H5 in Ho].
    + split; [by apply H2|]. by rewrite H3.
Qed.

Lemma cut_view_done m t vr start limit m' t' addr :
  mm_ok m t -> vr ∈ elements t -> cut m t vr start limit m' t' 0 -> in_range start limit addr = true ->
  region_key m vr <= addr < end_of m vr -> view m' addr = None.
Proof.
  intros Hok Hv [H1 H2 H3 H4 _ _ _ _] Hin Hr. apply (view_none m' t' addr H1). intros x o Hx Ho. specialize (H4 eq_refl addr Hin). unfold look in H4.
  destruct (decide (x = vr)) as [->|Hne].
  - rewrite decide_True in H4 by done. by rewrite Ho in H4.
  - apply H2 in Hx; [|done]. rewrite H3 in Ho by done. apply shows_in in Ho. pose proof (beside m t vr x Hok Hv Hx Hne). unfold end_of, region_key in *. lia.
Qed.

Lemma keeps_view t m m' addr : mm_ok m t -> keeps t m m' -> view m' addr = view m addr.
Proof.
  intros Hok Hk. apply option_eq. intros o. rewrite (view_spec m t addr o Hok), (view_spec m' t addr o (keeps_ok _ _ _ Hk Hok)).
  split; intros (x & Hx & Ho); exists x; (split; [done|]); [by rewrite <- (k_regions _ _ _ Hk)|by rewrite (k_regions _ _ _ Hk)].
Qed.

(** The parts of a region show what it showed. *)
Lemma split_view m t vr k m' v1 v2 memory1 memory2 addr :
  mm_ok m t -> vr ∈ elements t -> 0 < k -> k * ARCH_PG_SIZE < length (regions m vr) ->
  split_result m t vr k m' (inr (v1, v2)) memory1 memory2 -> view m' addr = view m addr.
Proof.
  intros Hok Hv Hk Hlt (t' & _ & _ & Hok' & Hin & Hsame & F1 & F2 & _). destruct (split_sizes m t vr k Hok Hv Hlt) as (Hr & Hs & Hks & _).
  destruct (filled_part m t vr k Hok Hv Hlt v1 0 k m') as [G1 P1]; [lia|lia|lia|done|].
  destruct (filled_part m t vr k Hok Hv Hlt v2 k (length (regions m vr) / ARCH_PG_SIZE - k) m') as [G2 P2]; [lia|lia|lia|done|].
  assert (forall w o, shows (regions m' w) addr = Some o -> (w = v1 \/ w = v2) -> shows (regions m vr) addr = Some o) as Hto.
  { intros w o Ho Hw. rewrite <- Ho. symmetry. pose proof (shows_in _ _ _ Ho).
    assert (in_range (vir_addr (regions m' w)) (vir_addr (regions m' w) + length (regions m' w)) addr = true) by (unfold in_range; rewrite andb_true_iff, Z.leb_le, Z.ltb_lt; lia).
    destruct Hw as [-> | ->]; [apply (shows_part _ _ 0)|apply (shows_part _ _ k)]; try done; [apply G1|apply G2]. }
  apply option_eq. intros o. rewrite (view_spec m t addr o Hok), (view_spec m' t' addr o Hok'). split; intros (x & Hx & Ho).
  - apply Hin in Hx as [->|[->|[Hx Hne]]]; [exists vr; eauto|exists vr; eauto|]. exists x. split; [done|]. by rewrite <- Hsame.
  - destruct (decide (x = vr)) as [->|Hne]; [|exists x; split; [apply Hin; auto|by rewrite Hsame]].
    pose proof (shows_in _ _ _ Ho) as Hi. destruct F1 as (A1 & L1 & _), F2 as (A2 & L2 & _). destruct (Z.lt_ge_cases addr (vir_addr (regions m vr) + k * ARCH_PG_SIZE)).
    + exists v1. split; [apply Hin; auto|]. rewrite <- Ho. apply (shows_part _ _ 0 _ P1); [apply G1|].
      unfold in_range. rewrite A1, L1, andb_true_iff, Z.leb_le, Z.ltb_lt. lia.
    + exists v2. split; [apply Hin; auto|]. rewrite <- Ho. apply (shows_part _ _ k _ P2); [apply G2|].
      unfold in_range. rewrite A2, L2, andb_true_iff, Z.leb_le, Z.ltb_lt. lia.
Qed.

(** ** One region of the range *)

(** The memory that splitting a region takes is not in use. *)
Definition fresh (a : unmap_answers) (t : tree) : Prop :=
  unused t (a_memory1 a) /\ unused t (a_memory2 a) /\ (forall v, a_memory1 a = Some v -> a_memory2 a <> Some v).

Record one_done (a : unmap_answers) (m : mm_struct) (t : tree) (vr start limit : Z) (m' : mm_struct) (t' : tree) (ret : Z) : Prop := {
  o_ok : mm_ok m' t';
  o_others : forall x, x ∈ elements t -> x <> vr -> x ∈ elements t' /\ regions m' x = regions m x;
  o_pieces : forall x, x ∈ elements t' -> x ∈ elements t /\ x <> vr \/ end_of m' x <= end_of m vr;
  o_members : forall x, x ∈ elements t' -> x ∈ elements t \/ a_memory1 a = Some x \/ a_memory2 a = Some x;
  o_outside : forall addr, in_range (Z.max start (region_key m vr)) (Z.min limit (end_of m vr)) addr = false -> view m' addr = view m addr;
  o_done : ret = 0 -> forall addr, in_range (Z.max start (region_key m vr)) (Z.min limit (end_of m vr)) addr = true -> view m' addr = None;
  o_size : Z.of_nat (List.length (elements t')) <= Z.of_nat (List.length (elements t)) + 1 /\ ht t' <= ht t + 3;
  o_shrinks : end_of m vr <= limit ->
    (forall x, x ∈ elements t' -> x ∈ elements t) /\ Z.of_nat (List.length (elements t')) <= Z.of_nat (List.length (elements t)) /\ ht t' <= ht t
}.

Section one.
Context (fuel : nat) (a : unmap_answers) (start limit : Z).
Hypothesis Hstart : start mod ARCH_PG_SIZE = 0.
Hypothesis Hlimit : limit mod ARCH_PG_SIZE = 0.

Definition pages_of (x : Z) : Z := x / ARCH_PG_SIZE.

Lemma mod_sub x y : x mod ARCH_PG_SIZE = 0 -> y mod ARCH_PG_SIZE = 0 -> x - y = pages_of (x - y) * ARCH_PG_SIZE.
Proof.
  intros Hx Hy. unfold pages_of. pose proof (Z.div_mod (x - y) ARCH_PG_SIZE ltac:(done)) as Hd. rewrite Zminus_mod, Hx, Hy in Hd.
  change ((0 - 0) mod ARCH_PG_SIZE) with 0 in Hd. lia.
Qed.

Lemma cut_one m t vr m' t' ret :
  mm_ok m t -> vr ∈ elements t -> cut m t vr (Z.max start (region_key m vr)) (Z.min limit (end_of m vr)) m' t' ret ->
  one_done a m t vr start limit m' t' ret.
Proof.
  intros Hok Hv Hc. split; try apply Hc.
  - intros x Hx Hne. split; [by apply Hc|]. by apply Hc.
  - intros x Hx. destruct (decide (x = vr)) as [->|Hne]; [right; by apply Hc|left]. split; [by apply (c_member _ _ _ _ _ _ _ _ Hc)|done].
  - intros x Hx. left. destruct (decide (x = vr)) as [->|Hne]; [done|]. by apply (c_member _ _ _ _ _ _ _ _ Hc).
  - intros addr Hout. by eapply cut_view.
  - intros -> addr Hin. eapply cut_view_done; try done. unfold in_range in *. rewrite andb_true_iff, Z.leb_le, Z.ltb_lt in *. lia.
  - pose proof (c_size _ _ _ _ _ _ _ _ Hc). pose proof (c_height _ _ _ _ _ _ _ _ Hc). lia.
  - intros Hend. split; [|split; [apply Hc|apply Hc; rewrite Z.min_r; lia]].
    intros x Hx. destruct (decide (x = vr)) as [->|Hne]; [done|]. by apply (c_member _ _ _ _ _ _ _ _ Hc).
Qed.

(** The unmapping of one end of a region, or of all of it *)
Lemma unmap_piece memory m t vr cs cl :
  mm_ok m t -> vr ∈ elements t -> Z.of_nat (List.length (elements t)) < Z.of_nat fuel -> cs mod ARCH_PG_SIZE = 0 -> cl mod ARCH_PG_SIZE = 0 ->
  cs < cl -> region_key m vr <= cs -> cl <= end_of m vr -> cs = region_key m vr \/ cl = end_of m vr ->
  let call := if (cs <? vir_addr (regions m vr)) || (cl <=? vir_addr (regions m vr)) || (addu (vir_addr (regions m vr)) (length (regions m vr)) <? cl)
              then Crash Panic else region_unmap fuel memory vr (cs - vir_addr (regions m vr)) (cl - cs) m in
  (exists m' t' ret, call = Ret (m', ret) /\ cut m t vr cs cl m' t' ret) \/ memory = false /\ call = Crash NullDeref.
Proof.
  intros Hok Hv Hf Hcs Hcl Hlt Hk He Hend. pose proof (mm_regions _ _ Hok vr Hv) as [R1 R2 R3 R4 R5 R6].
  assert (addu (vir_addr (regions m vr)) (length (regions m vr)) = end_of m vr) as ->.
  { unfold addu, end_of. apply wrapu_small. unfold VM_STACK_TOP, ARCH_PG_SIZE in *. lia. }
  change (vir_addr (regions m vr)) with (region_key m vr) in *.
  rewrite (proj2 (Z.ltb_ge _ _)), (proj2 (Z.leb_gt _ _)), (proj2 (Z.ltb_ge _ _)) by lia. cbn [orb].
  pose proof (mod_sub cs (region_key m vr) Hcs R4) as Ea. pose proof (mod_sub cl cs Hcl Hcs) as En.
  set (p := pages_of (cs - region_key m vr)) in *. set (n := pages_of (cl - cs)) in *.
  assert (0 <= p /\ 0 < n) as [Hp Hn] by (unfold ARCH_PG_SIZE in *; lia).
  assert ((p + n) * ARCH_PG_SIZE <= length (regions m vr)) as Hle by (unfold end_of, region_key, ARCH_PG_SIZE in *; lia).
  assert (p = 0 \/ (p + n) * ARCH_PG_SIZE = length (regions m vr)) as Hc by (unfold end_of, region_key, ARCH_PG_SIZE in *; lia).
  destruct (region_unmap_spec fuel m t vr p n Hok Hv Hf Hp Hn Hle memory Hc) as [(m' & t' & ret & He' & Hcut)|[Hm He']].
  - left. exists m', t', ret. rewrite Ea, En. split; [done|]. replace cs with (vir_addr (regions m vr) + p * ARCH_PG_SIZE) by (unfold region_key in *; lia).
    replace cl with (vir_addr (regions m vr) + p * ARCH_PG_SIZE + n * ARCH_PG_SIZE) by (unfold region_key in *; lia). done.
  - right. by rewrite Ea, En.
Qed.

(** The split, and the unmapping of the end of its first part *)
Lemma split_one m t vr k :
  mm_ok m t -> vr ∈ elements t -> Z.of_nat (List.length (elements t)) + 1 < Z.of_nat fuel -> fresh a t ->
  region_key m vr < start -> start < limit -> limit < end_of m vr -> limit - region_key m vr = k * ARCH_PG_SIZE ->
  let call := '(m, v) ← region_split fuel (a_memory1 a) (a_memory2 a) (a_slab1 a) (a_slab2 a) vr (k * ARCH_PG_SIZE) m;
    match (v : Z + Z * Z) with
    | inl retval => Ret (m, retval)
    | inr (vr, _) =>
        let r := regions m vr in
        if (start <? vir_addr r) || (limit <=? vir_addr r) || (addu (vir_addr r) (length r) <? limit) then Crash Panic
        else region_unmap fuel (a_memory a) vr (start - vir_addr r) (limit - start) m
    end in
  (exists m' t' ret, call = Ret (m', ret) /\ one_done a m t vr start limit m' t' ret) \/ a_memory a = false /\ call = Crash NullDeref.
Proof.
  intros Hok Hv Hf (Hu1 & Hu2 & Hdis) Hs1 Hs2 Hs3 Hk. cbv zeta. assert (0 < k) as Hk0 by (unfold ARCH_PG_SIZE in *; lia).
  assert (k * ARCH_PG_SIZE < length (regions m vr)) as Hkl by (unfold end_of, region_key in *; lia).
  destruct (region_split_spec m t vr k Hok Hv Hk0 Hkl fuel Hf _ _ (a_slab1 a) (a_slab2 a) Hu1 Hu2 Hdis) as (m1 & v & -> & Hres). cbn [mbind res_mbind].
  destruct v as [ret|[v1 v2]].
  { left. destruct Hres as [Hret Hkeep]. exists m1, t, ret. split; [done|]. split; try done; try lia.
    - by eapply keeps_ok.
    - intros x Hx _. split; [done|]. by apply Hkeep.
    - intros x Hx. destruct (decide (x = vr)) as [->|]; [right|by left]. unfold end_of. by rewrite (k_regions _ _ _ Hkeep).
    - auto.
    - intros addr _. by apply (keeps_view t). }
  pose proof (fun addr => split_view m t vr k m1 v1 v2 _ _ addr Hok Hv Hk0 Hkl Hres) as Hview1.
  destruct Hres as (t1 & E1 & E2 & Hok1 & Hin1 & Hsame1 & (A1 & L1 & _) & (A2 & L2 & _) & Hsz1 & Hht1). replace (vir_addr (regions m vr) + 0 * ARCH_PG_SIZE) with (region_key m vr) in A1 by (unfold region_key; lia).
  destruct (Hu1 v1 E1) as [_ Hv1], (Hu2 v2 E2) as [_ Hv2].
  assert (end_of m1 v1 = limit) as Hend1 by (unfold end_of; rewrite A1, L1; lia).
  assert (v1 ∈ elements t1) as Hv1t by (apply Hin1; auto). assert (region_key m1 v1 <= start) as Hkey1 by (unfold region_key at 1; rewrite A1; lia).
  destruct (unmap_piece (a_memory a) m1 t1 v1 start limit Hok1 Hv1t ltac:(lia) Hstart Hlimit Hs2 Hkey1 ltac:(lia) (or_intror (eq_sym Hend1)))
    as [(m' & t' & ret & -> & Hc)|Hcrash]; [|by right].
  left. exists m', t', ret. split; [done|]. pose proof (c_height _ _ _ _ _ _ _ _ Hc) as [_ Hht]. specialize (Hht ltac:(lia)).
  pose proof (c_size _ _ _ _ _ _ _ _ Hc).
  split; rewrite ?Z.max_l, ?Z.min_l by lia; try lia.
  - apply Hc.
  - intros x Hx Hne. assert (x <> v1) as Hx1 by (by intros ->). assert (x ∈ elements t1) as Hxt by (apply Hin1; auto).
    split; [by apply Hc|]. rewrite (c_same _ _ _ _ _ _ _ _ Hc) by done. by apply Hsame1.
  - intros x Hx. destruct (decide (x = v1)) as [->|Hx1]; [right; pose proof (proj2 (c_piece _ _ _ _ _ _ _ _ Hc Hx)); lia|].
    apply (c_member _ _ _ _ _ _ _ _ Hc) in Hx; [|done]. pose proof (c_same _ _ _ _ _ _ _ _ Hc x Hx1 Hx) as Hsx.
    apply Hin1 in Hx as [->|[->|[Hx Hne]]]; [done|right|by left]. unfold end_of. rewrite Hsx, A2, L2.
    destruct (split_sizes m t vr k Hok Hv Hkl) as (_ & Hs & _). unfold region_key. lia.
  - intros x Hx. destruct (decide (x = v1)) as [->|Hx1]; [auto|]. apply (c_member _ _ _ _ _ _ _ _ Hc) in Hx; [|done].
    apply Hin1 in Hx as [->|[->|[Hx Hne]]]; auto.
  - intros addr Hout. rewrite <- Hview1. by eapply cut_view.
  - intros -> addr Hin. eapply cut_view_done; try done. unfold in_range in Hin. rewrite andb_true_iff, Z.leb_le, Z.ltb_lt in Hin. lia.
Qed.

Lemma unmap_one_spec m t vr :
  mm_ok m t -> vr ∈ elements t -> Z.of_nat (List.length (elements t)) + 1 < Z.of_nat fuel -> fresh a t ->
  Z.max start (region_key m vr) < Z.min limit (end_of m vr) ->
  (exists m' t' ret, unmap_one fuel a start limit vr m = Ret (m', ret) /\ one_done a m t vr start limit m' t' ret) \/
    a_memory a = false /\ unmap_one fuel a start limit vr m = Crash NullDeref.
Proof.
  intros Hok Hv Hf (Hu1 & Hu2 & Hdis) Hlt. pose proof (mm_regions _ _ Hok vr Hv) as [R1 R2 R3 R4 R5 R6].
  assert (end_of m vr mod ARCH_PG_SIZE = 0) as R7. { unfold end_of. by rewrite Zplus_mod, R4, R5. }
  assert (addu (vir_addr (regions m vr)) (length (regions m vr)) = end_of m vr) as Hadd.
  { unfold addu, end_of. apply wrapu_small. unfold VM_STACK_TOP, ARCH_PG_SIZE in *. lia. }
  unfold unmap_one. rewrite Hadd. change (vir_addr (regions m vr)) with (region_key m vr) in *.
  set (cs := Z.max start (region_key m vr)) in *. set (cl := Z.min limit (end_of m vr)) in *.
  assert (cs mod ARCH_PG_SIZE = 0) as Hcs by (unfold cs; destruct (Z.max_spec start (region_key m vr)) as [[_ ->]|[_ ->]]; done).
  assert (cl mod ARCH_PG_SIZE = 0) as Hcl by (unfold cl; destruct (Z.min_spec limit (end_of m vr)) as [[_ ->]|[_ ->]]; done).
  destruct ((region_key m vr <? cs) && (cl <? end_of m vr)) eqn:Hmid.
  - apply andb_true_iff in Hmid as [M1%Z.ltb_lt M2%Z.ltb_lt].
    rewrite (proj2 (Z.leb_gt _ _)), (proj2 (Z.leb_gt _ _)) by (unfold end_of, region_key in *; lia). cbn [orb]. rewrite (mod_sub cl (region_key m vr)) by done.
    set (k := pages_of (cl - region_key m vr)). assert (cl - region_key m vr = k * ARCH_PG_SIZE) as Hkk by (by apply mod_sub).
    assert (cs = start) as Ecs by lia. assert (cl = limit) as Ecl by lia. rewrite Ecs, Ecl in *.
    apply (split_one m t vr k); done.
  - cbn [mbind res_mbind]. cbv zeta. assert (cs = region_key m vr \/ cl = end_of m vr) as Hend.
    { rewrite andb_false_iff, Z.ltb_ge, Z.ltb_ge in Hmid. lia. }
    destruct (unmap_piece (a_memory a) m t vr cs cl Hok Hv ltac:(lia) Hcs Hcl Hlt ltac:(lia) ltac:(lia) Hend) as [(m' & t' & ret & He & Hc)|Hcrash];
      [left|by right]. exists m', t', ret. split; [exact He|]. by apply cut_one.
Qed.
End one.

(** ** All the regions of the range *)

Record range_done (answers : Z -> unmap_answers) (m : mm_struct) (t : tree) (start limit : Z) (m' : mm_struct) (t' : tree) (ret : Z) : Prop := {
  rd_ok : mm_ok m' t';
  rd_outside : forall addr, in_range start limit addr = false -> view m' addr = view m addr;
  rd_done : ret = 0 -> forall addr, in_range start limit addr = true -> view m' addr = None;
  rd_size : Z.of_nat (List.length (elements t')) <= Z.of_nat (List.length (elements t)) + 1 /\ ht t' <= ht t + 3;
  rd_members : forall x, x ∈ elements t' -> x ∈ elements t \/ exists n, a_memory1 (answers n) = Some x \/ a_memory2 (answers n) = Some x
}.

(** The region an iterator is at *)
Definition at_region (o : option (list Z * Z * list Z)) : Z := match o with None => 0 | Some (_, n, _) => n end.

(** No address below the region of the iterator is in use. *)
Definition clear_below (m : mm_struct) (start limit : Z) (o : option (list Z * Z * list Z)) : Prop :=
  forall addr, in_range start limit addr = true -> match o with None => True | Some (_, n, _) => addr < region_key m n end -> view m addr = None.

Lemma view_gap m t L n R addr :
  mm_ok m t -> elements t = L ++ n :: R -> end_of m n <= addr ->
  match first_of (L ++ [n]) R with None => True | Some (_, x, _) => addr < region_key m x end -> view m addr = None.
Proof.
  intros Hok He Hend Hnext. apply (view_none m t addr Hok). intros x o Hx Ho%shows_in. assert (n ∈ elements t) as Hn by (rewrite He; set_solver).
  pose proof (mm_regions _ _ Hok n Hn) as []. pose proof (mm_sorted _ _ Hok) as Hs. rewrite He in Hx, Hs.
  apply elem_of_app in Hx as [Hx|[->|Hx]%elem_of_cons].
  - pose proof (proj1 (sorted_middle _ _ _ _ x Hs) Hx) as Hlt.
    pose proof (mm_apart _ _ Hok x n ltac:(rewrite He; set_solver) Hn Hlt). unfold end_of, region_key in *. lia.
  - unfold end_of, region_key in *. lia.
  - destruct R as [|y R]; [by apply elem_of_nil in Hx|]. cbn [first_of] in Hnext. replace (L ++ n :: y :: R) with ((L ++ [n]) ++ y :: R) in Hs by (by rewrite <- app_assoc).
    apply elem_of_cons in Hx as [->|Hx]; [unfold region_key in *; lia|]. pose proof (proj2 (sorted_middle _ _ _ _ x Hs) Hx). unfold region_key in *. lia.
Qed.

Section range.
Context (fa : nat) (answers : Z -> unmap_answers) (start limit : Z).
Hypothesis Hstart : start mod ARCH_PG_SIZE = 0.
Hypothesis Hlimit : limit mod ARCH_PG_SIZE = 0.
Hypothesis Hlt : start < limit.

Lemma clear_after m t L n R m' t' :
  mm_ok m t -> elements t = L ++ n :: R -> clear_below m start limit (Some (L, n, R)) -> one_done (answers n) m t n start limit m' t' 0 ->
  clear_below m' start limit (first_of (L ++ [n]) R).
Proof.
  intros Hok He Hclear [O1 O2 O3 _ O4 O5 _ _] addr Hin Hnext.
  assert (match first_of (L ++ [n]) R with None => True | Some (_, x, _) => addr < region_key m x end) as Hnext'.
  { destruct R as [|y R]; [done|]. cbn [first_of] in *. unfold region_key in *. pose proof (sorted_NoDup _ _ (mm_sorted _ _ Hok)) as Hnd. rewrite He in Hnd.
    rewrite (proj2 (O2 y ltac:(rewrite He; set_solver) ltac:(intros ->; apply NoDup_app in Hnd as (_ & _ & [? _]%NoDup_cons); set_solver))) in Hnext. done. }
  destruct (in_range (Z.max start (region_key m n)) (Z.min limit (end_of m n)) addr) eqn:Hi; [by apply O5|]. rewrite O4 by done.
  destruct (Z.lt_ge_cases addr (region_key m n)); [by apply Hclear|]. apply (view_gap m t L n R); try done. unfold in_range in *.
  rewrite andb_true_iff, Z.leb_le, Z.ltb_lt in Hin. rewrite andb_false_iff, Z.leb_gt, Z.ltb_ge in Hi. lia.
Qed.

(** The regions behind the next one are those that were. *)
Lemma rest_shorter m t L n y R m' t' ret L' R' :
  mm_ok m t -> elements t = L ++ n :: y :: R -> one_done (answers n) m t n start limit m' t' ret -> elements t' = L' ++ y :: R' ->
  (List.length R' <= List.length R)%nat.
Proof.
  intros Hok He [O1 O2 O3 _ _ _ _ _] He'. pose proof (mm_sorted _ _ Hok) as Hs. pose proof (mm_sorted _ _ O1) as Hs'. rewrite He' in Hs'.
  pose proof (sorted_NoDup _ _ Hs) as Hnd. assert (y <> n) as Hyn.
  { intros ->. rewrite He in Hnd. apply NoDup_app in Hnd as (_ & _ & [? _]%NoDup_cons). set_solver. }
  destruct (O2 y ltac:(rewrite He; set_solver) Hyn) as [_ Hy]. rewrite He in Hs.
  pose proof (proj2 (sorted_middle _ L n (y :: R) y Hs) ltac:(set_solver)) as Hny. apply (mm_apart _ _ Hok) in Hny; [|rewrite He; set_solver..].
  replace (L ++ n :: y :: R) with ((L ++ [n]) ++ y :: R) in Hs by (by rewrite <- app_assoc).
  apply submseteq_length, NoDup_submseteq.
  - apply sorted_NoDup in Hs'. apply NoDup_app in Hs' as (_ & _ & [_ ?]%NoDup_cons). done.
  - intros x Hx. pose proof (proj2 (sorted_middle _ _ _ _ x Hs') Hx) as Hyx. assert (x ∈ elements t') as Hxt by (rewrite He'; set_solver).
    assert (region_key m' y = region_key m y) as Eky by (unfold region_key; by rewrite Hy). destruct (O3 x Hxt) as [[Hxo Hxn]|Hend].
    + destruct (O2 x Hxo Hxn) as [_ Hxr]. assert (region_key m' x = region_key m x) as Ekx by (unfold region_key; by rewrite Hxr).
      rewrite He in Hxo. replace (L ++ n :: y :: R) with ((L ++ [n]) ++ y :: R) in Hxo by (by rewrite <- app_assoc).
      apply elem_of_app in Hxo as [Hxo|[->|Hxo]%elem_of_cons]; [|lia|done]. pose proof (proj1 (sorted_middle _ _ _ _ x Hs) Hxo). lia.
    + pose proof (mm_regions _ _ O1 x Hxt) as []. unfold end_of, region_key in *. lia.
Qed.

(** What the loop comes to *)
Definition loop_result (m : mm_struct) (t : tree) (call : res (mm_struct * Z)) : Prop :=
  (exists m' t' ret, call = Ret (m', ret) /\ range_done answers m t start limit m' t' ret) \/
  (exists x, a_memory (answers x) = false) /\ call = Crash NullDeref.

Lemma one_range m t n m' t' ret :
  one_done (answers n) m t n start limit m' t' ret -> (ret = 0 -> forall addr, in_range start limit addr = true -> view m' addr = None) ->
  range_done answers m t start limit m' t' ret.
Proof.
  intros [O1 O2 O3 OM O4 O5 O6 O7] Hd. split; try done; [|intros x [?|?]%OM; eauto]. intros addr Hout. apply O4. unfold in_range in *.
  rewrite andb_false_iff, Z.leb_gt, Z.ltb_ge in *. lia.
Qed.

Lemma range_trans m t n m1 t1 call :
  one_done (answers n) m t n start limit m1 t1 0 -> end_of m n <= limit -> loop_result m1 t1 call -> loop_result m t call.
Proof.
  intros [O1 O2 O3 OM O4 O5 O6 O7] Hend [(m' & t' & ret & He & [D1 D2 D3 D4 D5])|Hc]; [left|by right]. exists m', t', ret. split; [done|].
  destruct (O7 Hend) as (Hsub & ? & ?). split; try done; [|lia|intros x [?%Hsub|?]%D5; auto]. intros addr Hout. rewrite D2 by done. apply O4. unfold in_range in *.
  rewrite andb_false_iff, Z.leb_gt, Z.ltb_ge in *. lia.
Qed.

Lemma fresh_subset a t t' : (forall x, x ∈ elements t' -> x ∈ elements t) -> fresh a t -> fresh a t'.
Proof. intros Hs (H1 & H2 & H3). split; [|split; [|done]]; intros v E; [destruct (H1 v E)|destruct (H2 v E)]; auto. Qed.

(** The iterator is found again in the tree that is left. *)
Lemma restart_spec m t L n y R m' t' ret it :
  mm_ok m t -> elements t = L ++ n :: y :: R -> ht t' <= 32 -> one_done (answers n) m t n start limit m' t' ret ->
  exists it' L' R', start_region_iter (vir_addr (regions m' y)) AVL_EQUAL it m' = Ret it' /\ iter_at it' t' (Some (L', y, R')) /\ y <> 0 /\
    region_key m' y = region_key m y /\ end_of m n <= region_key m y /\ (List.length R' <= List.length R)%nat.
Proof.
  intros Hok He Hht Hone. assert (y <> n) as Hyn.
  { intros ->. pose proof (region_NoDup m t Hok) as Hnd. rewrite He in Hnd. apply NoDup_app in Hnd as (_ & _ & [? _]%NoDup_cons). set_solver. }
  assert (y ∈ elements t) as Hyt by (rewrite He; set_solver). destruct (o_others _ _ _ _ _ _ _ _ _ Hone y Hyt Hyn) as [Hy Hsame].
  pose proof Hy as (L' & R' & He')%list_elem_of_split. pose proof (o_ok _ _ _ _ _ _ _ _ _ Hone) as Hok'.
  destruct (start_at_equal (avl m') (mem_avl m') t' (mm_rep _ _ Hok') Hht (region_NoDup m' t' Hok') (region_key m') (region_key m' y)
    (mm_sorted _ _ Hok') it L' y R' He' eq_refl) as (it' & Hs & Hat). exists it', L', R'. split; [exact Hs|]. split; [done|].
  split; [by apply (region_nonzero m t Hok)|]. split; [unfold region_key; by rewrite Hsame|].
  split; [|by apply (rest_shorter m t L n y R m' t' ret L' R')]. apply (mm_apart _ _ Hok); [rewrite He; set_solver|done|]. pose proof (mm_sorted _ _ Hok) as Hso. rewrite He in Hso.
  apply (proj2 (sorted_middle _ L n (y :: R) y Hso)). set_solver.
Qed.

Lemma unmap_loop_spec fuel it m t o :
  mm_ok m t -> ht t <= 29 -> Z.of_nat (List.length (elements t)) + 1 < Z.of_nat fa -> (forall x, fresh (answers x) t) -> iter_at it t o ->
  (match o with None => 0 | Some (_, _, R) => S (List.length R) end < fuel)%nat -> clear_below m start limit o ->
  loop_result m t (unmap_loop fuel fa answers start limit (at_region o) it m).
Proof.
  revert it m t o. induction fuel as [|fuel IH]; intros it m t o Hok Hht Hfa Hfresh Hat Hf Hclear; [lia|]. cbn [unmap_loop].
  destruct o as [[[L n] R]|]; cbn [at_region]; cycle 1.
  { cbn. left. exists m, t, 0. split; [done|]. split; try done; [|lia|auto]. intros _ addr Hin. by apply Hclear. }
  pose proof (iter_at_elements _ _ _ _ _ Hat) as He. assert (n ∈ elements t) as Hn by (rewrite He; set_solver).
  destruct (end_of_range m t Hok n Hn) as (Hadd & _ & Hke & _). rewrite (proj2 (Z.eqb_neq n 0)) by (by apply (region_nonzero m t Hok)). cbn [orb].
  change (vir_addr (regions m n)) with (region_key m n) in *. destruct (Z.leb_spec limit (region_key m n)) as [Hle|Hgt].
  { left. exists m, t, 0. split; [done|]. split; try done; [|lia|auto]. intros _ addr Hin. apply Hclear; [done|]. unfold in_range in Hin.
    rewrite andb_true_iff, Z.leb_le, Z.ltb_lt in Hin. lia. }
  destruct (inc_iter_at (avl m) (mem_avl m) t (mm_rep _ _ Hok) ltac:(lia) (region_NoDup m t Hok) it L n R Hat) as (it' & Hinc & Hat').
  unfold region_avl_inc_iter. rewrite Hinc. cbn [mbind res_mbind]. rewrite (region_get_iter m t Hok it' _ Hat'), Hadd. fold (at_region (first_of (L ++ [n]) R)).
  destruct (Z.leb_spec (Z.min limit (end_of m n)) (Z.max start (region_key m n))) as [Hskip|Hdo].
  { apply IH; try done; [destruct R; cbn [first_of List.length] in *; lia|]. intros addr Hin Hnext.
    destruct (Z.lt_ge_cases addr (region_key m n)); [by apply Hclear|]. apply (view_gap m t L n R); try done.
    unfold in_range in Hin. rewrite andb_true_iff, Z.leb_le, Z.ltb_lt in Hin. lia. }
  destruct (unmap_one_spec fa (answers n) start limit Hstart Hlimit m t n Hok Hn Hfa (Hfresh n) Hdo) as [(m1 & t1 & ret & -> & Hone)|[Hmem ->]];
    [|right; split; [by exists n|done]]. cbn [mbind res_mbind]. destruct (Z.eqb_spec ret 0) as [->|Hret]; cbn [negb]; cycle 1.
  { left. exists m1, t1, ret. split; [done|]. by apply (one_range m t n). }
  pose proof (clear_after m t L n R m1 t1 Hok He Hclear Hone) as Hclear1. destruct R as [|y R]; cbn [first_of at_region] in *.
  { cbn. destruct fuel as [|fuel]; [cbn in Hf; lia|]. cbn. left. exists m1, t1, 0. split; [done|]. apply (one_range m t n); [done|]. intros _ addr Hin.
    by apply Hclear1. }
  destruct (o_size _ _ _ _ _ _ _ _ _ Hone) as [Hsz1 Hht1]. destruct (restart_spec m t L n y R m1 t1 0 it' Hok He ltac:(lia) Hone)
    as (it2 & L' & R' & -> & Hat2 & Hy & Hky & Hend & Hlen). rewrite (proj2 (Z.eqb_neq y 0) Hy). cbn [mbind res_mbind].
  pose proof (o_ok _ _ _ _ _ _ _ _ _ Hone) as Hok1. rewrite (region_get_iter m1 t1 Hok1 it2 _ Hat2), Z.eqb_refl. cbn [negb].
  destruct (Z.le_gt_cases (end_of m n) limit) as [Hin|Hover].
  - apply (range_trans m t n m1 t1); [done|done|]. destruct (o_shrinks _ _ _ _ _ _ _ _ _ Hone Hin) as (Hsub & Hsz2 & Hht2).
    apply (IH it2 m1 t1 (Some (L', y, R'))); try done; try lia.
    + intros x. by eapply fresh_subset.
    + cbn [List.length] in Hf. lia.
  - destruct fuel as [|fuel]; [cbn in Hf; lia|]. cbn [unmap_loop]. change (vir_addr (regions m1 y)) with (region_key m1 y).
    rewrite (proj2 (Z.leb_le limit (region_key m1 y))), orb_true_r by lia. left. exists m1, t1, 0. split; [done|]. apply (one_range m t n); [done|].
    intros _ addr Hr. apply Hclear1; [done|]. unfold in_range in Hr. rewrite andb_true_iff, Z.leb_le, Z.ltb_lt in Hr. lia.
Qed.

(** The first region of the range: the last one that starts at its start or before, or the first one behind it *)
Lemma range_start fuel it m t :
  mm_ok m t -> ht t <= 29 -> Z.of_nat (List.length (elements t)) + 1 < Z.of_nat fuel -> fa = fuel -> (forall x, fresh (answers x) t) ->
  loop_result m t
    (it ← start_region_iter start AVL_LESS_EQUAL it m;
     if negb (region_avl_get_iter it m =? 0) then unmap_loop fuel fuel answers start limit (region_avl_get_iter it m) it m
     else
       it ← start_region_iter start AVL_GREATER it m;
       if region_avl_get_iter it m =? 0 then Ret (m, 0)
       else unmap_loop fuel fuel answers start limit (region_avl_get_iter it m) it m).
Proof.
  intros Hok Hht Hf Hfa Hfresh. pose proof (mm_sorted _ _ Hok) as Hs. pose proof (sorted_split (region_key m) (start + 1) _ Hs) as Hsp.
  set (A := filter (fun n => region_key m n < start + 1) (elements t)) in *. set (B := filter (fun n => start + 1 <= region_key m n) (elements t)) in *.
  assert (forall n, n ∈ A -> region_key m n <= start) as HA by (intros n [? _]%list_elem_of_filter; lia).
  assert (forall n, n ∈ B -> start < region_key m n) as HB by (intros n [? _]%list_elem_of_filter; lia).
  destruct (start_at_last (avl m) (mem_avl m) t (mm_rep _ _ Hok) ltac:(lia) (region_NoDup m t Hok) (region_key m) start Hs AVL_LESS_EQUAL it A B)
    as (it1 & Hs1 & Hat1); [done|done|..].
  { intros n Hn%HA. unfold wanted, compare_key. destruct (Z.ltb_spec start (region_key m n)); [lia|]. by destruct (region_key m n <? start). }
  { intros n Hn%HB. unfold wanted, compare_key. by rewrite (proj2 (Z.ltb_lt start (region_key m n)) Hn). }
  change (start_region_iter start AVL_LESS_EQUAL it m = Ret it1) in Hs1. rewrite Hs1. cbn [mbind res_mbind].
  rewrite (region_get_iter m t Hok it1 _ Hat1). assert (forall addr, in_range start limit addr = true -> start <= addr) as Hge.
  { intros addr Hr. unfold in_range in Hr. rewrite andb_true_iff, Z.leb_le in Hr. lia. }
  assert (List.length (elements t) = List.length A + List.length B)%nat as Hlen by (rewrite Hsp at 1; apply length_app).
  destruct (last_of A B) as [[[L n] R]|] eqn:Hlast; unfold last_of in Hlast; destruct (rev A) as [|y A'] eqn:HrA; try done.
  - injection Hlast as <- -> ->. assert (n ∈ A) as Hn by (rewrite (Permutation_rev A), HrA; set_solver).
    rewrite (proj2 (Z.eqb_neq n 0)) by (apply (region_nonzero m t Hok); rewrite Hsp; set_solver). cbn [negb]. rewrite <- Hfa.
    apply (f_equal List.length) in HrA. rewrite length_rev in HrA. cbn in HrA.
    apply (unmap_loop_spec fa it1 m t (Some (rev A', n, R))); try done; try lia.
    intros addr Hr%Hge Hlow. specialize (HA n Hn). lia.
  - change (0 =? 0) with true. cbn [negb]. assert (A = []) as EA by (by rewrite <- (rev_involutive A), HrA). rewrite EA in *. cbn [app] in Hsp.
    destruct (start_at_first (avl m) (mem_avl m) t (mm_rep _ _ Hok) ltac:(lia) (region_NoDup m t Hok) (region_key m) start Hs AVL_GREATER it1 [] B)
      as (it2 & Hs2 & Hat2); [done|done|by intros n Hn%elem_of_nil|..].
    { intros n Hn%HB. unfold wanted, compare_key. by rewrite (proj2 (Z.ltb_lt start (region_key m n)) Hn). }
    change (start_region_iter start AVL_GREATER it1 m = Ret it2) in Hs2. rewrite Hs2. cbn [mbind res_mbind]. rewrite (region_get_iter m t Hok it2 _ Hat2).
    destruct B as [|b B'] eqn:EB; cbn [first_of] in *.
    + left. exists m, t, 0. split; [done|]. split; try done; [|lia|auto]. intros _ addr _. apply (view_none m t addr Hok). intros x o Hx.
      rewrite Hsp in Hx. by apply elem_of_nil in Hx.
    + rewrite (proj2 (Z.eqb_neq b 0)) by (apply (region_nonzero m t Hok); rewrite Hsp; set_solver). rewrite <- Hfa.
      apply (unmap_loop_spec fa it2 m t (Some ([], b, B'))); try done; try lia; [cbn in Hlen; lia|]. intros addr _ Hlow.
      apply (view_none m t addr Hok). intros x o Hx Ho%shows_in. rewrite Hsp in Hx, Hs. apply elem_of_cons in Hx as [->|Hx]; [unfold region_key in *; lia|].
      pose proof (proj2 (sorted_middle _ [] b B' x Hs) Hx). unfold region_key in *. lia.
Qed.
End range.
