(* ===== verification/RegionSpace.v ===== *)
(** * Address spaces

    Theorems on [Region]: what mapping and unmapping do to an address space, and
    that every sequence of them keeps its regions in order. *)

From stdpp Require Import sorting.
From S2P Require Import Prelude Avl AvlTree AvlProps AvlIter Region RegionProps RegionPages RegionUnmap RegionRange.

(** ** Unmapping *)

Lemma roundup_spec x : 0 <= x -> x + ARCH_PG_SIZE <= 2 ^ 64 -> roundup x ARCH_PG_SIZE mod ARCH_PG_SIZE = 0 /\ x <= roundup x ARCH_PG_SIZE < x + ARCH_PG_SIZE.
Proof.
  intros H0 H1. unfold roundup. pose proof (Z.mod_pos_bound x ARCH_PG_SIZE ltac:(done)) as Hb.
  destruct (Z.eqb_spec (x mod ARCH_PG_SIZE) 0) as [Hz|Hz]; [unfold ARCH_PG_SIZE in *; lia|]. rewrite wrapu_small by lia. split; [|lia].
  pose proof (Z.div_mod x ARCH_PG_SIZE ltac:(done)) as Hd. replace (x + ARCH_PG_SIZE - x mod ARCH_PG_SIZE) with ((x / ARCH_PG_SIZE + 1) * ARCH_PG_SIZE) by lia.
  by apply Z.mod_mul.
Qed.

(** The pages that have addresses of a range *)
Definition first_page (addr : Z) : Z := addr - addr mod ARCH_PG_SIZE.
Definition last_page (addr len : Z) : Z := first_page addr + roundup (addr mod ARCH_PG_SIZE + len) ARCH_PG_SIZE.

Lemma page_range addr len :
  0 <= addr -> 0 < len -> addr + len + ARCH_PG_SIZE <= 2 ^ 64 ->
  first_page addr mod ARCH_PG_SIZE = 0 /\ last_page addr len mod ARCH_PG_SIZE = 0 /\ 0 <= first_page addr < last_page addr len /\ last_page addr len < 2 ^ 64 /\
  first_page addr <= addr /\ addr + len <= last_page addr len < addr + len + ARCH_PG_SIZE.
Proof.
  intros H0 Hl Hw. unfold last_page, first_page. pose proof (Z.mod_pos_bound addr ARCH_PG_SIZE ltac:(done)) as Hb.
  pose proof (Z.div_mod addr ARCH_PG_SIZE ltac:(done)) as Hd. pose proof (Z.div_pos addr ARCH_PG_SIZE H0 ltac:(done)).
  assert (addr mod ARCH_PG_SIZE <= addr) by (unfold ARCH_PG_SIZE in *; lia).
  destruct (roundup_spec (addr mod ARCH_PG_SIZE + len)) as [Hr1 Hr2]; [lia|lia|].
  assert ((addr - addr mod ARCH_PG_SIZE) mod ARCH_PG_SIZE = 0) as Hf.
  { replace (addr - addr mod ARCH_PG_SIZE) with (addr / ARCH_PG_SIZE * ARCH_PG_SIZE) by lia. by apply Z.mod_mul. }
  split; [done|]. split; [by rewrite Zplus_mod, Hf, Hr1|]. lia.
Qed.

Lemma unmap_range_spec fuel answers it m t addr len :
  mm_ok m t -> ht t <= 29 -> Z.of_nat (List.length (elements t)) + 1 < Z.of_nat fuel -> (forall x, fresh (answers x) t) ->
  0 <= addr -> 0 < len -> addr + len + ARCH_PG_SIZE <= 2 ^ 64 ->
  loop_result answers (first_page addr) (last_page addr len) m t (region_unmap_range fuel answers it addr len m).
Proof.
  intros Hok Hht Hf Hfresh H0 Hl Hw. destruct (page_range addr len H0 Hl Hw) as (P1 & P2 & P3 & P4 & P5 & P6). unfold region_unmap_range.
  fold (first_page addr). pose proof (Z.mod_pos_bound addr ARCH_PG_SIZE ltac:(done)) as Hb. assert (addr mod ARCH_PG_SIZE <= addr) by (by apply Z.mod_le).
  assert (addu len (addr mod ARCH_PG_SIZE) = addr mod ARCH_PG_SIZE + len) as -> by (unfold addu; rewrite wrapu_small; lia).
  assert (addu (first_page addr) (roundup (addr mod ARCH_PG_SIZE + len) ARCH_PG_SIZE) = last_page addr len) as -> by (unfold addu; rewrite wrapu_small; unfold last_page in *; lia).
  apply (range_start fuel); try done. lia.
Qed.

(** ** Mapping *)

(** Pages of a region of [len] bytes *)
Definition pages_ok (len : Z) (pages : Z -> option phys_region) : Prop :=
  forall i p, pages i = Some p -> 0 <= i < len / ARCH_PG_SIZE /\ offset p = i * ARCH_PG_SIZE.

Definition answers_ok (len : Z) (a : map_answers) (t : tree) : Prop :=
  unused t (memory a) /\ (forall pages, handle_memory a = Some pages -> pages_ok len pages).

(** The pages a new region has *)
Definition new_pages (map_flags : Z) (a : map_answers) : option (Z -> option phys_region) :=
  if has_flag map_flags MRF_PREALLOC then handle_memory a else Some (fun _ => None).

(** What [region_map] promises: a region in a range that was free, or nothing *)
Definition map_done (m : mm_struct) (minv maxv len map_flags : Z) (a : map_answers) (m' : mm_struct) (vr : Z) : Prop :=
  (vr = 0 /\ (forall addr, view m' addr = view m addr) /\
     (memory a = None \/ rop_new a = false \/ new_pages map_flags a = None \/
      (forall v, minv <= v -> v + len <= upper minv maxv len -> exists addr, in_range v (v + len) addr = true /\ view m addr <> None))) \/
  (memory a = Some vr /\ vr ∈ mem_regions m' /\ exists v pages, new_pages map_flags a = Some pages /\ v mod ARCH_PG_SIZE = 0 /\ minv <= v /\ v + len <= upper minv maxv len /\
     vir_addr (regions m' vr) = v /\ length (regions m' vr) = len /\
     forall addr, if in_range v (v + len) addr then view m addr = None /\ view m' addr = Some (page <$> pages ((addr - v) / ARCH_PG_SIZE))
                  else view m' addr = view m addr).

Lemma free_view m t v len addr : mm_ok m t -> free_range m t v len -> in_range v (v + len) addr = true -> view m addr = None.
Proof.
  intros Hok Hfree Hin. apply (view_none m t addr Hok). intros x o Hx Ho%shows_in. unfold in_range in Hin. rewrite andb_true_iff, Z.leb_le, Z.ltb_lt in Hin.
  destruct (Hfree x Hx); unfold end_of, region_key in *; lia.
Qed.

(** A range that is not free has an address in use. *)
Lemma not_free_view m t v len :
  mm_ok m t -> 0 < len -> ~ free_range m t v len -> exists addr, in_range v (v + len) addr = true /\ view m addr <> None.
Proof.
  intros Hok Hl Hnot. assert (Exists (fun vr => ~ (v + len <= region_key m vr \/ end_of m vr <= v)) (elements t)) as (vr & Hv & Hx)%Exists_exists.
  { apply not_Forall_Exists; [intros x; apply _|]. rewrite Forall_forall. exact Hnot. }
  pose proof (mm_regions _ _ Hok vr Hv) as []. exists (Z.max v (region_key m vr)). unfold end_of, region_key in *. split.
  - unfold in_range. rewrite andb_true_iff, Z.leb_le, Z.ltb_lt. lia.
  - assert (exists o, shows (regions m vr) (Z.max v (vir_addr (regions m vr))) = Some o) as [o Ho].
    { unfold shows, in_range. rewrite (proj2 (Z.leb_le _ _)), (proj2 (Z.ltb_lt _ _)) by lia. cbn. eauto. }
    rewrite (proj2 (view_spec m t _ o Hok)); [done|eauto].
Qed.

(** A new region in a free range *)
Lemma link_new fuel vr m m1 t v len pages :
  mm_ok m t -> keeps t m m1 -> vr ∉ elements t -> vr <> 0 -> Z.of_nat (List.length (elements t)) < Z.of_nat fuel -> free_range m t v len ->
  region_ok (regions m1 vr) -> vir_addr (regions m1 vr) = v -> length (regions m1 vr) = len -> (forall i, phys_regions (regions m1 vr) i = pages i) ->
  exists m' t', link_region fuel vr m1 = Ret m' /\ mm_ok m' t' /\ regions m' = regions m1 /\
    Z.of_nat (List.length (elements t')) <= Z.of_nat (List.length (elements t)) + 1 /\ ht t' <= ht t + 1 /\
    (forall x, x ∈ elements t' <-> x = vr \/ x ∈ elements t) /\
    forall addr, if in_range v (v + len) addr then view m addr = None /\ view m' addr = Some (page <$> pages ((addr - v) / ARCH_PG_SIZE))
                 else view m' addr = view m addr.
Proof.
  intros Hok Hkeep Hvt Hv0 Hf Hfree Hr Hva Hlen Hp. pose proof (keeps_ok t m m1 Hkeep Hok) as Hok1.
  assert (forall x, x ∈ elements t -> end_of m1 x <= v \/ v + len <= region_key m1 x) as Hside.
  { intros x Hx. unfold end_of, region_key. rewrite (k_regions _ _ _ Hkeep x Hx). destruct (Hfree x Hx); unfold end_of, region_key in *; lia. }
  assert (0 < len) as Hlen0 by (rewrite <- Hlen; apply Hr).
  destruct (link_spec fuel vr m1 t (mm_tree _ _ Hok1) Hvt Hv0) as (m' & t' & He & Ht' & [Hr' _] & Hin & Hsz & Hht); [|done|].
  { intros x Hx. pose proof (mm_regions _ _ Hok1 x Hx) as []. unfold region_key. rewrite Hva. destruct (Hside x Hx); unfold end_of, region_key in *; lia. }
  assert (mm_ok m' t') as Hok'.
  { destruct Ht' as [T1 T2 T3]. split; try done; unfold end_of, region_key in *; rewrite Hr'.
    - intros x [->|Hx]%Hin; [done|]. by apply Hok1.
    - intros x y [->|Hx]%Hin [->|Hy]%Hin; rewrite ?Hva, ?Hlen; [lia|..].
      + pose proof (mm_regions _ _ Hok1 y Hy) as []. specialize (Hside y Hy). lia.
      + pose proof (mm_regions _ _ Hok1 x Hx) as []. specialize (Hside x Hx). lia.
      + by apply (mm_apart _ _ Hok1). }
  exists m', t'. split; [done|]. split; [done|]. split; [done|]. split; [lia|]. split; [done|]. split; [done|]. intros addr.
  rewrite <- (keeps_view t m m1 addr Hok Hkeep). destruct (in_range v (v + len) addr) eqn:Hi.
  - split; [rewrite (keeps_view t m m1 addr Hok Hkeep); by eapply free_view|]. apply (view_spec m' t' addr _ Hok'). exists vr.
    split; [apply Hin; auto|]. unfold shows. by rewrite Hr', Hva, Hlen, Hi, Hp.
  - apply option_eq. intros o. rewrite (view_spec m' t' addr o Hok'), (view_spec m1 t addr o Hok1), Hr'. split.
    + intros (x & [->|Hx]%Hin & Ho); [|eauto]. unfold shows in Ho. by rewrite Hva, Hlen, Hi in Ho.
    + intros (x & Hx & Ho). exists x. split; [|done]. apply Hin. auto.
Qed.

(** The region is made, filled and linked. *)
Lemma map_new fuel vr a m t v len fl map_flags ops :
  mm_ok m t -> vr ∉ elements t -> vr <> 0 -> Z.of_nat (List.length (elements t)) < Z.of_nat fuel -> 0 < len -> len mod ARCH_PG_SIZE = 0 ->
  (forall pages, handle_memory a = Some pages -> pages_ok len pages) -> ARCH_PG_SIZE <= v -> v mod ARCH_PG_SIZE = 0 -> v + len <= VM_STACK_TOP -> free_range m t v len ->
  exists m' r, ('(m, vr) ← region_new (Some vr) v len fl ops m;
     if vr =? 0 then Ret (m, 0)
     else if negb (rop_new a) then Ret (m, 0)
     else
       let fill := if has_flag map_flags MRF_PREALLOC then handle_memory a else Some (phys_regions (regions m vr)) in
       match fill with
       | None => m ← region_free vr m; Ret (m, 0)
       | Some pages =>
           let m := upd_region vr (fun r => r <| phys_regions := pages |> <| flags ::= fun x => clear_flag x RF_UNINITIALIZED |>) m in
           m ← link_region fuel vr m;
           Ret (m, vr)
       end) = Ret (m', r) /\
    ((r = 0 /\ keeps t m m' /\ (rop_new a = false \/ new_pages map_flags a = None)) \/
     (r = vr /\ exists t' pages, mm_ok m' t' /\ new_pages map_flags a = Some pages /\ vir_addr (regions m' vr) = v /\ length (regions m' vr) = len /\
      Z.of_nat (List.length (elements t')) <= Z.of_nat (List.length (elements t)) + 1 /\ ht t' <= ht t + 1 /\
      (forall x, x ∈ elements t' <-> x = vr \/ x ∈ elements t) /\
      forall addr, if in_range v (v + len) addr then view m addr = None /\ view m' addr = Some (page <$> pages ((addr - v) / ARCH_PG_SIZE))
                   else view m' addr = view m addr)).
Proof.
  intros Hok Hvt Hv0 Hf Hl Hlm Hpg Hv1 Hva Hv2 Hfree. unfold region_new, phys_slot. rewrite Hlm. cbn [Z.eqb negb mbind res_mbind].
  rewrite (proj2 (Z.eqb_neq vr 0) Hv0). set (m1 := m <| regions ::= _ |>).
  assert (regions m1 vr = mk_region v len fl ops (fun _ => None)) as Hm1 by apply fn_lookup_insert.
  assert (keeps t m m1) as K1. { split; try done. intros x Hx. apply fn_lookup_insert_ne. by intros ->. }
  destruct (rop_new a); cbn [negb]; [|exists m1, 0; split; [done|left; auto]]. rewrite Hm1. cbn [phys_regions]. fold (new_pages map_flags a).
  destruct (new_pages map_flags a) as [pages|] eqn:Hnew; cycle 1.
  { destruct (free_spec vr m1) as (m2 & -> & Hop); rewrite ?Hm1; [by intros i p|done|cbn; unfold VM_STACK_TOP, ARCH_PG_SIZE in *; lia|].
    exists m2, 0. split; [done|]. left. split; [done|]. split; [|auto]. eapply keeps_trans; [done|]. by apply (keeps_pages t vr). }
  set (m2 := upd_region vr _ m1). assert (pages_ok len pages) as Hpo.
  { unfold new_pages in Hnew. destruct (has_flag _ _); [by apply Hpg|]. injection Hnew as <-. by intros i p. }
  assert (regions m2 vr = mk_region v len (clear_flag fl RF_UNINITIALIZED) ops pages) as Hm2. { unfold m2. by rewrite upd_region_eq, Hm1. }
  assert (keeps t m m2) as K2.
  { eapply keeps_trans; [done|]. split; try done. intros x Hx. apply upd_region_ne. by intros ->. }
  destruct (link_new fuel vr m m2 t v len pages) as (m' & t' & -> & Hok' & Hr' & Hsz & Hht & Hin & Hview); rewrite ?Hm2; try done.
  exists m', vr. split; [done|]. right. split; [done|]. exists t', pages. rewrite Hr', Hm2. auto 10.
Qed.

Lemma region_map_spec fuel it a m t minv maxv len fl map_flags ops :
  mm_ok m t -> ht t <= 32 -> (S (List.length (elements t)) < fuel)%nat -> answers_ok len a t -> 0 < len -> len mod ARCH_PG_SIZE = 0 ->
  ARCH_PG_SIZE <= minv -> minv mod ARCH_PG_SIZE = 0 -> 0 <= maxv -> maxv mod ARCH_PG_SIZE = 0 -> upper minv maxv len <= VM_STACK_TOP -> minv + len < 2 ^ 64 ->
  exists m' t' vr, region_map fuel it (memory a) (rop_new a) (handle_memory a) minv maxv len fl map_flags ops m = Ret (m', vr) /\ mm_ok m' t' /\
    map_done m minv maxv len map_flags a m' vr /\ (vr = 0 -> t' = t) /\ Z.of_nat (List.length (elements t')) <= Z.of_nat (List.length (elements t)) + 1 /\
    ht t' <= ht t + 1 /\ (forall x, x ∈ elements t' -> x ∈ elements t \/ memory a = Some x).
Proof.
  intros Hok Hht Hf [Hun Hpg] Hl Hlm Hmin Hminm Hmax Hmaxm Hup Hw. unfold region_map.
  destruct (find_free_spec m t Hok Hht fuel it minv maxv len Hl ltac:(unfold ARCH_PG_SIZE in *; lia) Hmax Hup Hw Hf) as [(v & Hfind & Hvf & Hv1 & Hv2 & Hfree)|[Hfind Hno]]; rewrite Hfind; cbn [mbind res_mbind]; cycle 1.
  { rewrite Z.eqb_refl. exists m, t, 0. split; [done|]. split; [done|]. split; [|split; [done|split; [lia|split; [lia|auto]]]]. left. split; [done|]. split; [done|].
    right; right; right. intros v Hv1 Hv2. by apply (not_free_view m t v len Hok Hl), Hno. }
  rewrite (proj2 (Z.eqb_neq v _) Hvf). destruct (find_free_aligned m t Hok Hht fuel it minv maxv len v Hmaxm Hminm Hlm Hfind) as [|Hva]; [done|].
  assert (forall m1 : mm_struct, keeps t m m1 -> memory a = None \/ rop_new a = false \/ new_pages map_flags a = None ->
    mm_ok m1 t /\ map_done m minv maxv len map_flags a m1 0 /\ (0 = 0 -> t = t) /\ Z.of_nat (List.length (elements t)) <= Z.of_nat (List.length (elements t)) + 1 /\
    ht t <= ht t + 1 /\ (forall x, x ∈ elements t -> x ∈ elements t \/ memory a = Some x)) as Hnothing.
  { intros m1 Hk Hwhy. split; [by eapply keeps_ok|]. split; [|split; [done|split; [lia|split; [lia|auto]]]]. left. split; [done|].
    split; [intros addr; by apply (keeps_view t)|]. tauto. }
  destruct (memory a) as [vr|] eqn:Hmem; cycle 1.
  { cbn. exists m, t, 0. split; [done|]. apply Hnothing; [done|]. by left. }
  destruct (Hun vr eq_refl) as [Hv0 Hvt].
  destruct (map_new fuel vr a m t v len fl map_flags ops Hok Hvt Hv0 ltac:(lia) Hl Hlm Hpg ltac:(lia) Hva ltac:(lia) Hfree) as (m' & r & He & Hres).
  destruct Hres as [(-> & Hk & Hwhy)|(-> & t' & pages & Hok' & Hnew & Hv & Hlen & Hsz & Hht' & Hin & Hview)].
  - exists m', t, 0. split; [exact He|]. apply Hnothing; tauto.
  - exists m', t', vr. split; [exact He|]. split; [done|]. split; [|split; [done|split; [done|split; [done|]]]].
    + right. split; [done|]. split; [rewrite (mm_list _ _ Hok'); apply Hin; auto|]. exists v, pages. auto 10.
    + intros x [->|?]%Hin; auto.
Qed.

(** ** Looking up an address *)

Lemma lookup_loop_spec m t addr :
  mm_ok m t -> forall s fuel p, rep (avl m) p s -> (forall x, x ∈ elements s -> x ∈ elements t) -> sorted (region_key m) (elements s) -> ht s < Z.of_nat fuel ->
  exists vr, lookup_loop fuel addr p m = Ret vr /\
    (vr = 0 /\ (forall x, x ∈ elements s -> shows (regions m x) addr = None) \/ vr ∈ elements s /\ shows (regions m vr) addr <> None).
Proof.
  intros Hok. induction s as [|l IHl n r IHr]; intros fuel p Hrep Hsub Hs Hf; destruct fuel as [|fuel].
  1, 3: match type of Hf with ht ?s < _ => pose proof (ht_nonneg s); lia end.
  all: cbn [lookup_loop].
  { cbn in Hrep. subst p. exists 0. split; [done|]. left. split; [done|]. by intros x Hx%elem_of_nil. }
  destruct Hrep as (-> & Hn0 & _ & Hl & Hr). rewrite (proj2 (Z.eqb_neq n 0) Hn0). cbn [elements] in *.
  assert (forall x, x ∈ elements l ++ n :: elements r -> region_key m x < end_of m x) as Hlen.
  { intros x Hx%Hsub. by apply (end_of_range m t Hok x Hx). }
  assert (n ∈ elements l ++ n :: elements r) as Hn by set_solver. destruct (end_of_range m t Hok n (Hsub n Hn)) as (-> & _ & Hke & _).
  change (vir_addr (regions m n)) with (region_key m n). fold (in_range (region_key m n) (end_of m n) addr).
  assert (forall x, shows (regions m x) addr = None <-> in_range (region_key m x) (end_of m x) addr = false) as Hshow.
  { intros x. unfold shows, region_key, end_of. by destruct (in_range _ _ addr). }
  destruct (in_range (region_key m n) (end_of m n) addr) eqn:Hi.
  { exists n. split; [done|]. right. split; [done|]. rewrite Hshow. by rewrite Hi. }
  cbn [ht] in Hf. unfold in_range in Hi. rewrite andb_false_iff, Z.leb_gt, Z.ltb_ge in Hi. destruct (Z.ltb_spec addr (region_key m n)) as [Hlow|Hhigh].
  - destruct (IHl fuel _ Hl) as (vr & -> & Hres); [set_solver|by apply StronglySorted_app_1_l in Hs|lia|]. exists vr. split; [done|].
    destruct Hres as [[-> Hno]|[Hvl Hsh]]; [left|right; split; [set_solver|done]]. split; [done|]. intros x Hx. apply elem_of_app in Hx as [Hx|Hx]; [auto|].
    apply Hshow. unfold in_range. rewrite (proj2 (Z.leb_gt _ _)); [done|]. apply elem_of_cons in Hx as [->|Hx]; [done|].
    pose proof (proj2 (sorted_middle _ _ _ _ x Hs) Hx). lia.
  - rewrite (proj2 (Z.ltb_lt (region_key m n) addr)) by lia.
    destruct (IHr fuel _ Hr) as (vr & -> & Hres); [set_solver|by apply StronglySorted_app_1_r, StronglySorted_cons in Hs as [_ ?]|lia|]. exists vr. split; [done|].
    destruct Hres as [[-> Hno]|[Hvr Hsh]]; [left|right; split; [set_solver|done]]. split; [done|]. intros x Hx.
    apply elem_of_app in Hx as [Hx|[->|Hx]%elem_of_cons]; [| |by apply Hno]; apply Hshow; unfold in_range; apply andb_false_iff; right; apply Z.ltb_ge; [|lia].
    pose proof (proj1 (sorted_middle _ _ _ _ x Hs) Hx) as Hk. apply (mm_apart _ _ Hok) in Hk; [lia|apply Hsub; set_solver|by apply Hsub].
Qed.

Lemma region_lookup_spec fuel m t addr :
  mm_ok m t -> ht t < Z.of_nat fuel ->
  exists vr, region_lookup fuel addr m = Ret vr /\
    (vr = 0 /\ view m addr = None \/ vr ∈ mem_regions m /\ view m addr = shows (regions m vr) addr /\ view m addr <> None).
Proof.
  intros Hok Hf. destruct (lookup_loop_spec m t addr Hok t fuel (mem_avl m) (mm_rep _ _ Hok) (fun x Hx => Hx) (mm_sorted _ _ Hok) Hf) as (vr & He & Hres).
  exists vr. split; [done|]. destruct Hres as [[-> Hno]|[Hv Hsh]].
  - left. split; [done|]. apply (view_none m t addr Hok). intros x o Hx. by rewrite (Hno x Hx).
  - right. split; [by rewrite (mm_list _ _ Hok)|]. destruct (shows (regions m vr) addr) as [o|] eqn:Ho; [|done].
    by rewrite (proj2 (view_spec m t addr o Hok)) by eauto.
Qed.

(** ** Operations on an address space *)

Definition space_ok (m : mm_struct) : Prop := exists t, mm_ok m t.

(** The iterators of the tree have room for the regions there are and those an operation adds. *)
Definition room (fuel : nat) (m : mm_struct) : Prop := Z.of_nat (List.length (mem_regions m)) + 3 < Z.of_nat fuel /\ avl_tree_height (mem_avl m) (avl m) <= 29.

(** Memory that no region of the address space is kept in *)
Definition spare (memory : option Z) (m : mm_struct) : Prop := forall v, memory = Some v -> v <> 0 /\ v ∉ mem_regions m.

Definition spare_answers (a : unmap_answers) (m : mm_struct) : Prop :=
  spare (a_memory1 a) m /\ spare (a_memory2 a) m /\ (forall v, a_memory1 a = Some v -> a_memory2 a <> Some v).

Record munmap_legal (fuel : nat) (answers : Z -> unmap_answers) (addr len : Z) (m : mm_struct) : Prop := {
  ul_room : room fuel m;
  ul_answers : forall x, spare_answers (answers x) m;
  ul_addr : 0 <= addr;
  ul_len : 0 < len;
  ul_end : addr + len + 2 * ARCH_PG_SIZE <= 2 ^ 64
}.

(** Memory and pages for a new region, apart from the memory that unmapping takes *)
Definition map_legal (unmaps : Z -> unmap_answers) (len : Z) (a : map_answers) (m : mm_struct) : Prop :=
  spare (memory a) m /\ (forall pages, handle_memory a = Some pages -> pages_ok len pages) /\
  (forall v x, memory a = Some v -> a_memory1 (unmaps x) <> Some v /\ a_memory2 (unmaps x) <> Some v).

Record mmap_legal (fuel : nat) (unmaps : Z -> unmap_answers) (first second : map_answers) (addr mmap_flags len : Z) (m : mm_struct) : Prop := {
  ml_room : room fuel m;
  ml_unmaps : forall x, spare_answers (unmaps x) m;
  ml_first : map_legal unmaps (roundup len ARCH_PG_SIZE) first m;
  ml_second : map_legal unmaps (roundup len ARCH_PG_SIZE) second m;
  ml_addr : 0 <= addr /\ addr mod ARCH_PG_SIZE = 0;
  ml_fixed : has_flag mmap_flags MAP_FIXED = true -> addr <> 0;
  ml_len : 0 <= len <= VM_STACK_TOP;
  ml_end : addr <> 0 -> addr + roundup len ARCH_PG_SIZE <= VM_STACK_TOP
}.

Lemma room_tree fuel m t :
  mm_ok m t -> room fuel m -> ht t <= 29 /\ Z.of_nat (List.length (elements t)) + 3 < Z.of_nat fuel.
Proof. intros Hok [H1 H2]. rewrite (rep_height _ _ _ (mm_rep _ _ Hok)) in H2. by rewrite (mm_list _ _ Hok) in H1. Qed.

Lemma spare_unused memory m t : mm_ok m t -> spare memory m -> unused t memory.
Proof. intros Hok Hs v Hv. destruct (Hs v Hv) as [? ?]. by rewrite <- (mm_list _ _ Hok). Qed.

Lemma spare_fresh a m t : mm_ok m t -> spare_answers a m -> fresh a t.
Proof. intros Hok (H1 & H2 & H3). split; [by eapply spare_unused|]. split; [by eapply spare_unused|done]. Qed.

Lemma munmap_spec fuel answers it addr len m t :
  mm_ok m t -> munmap_legal fuel answers addr len m ->
  loop_result answers (first_page addr) (last_page addr (roundup len ARCH_PG_SIZE)) m t (do_munmap fuel answers it addr len m).
Proof.
  intros Hok [Hroom Ha H0 Hl He]. destruct (room_tree fuel m t Hok Hroom) as [Hht Hf]. destruct (roundup_spec len) as [_ Hr]; [lia|unfold ARCH_PG_SIZE in *; lia|].
  unfold do_munmap. apply unmap_range_spec; try done; try lia. intros x. by apply (spare_fresh _ m).
Qed.

(** Everything a new region needs is there. *)
Definition willing (map_flags : Z) (a : map_answers) : Prop := memory a <> None /\ rop_new a = true /\ new_pages map_flags a <> None.

(** What [mmap_region] does to an address space *)
Record mmap_effect (m : mm_struct) (fixed : bool) (addr len map_flags : Z) (first second : map_answers) (m' : mm_struct) (vr : Z) : Prop := {
  e_none : vr = 0 -> forall a, fixed = false \/ in_range addr (addr + len) a = false -> view m' a = view m a;
  e_some : vr <> 0 -> vr ∈ mem_regions m' /\ exists pages,
    let v := vir_addr (regions m' vr) in
    length (regions m' vr) = len /\ v mod ARCH_PG_SIZE = 0 /\ ARCH_PG_SIZE <= v /\ v + len <= VM_STACK_TOP /\ (fixed = true -> v = addr) /\
    (fixed = false -> forall a, in_range v (v + len) a = true -> view m a = None) /\
    (new_pages map_flags first = Some pages \/ new_pages map_flags second = Some pages) /\
    (forall a, view m' a = if in_range v (v + len) a then Some (page <$> pages ((a - v) / ARCH_PG_SIZE)) else view m a);
  e_hint : fixed = false -> addr <> 0 -> 0 < len -> willing map_flags first -> (forall a, in_range addr (addr + len) a = true -> view m a = None) ->
    vr <> 0 /\ vir_addr (regions m' vr) = addr;
  e_full : fixed = false -> 0 < len -> willing map_flags second -> vr = 0 -> forall v, ARCH_BIG_PAGE_SIZE <= v -> v + len <= VM_STACK_TOP ->
    exists a, in_range v (v + len) a = true /\ view m a <> None
}.

Lemma not_willing map_flags a : willing map_flags a -> memory a = None \/ rop_new a = false \/ new_pages map_flags a = None -> False.
Proof. intros (H1 & H2 & H3) [E|[E|E]]; congruence. Qed.

Section mapping.
Context (fuel : nat) (it : avl_iter) (fl mrf : Z) (ops : region_operations) (unmaps : Z -> unmap_answers) (len : Z).
Hypothesis Hlen : 0 < len.
Hypothesis Hpages : len mod ARCH_PG_SIZE = 0.
Hypothesis Hsmall : len <= VM_STACK_TOP.

Definition map_at (minv maxv : Z) (a : map_answers) (m : mm_struct) : res (mm_struct * Z) :=
  region_map fuel it (memory a) (rop_new a) (handle_memory a) minv maxv len fl mrf ops m.

Lemma done_some m m1 minv maxv a first second m' vr :
  map_done m1 minv maxv len mrf a m' vr -> (forall x, view m1 x = view m x) -> vr <> 0 -> ARCH_PG_SIZE <= minv -> upper minv maxv len <= VM_STACK_TOP ->
  (new_pages mrf a = new_pages mrf first \/ new_pages mrf a = new_pages mrf second) ->
  minv <= vir_addr (regions m' vr) <= upper minv maxv len - len /\ vr ∈ mem_regions m' /\ exists pages,
    let v := vir_addr (regions m' vr) in
    length (regions m' vr) = len /\ v mod ARCH_PG_SIZE = 0 /\ ARCH_PG_SIZE <= v /\ v + len <= VM_STACK_TOP /\ (false = true -> v = minv) /\
    (false = false -> forall a, in_range v (v + len) a = true -> view m a = None) /\
    (new_pages mrf first = Some pages \/ new_pages mrf second = Some pages) /\
    (forall a, view m' a = if in_range v (v + len) a then Some (page <$> pages ((a - v) / ARCH_PG_SIZE)) else view m a).
Proof.
  intros [[-> _]|(_ & Hin & v & pages & Hnew & Hva & Hv1 & Hv2 & Hvir & Hl & Hview)] Hsame Hvr Hmin Hup Hwho; [done|]. rewrite Hvir. split; [lia|]. split; [done|].
  exists pages. cbv zeta. split; [done|]. split; [done|]. split; [lia|]. split; [lia|]. split; [done|]. split.
  { intros _ x Hx. specialize (Hview x). rewrite Hx in Hview. rewrite <- Hsame. apply Hview. }
  split; [by destruct Hwho as [<-|<-]; auto|]. intros x. specialize (Hview x). destruct (in_range v (v + len) x); [by destruct Hview|]. by rewrite Hview.
Qed.

Lemma done_none m minv maxv a m' :
  map_done m minv maxv len mrf a m' 0 -> memory a <> Some 0 -> (forall x, view m' x = view m x) /\
    (willing mrf a -> forall v, minv <= v -> v + len <= upper minv maxv len -> exists addr, in_range v (v + len) addr = true /\ view m addr <> None).
Proof.
  intros [(_ & Hv & Hwhy)|[E _]] Hne; [|done]. split; [done|]. intros Hw. destruct Hwhy as [E|[E|[E|Hno]]]; [exfalso; apply (not_willing mrf a Hw); auto..|done].
Qed.

Lemma unused_nonzero memory t : unused t memory -> memory <> Some 0.
Proof. intros Hu E. by destruct (Hu 0 E). Qed.

(** Anywhere *)
Lemma map_second first second addr m m1 t :
  mm_ok m1 t -> ht t <= 32 -> Z.of_nat (List.length (elements t)) + 3 < Z.of_nat fuel -> answers_ok len second t -> (forall a, view m1 a = view m a) ->
  (addr <> 0 -> willing mrf first -> (forall a, in_range addr (addr + len) a = true -> view m a = None) -> False) ->
  exists m' vr, map_at ARCH_BIG_PAGE_SIZE VM_STACK_TOP second m1 = Ret (m', vr) /\ space_ok m' /\ mmap_effect m false addr len mrf first second m' vr.
Proof.
  intros Hok1 Hht Hf Ha Hv1 Hno. unfold map_at.
  destruct (region_map_spec fuel it second m1 t ARCH_BIG_PAGE_SIZE VM_STACK_TOP len fl mrf ops Hok1) as (m' & t' & vr & -> & Hok' & Hdone & _);
    try done; try lia; [unfold VM_STACK_TOP, ARCH_BIG_PAGE_SIZE in *; lia|].
  exists m', vr. split; [done|]. split; [by exists t'|]. split.
  - intros -> a _. rewrite <- Hv1. apply (done_none m1 _ _ _ _ Hdone). eapply unused_nonzero, Ha.
  - intros Hvr. destruct (done_some m m1 _ _ second first second m' vr Hdone Hv1 Hvr) as (_ & Hin & pages & Hp); auto; [done..|]. split; [done|]. exists pages. destruct Hp as (P1 & P2 & P3 & P4 & _ & P6).
    repeat (split; [done|]). exact P6.
  - intros _ Ha0 _ Hw Hfree. by destruct (Hno Ha0 Hw Hfree).
  - intros _ _ Hw -> v Hb Hs. destruct (proj2 (done_none m1 _ _ _ _ Hdone ltac:(eapply unused_nonzero, Ha)) Hw v Hb) as (a & Hin & Hne); [exact Hs|].
    exists a. by rewrite <- Hv1.
Qed.

(** Without [MAP_FIXED]: at the hint, or anywhere *)
Lemma map_anywhere first second addr m t :
  mm_ok m t -> ht t <= 29 -> Z.of_nat (List.length (elements t)) + 3 < Z.of_nat fuel -> answers_ok len first t -> answers_ok len second t ->
  0 <= addr -> addr mod ARCH_PG_SIZE = 0 -> (addr <> 0 -> addr + len <= VM_STACK_TOP) ->
  exists m' vr, ('(m, vr) ← (if negb (addr =? 0) || false then map_at addr 0 first m else Ret (m, 0));
                 if negb (vr =? 0) || false then Ret (m, vr) else map_at ARCH_BIG_PAGE_SIZE VM_STACK_TOP second m) = Ret (m', vr) /\
    space_ok m' /\ mmap_effect m false addr len mrf first second m' vr.
Proof.
  intros Hok Hht Hf Ha1 Ha2 H0 Hm He. rewrite !orb_false_r. destruct (Z.eqb_spec addr 0) as [->|Hne]; cbn [negb].
  { cbn [mbind res_mbind Z.eqb negb orb]. apply (map_second first second 0 m m t); try done. lia. }
  specialize (He Hne). assert (ARCH_PG_SIZE <= addr) as Hlow.
  { pose proof (Z.div_mod addr ARCH_PG_SIZE ltac:(done)). unfold ARCH_PG_SIZE in *. lia. }
  destruct (region_map_spec fuel it first m t addr 0 len fl mrf ops Hok) as (m1 & t1 & vr & E1 & Hok1 & Hdone & Hsame & _); try done; try lia.
  { unfold VM_STACK_TOP in *. lia. }
  change (map_at addr 0 first m = Ret (m1, vr)) in E1. rewrite E1. cbn [mbind res_mbind]. rewrite orb_false_r. destruct (Z.eqb_spec vr 0) as [->|Hvr]; cbn [negb].
  - destruct (done_none m _ _ _ _ Hdone ltac:(eapply unused_nonzero, Ha1)) as [Hv Hwhy]. rewrite (Hsame eq_refl) in Hok1. apply (map_second first second addr m m1 t); try done; try lia.
    intros _ Hw Hfree. destruct (Hwhy Hw addr ltac:(lia) ltac:(done)) as (a & Hin & Hn). by rewrite Hfree in Hn.
  - exists m1, vr. split; [done|]. split; [by exists t1|].
    destruct (done_some m m _ _ first first second m1 vr Hdone (fun _ => eq_refl) Hvr Hlow He (or_introl eq_refl)) as (Hb & Hin & pages & Hp). unfold upper in Hb. cbn in Hb.
    split; try done.
    + intros _. split; [done|]. exists pages. destruct Hp as (P1 & P2 & P3 & P4 & _ & P6). repeat (split; [done|]). exact P6.
    + intros _ _ _ _ _. split; [done|]. lia.
Qed.

(** With [MAP_FIXED], where the range was unmapped *)
Lemma map_fixed first second addr m t m1 t1 :
  range_done unmaps m t addr (addr + len) m1 t1 0 -> ht t1 <= 32 -> Z.of_nat (List.length (elements t1)) + 2 < Z.of_nat fuel -> answers_ok len first t1 ->
  ARCH_PG_SIZE <= addr -> addr mod ARCH_PG_SIZE = 0 -> addr + len <= VM_STACK_TOP ->
  exists m' vr, map_at addr 0 first m1 = Ret (m', vr) /\ space_ok m' /\ mmap_effect m true addr len mrf first second m' vr.
Proof.
  intros [D1 D2 D3 _ _] Hht Hf Ha Hlow Hm He. unfold map_at.
  destruct (region_map_spec fuel it first m1 t1 addr 0 len fl mrf ops D1) as (m' & t' & vr & -> & Hok' & Hdone & _); try done; try lia.
  { unfold VM_STACK_TOP in *. lia. }
  exists m', vr. split; [done|]. split; [by exists t'|]. split; try done.
  - intros -> a [|Hout]; [done|]. rewrite <- D2 by done. apply (done_none m1 _ _ _ _ Hdone). eapply unused_nonzero, Ha.
  - intros Hvr. destruct (done_some m1 m1 _ _ first first second m' vr Hdone (fun _ => eq_refl) Hvr Hlow He (or_introl eq_refl)) as (Hb & Hin & pages & Hp).
    split; [done|]. exists pages. cbv zeta in *. assert (vir_addr (regions m' vr) = addr) as Hv by (unfold upper in Hb; cbn in Hb; lia). rewrite Hv in *.
    destruct Hp as (P1 & P2 & P3 & P4 & _ & _ & P7 & P8). repeat (split; [done|]). intros a. rewrite P8. destruct (in_range addr (addr + len) a) eqn:Hi; [done|].
    by apply D2.
Qed.
End mapping.

Lemma map_legal_answers unmaps len a m t : mm_ok m t -> map_legal unmaps len a m -> answers_ok len a t.
Proof. intros Hok (H1 & H2 & _). split; [by eapply spare_unused|done]. Qed.

Lemma fixed_answers unmaps len a m t start limit m1 t1 ret :
  mm_ok m t -> map_legal unmaps len a m -> range_done unmaps m t start limit m1 t1 ret -> answers_ok len a t1.
Proof.
  intros Hok (H1 & H2 & H3) Hd. split; [|done]. intros v Hv. destruct (H1 v Hv) as [Hv0 Hvm]. split; [done|].
  intros [Hx|(x & Hx)]%(rd_members _ _ _ _ _ _ _ _ Hd); [by rewrite (mm_list _ _ Hok) in Hvm|]. destruct (H3 v x Hv). tauto.
Qed.

Lemma mmap_spec fuel unmaps first second it addr mmap_flags len fl ops m :
  space_ok m -> mmap_legal fuel unmaps first second addr mmap_flags len m ->
  (exists m' vr, mmap_region fuel unmaps first second it addr mmap_flags len fl ops m = Ret (m', vr) /\ space_ok m' /\
    mmap_effect m (has_flag mmap_flags MAP_FIXED) addr (roundup len ARCH_PG_SIZE) (if has_flag mmap_flags MAP_POPULATE then MRF_PREALLOC else 0) first second m' vr) \/
  (has_flag mmap_flags MAP_FIXED = true /\ (exists x, a_memory (unmaps x) = false) /\
   mmap_region fuel unmaps first second it addr mmap_flags len fl ops m = Crash NullDeref).
Proof.
  intros [t Hok] [Hroom Hun H1 H2 [Ha0 Ham] Hfx Hlen Hend]. destruct (room_tree fuel m t Hok Hroom) as [Hht Hf]. unfold mmap_region.
  set (mrf := if has_flag mmap_flags MAP_POPULATE then MRF_PREALLOC else 0).
  destruct (roundup_spec len) as [Hr1 Hr2]; [lia|unfold VM_STACK_TOP, ARCH_PG_SIZE in *; lia|]. destruct (Z.eqb_spec len 0) as [->|Hl0].
  { left. exists m, 0. split; [done|]. split; [by exists t|]. by split. }
  set (l := roundup len ARCH_PG_SIZE) in *. assert (l <= VM_STACK_TOP) as Hls.
  { unfold VM_STACK_TOP, ARCH_PG_SIZE in *. pose proof (Z.div_mod l 4096 ltac:(lia)). lia. }
  destruct (has_flag mmap_flags MAP_FIXED) eqn:Hfixed; cycle 1.
  { left. rewrite andb_false_r. cbn [mbind res_mbind]. change (negb (0 =? 0)) with false. cbn iota.
    apply (map_anywhere fuel it fl mrf ops l ltac:(lia) Hr1 Hls first second addr m t); try done; by eapply map_legal_answers. }
  specialize (Hfx eq_refl). specialize (Hend Hfx). rewrite (proj2 (Z.eqb_neq addr 0) Hfx). cbn [negb andb orb].
  assert (first_page addr = addr) as Ef by (unfold first_page; lia).
  assert (last_page addr l = addr + l) as El by (unfold last_page, roundup; rewrite Ef, Ham, Z.add_0_l, Hr1; done).
  pose proof (unmap_range_spec fuel unmaps it m t addr l Hok Hht ltac:(lia)) as Hloop. rewrite Ef, El in Hloop.
  destruct Hloop as [(m1 & t1 & ret & -> & Hd)|[Hmem ->]]; [intros x; by apply (spare_fresh _ m)|done|lia|unfold VM_STACK_TOP, ARCH_PG_SIZE in *; lia| |right; done].
  left. cbn [mbind res_mbind]. destruct (Z.eqb_spec ret 0) as [->|Hret]; cbn [negb]; cycle 1.
  { exists m1, 0. split; [done|]. split; [exists t1; apply Hd|]. split; try done. intros _ a [|Ho]; [done|]. by apply Hd. }
  destruct (rd_size _ _ _ _ _ _ _ _ Hd) as [Hsz Hh]. assert (ARCH_PG_SIZE <= addr) as Hlow.
  { pose proof (Z.div_mod addr ARCH_PG_SIZE ltac:(done)). unfold ARCH_PG_SIZE in *. lia. }
  destruct (map_fixed fuel it fl mrf ops unmaps l ltac:(lia) Hr1 first second addr m t m1 t1 Hd) as (m' & vr & He & Hs & Heff); try done; try lia.
  { by eapply fixed_answers. }
  unfold map_at in He. rewrite He. cbn [mbind res_mbind]. rewrite orb_true_r. by exists m', vr.
Qed.

(** ** Address spaces of a running system *)

Inductive mm_op :=
| OpMmap (unmaps : Z -> unmap_answers) (first second : map_answers) (it : avl_iter) (addr mmap_flags len fl : Z) (ops : region_operations)
| OpMunmap (answers : Z -> unmap_answers) (it : avl_iter) (addr len : Z).

Definition mm_perform (fuel : nat) (op : mm_op) (m : mm_struct) : res (mm_struct * Z) :=
  match op with
  | OpMmap unmaps first second it addr mmap_flags len fl ops => mmap_region fuel unmaps first second it addr mmap_flags len fl ops m
  | OpMunmap answers it addr len => do_munmap fuel answers it addr len m
  end.

Definition mm_legal (fuel : nat) (op : mm_op) (m : mm_struct) : Prop :=
  match op with
  | OpMmap unmaps first second _ addr mmap_flags len _ _ => mmap_legal fuel unmaps first second addr mmap_flags len m
  | OpMunmap answers _ addr len => munmap_legal fuel answers addr len m
  end.

(** The allocation that [region_unmap] does not check *)
Definition unchecked (op : mm_op) : Prop :=
  match op with
  | OpMmap unmaps _ _ _ _ _ _ _ _ => exists x, a_memory (unmaps x) = false
  | OpMunmap answers _ _ _ => exists x, a_memory (answers x) = false
  end.

Inductive reachable (fuel : nat) : mm_struct -> Prop :=
| reach_init m : reachable fuel (mm_init m)
| reach_step m op m' ret : reachable fuel m -> mm_legal fuel op m -> mm_perform fuel op m = Ret (m', ret) -> reachable fuel m'.

Lemma init_ok m : space_ok (mm_init m).
Proof. exists Leaf. split; [done|apply SSorted_nil| | |done]; intros x; intros; by destruct (not_elem_of_nil x). Qed.

Lemma perform_ok fuel op m :
  space_ok m -> mm_legal fuel op m ->
  (exists m' ret, mm_perform fuel op m = Ret (m', ret) /\ space_ok m') \/ (unchecked op /\ mm_perform fuel op m = Crash NullDeref).
Proof.
  intros Hs Hl. destruct op as [unmaps first second it addr mmap_flags len fl ops|answers it addr len]; cbn [mm_legal mm_perform unchecked] in *.
  - destruct (mmap_spec fuel unmaps first second it addr mmap_flags len fl ops m Hs Hl) as [(m' & vr & E & Hok & _)|(_ & Hm & E)]; [left|by right].
    by exists m', vr.
  - destruct Hs as [t Hok]. destruct (munmap_spec fuel answers it addr len m t Hok Hl) as [(m' & t' & ret & E & Hd)|[Hm E]]; [left|by right].
    exists m', ret. split; [done|]. exists t'. apply Hd.
Qed.

Lemma space_reachable fuel m : reachable fuel m -> space_ok m.
Proof.
  induction 1 as [m|m op m' ret _ IH Hl He]; [apply init_ok|]. destruct (perform_ok fuel op m IH Hl) as [(m1 & r & E & Hok)|[_ E]]; rewrite He in E; [|done].
  by injection E as -> ->.
Qed.


(** C34: [do_munmap] in an address space that was made by any sequence of
    operations: if it returns 0, no address of a page that the range touches is in
    a region any more, and every other address shows what it showed, whichever
    regions had to be taken out, cut at an end, or split; if it returns an error,
    the addresses outside of the range are as they were; and it always returns,
    unless the allocation that [region_unmap] does not check gives no memory. *)
Theorem munmap_exact (fuel : nat) (answers : Z -> unmap_answers) (it : avl_iter) (addr len : Z) (m : mm_struct) :
  reachable fuel m -> munmap_legal fuel answers addr len m ->
  (exists m' ret, do_munmap fuel answers it addr len m = Ret (m', ret) /\
     (forall a, in_range (first_page addr) (last_page addr (roundup len ARCH_PG_SIZE)) a = false -> view m' a = view m a) /\
     (ret = 0 -> forall a, in_range (first_page addr) (last_page addr (roundup len ARCH_PG_SIZE)) a = true -> view m' a = None)) \/
  (exists x, a_memory (answers x) = false) /\ do_munmap fuel answers it addr len m = Crash NullDeref.
Proof.
  intros Hr Hl. destruct (space_reachable fuel m Hr) as [t Hok].
  destruct (munmap_spec fuel answers it addr len m t Hok Hl) as [(m' & t' & ret & E & [_ D2 D3 _ _])|Hc]; [left; by exists m', ret|by right].
Qed.

(** C35: [mmap_region] in an address space that was made by any sequence of
    operations. A region it makes has the length asked for, rounded up to pages,
    starts at a page and lies between the first page and the top of the stack; its
    addresses show the pages it was filled with, and every other address shows
    what it showed. With MAP_FIXED it is at the address asked for; without, its
    addresses were free before, it is at the address asked for if those addresses
    are free and the allocations succeed, and there is no region only if the
    allocations fail or there is no room anywhere. Without a region nothing
    changes, but for the range of MAP_FIXED. *)
Theorem mmap_places (fuel : nat) (unmaps : Z -> unmap_answers) (first second : map_answers) (it : avl_iter) (addr mmap_flags len fl : Z)
    (ops : region_operations) (m : mm_struct) :
  reachable fuel m -> mmap_legal fuel unmaps first second addr mmap_flags len m ->
  (exists m' vr, mmap_region fuel unmaps first second it addr mmap_flags len fl ops m = Ret (m', vr) /\
     mmap_effect m (has_flag mmap_flags MAP_FIXED) addr (roundup len ARCH_PG_SIZE)
       (if has_flag mmap_flags MAP_POPULATE then MRF_PREALLOC else 0) first second m' vr) \/
  (has_flag mmap_flags MAP_FIXED = true /\ (exists x, a_memory (unmaps x) = false) /\
   mmap_region fuel unmaps first second it addr mmap_flags len fl ops m = Crash NullDeref).
Proof.
  intros Hr Hl. destruct (mmap_spec fuel unmaps first second it addr mmap_flags len fl ops m (space_reachable fuel m Hr) Hl) as [(m' & vr & E & _ & Heff)|Hc];
    [left; by exists m', vr|by right].
Qed.

(** ** An example: three pages are mapped, the one in the middle is unmapped *)

Definition no_iter : avl_iter := mk_iter (-1) 0 (fun _ => 0).
Definition no_rops : region_operations := mk_rops true (Some 0).
Definition blank_mm : mm_struct := mk_mm (fun _ => mk_node 0 0 0) (fun _ => mk_region 0 0 0 no_rops (fun _ => None)) 0 [] 0 [].
Definition three_pages : Z -> option phys_region := fun i => if (0 <=? i) && (i <? 3) then Some (mk_phys (100 + i) (i * ARCH_PG_SIZE)) else None.
Definition some_answers : Z -> unmap_answers := fun _ => mk_answers (Some 2) (Some 3) (fun _ => true) (fun _ => true) true.
Definition new_region (v : Z) : map_answers := mk_map_answers (Some v) true (Some three_pages).

Definition map_three (v flags : Z) : mm_op := OpMmap some_answers (new_region v) (new_region v) no_iter 0x10000 flags 0x2800 0 no_rops.
Definition state_of (r : res (mm_struct * Z)) : mm_struct := match r with Ret (m, _) => m | Crash _ => blank_mm end.
Definition one_region : mm_struct := state_of (mm_perform 9 (map_three 1 MAP_POPULATE) (mm_init blank_mm)).

Lemma state_of_ret r : match r with Ret _ => true | Crash _ => false end = true -> exists ret, r = Ret (state_of r, ret).
Proof. destruct r as [[m ret]|]; [|done]. by exists ret. Qed.

Lemma three_pages_ok : pages_ok 0x3000 three_pages.
Proof.
  intros i p. unfold three_pages. destruct (Z.leb_spec 0 i), (Z.ltb_spec i 3); try done. cbn. intros [= <-]. cbn. change (0x3000 / ARCH_PG_SIZE) with 3. lia.
Qed.

Ltac spare_memory := let v := fresh in intros v [= <-]; split; [lia|]; refine (bool_decide_unpack _ _); vm_compute; exact I.

Lemma new_region_legal v m : v <> 0 -> v <> 2 -> v <> 3 -> v ∉ mem_regions m -> map_legal some_answers 0x3000 (new_region v) m.
Proof.
  intros H0 H2 H3 Hm. split; [by intros ? [= <-]|]. split; [intros pages [= <-]; apply three_pages_ok|]. intros ? x [= <-]. cbn. split; congruence.
Qed.

Lemma map_three_legal v flags m :
  room 9 m -> spare (Some 2) m -> spare (Some 3) m -> v <> 0 -> v <> 2 -> v <> 3 -> v ∉ mem_regions m -> mm_legal 9 (map_three v flags) m.
Proof.
  intros Hroom H2 H3 Hv0 Hv2 Hv3 Hvm. split; try done.
  - intros x. split; [done|]. split; [done|]. by intros ? [= <-].
  - by apply new_region_legal.
  - by apply new_region_legal.
Qed.

Lemma one_region_reachable : reachable 9 one_region.
Proof.
  destruct (state_of_ret (mm_perform 9 (map_three 1 MAP_POPULATE) (mm_init blank_mm))) as [ret E]; [vm_compute; reflexivity|].
  apply (reach_step 9 (mm_init blank_mm) (map_three 1 MAP_POPULATE) one_region ret); [apply reach_init| |exact E].
  apply map_three_legal; [split; vm_compute; [reflexivity|discriminate]|spare_memory|spare_memory|lia|lia|lia|apply not_elem_of_nil].
Qed.

Lemma one_region_room : room 9 one_region.
Proof. split; vm_compute; [reflexivity|discriminate]. Qed.


Lemma munmap_exact_witness :
  munmap_legal 9 some_answers 0x11000 1 one_region /\
  view one_region 0x11234 = Some (Some 101) /\
  match do_munmap 9 some_answers no_iter 0x11000 1 one_region with
  | Ret (m', ret) => ret = 0 /\ view m' 0x11234 = None /\ view m' 0x12000 = Some (Some 102)
  | Crash _ => False
  end.
Proof.
  assert (munmap_legal 9 some_answers 0x11000 1 one_region) as Hl.
  { split; [exact one_region_room| |lia|lia|vm_compute; discriminate]. intros x. split; [spare_memory|]. split; [spare_memory|]. by intros ? [= <-]. }
  split; [exact Hl|]. split; [vm_compute; reflexivity|].
  destruct (munmap_exact 9 some_answers no_iter 0x11000 1 one_region one_region_reachable Hl) as [(m' & ret & E & H1 & H2)|[(x & Hx) _]]; [|discriminate Hx].
  assert (match do_munmap 9 some_answers no_iter 0x11000 1 one_region with Ret (_, r) => r = 0 | Crash _ => False end) as Hret by (vm_compute; reflexivity).
  rewrite E in *. split; [exact Hret|]. split; [apply (H2 Hret); vm_compute; reflexivity|]. rewrite H1 by (vm_compute; reflexivity). vm_compute. reflexivity.
Defined.

Lemma mmap_places_witness :
  mmap_legal 9 some_answers (new_region 4) (new_region 4) 0x10000 (Z.lor MAP_FIXED MAP_POPULATE) 0x2800 one_region /\
  exists m' vr, mmap_region 9 some_answers (new_region 4) (new_region 4) no_iter 0x10000 (Z.lor MAP_FIXED MAP_POPULATE) 0x2800 0 no_rops one_region = Ret (m', vr) /\
    mmap_effect one_region true 0x10000 0x3000 MRF_PREALLOC (new_region 4) (new_region 4) m' vr.
Proof.
  assert (mmap_legal 9 some_answers (new_region 4) (new_region 4) 0x10000 (Z.lor MAP_FIXED MAP_POPULATE) 0x2800 one_region) as Hl.
  { apply (map_three_legal 4); [exact one_region_room|spare_memory|spare_memory|lia|lia|lia|]. refine (bool_decide_unpack _ _). vm_compute. exact I. }
  split; [exact Hl|].
  destruct (mmap_places 9 some_answers (new_region 4) (new_region 4) no_iter 0x10000 (Z.lor MAP_FIXED MAP_POPULATE) 0x2800 0 no_rops one_region one_region_reachable Hl)
    as [Hres|(_ & (x & Hx) & _)]; [exact Hres|discriminate Hx].
Defined.
