(* ===== verification/TreeErrors.v ===== *)
(** * Paths on which trees, identifiers and address spaces go wrong

    Runs of [Avl], [Idr] and [Region] on concrete states, with the failures they
    lead to. *)

From S2P Require Import Prelude Avl AvlTree AvlRefine Idr Region RegionUnmap RegionSpace.

(** The balance of the right child of the root *)
Definition right_balance (s : Z * (Z -> avl_node)) : res Z := avl_balance_factor (right (s.2 s.1)) s.2.

Definition seven_nodes : list avl_op := [Insert 4; Insert 2; Insert 8; Insert 1; Insert 6; Insert 10; Insert 11].
Definition no_nodes : Z * (Z -> avl_node) := (0, fun _ => mk_node 0 0 0).

Definition alloc_ids (ops : list idr_op) : res (list Z) := '(_, outs) ← idr_run 9 ops (idr_init blank_idr); Ret outs.

(** A region without pages *)
Definition empty_region (v : Z) : map_answers := mk_map_answers (Some v) true None.
Definition map_one (v addr flags : Z) : mm_op :=
  OpMmap some_answers (empty_region v) (empty_region v) no_iter addr flags ARCH_PG_SIZE 0 no_rops.
Definition spaces (ops : list mm_op) : mm_struct := foldl (fun m op => state_of (mm_perform 9 op m)) (mm_init blank_mm) ops.
Definition ranges (m : mm_struct) : list (Z * Z) := (fun x => (vir_addr (regions m x), length (regions m x))) <$> mem_regions m.

(** Three contiguous pages: the operations of their region have no [rop_shrink_low]. *)
Definition contig : mm_struct :=
  spaces [OpMmap some_answers (new_region 1) (new_region 1) no_iter 0x10000 MAP_POPULATE 0x3000 0 (mk_rops true None)].

