(* ===== verification/FdTable.v ===== *)
(** * Descriptor tables of the file server

    servers/vfs/file.c, with the calls that work on descriptors: do_fcntl, do_dup,
    fs_fork and fs_exit of misc.c, close_fd of open.c, anon_inode_get_fd, and the
    loop of exec that closes descriptors. A process has a table of descriptors,
    which processes can share; a table is named by a number, an open file by its
    index in [f_desc_table]. The calls run one after the other; the files that
    other workers have locked are an argument. What happens to an inode when its
    file is released is not modelled: the files released are recorded. *)

From S2P Require Import Prelude Bitmap WaitQueue.

Definition NR_OPEN_DEFAULT : Z := 32.
Definition NR_FILE_DESC : Z := 256.
Definition ENFILE : Z := 23.
Definition O_APPEND : Z := 8.
Definition F_DUPFD : Z := 0.
Definition F_GETFD : Z := 1.
Definition F_SETFD : Z := 2.
Definition F_GETFL : Z := 3.
Definition F_SETFL : Z := 4.
Definition F_DUPFD_CLOEXEC : Z := 14.
Definition COPYFD_FROM : Z := 1.
Definition COPYFD_TO : Z := 2.
Definition COPYFD_CLOSE : Z := 3.
Definition COPYFD_FLAGS_MASK : Z := 0xf000.

(** [fd_inode] says whether the file has an inode. *)
Record file_desc := mk_file { fd_flags : Z; fd_mode : Z; fd_cnt : Z; fd_inode : bool }.
#[export] Instance rebuild_file : Rebuild file_desc := fun f =>
  mk_file (fd_flags f) (fd_mode f) (fd_cnt f) (fd_inode f).

Record files_struct := mk_files {
  refcnt : Z;
  max_fds : Z;
  filp : list (option Z);
  close_on_exec : list Z
}.
#[export] Instance rebuild_files : Rebuild files_struct := fun f =>
  mk_files (refcnt f) (max_fds f) (filp f) (close_on_exec f).

(** The files, the tables, the table of each process, and the files released. *)
Record fdsys := mk_fdsys {
  f_desc_table : Z -> file_desc;
  tables : gmap Z files_struct;
  procs : gmap Z Z;
  released : list Z
}.
#[export] Instance rebuild_fdsys : Rebuild fdsys := fun s =>
  mk_fdsys (f_desc_table s) (tables s) (procs s) (released s).

Definition upd_file (i : Z) (f : file_desc -> file_desc) (s : fdsys) : fdsys :=
  s <| f_desc_table ::= alter f i |>.
Definition set_files (t : Z) (f : files_struct) (s : fdsys) : fdsys := s <| tables ::= <[t := f]> |>.

(** [fp->files] *)
Definition files_of (p : Z) (s : fdsys) : res (Z * files_struct) :=
  match procs s !! p with
  | None => Crash NullDeref
  | Some t => match tables s !! t with Some f => Ret (t, f) | None => Crash BadPtr end
  end.

(** A bit of [close_on_exec]; outside of the bitmap there is other memory. *)
Definition in_bitmap (map : list Z) (bit : Z) : bool :=
  (0 <=? bit) && (bit <? BITCHUNK_BITS * Z.of_nat (length map)).

(** ** Tables *)

(** [memory] says whether the allocations of a call succeed. *)
Definition files_alloc (memory : bool) : option files_struct :=
  if memory then Some (mk_files 1 NR_OPEN_DEFAULT (replicate (Z.to_nat NR_OPEN_DEFAULT) None) [0]) else None.

(** A process of the boot image gets a table of its own. *)
Definition boot_files (memory : bool) (p new : Z) (s : fdsys) : fdsys :=
  match files_alloc memory with
  | None => s
  | Some f => (set_files new f s) <| procs ::= <[p := new]> |>
  end.

(** [nr |= nr >> (1 << i)] for [i] from 0 to 4 *)
Definition smear (nr : Z) : Z := foldl (fun nr i => Z.lor nr (Z.shiftr nr (Z.shiftl 1 i))) nr [0; 1; 2; 3; 4].
Definition table_size (nr : Z) : Z := wrapu 32 (wrapu 32 (smear (nr / 128) + 1) * 128).

Definition expand_files (memory : bool) (nr : Z) (f : files_struct) : res (files_struct * Z) :=
  let nr := table_size nr in
  if nr <=? max_fds f then Crash Panic
  else if negb memory then Ret (f, ENOMEM)
  else
    Ret (f <| filp ::= fun l => l ++ replicate (Z.to_nat (nr - max_fds f)) None |>
           <| close_on_exec ::= fun b => b ++ replicate (Z.to_nat (BITCHUNKS nr - BITCHUNKS (max_fds f))) 0 |>
           <| max_fds := nr |>, 0).

(** The first free descriptor of a table from [start] on. *)
Definition free_fd (start : Z) (f : files_struct) : option Z :=
  (fun r => start + Z.of_nat (fst r)) <$> list_find (fun x => x = None) (drop (Z.to_nat start) (filp f)).

(** The end of [get_fd]: the assertion on the bit of the descriptor. *)
Definition check_fd (t fd : Z) (f : files_struct) (s : fdsys) : res (fdsys * Z * Z) :=
  if negb (in_bitmap (close_on_exec f) fd) then Crash BadPtr
  else if test_bit (close_on_exec f) fd then Crash Panic
  else Ret (set_files t f s, 0, fd).

(** [get_fd] without a file: the return value, and the descriptor, which is [fd0]
    if the code does not set it. [i < max_fds] and [i == max_fds] compare as
    unsigned numbers. *)
Definition get_fd (memory : bool) (p start fd0 : Z) (s : fdsys) : res (fdsys * Z * Z) :=
  '(t, f) ← files_of p s;
  let enter := wrapu 32 start <? max_fds f in
  match (if enter then free_fd start f else None) with
  | Some i => check_fd t i f s
  | None =>
      if enter || (wrapu 32 start =? max_fds f) then
        '(f', retval) ← expand_files memory (max_fds f) f;
        if negb (retval =? 0) then Ret (s, retval, fd0) else check_fd t (max_fds f) f' s
      else check_fd t fd0 f s
  end.

(** [get_fd] with a file: an unused one that no other worker has locked. *)
Definition get_fd_filp (memory : bool) (locked : Z -> bool) (p start bits : Z) (s : fdsys) : res (fdsys * Z * Z * Z) :=
  '(s, retval, fd) ← get_fd memory p start 0 s;
  if negb (retval =? 0) then Ret (s, retval, fd, 0)
  else
    match list_find (fun i => fd_inode (f_desc_table s i) = false /\ locked i = false) (seqZ 0 NR_FILE_DESC) with
    | None => Ret (s, ENFILE, fd, 0)
    | Some (_, i) => Ret (upd_file i (fun f => f <| fd_mode := bits |>) s, 0, fd, i)
    end.

Definition get_filp (p fd : Z) (s : fdsys) : res (option Z) :=
  '(_, f) ← files_of p s;
  if (fd <? 0) || (max_fds f <=? fd) then Ret None
  else Ret (default None (filp f !! Z.to_nat fd)).

Definition install_filp (p fd : Z) (x : option Z) (s : fdsys) : res fdsys :=
  '(t, f) ← files_of p s;
  if max_fds f <=? wrapu 32 fd then Crash Panic
  else Ret (set_files t (f <| filp ::= <[Z.to_nat fd := x]> |>) s).

Definition set_close_on_exec (p fd : Z) (flag : bool) (s : fdsys) : res fdsys :=
  '(t, f) ← files_of p s;
  if max_fds f <=? wrapu 32 fd then Crash Panic
  else Ret (set_files t (f <| close_on_exec ::= fun b => if flag then SET_BIT b fd else UNSET_BIT b fd |>) s).

Definition close_filp (i : Z) (s : fdsys) : res fdsys :=
  if fd_cnt (f_desc_table s i) <=? 0 then Crash Panic
  else
    let s := upd_file i (fun f => f <| fd_cnt ::= Z.pred |>) s in
    Ret (if fd_cnt (f_desc_table s i) =? 0
         then (upd_file i (fun f => f <| fd_inode := false |>) s) <| released ::= fun l => l ++ [i] |>
         else s).

(** [dup_files]: the new table, and the loop that counts its files. *)
Fixpoint count_files (l : list (option Z)) (s : fdsys) : fdsys :=
  match l with
  | [] => s
  | Some i :: l => count_files l (upd_file i (fun f => f <| fd_cnt ::= Z.succ |>) s)
  | None :: l => count_files l s
  end.

Definition dup_files (memory more : bool) (old : files_struct) (s : fdsys) : res (fdsys * (Z + files_struct)) :=
  match files_alloc memory with
  | None => Ret (s, inl ENOMEM)
  | Some new =>
      '(new, retval) ← (if max_fds new <? max_fds old then expand_files more (max_fds old) new else Ret (new, 0));
      if negb (retval =? 0) then Ret (s, inl retval)
      else if max_fds new <? max_fds old then Crash Panic
      else
        Ret (count_files (filp old) s,
             inr (new <| filp := filp old ++ drop (length (filp old)) (filp new) |>
                      <| close_on_exec := take (Z.to_nat (BITCHUNKS (max_fds old))) (close_on_exec old) ++
                           drop (Z.to_nat (BITCHUNKS (max_fds old))) (close_on_exec new) |>))
  end.

Fixpoint close_files (l : list (option Z)) (s : fdsys) : res fdsys :=
  match l with
  | [] => Ret s
  | Some i :: l => s ← close_filp i s; close_files l s
  | None :: l => close_files l s
  end.

Definition put_files (t : Z) (s : fdsys) : res fdsys :=
  match tables s !! t with
  | None => Crash BadPtr
  | Some f =>
      let f := f <| refcnt ::= Z.pred |> in
      if refcnt f =? 0 then s ← close_files (filp f) s; Ret (s <| tables ::= delete t |>)
      else Ret (set_files t f s)
  end.

Definition exit_files (p : Z) (s : fdsys) : res fdsys :=
  match procs s !! p with
  | None => Crash NullDeref
  | Some t => put_files t (s <| procs ::= delete p |>)
  end.

(** ** Calls *)

(** [anon_inode_get_fd]: [vmnt] and [inode] are what locking the mount and the
    inode answer. *)
Definition anon_inode_get_fd (memory : bool) (locked : Z -> bool) (vmnt inode p flags : Z) (s : fdsys) : res (fdsys * Z) :=
  let bits := default 0 ([4; 2; 6; 0] !! Z.to_nat (Z.land flags O_ACCMODE)) in
  if negb (vmnt =? 0) then Ret (s, - vmnt)
  else if negb (inode =? 0) then Ret (s, - inode)
  else
    '(s, retval, fd, i) ← get_fd_filp memory locked p 0 bits s;
    if negb (retval =? 0) then Ret (s, - retval)
    else
      s ← install_filp p fd (Some i) s;
      let s := upd_file i (fun f => f <| fd_cnt := 1 |> <| fd_inode := true |>
                                      <| fd_flags := Z.land flags (Z.lor O_ACCMODE O_NONBLOCK) |>) s in
      s ← set_close_on_exec p fd (has_flag flags O_CLOEXEC) s;
      Ret (s, fd).

(** [close_fd] for a process that calls it for itself *)
Definition close_fd (p fd : Z) (s : fdsys) : res (fdsys * Z) :=
  x ← get_filp p fd s;
  match x with
  | None => Ret (s, EBADF)
  | Some i =>
      if negb (fd_inode (f_desc_table s i)) then Ret (s, EBADF)
      else
        s ← close_filp i s;
        s ← install_filp p fd None s;
        s ← set_close_on_exec p fd false s;
        Ret (s, 0)
  end.

Definition do_close (p fd : Z) (s : fdsys) : res (fdsys * Z) := close_fd p fd s.

(** Another descriptor for file [i] *)
Definition share_filp (p newfd i : Z) (s : fdsys) : res (fdsys * Z) :=
  s ← install_filp p newfd (Some i) (upd_file i (fun f => f <| fd_cnt ::= Z.succ |>) s);
  Ret (s, newfd).

(** [dup2] closes the descriptor it is asked for. *)
Definition dup_close (p fd newfd : Z) (f : files_struct) (s : fdsys) : res fdsys :=
  if negb (newfd =? fd) && (0 <=? newfd) && (newfd <? max_fds f) then
    match default None (filp f !! Z.to_nat newfd) with
    | Some _ => '(s, _) ← close_fd p newfd s; Ret s
    | None => Ret s
    end
  else Ret s.

Definition do_dup (memory : bool) (p fd newfd : Z) (s : fdsys) : res (fdsys * Z) :=
  '(_, f) ← files_of p s;
  s ← dup_close p fd newfd f s;
  x ← get_filp p fd s;
  match x with
  | None => Ret (s, - EBADF)
  | Some i =>
      if negb (newfd =? -1) && (fd =? newfd) then Ret (s, newfd)
      else
        let newfd := if newfd =? -1 then 0 else newfd in
        '(s, retval, newfd) ← get_fd memory p newfd newfd s;
        if negb (retval =? 0) then Ret (s, - retval) else share_filp p newfd i s
  end.

(** [do_fcntl]; [lock] is what [do_lock] answers for the other requests. *)
Definition do_fcntl (memory : bool) (lock : Z -> option Z) (p fd request argx : Z) (s : fdsys) : res (fdsys * Z) :=
  x ← get_filp p fd s;
  match x with
  | None => Ret (s, EBADF)
  | Some i =>
      if (request =? F_DUPFD) || (request =? F_DUPFD_CLOEXEC) then
        if argx <? 0 then Ret (s, - EINVAL)
        else
          '(s, retval, newfd) ← get_fd memory p argx (-1) s;
          if negb (retval =? 0) then Ret (s, retval) else share_filp p newfd i s
      else if (request =? F_GETFD) || (request =? F_SETFD) then Ret (s, 0)
      else if request =? F_GETFL then
        Ret (s, Z.land (fd_flags (f_desc_table s i)) (Z.lor (Z.lor O_NONBLOCK O_APPEND) O_ACCMODE))
      else if request =? F_SETFL then
        let flags := Z.lor O_NONBLOCK O_APPEND in
        Ret (upd_file i (fun f => f <| fd_flags ::= fun x => Z.lor (clear_flag x flags) (Z.land argx flags) |>) s, 0)
      else Ret (s, default (- EINVAL) (lock request))
  end.

(** The first free descriptor for a file copied to another process *)
Definition copy_to (memory : bool) (dest i : Z) (s : fdsys) : res (fdsys * Z) :=
  '(t, f) ← files_of dest s;
  '(f', fd, retval) ← match free_fd 0 f with
                      | Some fd => Ret (f, fd, 0)
                      | None => '(f', retval) ← expand_files memory (max_fds f) f; Ret (f', max_fds f, retval)
                      end;
  if negb (retval =? 0) then Ret (s, - retval)
  else
    s ← install_filp dest fd (Some i) (set_files t f' s);
    Ret (upd_file i (fun x => x <| fd_cnt ::= Z.succ |>) s, fd).

(** [do_copyfd] by process [p] for process [other], if it exists *)
Definition do_copyfd (memory : bool) (p : Z) (other : option Z) (fd how : Z) (s : fdsys) : res (fdsys * Z) :=
  match other with
  | None => Ret (s, - EINVAL)
  | Some dest =>
      let how := clear_flag how COPYFD_FLAGS_MASK in
      x ← get_filp (if how =? COPYFD_TO then p else dest) fd s;
      match x with
      | None => Ret (s, - EBADF)
      | Some i =>
          if how =? COPYFD_FROM then copy_to memory p i s
          else if how =? COPYFD_TO then copy_to memory dest i s
          else if how =? COPYFD_CLOSE then
            if 1 <? fd_cnt (f_desc_table s i) then
              s ← install_filp dest fd None (upd_file i (fun f => f <| fd_cnt ::= Z.pred |>) s);
              s ← set_close_on_exec dest fd false s;
              Ret (s, 0)
            else Ret (s, - EBADF)
          else Ret (s, - EINVAL)
      end
  end.

(** The tables in [fs_fork]: [new] is the number of the new one, [shared] the flag
    [CLONE_FILES]. The child has the table of its parent first. *)
Definition fs_fork (memory more shared : bool) (child parent new : Z) (s : fdsys) : res (fdsys * Z) :=
  '(t, f) ← files_of parent s;
  let s := s <| procs ::= <[child := t]> |> in
  if shared then Ret (set_files t (f <| refcnt ::= Z.succ |>) s, 0)
  else
    '(s, r) ← dup_files memory more f s;
    match (r : Z + files_struct) with
    | inl err => Ret (s, err)
    | inr newf => Ret ((set_files new newf s) <| procs ::= <[child := new]> |>, 0)
    end.

(** The tables in [fs_exit] *)
Definition fs_exit (p : Z) (s : fdsys) : res fdsys := exit_files p s.

(** The descriptors closed by exec *)
Fixpoint exec_loop (p : Z) (fds : list Z) (s : fdsys) : res fdsys :=
  match fds with
  | [] => Ret s
  | i :: fds =>
      '(_, f) ← files_of p s;
      if negb (in_bitmap (close_on_exec f) i) then Crash BadPtr
      else
        s ← (if test_bit (close_on_exec f) i then
               match default None (filp f !! Z.to_nat i) with
               | None => Crash Panic
               | Some _ => '(s, _) ← close_fd p i s; Ret s
               end
             else Ret s);
        exec_loop p fds s
  end.
Definition exec_close (p : Z) (s : fdsys) : res fdsys :=
  '(_, f) ← files_of p s; exec_loop p (seqZ 0 (max_fds f)) s.
