(* ===== verification/FdProps.v ===== *)
(** * Descriptors are counted exactly

    Theorems on [FdTable]: the counts of open files and of tables, the bits that
    exec looks at, and the assertions of the code. *)

From S2P Require Import Prelude Bitmap WaitQueue FdTable.

(** ** Sums over maps *)

Section total.
Context {A : Type} (w : Z -> A -> Z).

Definition total (m : gmap Z A) : Z := map_fold (fun k x n => w k x + n) 0 m.

Lemma total_insert m k x : m !! k = None -> total (<[k := x]> m) = w k x + total m.
Proof. intros Hk. unfold total. rewrite map_fold_insert_L; [done| |done]. intros. lia. Qed.

Lemma total_delete m k x : m !! k = Some x -> total m = w k x + total (delete k m).
Proof. intros Hk. rewrite <- (insert_delete_id m k x) at 1 by done. apply total_insert, lookup_delete_eq. Qed.

Lemma total_update m k x y : m !! k = Some y -> total (<[k := x]> m) = total m - w k y + w k x.
Proof.
  intros Hk. rewrite (total_delete (<[k := x]> m) k x) by apply lookup_insert_eq.
  rewrite (total_delete m k y) by done. rewrite delete_insert_eq. lia.
Qed.

Lemma total_nonneg m : (forall k x, 0 <= w k x) -> 0 <= total m.
Proof. intros Hw. unfold total. apply (map_fold_weak_ind (fun n _ => 0 <= n)); [lia|]. intros k x m' n _ Hn. specialize (Hw k x). lia. Qed.

Lemma entry_le_total m k x : (forall k x, 0 <= w k x) -> m !! k = Some x -> w k x <= total m.
Proof. intros Hw Hk. rewrite (total_delete m k x) by done. pose proof (total_nonneg (delete k m) Hw). lia. Qed.
End total.

(** ** Occurrences *)

Definition is_file (i : Z) (x : option Z) : Z := if bool_decide (x = Some i) then 1 else 0.
Definition occ (i : Z) (l : list (option Z)) : Z := foldr (fun x n => is_file i x + n) 0 l.

Lemma occ_app i l1 l2 : occ i (l1 ++ l2) = occ i l1 + occ i l2.
Proof. induction l1 as [|x l1 IH]; [done|]. cbn in *. unfold occ in *. lia. Qed.

Lemma occ_free i n : occ i (replicate n None) = 0.
Proof. induction n as [|n IH]; [done|]. cbn. unfold occ in IH. by rewrite IH. Qed.

Lemma is_file_range i x : 0 <= is_file i x <= 1.
Proof. unfold is_file. case_bool_decide; lia. Qed.

Lemma occ_nonneg i l : 0 <= occ i l.
Proof. induction l as [|x l IH]; cbn; [lia|]. pose proof (is_file_range i x). unfold occ in IH. lia. Qed.

Lemma occ_insert i l k x y : l !! k = Some y -> occ i (<[k := x]> l) = occ i l - is_file i y + is_file i x.
Proof.
  revert k. induction l as [|z l IH]; intros k; [done|]. destruct k as [|k]; cbn [lookup list_lookup].
  - intros [= ->]. cbn. unfold occ. lia.
  - intros Hk. change (is_file i z + occ i (<[k := x]> l) = is_file i z + occ i l - is_file i y + is_file i x).
    rewrite (IH k Hk). lia.
Qed.

Lemma occ_elem i l k : l !! k = Some (Some i) -> 1 <= occ i l.
Proof.
  intros Hk. pose proof (occ_insert i l k None (Some i) Hk) as Ho. pose proof (occ_nonneg i (<[k := None]> l)).
  unfold is_file in Ho. rewrite bool_decide_eq_true_2, bool_decide_eq_false_2 in Ho by done. lia.
Qed.

(** The descriptors that refer to a file, and the processes that use a table *)
Definition uses (i : Z) (m : gmap Z files_struct) : Z := total (fun _ f => occ i (filp f)) m.
Definition users (t : Z) (m : gmap Z Z) : Z := total (fun _ t' => if bool_decide (t' = t) then 1 else 0) m.

(** ** The invariant *)

Record table_ok (f : files_struct) : Prop := {
  t_length : Z.of_nat (length (filp f)) = max_fds f;
  t_max : 0 < max_fds f <= 2 ^ 30;
  t_chunks : Z.of_nat (length (close_on_exec f)) = BITCHUNKS (max_fds f);
  t_map : wf_bitmap (close_on_exec f) (max_fds f);
  t_bits : forall fd, 0 <= fd -> test_bit (close_on_exec f) fd = true -> exists i, filp f !! Z.to_nat fd = Some (Some i)
}.

(** The counts are right up to [debt], which a call leaves open while it runs. *)
Record fd_inv (debt : Z -> Z) (s : fdsys) : Prop := {
  o_table : forall t f, tables s !! t = Some f -> table_ok f;
  o_cnt : forall i, fd_cnt (f_desc_table s i) = uses i (tables s) + debt i;
  o_inode : forall i, fd_inode (f_desc_table s i) = bool_decide (0 < fd_cnt (f_desc_table s i));
  o_refs : forall t f, tables s !! t = Some f -> refcnt f = users t (procs s) /\ 0 < refcnt f;
  o_proc : forall p t, procs s !! p = Some t -> is_Some (tables s !! t)
}.
Definition fd_ok (s : fdsys) : Prop := fd_inv (fun _ => 0) s.

Lemma fd_inv_ext debt debt' s : fd_inv debt s -> (forall i, debt' i = debt i) -> fd_inv debt' s.
Proof. intros [] Hd. split; try done. intros i. by rewrite Hd. Qed.

Lemma uses_nonneg i m : 0 <= uses i m.
Proof. apply total_nonneg. intros. apply occ_nonneg. Qed.

Lemma uses_le i m t f : m !! t = Some f -> occ i (filp f) <= uses i m.
Proof. apply (entry_le_total (fun _ f => occ i (filp f))). intros. apply occ_nonneg. Qed.

Lemma files_of_ok debt p s :
  fd_inv debt s -> is_Some (procs s !! p) ->
  exists t f, files_of p s = Ret (t, f) /\ procs s !! p = Some t /\ tables s !! t = Some f /\ table_ok f.
Proof.
  intros Hok [t Ht]. destruct (o_proc _ _ Hok p t Ht) as [f Hf]. exists t, f. unfold files_of. rewrite Ht, Hf.
  split; [done|]. split; [done|]. split; [done|]. by apply (o_table _ _ Hok t).
Qed.

(** A table changes. *)
Lemma set_files_inv debt t f f' s :
  fd_inv debt s -> tables s !! t = Some f -> table_ok f' -> refcnt f' = refcnt f ->
  fd_inv (fun i => debt i + occ i (filp f) - occ i (filp f')) (set_files t f' s).
Proof.
  intros [] Ht Hf' Hr. split; cbn.
  - intros t' g. destruct (decide (t' = t)) as [->|Hne]; [rewrite lookup_insert_eq; by intros [= <-]|].
    rewrite lookup_insert_ne by done. apply o_table0.
  - intros i. unfold uses. rewrite (total_update _ _ _ _ f) by done. rewrite o_cnt0. unfold uses. lia.
  - done.
  - intros t' g. destruct (decide (t' = t)) as [->|Hne].
    + rewrite lookup_insert_eq. intros [= <-]. rewrite Hr. by apply o_refs0.
    + rewrite lookup_insert_ne by done. apply o_refs0.
  - intros p t' Hp. destruct (decide (t' = t)) as [->|Hne]; [by rewrite lookup_insert_eq|].
    rewrite lookup_insert_ne by done. by apply (o_proc0 p).
Qed.

(** A count changes by [n], with the inode. *)
Lemma upd_file_inv debt i n g s :
  fd_inv debt s -> fd_cnt (g (f_desc_table s i)) = fd_cnt (f_desc_table s i) + n ->
  fd_inode (g (f_desc_table s i)) = bool_decide (0 < fd_cnt (g (f_desc_table s i))) ->
  fd_inv (fun j => debt j + (if bool_decide (j = i) then n else 0)) (upd_file i g s).
Proof.
  intros [] Hn Hi.
  assert (forall j, f_desc_table (upd_file i g s) j = if bool_decide (j = i) then g (f_desc_table s j) else f_desc_table s j) as Hf.
  { intros j. change (f_desc_table (upd_file i g s) j) with (alter g i (f_desc_table s) j).
    destruct (decide (j = i)) as [->|Hj]; [|by rewrite bool_decide_eq_false_2, fn_lookup_alter_ne].
    by rewrite bool_decide_eq_true_2, fn_lookup_alter. }
  split; try done.
  - intros j. rewrite Hf. change (tables (upd_file i g s)) with (tables s).
    destruct (decide (j = i)) as [->|Hj].
    + rewrite !bool_decide_eq_true_2, Hn, o_cnt0 by done. lia.
    + rewrite !bool_decide_eq_false_2, o_cnt0 by done. lia.
  - intros j. rewrite Hf. destruct (decide (j = i)) as [->|Hj].
    + by rewrite (bool_decide_eq_true_2 (i = i)).
    + by rewrite (bool_decide_eq_false_2 (j = i)).
Qed.

(** ** Tables *)

Lemma lor_le x y : 0 <= x -> 0 <= y -> x <= Z.lor x y.
Proof.
  intros Hx Hy. assert (Z.lor x y = x + Z.ldiff y x) as ->.
  { rewrite Z.add_nocarry_lxor; apply Z.bits_inj'; intros n Hn;
      rewrite ?Z.lxor_spec, ?Z.lor_spec, ?Z.land_spec, ?Z.ldiff_spec, ?Z.bits_0;
      by destruct (Z.testbit x n), (Z.testbit y n). }
  assert (0 <= Z.ldiff y x) by (apply Z.ldiff_nonneg; lia). lia.
Qed.

Lemma smear_bounds q w : 0 <= q < 2 ^ w -> 0 <= w -> q <= smear q < 2 ^ w.
Proof.
  intros Hq Hw. unfold smear. assert (forall l x, q <= x < 2 ^ w ->
    q <= foldl (fun nr i => Z.lor nr (Z.shiftr nr (Z.shiftl 1 i))) x l < 2 ^ w) as Hl; [|apply Hl; lia].
  induction l as [|i l IH]; intros x Hx; [done|]. cbn [foldl]. apply IH.
  assert (0 <= Z.shiftl 1 i) as Hi by (apply Z.shiftl_nonneg; lia).
  assert (0 <= Z.shiftr x (Z.shiftl 1 i) <= x) as Hs.
  { rewrite Z.shiftr_div_pow2 by done. split; [apply Z.div_pos; lia|]. apply Z.div_le_upper_bound; nia. }
  pose proof (lor_range w x (Z.shiftr x (Z.shiftl 1 i)) Hw ltac:(lia) ltac:(lia)).
  pose proof (lor_le x (Z.shiftr x (Z.shiftl 1 i)) ltac:(lia) ltac:(lia)). lia.
Qed.

Lemma table_size_bounds nr : 0 <= nr <= 2 ^ 30 -> nr < table_size nr <= 2 ^ 31.
Proof.
  intros Hn. unfold table_size. pose proof (Z.div_mod nr 128 ltac:(lia)). pose proof (Z.mod_pos_bound nr 128 ltac:(lia)).
  assert (0 <= nr / 128 < 2 ^ 24) as Hq by lia. pose proof (smear_bounds (nr / 128) 24 Hq ltac:(lia)) as Hs.
  rewrite !wrapu_small; rewrite ?wrapu_small; lia.
Qed.

Lemma nth_replicate_zero n k : nth k (replicate n 0) 0 = 0.
Proof. revert k. induction n as [|n IH]; intros [|k]; cbn; done || apply IH. Qed.

Lemma test_bit_grown b n fd : test_bit (b ++ replicate n 0) fd = test_bit b fd.
Proof.
  unfold test_bit, GET_BIT, MAP_CHUNK, chunk. do 3 f_equal. set (k := Z.to_nat _).
  destruct (Nat.lt_ge_cases k (length b)) as [Hk|Hk]; [by rewrite app_nth1|].
  rewrite app_nth2, (nth_overflow b) by lia. apply nth_replicate_zero.
Qed.

Lemma BITCHUNKS_mono a b : a <= b -> BITCHUNKS a <= BITCHUNKS b.
Proof. unfold BITCHUNKS, BITCHUNK_BITS. intros. apply Z.div_le_mono; lia. Qed.

(** What [expand_files] makes of a table *)
Definition grown (nr : Z) (f : files_struct) : files_struct :=
  mk_files (refcnt f) (table_size nr) (filp f ++ replicate (Z.to_nat (table_size nr - max_fds f)) None)
    (close_on_exec f ++ replicate (Z.to_nat (BITCHUNKS (table_size nr) - BITCHUNKS (max_fds f))) 0).

Lemma expand_files_eq memory nr f :
  max_fds f < table_size nr -> expand_files memory nr f = Ret (if memory then (grown nr f, 0) else (f, ENOMEM)).
Proof. intros Hm. unfold expand_files. rewrite (proj2 (Z.leb_gt _ _)) by done. by destruct memory, f. Qed.

Lemma grown_ok nr f : table_ok f -> max_fds f < table_size nr <= 2 ^ 30 -> table_ok (grown nr f).
Proof.
  intros [] Hm. pose proof (BITCHUNKS_mono (max_fds f) (table_size nr) ltac:(lia)) as Hc. split; cbn.
  - rewrite length_app, length_replicate. lia.
  - lia.
  - rewrite length_app, length_replicate. lia.
  - destruct t_map0 as [Hall Hlen]. split; [apply Forall_app; split; [done|]; by apply Forall_replicate|].
    rewrite length_app, length_replicate. lia.
  - intros fd Hfd. rewrite test_bit_grown. intros Hb. destruct (t_bits0 fd Hfd Hb) as [i Hi]. exists i.
    by apply lookup_app_l_Some.
Qed.

Lemma occ_grown nr f i : occ i (filp (grown nr f)) = occ i (filp f).
Proof. unfold grown. cbn [filp]. rewrite occ_app, occ_free. lia. Qed.

(** The descriptor found is the first free one from [start] on. *)
Record first_free (start fd : Z) (f : files_struct) : Prop := {
  ff_range : 0 <= start <= fd /\ fd < max_fds f;
  ff_free : filp f !! Z.to_nat fd = Some None;
  ff_least : forall k, start <= k < fd -> filp f !! Z.to_nat k <> Some None
}.

Lemma free_fd_Some start f i : table_ok f -> 0 <= start -> free_fd start f = Some i -> first_free start i f.
Proof.
  intros Hok Hs Hf. unfold free_fd in Hf.
  destruct (list_find (fun x => x = None) (drop (Z.to_nat start) (filp f))) as [[k y]|] eqn:Hl; [|done].
  injection Hf as <-. apply list_find_Some in Hl as (Hk & -> & Hleast). rewrite lookup_drop in Hk.
  pose proof (lookup_lt_Some _ _ _ Hk) as Hlt. pose proof (t_length _ Hok). split; [lia| |].
  - cbn [fst]. by replace (Z.to_nat (start + Z.of_nat k)) with (Z.to_nat start + k)%nat by lia.
  - cbn [fst]. intros j Hj Hn. apply (Hleast (Z.to_nat (j - start)) None); [|lia|done].
    rewrite lookup_drop. by replace (Z.to_nat start + Z.to_nat (j - start))%nat with (Z.to_nat j) by lia.
Qed.

Lemma free_fd_None start f k : 0 <= start <= k -> free_fd start f = None -> filp f !! Z.to_nat k <> Some None.
Proof.
  intros Hs Hf Hk. apply fmap_None, list_find_None in Hf. rewrite Forall_lookup in Hf.
  apply (Hf (Z.to_nat (k - start)) None); [|done].
  rewrite lookup_drop. by replace (Z.to_nat start + Z.to_nat (k - start))%nat with (Z.to_nat k) by lia.
Qed.

Lemma free_in_grown start nr f :
  table_ok f -> max_fds f < table_size nr -> 0 <= start <= max_fds f ->
  (forall k, start <= k < max_fds f -> filp f !! Z.to_nat k <> Some None) -> first_free start (max_fds f) (grown nr f).
Proof.
  intros [] Hm Hs Hfull. split; [cbn [grown max_fds]; lia| |].
  - cbn [grown filp]. rewrite lookup_app_r by lia. apply lookup_replicate_2. lia.
  - intros k Hk. cbn [grown filp]. rewrite lookup_app_l by lia. by apply Hfull.
Qed.

Lemma check_fd_ok t start fd f s : table_ok f -> first_free start fd f -> check_fd t fd f s = Ret (set_files t f s, 0, fd).
Proof.
  intros Hok Hff. pose proof Hff as [[Hr Hm] Hfree _]. unfold check_fd.
  assert (in_bitmap (close_on_exec f) fd = true) as ->.
  { unfold in_bitmap. rewrite (t_chunks _ Hok), andb_true_iff, Z.leb_le, Z.ltb_lt. split; [lia|].
    unfold BITCHUNKS, BITCHUNK_BITS. pose proof (Z.div_mod (max_fds f + 64 - 1) 64 ltac:(lia)).
    pose proof (Z.mod_pos_bound (max_fds f + 64 - 1) 64 ltac:(lia)). lia. }
  cbn [negb]. destruct (test_bit (close_on_exec f) fd) eqn:Hb; [|done].
  destruct (t_bits _ Hok fd ltac:(lia) Hb) as [i Hi]. congruence.
Qed.

(** Allocations stop at a table of 2^30 descriptors. *)
Definition bounded (memory : bool) (nr : Z) : Prop := memory = true -> table_size nr <= 2 ^ 30.

(** A descriptor of a table that is not free has a file. *)
Lemma slot_used f fd :
  table_ok f -> 0 <= fd < max_fds f -> filp f !! Z.to_nat fd <> Some None -> exists j, filp f !! Z.to_nat fd = Some (Some j).
Proof.
  intros Hf Hfd Hne. destruct (lookup_lt_is_Some_2 (filp f) (Z.to_nat fd)) as [[j|] Hj]; [|by exists j|done].
  pose proof (t_length _ Hf). lia.
Qed.

Definition vacant (fd : Z) (f : files_struct) : Prop := forall j, filp f !! Z.to_nat fd <> Some (Some j).

Lemma get_fd_spec debt memory p t f start fd0 s :
  fd_inv debt s -> procs s !! p = Some t -> tables s !! t = Some f -> 0 <= start <= max_fds f ->
  bounded memory (max_fds f) ->
  get_fd memory p start fd0 s = Ret (s, ENOMEM, fd0) /\ memory = false \/
  exists fd f', get_fd memory p start fd0 s = Ret (set_files t f' s, 0, fd) /\ first_free start fd f' /\ table_ok f' /\
    refcnt f' = refcnt f /\ (vacant start f -> fd = start) /\ forall i, occ i (filp f') = occ i (filp f).
Proof.
  intros Hok Hp Ht Hs Hmem. pose proof (o_table _ _ Hok t f Ht) as Hf. pose proof (t_max _ Hf) as Hmax.
  unfold get_fd, files_of. rewrite Hp, Ht. cbn [mbind res_mbind]. rewrite wrapu_small by lia.
  pose proof (table_size_bounds (max_fds f) ltac:(lia)) as Hsz.
  assert (forall b, (forall k, start <= k < max_fds f -> filp f !! Z.to_nat k <> Some None) -> b = true ->
    (if b then '(f', retval) ← expand_files memory (max_fds f) f;
       if negb (retval =? 0) then Ret (s, retval, fd0) else check_fd t (max_fds f) f' s
     else check_fd t fd0 f s) = Ret (s, ENOMEM, fd0) /\ memory = false \/
    exists fd f', (if b then '(f', retval) ← expand_files memory (max_fds f) f;
       if negb (retval =? 0) then Ret (s, retval, fd0) else check_fd t (max_fds f) f' s
     else check_fd t fd0 f s) = Ret (set_files t f' s, 0, fd) /\ first_free start fd f' /\ table_ok f' /\
    refcnt f' = refcnt f /\ (vacant start f -> fd = start) /\ forall i, occ i (filp f') = occ i (filp f)) as Hgrow.
  { intros b Hfull ->. rewrite expand_files_eq by lia. destruct memory; [|by left]. right.
    cbn [mbind res_mbind negb Z.eqb]. specialize (Hmem eq_refl). exists (max_fds f), (grown (max_fds f) f).
    pose proof (grown_ok (max_fds f) f Hf ltac:(lia)) as Hg.
    pose proof (free_in_grown start (max_fds f) f Hf ltac:(lia) Hs Hfull) as Hff.
    split; [by apply (check_fd_ok t start)|]. split; [done|]. split; [done|]. split; [done|]. split; [|apply occ_grown].
    intros Hv. destruct (decide (start = max_fds f)); [done|]. destruct (slot_used f start Hf ltac:(lia)) as [j Hj]; [|by destruct (Hv j)].
    apply Hfull. lia. }
  destruct (Z.ltb_spec start (max_fds f)) as [Hlt|Hge].
  - destruct (free_fd start f) as [i|] eqn:Hfree.
    + right. pose proof (free_fd_Some start f i Hf ltac:(lia) Hfree) as Hff. exists i, f.
      rewrite (check_fd_ok t start i f s) by done. do 4 (split; [done|]). split; [|done]. destruct Hff as [[Hr Hm] _ Hleast].
      intros Hv. destruct (decide (i = start)); [done|]. destruct (slot_used f start Hf ltac:(lia)) as [j Hj]; [|by destruct (Hv j)].
      apply Hleast. lia.
    + apply Hgrow; [|done]. intros k Hk. apply (free_fd_None start); [lia|done].
  - apply Hgrow; [lia|]. cbn [orb]. apply Z.eqb_eq. lia.
Qed.

(** ** Single descriptors *)

Lemma set_files_twice t f f' s : set_files t f' (set_files t f s) = set_files t f' s.
Proof.
  change (mk_fdsys (f_desc_table s) (<[t := f']> (<[t := f]> (tables s))) (procs s) (released s) =
          mk_fdsys (f_desc_table s) (<[t := f']> (tables s)) (procs s) (released s)).
  by rewrite insert_insert_eq.
Qed.

Definition with_fd (fd i : Z) (f : files_struct) : files_struct := f <| filp ::= <[Z.to_nat fd := Some i]> |>.
Definition without_fd (fd : Z) (f : files_struct) : files_struct :=
  f <| filp ::= <[Z.to_nat fd := None]> |> <| close_on_exec ::= fun b => UNSET_BIT b fd |>.

Lemma in_range_fd fd f : table_ok f -> 0 <= fd < max_fds f -> max_fds f <=? wrapu 32 fd = false.
Proof. intros [] Hfd. rewrite wrapu_small by lia. apply Z.leb_gt. lia. Qed.

Lemma with_fd_ok fd i f : table_ok f -> 0 <= fd < max_fds f -> table_ok (with_fd fd i f).
Proof.
  intros [] Hfd. split; try done.
  - change (Z.of_nat (length (<[Z.to_nat fd := Some i]> (filp f))) = max_fds f). by rewrite length_insert.
  - intros k Hk Hb. destruct (t_bits0 k Hk Hb) as [j Hj].
    change (exists i0, <[Z.to_nat fd := Some i]> (filp f) !! Z.to_nat k = Some (Some i0)).
    destruct (decide (k = fd)) as [->|Hne]; [exists i; apply list_lookup_insert_eq; lia|].
    exists j. by rewrite list_lookup_insert_ne by lia.
Qed.

Lemma without_fd_ok fd f : table_ok f -> 0 <= fd < max_fds f -> table_ok (without_fd fd f).
Proof.
  intros [] Hfd. split; try done.
  - change (Z.of_nat (length (<[Z.to_nat fd := None]> (filp f))) = max_fds f). by rewrite length_insert.
  - change (Z.of_nat (length (UNSET_BIT (close_on_exec f) fd)) = BITCHUNKS (max_fds f)). unfold UNSET_BIT. by rewrite length_insert.
  - change (wf_bitmap (UNSET_BIT (close_on_exec f) fd) (max_fds f)). by apply wf_UNSET_BIT.
  - intros k Hk. change (test_bit (UNSET_BIT (close_on_exec f) fd) k = true ->
      exists i, <[Z.to_nat fd := None]> (filp f) !! Z.to_nat k = Some (Some i)).
    rewrite (test_bit_UNSET_BIT _ (max_fds f)) by done. case_decide as Hfk; [done|]. intros Hb.
    destruct (t_bits0 k Hk Hb) as [j Hj]. exists j. by rewrite list_lookup_insert_ne by lia.
Qed.

(** The bit of a descriptor that is open *)
Definition with_bit (fd : Z) (flag : bool) (f : files_struct) : files_struct :=
  f <| close_on_exec ::= fun b => if flag then SET_BIT b fd else UNSET_BIT b fd |>.

Lemma with_bit_ok fd flag i f :
  table_ok f -> 0 <= fd < max_fds f -> filp f !! Z.to_nat fd = Some (Some i) -> table_ok (with_bit fd flag f).
Proof.
  intros [] Hfd Hi. split; try done.
  - change (Z.of_nat (length (if flag then SET_BIT (close_on_exec f) fd else UNSET_BIT (close_on_exec f) fd)) =
      BITCHUNKS (max_fds f)). by destruct flag; unfold SET_BIT, UNSET_BIT; rewrite length_insert.
  - change (wf_bitmap (if flag then SET_BIT (close_on_exec f) fd else UNSET_BIT (close_on_exec f) fd) (max_fds f)).
    destruct flag; [by apply wf_SET_BIT|by apply wf_UNSET_BIT].
  - intros k Hk. change (test_bit (if flag then SET_BIT (close_on_exec f) fd else UNSET_BIT (close_on_exec f) fd) k = true ->
      exists i, filp f !! Z.to_nat k = Some (Some i)).
    destruct flag; [rewrite (test_bit_SET_BIT _ (max_fds f)) by done|rewrite (test_bit_UNSET_BIT _ (max_fds f)) by done];
      case_decide as Hfk; try done; try (by apply t_bits0).
    subst k. intros _. by exists i.
Qed.

Section descriptor.
Context (debt : Z -> Z) (s : fdsys) (p t : Z) (f : files_struct).
Hypothesis Hok : fd_inv debt s.
Hypothesis Hp : procs s !! p = Some t.
Hypothesis Ht : tables s !! t = Some f.

Lemma files_of_eq : files_of p s = Ret (t, f).
Proof. unfold files_of. by rewrite Hp, Ht. Qed.

Lemma this_table_ok : table_ok f.
Proof. by apply (o_table _ _ Hok t). Qed.

Lemma get_filp_eq fd :
  get_filp p fd s = Ret (if (fd <? 0) || (max_fds f <=? fd) then None else default None (filp f !! Z.to_nat fd)).
Proof. unfold get_filp. rewrite files_of_eq. cbn [mbind res_mbind]. by destruct (_ || _). Qed.

(** An open descriptor is in range, and its file is counted. *)
Lemma get_filp_Some fd i :
  get_filp p fd s = Ret (Some i) -> 0 <= fd < max_fds f /\ filp f !! Z.to_nat fd = Some (Some i).
Proof.
  rewrite get_filp_eq. destruct (Z.ltb_spec fd 0), (Z.leb_spec (max_fds f) fd); cbn [orb]; try done.
  intros [= Hl]. split; [lia|]. destruct (filp f !! Z.to_nat fd) as [[j|]|]; cbn in Hl; congruence.
Qed.

Lemma install_filp_eq fd x :
  0 <= fd < max_fds f -> install_filp p fd x s = Ret (set_files t (f <| filp ::= <[Z.to_nat fd := x]> |>) s).
Proof.
  intros Hfd. unfold install_filp. rewrite files_of_eq. cbn [mbind res_mbind].
  by rewrite in_range_fd by (done || apply this_table_ok).
Qed.

Lemma set_close_on_exec_eq fd flag :
  0 <= fd < max_fds f -> set_close_on_exec p fd flag s = Ret (set_files t (with_bit fd flag f) s).
Proof.
  intros Hfd. unfold set_close_on_exec. rewrite files_of_eq. cbn [mbind res_mbind].
  by rewrite in_range_fd by (done || apply this_table_ok).
Qed.

(** A descriptor is taken. *)
Lemma with_fd_inv fd i :
  0 <= fd < max_fds f -> filp f !! Z.to_nat fd = Some None ->
  fd_inv (fun j => debt j - (if bool_decide (j = i) then 1 else 0)) (set_files t (with_fd fd i f) s).
Proof.
  intros Hfd Hfree. pose proof this_table_ok as Hf.
  eapply fd_inv_ext; [apply (set_files_inv debt t f); [done|done|by apply with_fd_ok|done]|].
  intros j. change (filp (with_fd fd i f)) with (<[Z.to_nat fd := Some i]> (filp f)).
  cbv beta. rewrite (occ_insert j _ _ _ None) by done. unfold is_file.
  rewrite (bool_decide_eq_false_2 (None = Some j)) by done.
  rewrite (bool_decide_ext (Some i = Some j) (j = i)) by naive_solver. lia.
Qed.

(** A descriptor is given up. *)
Lemma without_fd_inv fd i :
  filp f !! Z.to_nat fd = Some (Some i) -> 0 <= fd < max_fds f ->
  fd_inv (fun j => debt j + (if bool_decide (j = i) then 1 else 0)) (set_files t (without_fd fd f) s).
Proof.
  intros Hi Hfd. pose proof this_table_ok as Hf.
  eapply fd_inv_ext; [apply (set_files_inv debt t f); [done|done|by apply without_fd_ok|done]|].
  intros j. change (filp (without_fd fd f)) with (<[Z.to_nat fd := None]> (filp f)).
  cbv beta. rewrite (occ_insert j _ _ _ (Some i)) by done. unfold is_file.
  rewrite (bool_decide_eq_false_2 (None = Some j)) by done.
  rewrite (bool_decide_ext (Some i = Some j) (j = i)) by naive_solver. lia.
Qed.

Lemma with_bit_inv fd flag i :
  0 <= fd < max_fds f -> filp f !! Z.to_nat fd = Some (Some i) -> fd_inv debt (set_files t (with_bit fd flag f) s).
Proof.
  intros Hfd Hi. eapply fd_inv_ext; [apply (set_files_inv debt t f); [done|done| |done]|].
  - apply (with_bit_ok fd flag i); [apply this_table_ok|done|done].
  - intros j. change (filp (with_bit fd flag f)) with (filp f). cbv beta. lia.
Qed.
End descriptor.

(** ** Closing *)

Lemma upd_file_eq i g s : f_desc_table (upd_file i g s) i = g (f_desc_table s i).
Proof. unfold upd_file. cbn. by rewrite fn_lookup_alter. Qed.

Lemma add_released_inv debt x s : fd_inv debt s -> fd_inv debt (s <| released ::= fun l => l ++ x |>).
Proof. intros []. by split. Qed.

(** The count goes down, and the file is released with the last descriptor. *)
Lemma close_filp_spec debt i s :
  fd_inv debt s -> 0 < fd_cnt (f_desc_table s i) ->
  exists s', close_filp i s = Ret s' /\ fd_inv (fun j => debt j - (if bool_decide (j = i) then 1 else 0)) s' /\
    tables s' = tables s /\ procs s' = procs s /\
    released s' = released s ++ (if fd_cnt (f_desc_table s i) =? 1 then [i] else []).
Proof.
  intros Hok Hc. unfold close_filp. rewrite (proj2 (Z.leb_gt _ _)) by done.
  set (s1 := upd_file i _ s). assert (f_desc_table s1 i = (f_desc_table s i) <| fd_cnt ::= Z.pred |>) as H1 by apply upd_file_eq.
  assert (fd_cnt (f_desc_table s1 i) = fd_cnt (f_desc_table s i) - 1) as Hc1
    by (rewrite H1; change (Z.pred (fd_cnt (f_desc_table s i)) = fd_cnt (f_desc_table s i) - 1); lia).
  rewrite Hc1. eexists. split; [reflexivity|].
  set (g := fun b : bool => fun x : file_desc => if b then x <| fd_cnt ::= Z.pred |> <| fd_inode := false |> else x <| fd_cnt ::= Z.pred |>).
  assert (forall b, b = (fd_cnt (f_desc_table s i) =? 1) ->
    fd_inv (fun j => debt j - (if bool_decide (j = i) then 1 else 0)) (upd_file i (g b) s)) as Hinv.
  { intros b Hb. eapply fd_inv_ext; [apply (upd_file_inv debt i (-1)); [done|..]|].
    - destruct b; change (Z.pred (fd_cnt (f_desc_table s i)) = fd_cnt (f_desc_table s i) + -1); lia.
    - destruct b; symmetry in Hb; [apply Z.eqb_eq in Hb|apply Z.eqb_neq in Hb].
      + change (false = bool_decide (0 < Z.pred (fd_cnt (f_desc_table s i)))). symmetry. apply bool_decide_eq_false_2. lia.
      + change (fd_inode (f_desc_table s i) = bool_decide (0 < Z.pred (fd_cnt (f_desc_table s i)))).
        rewrite (o_inode _ _ Hok). by rewrite !bool_decide_eq_true_2 by lia.
    - intros j. cbv beta. destruct (bool_decide (j = i)); lia. }
  destruct (Z.eqb_spec (fd_cnt (f_desc_table s i)) 1) as [H2|H2].
  - rewrite H2. cbn [Z.sub Z.add Z.opp Z.pos_sub Z.eqb]. split; [|done]. apply add_released_inv.
    destruct (Hinv true eq_refl) as [Ho1 Ho2 Ho3 Ho4 Ho5].
    assert (forall j, f_desc_table (upd_file i (fun f => f <| fd_inode := false |>) s1) j = f_desc_table (upd_file i (g true) s) j) as Hj.
    { intros j. destruct (decide (j = i)) as [->|Hne]; [by rewrite !upd_file_eq, H1|].
      unfold s1, upd_file. cbn. by rewrite !fn_lookup_alter_ne. }
    split; try done; intros j; rewrite Hj; [apply Ho2|apply Ho3].
  - rewrite (proj2 (Z.eqb_neq _ 0)) by lia. split; [by apply (Hinv false)|].
    by rewrite app_nil_r.
Qed.

(** The count of a file in a table is positive. *)
Lemma counted s t f i k :
  fd_ok s -> tables s !! t = Some f -> filp f !! k = Some (Some i) -> 1 <= fd_cnt (f_desc_table s i).
Proof.
  intros Hok Ht Hi. rewrite (o_cnt _ _ Hok). pose proof (uses_le i _ t f Ht). pose proof (occ_elem i _ _ Hi). lia.
Qed.

Lemma close_fd_spec p fd s :
  fd_ok s -> is_Some (procs s !! p) ->
  exists s' r, close_fd p fd s = Ret (s', r) /\ fd_ok s' /\ procs s' = procs s /\
    match get_filp p fd s with
    | Ret (Some i) => r = 0 /\ get_filp p fd s' = Ret None /\
        released s' = released s ++ (if fd_cnt (f_desc_table s i) =? 1 then [i] else []) /\
        (forall t, procs s !! p = Some t -> exists f, tables s !! t = Some f /\ tables s' = <[t := without_fd fd f]> (tables s))
    | _ => r = EBADF /\ s' = s
    end.
Proof.
  intros Hok Hp. destruct (files_of_ok _ p s Hok Hp) as (t & f & _ & Hpt & Ht & Hf). unfold close_fd.
  rewrite (get_filp_eq s p t f) by done. set (x := if _ || _ then None else _).
  assert (get_filp p fd s = Ret x) as Hx by by apply (get_filp_eq s p t f).
  destruct x as [i|]; cbn [mbind res_mbind]; [|by exists s, EBADF].
  destruct (get_filp_Some s p t f Hpt Ht fd i Hx) as [Hfd Hi]. pose proof (counted s t f i _ Hok Ht Hi) as Hc.
  rewrite (o_inode _ _ Hok), bool_decide_eq_true_2 by lia. cbn [negb].
  destruct (close_filp_spec _ i s Hok ltac:(lia)) as (s1 & -> & Hok1 & Htab & Hpr & Hrel). cbn [mbind res_mbind].
  rewrite (install_filp_eq _ s1 p t f Hok1) by (rewrite ?Hpr, ?Htab; done).
  cbn [mbind res_mbind]. set (f1 := f <| filp ::= <[Z.to_nat fd := None]> |>). set (s2 := set_files t f1 s1).
  assert (set_close_on_exec p fd false s2 = Ret (set_files t (without_fd fd f) s1)) as ->.
  { unfold set_close_on_exec, files_of. change (procs s2) with (procs s1). rewrite Hpr, Hpt.
    change (tables s2) with (<[t := f1]> (tables s1)). rewrite lookup_insert_eq. cbn [mbind res_mbind].
    change (max_fds f1) with (max_fds f). rewrite in_range_fd by done. unfold s2. by rewrite set_files_twice. }
  cbn [mbind res_mbind]. exists (set_files t (without_fd fd f) s1), 0. split; [done|].
  split; [eapply fd_inv_ext; [apply (without_fd_inv _ s1 t f Hok1 ltac:(by rewrite Htab) fd i Hi Hfd)|]|split; [done|split; [done|split; [|split; [done|]]]]].
  - intros j. cbv beta. destruct (bool_decide (j = i)); lia.
  - rewrite (get_filp_eq _ p t (without_fd fd f)).
    + change (max_fds (without_fd fd f)) with (max_fds f).
      change (filp (without_fd fd f)) with (<[Z.to_nat fd := None]> (filp f)).
      rewrite list_lookup_insert_eq by (apply lookup_lt_Some in Hi; lia). by destruct (_ || _).
    + change (procs s1 !! p = Some t). by rewrite Hpr.
    + apply (lookup_insert_eq (tables s1)).
  - intros t' Ht'. assert (t' = t) as -> by congruence. exists f. split; [done|].
    change (<[t := without_fd fd f]> (tables s1) = <[t := without_fd fd f]> (tables s)). by rewrite Htab.
Qed.

(** ** Another descriptor for a file *)

Lemma get_fd_inv debt memory p t f start fd0 s :
  fd_inv debt s -> procs s !! p = Some t -> tables s !! t = Some f -> 0 <= start <= max_fds f ->
  bounded memory (max_fds f) ->
  get_fd memory p start fd0 s = Ret (s, ENOMEM, fd0) /\ memory = false \/
  exists fd f' s', get_fd memory p start fd0 s = Ret (s', 0, fd) /\ first_free start fd f' /\ fd_inv debt s' /\
    procs s' = procs s /\ f_desc_table s' = f_desc_table s /\ released s' = released s /\ tables s' !! t = Some f' /\
    (vacant start f -> fd = start).
Proof.
  intros Hok Hp Ht Hs Hm. destruct (get_fd_spec debt memory p t f start fd0 s Hok Hp Ht Hs Hm) as [?|Hr]; [by left|].
  right. destruct Hr as (fd & f' & -> & Hff & Hf' & Hrc & Hv & Hocc). exists fd, f', (set_files t f' s).
  split; [done|]. split; [done|]. split; [|do 3 (split; [done|]); split; [apply (lookup_insert_eq (tables s))|done]].
  eapply fd_inv_ext; [by apply (set_files_inv debt t f)|]. intros i. cbv beta. rewrite Hocc. lia.
Qed.

Lemma share_filp_spec p t f fd i s :
  fd_ok s -> procs s !! p = Some t -> tables s !! t = Some f -> 0 <= fd < max_fds f ->
  filp f !! Z.to_nat fd = Some None -> 0 < fd_cnt (f_desc_table s i) ->
  exists s', share_filp p fd i s = Ret (s', fd) /\ fd_ok s' /\ procs s' = procs s /\ released s' = released s /\
    tables s' = <[t := with_fd fd i f]> (tables s).
Proof.
  intros Hok Hp Ht Hfd Hfree Hc. unfold share_filp. set (s1 := upd_file i _ s).
  assert (fd_inv (fun j => 0 + (if bool_decide (j = i) then 1 else 0)) s1) as Hok1.
  { apply upd_file_inv; [done| |].
    - change (Z.succ (fd_cnt (f_desc_table s i)) = fd_cnt (f_desc_table s i) + 1). lia.
    - change (fd_inode (f_desc_table s i) = bool_decide (0 < Z.succ (fd_cnt (f_desc_table s i)))).
      rewrite (o_inode _ _ Hok). by rewrite !bool_decide_eq_true_2 by lia. }
  rewrite (install_filp_eq _ s1 p t f Hok1 Hp Ht fd) by done. cbn [mbind res_mbind].
  eexists. split; [reflexivity|]. split; [|done].
  eapply fd_inv_ext; [by apply (with_fd_inv _ s1 t f Hok1 Ht fd i Hfd Hfree)|].
  intros j. cbv beta. destruct (bool_decide (j = i)); lia.
Qed.

(** [get_fd] and the new descriptor *)
Lemma dup_spec memory p t f start fd0 i s :
  fd_ok s -> procs s !! p = Some t -> tables s !! t = Some f -> 0 <= start <= max_fds f ->
  bounded memory (max_fds f) -> 0 < fd_cnt (f_desc_table s i) ->
  get_fd memory p start fd0 s = Ret (s, ENOMEM, fd0) /\ memory = false \/
  exists fd s1 s2, get_fd memory p start fd0 s = Ret (s1, 0, fd) /\ share_filp p fd i s1 = Ret (s2, fd) /\
    fd_ok s2 /\ procs s2 = procs s /\ released s2 = released s /\ get_filp p fd s2 = Ret (Some i) /\
    start <= fd /\ (vacant start f -> fd = start).
Proof.
  intros Hok Hp Ht Hs Hm Hc.
  destruct (get_fd_inv _ memory p t f start fd0 s Hok Hp Ht Hs Hm) as [?|Hr]; [by left|]. right.
  destruct Hr as (fd & f' & s1 & Hg & [[Hr1 Hr2] Hfree _] & Hok1 & Hpr & Hft & Hrel & Ht1 & Hv).
  destruct (share_filp_spec p t f' fd i s1 Hok1) as (s2 & Hsh & Hok2 & Hpr2 & Hrel2 & Htab2);
    [by rewrite Hpr|done|lia|done|by rewrite Hft|].
  exists fd, s1, s2. split; [done|]. split; [done|]. split; [done|]. split; [congruence|]. split; [congruence|].
  split; [|split; [lia|done]]. rewrite (get_filp_eq s2 p t (with_fd fd i f')).
  - change (max_fds (with_fd fd i f')) with (max_fds f').
    rewrite (proj2 (Z.ltb_ge fd 0)), (proj2 (Z.leb_gt (max_fds f') fd)) by lia. cbn [orb].
    change (filp (with_fd fd i f')) with (<[Z.to_nat fd := Some i]> (filp f')).
    by rewrite list_lookup_insert_eq by (apply lookup_lt_Some in Hfree; lia).
  - by rewrite Hpr2, Hpr.
  - rewrite Htab2. apply lookup_insert_eq.
Qed.

(** What a process may ask for: a descriptor up to the size of its table *)
Definition fd_limit (p : Z) (memory : bool) (start : Z) (s : fdsys) : Prop :=
  forall t f, procs s !! p = Some t -> tables s !! t = Some f -> start <= max_fds f /\ bounded memory (max_fds f).

Lemma do_fcntl_spec memory lock p fd request argx s :
  fd_ok s -> is_Some (procs s !! p) -> (request = F_DUPFD \/ request = F_DUPFD_CLOEXEC -> fd_limit p memory argx s) ->
  exists s' r, do_fcntl memory lock p fd request argx s = Ret (s', r) /\ fd_ok s' /\ procs s' = procs s.
Proof.
  intros Hok Hp Hlim. destruct (files_of_ok _ p s Hok Hp) as (t & f & _ & Hpt & Ht & Hf). unfold do_fcntl.
  destruct (get_filp p fd s) as [[i|]|c] eqn:Hx; cbn [mbind res_mbind].
  - destruct (get_filp_Some s p t f Hpt Ht fd i Hx) as [Hfd Hi]. pose proof (counted s t f i _ Hok Ht Hi) as Hc.
    destruct (_ || _) eqn:Hreq; [|clear Hreq Hlim; destruct (_ || _); [by eexists _, _|]].
    + rewrite orb_true_iff, !Z.eqb_eq in Hreq. destruct (Hlim Hreq t f Hpt Ht) as [Hstart Hm]. destruct (Z.ltb_spec argx 0); [by eexists _, _|].
      destruct (dup_spec memory p t f argx (-1) i s Hok Hpt Ht ltac:(lia) Hm ltac:(lia)) as [[-> Hmf]|Hr]; [by eexists _, _|].
      destruct Hr as (nfd & s1 & s2 & -> & Hsh & Hok2 & Hpr2 & _). cbn [mbind res_mbind negb Z.eqb]. rewrite Hsh.
      by eexists _, _.
    + destruct (request =? F_GETFL); [by eexists _, _|]. destruct (request =? F_SETFL); [|by eexists _, _].
      eexists _, _. split; [reflexivity|]. split; [|done].
      eapply fd_inv_ext; [apply (upd_file_inv (fun _ => 0) i 0); [done|..]|].
      * change (fd_cnt (f_desc_table s i) = fd_cnt (f_desc_table s i) + 0). lia.
      * apply (o_inode _ _ Hok).
      * intros j. cbv beta. by destruct (bool_decide (j = i)).
  - by eexists _, _.
  - rewrite (get_filp_eq s p t f) in Hx by done. done.
Qed.

Lemma dup_close_spec p t f fd newfd s :
  fd_ok s -> procs s !! p = Some t -> tables s !! t = Some f ->
  exists s1 f1, dup_close p fd newfd f s = Ret s1 /\ fd_ok s1 /\ procs s1 = procs s /\ tables s1 !! t = Some f1 /\
    max_fds f1 = max_fds f /\ get_filp p fd s1 = get_filp p fd s /\ (newfd <> fd -> 0 <= newfd -> vacant newfd f1).
Proof.
  intros Hok Hpt Ht. pose proof (o_table _ _ Hok t f Ht) as Hf. unfold dup_close. destruct (_ && _) eqn:Hc.
  - rewrite !andb_true_iff, negb_true_iff, Z.eqb_neq, Z.leb_le, Z.ltb_lt in Hc. destruct Hc as [[Hne Hlo] Hhi].
    destruct (filp f !! Z.to_nat newfd) as [[i|]|] eqn:Hi; cbn [default from_option id];
      [|exists s, f; do 6 (split; [done|]); intros _ _ j; congruence..].
    destruct (close_fd_spec p newfd s Hok ltac:(by exists t)) as (s1 & r & -> & Hok1 & Hpr1 & Hcase). cbn [mbind res_mbind].
    rewrite (get_filp_eq s p t f), (proj2 (Z.ltb_ge newfd 0)), (proj2 (Z.leb_gt (max_fds f) newfd)), Hi in Hcase by done || lia.
    cbn [orb default from_option id] in Hcase. destruct Hcase as (_ & _ & _ & Htab). destruct (Htab t Hpt) as (f' & Hf' & Htab1).
    replace f' with f in * by congruence. exists s1, (without_fd newfd f). do 3 (split; [done|]).
    split; [rewrite Htab1; apply lookup_insert_eq|]. split; [done|]. split.
    + rewrite (get_filp_eq s1 p t (without_fd newfd f)), (get_filp_eq s p t f);
        [|done|done|by rewrite Hpr1|rewrite Htab1; apply lookup_insert_eq].
      change (max_fds (without_fd newfd f)) with (max_fds f). destruct (_ || _) eqn:Hr; [done|].
      rewrite orb_false_iff, Z.ltb_ge in Hr.
      change (filp (without_fd newfd f)) with (<[Z.to_nat newfd := None]> (filp f)). rewrite list_lookup_insert_ne by lia. done.
    + intros _ _ j. change (filp (without_fd newfd f)) with (<[Z.to_nat newfd := None]> (filp f)).
      rewrite list_lookup_insert_eq by (by apply lookup_lt_Some in Hi). done.
  - exists s, f. do 6 (split; [done|]). intros Hne Hlo j Hj. apply lookup_lt_Some in Hj.
    rewrite (proj2 (Z.eqb_neq newfd fd)), (proj2 (Z.leb_le 0 newfd)), (proj2 (Z.ltb_lt newfd (max_fds f))) in Hc; try done.
    pose proof (t_length _ Hf). lia.
Qed.

Lemma do_dup_spec memory p fd newfd s :
  fd_ok s -> is_Some (procs s !! p) -> -1 <= newfd -> fd_limit p memory newfd s ->
  exists s' r, do_dup memory p fd newfd s = Ret (s', r) /\ fd_ok s' /\ procs s' = procs s /\
    match get_filp p fd s with
    | Ret (Some i) => (r = - ENOMEM /\ memory = false) \/
                      (get_filp p r s' = Ret (Some i) /\ 0 <= r /\ (0 <= newfd -> r = newfd))
    | _ => r = - EBADF
    end.
Proof.
  intros Hok Hp Hnew Hlim. destruct (files_of_ok _ p s Hok Hp) as (t & f & Hfo & Hpt & Ht & Hf).
  destruct (Hlim t f Hpt Ht) as [Hstart Hm]. unfold do_dup. rewrite Hfo. cbn [mbind res_mbind].
  destruct (dup_close_spec p t f fd newfd s Hok Hpt Ht) as (s1 & f1 & Hclose & Hok1 & Hpr1 & Ht1 & Hmax1 & Hsame & Hvac).
  rewrite Hclose. clear Hclose.
  cbn [mbind res_mbind]. rewrite <- Hpr1 in Hpt. rewrite <- Hsame.
  destruct (get_filp p fd s1) as [[i|]|] eqn:Hx; cbn [mbind res_mbind].
  - destruct (get_filp_Some s1 p t f1 Hpt Ht1 fd i Hx) as [Hfd Hi]. pose proof (counted s1 t f1 i _ Hok1 Ht1 Hi) as Hc.
    destruct (Z.eqb_spec fd newfd) as [->|Hne].
    { rewrite (proj2 (Z.eqb_neq newfd (-1))) by lia. eexists _, _. split; [done|]. split; [done|]. split; [done|]. right.
      split; [done|]. split; [lia|done]. }
    rewrite andb_false_r. set (start := if newfd =? -1 then 0 else newfd).
    pose proof (t_max _ (o_table _ _ Hok1 t f1 Ht1)).
    assert (0 <= start <= max_fds f1) as Hst by (unfold start; destruct (Z.eqb_spec newfd (-1)); lia).
    destruct (dup_spec memory p t f1 start start i s1 Hok1 Hpt Ht1 Hst ltac:(by rewrite Hmax1) ltac:(lia)) as [[-> Hmf]|Hr].
    { cbn [mbind res_mbind]. eexists _, _. split; [done|]. split; [done|]. split; [done|]. by left. }
    destruct Hr as (nfd & s2 & s3 & -> & Hsh & Hok3 & Hpr3 & _ & Hnfd & Hle & Hexact). cbn [mbind res_mbind negb Z.eqb]. rewrite Hsh.
    eexists _, _. split; [done|]. split; [done|]. split; [by rewrite Hpr3|]. right. split; [done|]. split; [lia|].
    intros Hlo. assert (start = newfd) as Hsn by (unfold start; by rewrite (proj2 (Z.eqb_neq newfd (-1))) by lia).
    rewrite Hsn in Hexact. apply Hexact, Hvac; [by intros ->|done].
  - by eexists _, _.
  - by rewrite (get_filp_eq s1 p t f1) in Hx.
Qed.

(** ** Files copied between processes, and new files *)

Lemma take_free memory debt t f s :
  fd_inv debt s -> tables s !! t = Some f -> bounded memory (max_fds f) ->
  let r := match free_fd 0 f with
           | Some fd => Ret (f, fd, 0)
           | None => '(f', retval) ← expand_files memory (max_fds f) f; Ret (f', max_fds f, retval)
           end in
  r = Ret (f, max_fds f, ENOMEM) \/
  exists f' fd, r = Ret (f', fd, 0) /\ first_free 0 fd f' /\ fd_inv debt (set_files t f' s).
Proof.
  intros Hok Ht Hm. pose proof (o_table _ _ Hok t f Ht) as Hf. pose proof (t_max _ Hf).
  pose proof (table_size_bounds (max_fds f) ltac:(lia)) as Hsz. cbv zeta.
  destruct (free_fd 0 f) as [fd|] eqn:Hfree.
  - right. exists f, fd. split; [done|]. split; [by apply free_fd_Some|].
    eapply fd_inv_ext; [by apply (set_files_inv debt t f)|]. intros i. cbv beta. lia.
  - rewrite expand_files_eq by lia. destruct memory; [|by left]. right. specialize (Hm eq_refl).
    cbn [mbind res_mbind]. exists (grown (max_fds f) f), (max_fds f). split; [done|]. split.
    + apply free_in_grown; [done|lia|lia|]. intros k Hk. apply (free_fd_None 0); [lia|done].
    + eapply fd_inv_ext; [apply (set_files_inv debt t f); [done|done|apply grown_ok; [done|lia]|done]|].
      intros i. cbv beta. rewrite occ_grown. lia.
Qed.

Lemma copy_to_spec memory dest i s :
  fd_ok s -> is_Some (procs s !! dest) -> fd_limit dest memory 0 s -> 0 < fd_cnt (f_desc_table s i) ->
  exists s' r, copy_to memory dest i s = Ret (s', r) /\ fd_ok s' /\ procs s' = procs s.
Proof.
  intros Hok Hp Hlim Hc. destruct (files_of_ok _ dest s Hok Hp) as (t & f & Hfo & Hpt & Ht & Hf).
  destruct (Hlim t f Hpt Ht) as [_ Hm]. unfold copy_to. rewrite Hfo. cbn [mbind res_mbind].
  destruct (take_free memory _ t f s Hok Ht Hm) as [->|(f' & fd & -> & [[Hr1 Hr2] Hfree _] & Hok1)];
    cbn [mbind res_mbind negb Z.eqb]; [by eexists _, _|].
  assert (tables (set_files t f' s) !! t = Some f') as Ht1 by apply (lookup_insert_eq (tables s)).
  rewrite (install_filp_eq _ (set_files t f' s) dest t f' Hok1 Hpt Ht1 fd) by lia. cbn [mbind res_mbind].
  eexists _, _. split; [reflexivity|]. split; [|done].
  pose proof (with_fd_inv _ _ t f' Hok1 Ht1 fd i ltac:(lia) Hfree) as Hok2.
  eapply fd_inv_ext; [apply (upd_file_inv _ i 1 _ _ Hok2)|].
  - change (Z.succ (fd_cnt (f_desc_table s i)) = fd_cnt (f_desc_table s i) + 1). lia.
  - change (fd_inode (f_desc_table s i) = bool_decide (0 < Z.succ (fd_cnt (f_desc_table s i)))).
    rewrite (o_inode _ _ Hok). by rewrite !bool_decide_eq_true_2 by lia.
  - intros j. cbv beta. destruct (bool_decide (j = i)); lia.
Qed.

(** A descriptor of another process is given up. *)
Lemma drop_fd_spec debt p t f fd i s :
  fd_inv debt s -> procs s !! p = Some t -> tables s !! t = Some f -> 0 <= fd < max_fds f ->
  filp f !! Z.to_nat fd = Some (Some i) ->
  (s1 ← install_filp p fd None s; set_close_on_exec p fd false s1) = Ret (set_files t (without_fd fd f) s).
Proof.
  intros Hok Hpt Ht Hfd Hi. pose proof (o_table _ _ Hok t f Ht) as Hf.
  rewrite (install_filp_eq _ s p t f Hok Hpt Ht fd) by done. cbn [mbind res_mbind].
  set (f1 := f <| filp ::= <[Z.to_nat fd := None]> |>). unfold set_close_on_exec, files_of.
  change (procs (set_files t f1 s)) with (procs s). rewrite Hpt.
  change (tables (set_files t f1 s)) with (<[t := f1]> (tables s)). rewrite lookup_insert_eq. cbn [mbind res_mbind].
  change (max_fds f1) with (max_fds f). rewrite in_range_fd by done. by rewrite set_files_twice.
Qed.

Lemma do_copyfd_spec memory p other fd how s :
  fd_ok s -> is_Some (procs s !! p) -> fd_limit p memory 0 s ->
  (forall d, other = Some d -> is_Some (procs s !! d) /\ fd_limit d memory 0 s) ->
  exists s' r, do_copyfd memory p other fd how s = Ret (s', r) /\ fd_ok s' /\ procs s' = procs s.
Proof.
  intros Hok Hp Hlim Hother. unfold do_copyfd. destruct other as [dest|]; [|by eexists _, _].
  destruct (Hother dest eq_refl) as [Hd Hdl]. set (h := clear_flag how COPYFD_FLAGS_MASK).
  set (src := if h =? COPYFD_TO then p else dest). assert (is_Some (procs s !! src)) as Hs by (unfold src; by destruct (_ =? _)).
  destruct (files_of_ok _ src s Hok Hs) as (t & f & _ & Hpt & Ht & Hf).
  destruct (get_filp src fd s) as [[i|]|] eqn:Hx; cbn [mbind res_mbind].
  - destruct (get_filp_Some s src t f Hpt Ht fd i Hx) as [Hfd Hi]. pose proof (counted s t f i _ Hok Ht Hi) as Hc.
    destruct (h =? COPYFD_FROM); [apply copy_to_spec; done || lia|].
    destruct (Z.eqb_spec h COPYFD_TO) as [Hto|Hto]; [apply copy_to_spec; done || lia|].
    destruct (h =? COPYFD_CLOSE); [|by eexists _, _].
    destruct (Z.ltb_spec 1 (fd_cnt (f_desc_table s i))); [|by eexists _, _]. set (s1 := upd_file i _ s).
    assert (fd_inv (fun j => 0 + (if bool_decide (j = i) then -1 else 0)) s1) as Hok1.
    { apply upd_file_inv; [done| |].
      - change (Z.pred (fd_cnt (f_desc_table s i)) = fd_cnt (f_desc_table s i) + -1). lia.
      - change (fd_inode (f_desc_table s i) = bool_decide (0 < Z.pred (fd_cnt (f_desc_table s i)))).
        rewrite (o_inode _ _ Hok). by rewrite !bool_decide_eq_true_2 by lia. }
    assert (src = dest) as Hsd by (unfold src; by destruct (Z.eqb_spec h COPYFD_TO)). rewrite Hsd in *.
    pose proof (drop_fd_spec _ dest t f fd i s1 Hok1 Hpt Ht Hfd Hi) as Hdrop.
    destruct (install_filp dest fd None s1) as [s2|]; [|done]. cbn [mbind res_mbind] in Hdrop |- *. rewrite Hdrop.
    cbn [mbind res_mbind]. eexists _, _. split; [reflexivity|]. split; [|done].
    eapply fd_inv_ext; [apply (without_fd_inv _ s1 t f Hok1 Ht fd i Hi Hfd)|].
    intros j. cbv beta. destruct (bool_decide (j = i)); lia.
  - by eexists _, _.
  - by rewrite (get_filp_eq s src t f) in Hx.
Qed.

Lemma anon_inode_get_fd_spec memory locked vmnt inode p flags s :
  fd_ok s -> is_Some (procs s !! p) -> fd_limit p memory 0 s ->
  exists s' r, anon_inode_get_fd memory locked vmnt inode p flags s = Ret (s', r) /\ fd_ok s' /\ procs s' = procs s.
Proof.
  intros Hok Hp Hlim. destruct (files_of_ok _ p s Hok Hp) as (t & f & Hfo & Hpt & Ht & Hf).
  destruct (Hlim t f Hpt Ht) as [_ Hm]. pose proof (t_max _ Hf). unfold anon_inode_get_fd.
  destruct (negb (vmnt =? 0)); [by eexists _, _|]. destruct (negb (inode =? 0)); [by eexists _, _|].
  unfold get_fd_filp. set (bits := default 0 _).
  destruct (get_fd_inv _ memory p t f 0 0 s Hok Hpt Ht ltac:(lia) Hm) as [[-> Hmf]|Hr]; cbn [mbind res_mbind negb Z.eqb]; [by eexists _, _|].
  destruct Hr as (fd & f1 & s1 & -> & [[Hr1 Hr2] Hfree _] & Hok1 & Hpr1 & _ & _ & Ht1 & _). cbn [mbind res_mbind negb Z.eqb].
  destruct (list_find _ (seqZ 0 NR_FILE_DESC)) as [[k i]|] eqn:Hfind; cbn [mbind res_mbind negb Z.eqb]; [|by eexists _, _].
  apply list_find_Some in Hfind as (_ & [Hin _] & _).
  assert (fd_cnt (f_desc_table s1 i) = 0) as Hc0.
  { rewrite (o_inode _ _ Hok1) in Hin. apply bool_decide_eq_false in Hin. rewrite (o_cnt _ _ Hok1) in Hin |- *.
    pose proof (uses_nonneg i (tables s1)). lia. }
  set (s2 := upd_file i _ s1). assert (fd_ok s2) as Hok2.
  { eapply fd_inv_ext; [apply (upd_file_inv _ i 0 _ _ Hok1)|].
    - change (fd_cnt (f_desc_table s1 i) = fd_cnt (f_desc_table s1 i) + 0). lia.
    - apply (o_inode _ _ Hok1).
    - intros j. cbv beta. by destruct (bool_decide (j = i)). }
  assert (procs s2 !! p = Some t) as Hp2 by (change (procs s1 !! p = Some t); by rewrite Hpr1).
  rewrite (install_filp_eq _ s2 p t f1 Hok2 Hp2 Ht1 fd) by lia. cbn [mbind res_mbind].
  pose proof (with_fd_inv _ s2 t f1 Hok2 Ht1 fd i ltac:(lia) Hfree) as Hok3.
  set (s3 := set_files t _ s2) in *. set (g := fun x : file_desc => x <| fd_cnt := 1 |> <| fd_inode := true |> <| fd_flags := _ |>).
  assert (fd_ok (upd_file i g s3)) as Hok4.
  { eapply fd_inv_ext; [apply (upd_file_inv _ i 1 g _ Hok3)|].
    - change (1 = fd_cnt (f_desc_table s2 i) + 1). unfold s2. rewrite upd_file_eq.
      change (1 = fd_cnt (f_desc_table s1 i) + 1). lia.
    - symmetry. by apply bool_decide_eq_true_2.
    - intros j. cbv beta. destruct (bool_decide (j = i)); lia. }
  assert (tables (upd_file i g s3) !! t = Some (with_fd fd i f1)) as Ht4 by apply (lookup_insert_eq (tables s2)).
  rewrite (set_close_on_exec_eq _ (upd_file i g s3) p t (with_fd fd i f1) Hok4 Hp2 Ht4 fd)
    by (change (max_fds (with_fd fd i f1)) with (max_fds f1); lia).
  cbn [mbind res_mbind]. eexists _, _. split; [reflexivity|]. split; [|done].
  apply (with_bit_inv _ _ t _ Hok4 Ht4 fd _ i); [change (max_fds (with_fd fd i f1)) with (max_fds f1); lia|].
  apply (list_lookup_insert_eq (filp f1)). apply lookup_lt_Some in Hfree. lia.
Qed.

(** ** Fork *)

Lemma count_files_spec l debt s :
  fd_inv debt s -> (forall i, Some i ∈ l -> 0 < fd_cnt (f_desc_table s i)) ->
  fd_inv (fun i => debt i + occ i l) (count_files l s) /\
  tables (count_files l s) = tables s /\ procs (count_files l s) = procs s /\ released (count_files l s) = released s.
Proof.
  revert debt s. induction l as [|x l IH]; intros debt s Hok Hl.
  { split; [|done]. eapply fd_inv_ext; [done|]. intros i. cbv beta. change (debt i + 0 = debt i). lia. }
  destruct x as [i|]; cbn [count_files].
  - pose proof (Hl i ltac:(left)) as Hi. set (s1 := upd_file i _ s).
    assert (fd_inv (fun j => debt j + (if bool_decide (j = i) then 1 else 0)) s1) as Hok1.
    { apply upd_file_inv; [done| |].
      - change (Z.succ (fd_cnt (f_desc_table s i)) = fd_cnt (f_desc_table s i) + 1). lia.
      - change (fd_inode (f_desc_table s i) = bool_decide (0 < Z.succ (fd_cnt (f_desc_table s i)))).
        rewrite (o_inode _ _ Hok). by rewrite !bool_decide_eq_true_2 by lia. }
    destruct (IH _ s1 Hok1) as (Hok2 & Ht & Hp & Hr).
    + intros j Hj. rewrite (o_cnt _ _ Hok1). change (tables s1) with (tables s). rewrite Z.add_assoc, <- (o_cnt _ _ Hok).
      pose proof (Hl j ltac:(by right)). destruct (bool_decide (j = i)); lia.
    + split; [|done]. eapply fd_inv_ext; [exact Hok2|]. intros j. cbv beta.
      change (occ j (Some i :: l)) with (is_file j (Some i) + occ j l). unfold is_file.
      rewrite (bool_decide_ext (Some i = Some j) (j = i)) by naive_solver. lia.
  - destruct (IH debt s Hok) as (Hok2 & Ht & Hp & Hr); [intros j Hj; apply Hl; by right|].
    split; [|done]. eapply fd_inv_ext; [exact Hok2|]. intros j. cbv beta. change (occ j (None :: l)) with (0 + occ j l). lia.
Qed.

Lemma total_zero {A} (w : Z -> A -> Z) m : (forall k x, m !! k = Some x -> w k x = 0) -> total w m = 0.
Proof.
  induction m as [|k x m Hk IH] using map_ind; intros Hz; [done|].
  rewrite total_insert, (Hz k x) by (done || apply lookup_insert_eq). rewrite IH; [done|].
  intros k' x' Hk'. apply Hz. rewrite lookup_insert_ne; [done|congruence].
Qed.

(** A new process with a new table *)
Lemma add_table_inv debt child new newf s :
  fd_inv debt s -> tables s !! new = None -> procs s !! child = None -> table_ok newf -> refcnt newf = 1 ->
  fd_inv (fun i => debt i - occ i (filp newf))
    (mk_fdsys (f_desc_table s) (<[new := newf]> (tables s)) (<[child := new]> (procs s)) (released s)).
Proof.
  intros [] Hnew Hchild Hf Hr. split; cbn.
  - intros t f. destruct (decide (t = new)) as [->|Hne]; [rewrite lookup_insert_eq; by intros [= <-]|].
    rewrite lookup_insert_ne by done. apply o_table0.
  - intros i. unfold uses. rewrite total_insert by done. rewrite o_cnt0. unfold uses. lia.
  - done.
  - intros t f. unfold users. rewrite total_insert by done. destruct (decide (t = new)) as [->|Hne].
    + rewrite lookup_insert_eq. intros [= <-]. rewrite bool_decide_eq_true_2 by done. rewrite total_zero; [lia|].
      intros p t' Hp. rewrite bool_decide_eq_false_2; [done|]. intros ->. destruct (o_proc0 p new Hp). congruence.
    + rewrite lookup_insert_ne by done. rewrite bool_decide_eq_false_2 by done. apply o_refs0.
  - intros p t. destruct (decide (p = child)) as [->|Hne].
    + rewrite lookup_insert_eq. intros [= <-]. by rewrite lookup_insert_eq.
    + rewrite lookup_insert_ne by done. intros Hp. destruct (decide (t = new)) as [->|Hn]; [by rewrite lookup_insert_eq|].
      rewrite lookup_insert_ne by done. by apply (o_proc0 p).
Qed.

(** A new process that shares a table *)
Lemma share_table_inv debt child t f s :
  fd_inv debt s -> tables s !! t = Some f -> procs s !! child = None ->
  fd_inv debt (mk_fdsys (f_desc_table s) (<[t := f <| refcnt ::= Z.succ |>]> (tables s)) (<[child := t]> (procs s)) (released s)).
Proof.
  intros [] Ht Hchild. split; cbn.
  - intros t' g. destruct (decide (t' = t)) as [->|Hne].
    + rewrite lookup_insert_eq. intros [= <-]. destruct (o_table0 t f Ht). by split.
    + rewrite lookup_insert_ne by done. apply o_table0.
  - intros i. unfold uses. rewrite (total_update _ _ _ _ f) by done. rewrite o_cnt0. unfold uses.
    change (filp (f <| refcnt ::= Z.succ |>)) with (filp f). lia.
  - done.
  - intros t' g. unfold users. rewrite total_insert by done. destruct (decide (t' = t)) as [->|Hne].
    + rewrite lookup_insert_eq. intros [= <-]. rewrite bool_decide_eq_true_2 by done.
      change (refcnt (f <| refcnt ::= Z.succ |>)) with (Z.succ (refcnt f)). destruct (o_refs0 t f Ht) as [Hr Hpos].
      unfold users in Hr. lia.
    + rewrite lookup_insert_ne by done. rewrite bool_decide_eq_false_2 by done. apply o_refs0.
  - intros p t'. destruct (decide (t' = t)) as [->|Hn]; [by rewrite lookup_insert_eq|].
    rewrite (lookup_insert_ne (tables s)) by done. destruct (decide (p = child)) as [->|Hne].
    + rewrite lookup_insert_eq. congruence.
    + rewrite lookup_insert_ne by done. apply o_proc0.
Qed.

(** The table of a child that does not share *)
Lemma dup_files_spec f s :
  fd_ok s -> table_ok f -> bounded true (max_fds f) -> (forall i, Some i ∈ filp f -> 0 < fd_cnt (f_desc_table s i)) ->
  exists s' newf, dup_files true true f s = Ret (s', inr newf) /\ fd_inv (fun i => occ i (filp f)) s' /\
    tables s' = tables s /\ procs s' = procs s /\ released s' = released s /\
    table_ok newf /\ refcnt newf = 1 /\ (forall i, occ i (filp newf) = occ i (filp f)) /\
    max_fds newf = if NR_OPEN_DEFAULT <? max_fds f then table_size (max_fds f) else NR_OPEN_DEFAULT.
Proof.
  intros Hok Hf Hb Hl. unfold dup_files. cbn [files_alloc]. set (new := mk_files 1 _ _ _).
  pose proof (t_max _ Hf) as Hm. pose proof (table_size_bounds (max_fds f) ltac:(lia)) as Hsz. specialize (Hb eq_refl).
  set (n := if NR_OPEN_DEFAULT <? max_fds f then table_size (max_fds f) else NR_OPEN_DEFAULT).
  assert (exists k, (if max_fds new <? max_fds f then expand_files true (max_fds f) new else Ret (new, 0)) =
    Ret (mk_files 1 n (replicate (Z.to_nat n) None) (replicate k 0), 0) /\ Z.of_nat k = BITCHUNKS n) as (k & -> & Hk).
  { unfold n. change (max_fds new) with NR_OPEN_DEFAULT. destruct (Z.ltb_spec NR_OPEN_DEFAULT (max_fds f)) as [Hlt|Hge].
    - rewrite expand_files_eq by (change (max_fds new) with NR_OPEN_DEFAULT; lia). unfold grown, new.
      cbn [refcnt max_fds filp close_on_exec]. unfold NR_OPEN_DEFAULT in *.
      exists (S (Z.to_nat (BITCHUNKS (table_size (max_fds f)) - BITCHUNKS 32))). split.
      + rewrite <- replicate_add. do 4 f_equal. lia.
      + pose proof (BITCHUNKS_mono 32 (table_size (max_fds f)) ltac:(lia)). change (BITCHUNKS 32) with 1 in *. lia.
    - by exists 1%nat. }
  assert (max_fds f <= n <= 2 ^ 30) as Hn by (unfold n, NR_OPEN_DEFAULT; destruct (Z.ltb_spec 32 (max_fds f)); lia).
  cbn [mbind res_mbind negb Z.eqb max_fds filp close_on_exec]. rewrite (proj2 (Z.ltb_ge n (max_fds f))) by lia.
  destruct (count_files_spec (filp f) _ s Hok Hl) as (Hok' & Ht & Hp & Hr). eexists _, _. split; [reflexivity|].
  split; [exact Hok'|]. do 3 (split; [done|]). pose proof (t_length _ Hf) as Hlen. pose proof (t_chunks _ Hf) as Hch.
  pose proof (BITCHUNKS_mono (max_fds f) n ltac:(lia)) as Hbc.
  set (newf := (mk_files 1 n _ _) <| filp := _ |> <| close_on_exec := _ |>).
  assert (filp newf = filp f ++ replicate (Z.to_nat n - length (filp f)) None) as Hfilp.
  { change (filp f ++ drop (length (filp f)) (replicate (Z.to_nat n) None) = filp f ++ replicate (Z.to_nat n - length (filp f)) None).
    by rewrite drop_replicate. }
  assert (close_on_exec newf = close_on_exec f ++ replicate (k - length (close_on_exec f)) 0) as Hcoe.
  { change (take (Z.to_nat (BITCHUNKS (max_fds f))) (close_on_exec f) ++ drop (Z.to_nat (BITCHUNKS (max_fds f))) (replicate k 0) =
      close_on_exec f ++ replicate (k - length (close_on_exec f)) 0).
    replace (Z.to_nat (BITCHUNKS (max_fds f))) with (length (close_on_exec f)) by lia. by rewrite firstn_all, drop_replicate. }
  split; [|split; [done|split; [|done]]].
  - split; rewrite ?Hfilp, ?Hcoe; change (max_fds newf) with n.
    + rewrite length_app, length_replicate. lia.
    + lia.
    + rewrite length_app, length_replicate. lia.
    + destruct (t_map _ Hf) as [Hall _]. split; [apply Forall_app; split; [done|by apply Forall_replicate]|].
      rewrite length_app, length_replicate. lia.
    + intros fd Hfd. rewrite test_bit_grown. intros Hbit. destruct (t_bits _ Hf fd Hfd Hbit) as [i Hi].
      exists i. by apply lookup_app_l_Some.
  - intros i. rewrite Hfilp, occ_app, occ_free. lia.
Qed.

Lemma count_files_procs m l s : count_files l (s <| procs := m |>) = (count_files l s) <| procs := m |>.
Proof. revert s. induction l as [|[i|] l IH]; intros s; cbn [count_files]; [done|apply (IH (upd_file i _ s))|apply IH]. Qed.

Lemma fs_fork_spec shared child parent new s :
  fd_ok s -> is_Some (procs s !! parent) -> procs s !! child = None -> tables s !! new = None -> fd_limit parent true 0 s ->
  exists s', fs_fork true true shared child parent new s = Ret (s', 0) /\ fd_ok s' /\ released s' = released s /\
    is_Some (procs s' !! child).
Proof.
  intros Hok Hp Hchild Hnew Hlim. destruct (files_of_ok _ parent s Hok Hp) as (t & f & Hfo & Hpt & Ht & Hf).
  destruct (Hlim t f Hpt Ht) as [_ Hb]. unfold fs_fork. rewrite Hfo. cbn [mbind res_mbind]. destruct shared.
  - eexists. split; [reflexivity|]. split; [apply (share_table_inv _ child t f s Hok Ht Hchild)|].
    split; [done|]. exists t. apply (lookup_insert_eq (procs s)).
  - set (s1 := s <| procs ::= _ |>).
    assert (count_files (filp f) s1 = (count_files (filp f) s) <| procs := <[child := t]> (procs s) |>) as Hcount.
    { apply (count_files_procs _ (filp f) s). }
    destruct (dup_files_spec f s Hok Hf Hb) as (s2 & newf & Hd & Hok2 & Ht2 & Hp2 & Hr2 & Hnf & Hrc & Hocc & _).
    { intros i [k Hk]%list_elem_of_lookup_1. pose proof (counted s t f i k Hok Ht Hk). lia. }
    assert (dup_files true true f s1 = Ret (s2 <| procs := <[child := t]> (procs s) |>, inr newf)) as ->.
    { revert Hd. unfold dup_files. cbn [files_alloc]. destruct (if _ <? _ then _ else _) as [[nf r]|]; [|done].
      cbn [mbind res_mbind]. destruct (negb (r =? 0)); [done|]. destruct (_ <? _); [done|].
      intros [= <- <-]. by rewrite Hcount. }
    cbn [mbind res_mbind]. eexists. split; [reflexivity|].
    pose proof (add_table_inv _ child new newf s2 Hok2) as Hadd. rewrite Ht2, Hp2 in Hadd. specialize (Hadd Hnew Hchild Hnf Hrc).
    assert (procs ((set_files new newf (s2 <| procs := <[child := t]> (procs s) |>)) <| procs ::= <[child := new]> |>) =
      <[child := new]> (procs s)) as Hpe.
    { change (<[child := new]> (<[child := t]> (procs s)) = <[child := new]> (procs s)). apply insert_insert_eq. }
    split; [|split; [done|]].
    + destruct Hadd as [Ho1 Ho2 Ho3 Ho4 Ho5]. split; rewrite ?Hpe; cbn; rewrite ?Ht2; try done.
      intros i. cbn in Ho2. rewrite Ho2, Hocc. lia.
    + rewrite Hpe. exists new. apply lookup_insert_eq.
Qed.

(** ** Exit *)

Lemma close_filp_procs m i s :
  close_filp i (s <| procs := m |>) = (s' ← close_filp i s; Ret (s' <| procs := m |>)).
Proof.
  unfold close_filp. change (f_desc_table (s <| procs := m |>)) with (f_desc_table s).
  destruct (fd_cnt (f_desc_table s i) <=? 0); [done|]. cbn [mbind res_mbind].
  set (g := fun f : file_desc => f <| fd_cnt ::= Z.pred |>).
  change (f_desc_table (upd_file i g (s <| procs := m |>))) with (f_desc_table (upd_file i g s)).
  by destruct (fd_cnt (f_desc_table (upd_file i g s) i) =? 0).
Qed.

Lemma close_files_procs m l s :
  close_files l (s <| procs := m |>) = (s' ← close_files l s; Ret (s' <| procs := m |>)).
Proof.
  revert s. induction l as [|[i|] l IH]; intros s; cbn [close_files]; [done| |apply IH].
  rewrite close_filp_procs. destruct (close_filp i s) as [s1|]; [|done]. cbn [mbind res_mbind]. apply IH.
Qed.

(** The descriptors of a table are closed one after the other. *)
Lemma close_files_spec l debt s :
  fd_inv debt s -> (forall i, occ i l <= uses i (tables s) + debt i) ->
  exists s', close_files l s = Ret s' /\ fd_inv (fun i => debt i - occ i l) s' /\ tables s' = tables s /\ procs s' = procs s.
Proof.
  revert debt s. induction l as [|[i|] l IH]; intros debt s Hok Hl; cbn [close_files].
  - exists s. split; [done|]. split; [|done]. eapply fd_inv_ext; [done|]. intros i. cbv beta. change (debt i - 0 = debt i). lia.
  - assert (forall j, occ j (Some i :: l) = (if bool_decide (j = i) then 1 else 0) + occ j l) as Hocc.
    { intros j. change (is_file j (Some i) + occ j l = (if bool_decide (j = i) then 1 else 0) + occ j l). unfold is_file.
      by rewrite (bool_decide_ext (Some i = Some j) (j = i)) by naive_solver. }
    destruct (close_filp_spec debt i s Hok) as (s1 & -> & Hok1 & Ht1 & Hp1 & _).
    { rewrite (o_cnt _ _ Hok). specialize (Hl i). rewrite Hocc, bool_decide_eq_true_2 in Hl by done.
      pose proof (occ_nonneg i l). lia. }
    cbn [mbind res_mbind]. destruct (IH _ s1 Hok1) as (s2 & -> & Hok2 & Ht2 & Hp2).
    { intros j. cbv beta. rewrite Ht1. specialize (Hl j). rewrite Hocc in Hl. lia. }
    exists s2. split; [done|]. split; [|split; congruence]. eapply fd_inv_ext; [exact Hok2|].
    intros j. cbv beta. rewrite Hocc. lia.
  - destruct (IH debt s Hok) as (s2 & -> & Hok2 & Ht2 & Hp2); [intros j; apply (Hl j)|]. exists s2. split; [done|].
    split; [|done]. eapply fd_inv_ext; [exact Hok2|]. intros j. cbv beta. change (occ j (None :: l)) with (0 + occ j l). lia.
Qed.

Lemma users_delete t p m t0 :
  m !! p = Some t0 -> users t (delete p m) = users t m - (if bool_decide (t0 = t) then 1 else 0).
Proof. intros Hp. unfold users. rewrite (total_delete _ m p t0) by done. lia. Qed.

(** The last process that uses a table goes, with the table. *)
Lemma remove_table_inv debt p t f s :
  fd_inv debt s -> procs s !! p = Some t -> tables s !! t = Some f -> refcnt f = 1 ->
  fd_inv (fun i => debt i + occ i (filp f))
    (mk_fdsys (f_desc_table s) (delete t (tables s)) (delete p (procs s)) (released s)).
Proof.
  intros [] Hp Ht Hr. destruct (o_refs0 t f Ht) as [Hu _].
  assert (users t (delete p (procs s)) = 0) as Hz by (rewrite (users_delete t p _ t) by done; rewrite bool_decide_eq_true_2 by done; lia).
  split; cbn.
  - intros t' g [_ Hg]%lookup_delete_Some. by apply (o_table0 t').
  - intros i. rewrite o_cnt0. unfold uses. rewrite (total_delete _ (tables s) t f) by done. lia.
  - done.
  - intros t' g [Hne Hg]%lookup_delete_Some. rewrite (users_delete t' p _ t) by done.
    rewrite bool_decide_eq_false_2, Z.sub_0_r by done. by apply o_refs0.
  - intros p' t' [Hne Hp']%lookup_delete_Some. rewrite lookup_delete_ne; [by apply (o_proc0 p')|]. intros <-.
    pose proof (entry_le_total (fun _ t' => if bool_decide (t' = t) then 1 else 0) (delete p (procs s)) p' t) as Hle.
    unfold users in Hz. rewrite Hz, bool_decide_eq_true_2 in Hle by done.
    assert (1 <= 0) by (apply Hle; [intros; by destruct (bool_decide _)|by rewrite lookup_delete_ne]). lia.
Qed.

(** A process that shares its table goes. *)
Lemma leave_table_inv debt p t f s :
  fd_inv debt s -> procs s !! p = Some t -> tables s !! t = Some f -> refcnt f <> 1 ->
  fd_inv debt (mk_fdsys (f_desc_table s) (<[t := f <| refcnt ::= Z.pred |>]> (tables s)) (delete p (procs s)) (released s)).
Proof.
  intros [] Hp Ht Hr. destruct (o_refs0 t f Ht) as [Hu Hpos]. split; cbn.
  - intros t' g. destruct (decide (t' = t)) as [->|Hne].
    + rewrite lookup_insert_eq. intros [= <-]. destruct (o_table0 t f Ht). by split.
    + rewrite lookup_insert_ne by done. apply o_table0.
  - intros i. unfold uses. rewrite (total_update _ _ _ _ f) by done. rewrite o_cnt0. unfold uses.
    change (filp (f <| refcnt ::= Z.pred |>)) with (filp f). lia.
  - done.
  - intros t' g. rewrite (users_delete t' p _ t) by done. destruct (decide (t' = t)) as [->|Hne].
    + rewrite lookup_insert_eq. intros [= <-]. rewrite bool_decide_eq_true_2 by done.
      change (refcnt (f <| refcnt ::= Z.pred |>)) with (Z.pred (refcnt f)). lia.
    + rewrite lookup_insert_ne by done. rewrite bool_decide_eq_false_2, Z.sub_0_r by done. apply o_refs0.
  - intros p' t' [_ Hp']%lookup_delete_Some. destruct (decide (t' = t)) as [->|Hne]; [by rewrite lookup_insert_eq|].
    rewrite lookup_insert_ne by done. by apply (o_proc0 p').
Qed.

Lemma fs_exit_spec p s :
  fd_ok s -> is_Some (procs s !! p) ->
  exists s', fs_exit p s = Ret s' /\ fd_ok s' /\ procs s' = delete p (procs s).
Proof.
  intros Hok Hp. destruct (files_of_ok _ p s Hok Hp) as (t & f & _ & Hpt & Ht & Hf).
  unfold fs_exit, exit_files, put_files. rewrite Hpt. set (s1 := s <| procs ::= delete p |>).
  change (tables s1) with (tables s). rewrite Ht. change (refcnt (f <| refcnt ::= Z.pred |>)) with (Z.pred (refcnt f)).
  change (filp (f <| refcnt ::= Z.pred |>)) with (filp f).
  destruct (Z.eqb_spec (Z.pred (refcnt f)) 0) as [Hz|Hz].
  - change s1 with (s <| procs := delete p (procs s) |>). rewrite close_files_procs.
    destruct (close_files_spec (filp f) _ s Hok) as (s2 & -> & Hok2 & Ht2 & Hp2).
    { intros i. pose proof (uses_le i _ t f Ht). lia. }
    cbn [mbind res_mbind]. eexists. split; [reflexivity|]. split; [|done].
    pose proof (remove_table_inv _ p t f s2 Hok2 ltac:(by rewrite Hp2) ltac:(by rewrite Ht2) ltac:(lia)) as Hrem.
    rewrite Hp2 in Hrem. eapply fd_inv_ext; [exact Hrem|]. intros i. cbv beta. lia.
  - eexists. split; [reflexivity|]. split; [|done]. apply (leave_table_inv _ p t f s Hok Hpt Ht). lia.
Qed.

(** ** Exec *)

Lemma exec_loop_spec p t n fds s f :
  fd_ok s -> procs s !! p = Some t -> tables s !! t = Some f -> max_fds f = n -> Forall (fun fd => 0 <= fd < n) fds ->
  exists s', exec_loop p fds s = Ret s' /\ fd_ok s' /\ procs s' = procs s.
Proof.
  revert s f. induction fds as [|fd fds IH]; intros s f Hok Hp Ht Hm Hfds; [by exists s|].
  apply Forall_cons in Hfds as [Hfd Hfds]. cbn [exec_loop]. rewrite (files_of_eq s p t f) by done. cbn [mbind res_mbind].
  pose proof (o_table _ _ Hok t f Ht) as Hf.
  assert (in_bitmap (close_on_exec f) fd = true) as ->.
  { unfold in_bitmap. rewrite (t_chunks _ Hf), andb_true_iff, Z.leb_le, Z.ltb_lt. split; [lia|].
    unfold BITCHUNKS, BITCHUNK_BITS. pose proof (Z.div_mod (max_fds f + 64 - 1) 64 ltac:(lia)).
    pose proof (Z.mod_pos_bound (max_fds f + 64 - 1) 64 ltac:(lia)). lia. }
  cbn [negb]. destruct (test_bit (close_on_exec f) fd) eqn:Hb; [|cbn [mbind res_mbind]; by eapply IH].
  destruct (t_bits _ Hf fd ltac:(lia) Hb) as [i Hi]. rewrite Hi. cbn [default from_option id].
  destruct (close_fd_spec p fd s Hok ltac:(by exists t)) as (s1 & r & -> & Hok1 & Hpr1 & Hcase). cbn [mbind res_mbind].
  assert (exists f1, tables s1 !! t = Some f1 /\ max_fds f1 = n) as (f1 & Ht1 & Hm1).
  { destruct (get_filp p fd s) as [[j|]|].
    - destruct Hcase as (_ & _ & _ & Htab). destruct (Htab t Hp) as (f' & Hf' & ->). rewrite lookup_insert_eq.
      eexists. split; [reflexivity|]. change (max_fds f' = n). congruence.
    - destruct Hcase as [_ ->]. by exists f.
    - destruct Hcase as [_ ->]. by exists f. }
  destruct (IH s1 f1 Hok1 ltac:(by rewrite Hpr1) Ht1 Hm1 Hfds) as (s2 & -> & Hok2 & Hpr2). exists s2.
  split; [done|]. split; [done|]. congruence.
Qed.

Lemma exec_close_spec p s :
  fd_ok s -> is_Some (procs s !! p) -> exists s', exec_close p s = Ret s' /\ fd_ok s' /\ procs s' = procs s.
Proof.
  intros Hok Hp. destruct (files_of_ok _ p s Hok Hp) as (t & f & Hfo & Hpt & Ht & Hf). unfold exec_close. rewrite Hfo.
  cbn [mbind res_mbind]. apply (exec_loop_spec p t (max_fds f) _ s f); try done.
  apply Forall_forall. intros fd ?%elem_of_seqZ. lia.
Qed.

(** ** Runs *)

(** The calls of the processes, one after the other. *)
Inductive fd_event :=
| EvBoot (p new : Z)
| EvOpen (memory : bool) (locked : Z -> bool) (vmnt inode p flags : Z)
| EvClose (p fd : Z)
| EvDup (memory : bool) (p fd newfd : Z)
| EvFcntl (memory : bool) (lock : Z -> option Z) (p fd request argx : Z)
| EvCopyfd (memory : bool) (p : Z) (other : option Z) (fd how : Z)
| EvFork (shared : bool) (child parent new : Z)
| EvExit (p : Z)
| EvExec (p : Z).

Definition fd_perform (e : fd_event) (s : fdsys) : res fdsys :=
  match e with
  | EvBoot p new => Ret (boot_files true p new s)
  | EvOpen memory locked vmnt inode p flags => '(s, _) ← anon_inode_get_fd memory locked vmnt inode p flags s; Ret s
  | EvClose p fd => '(s, _) ← do_close p fd s; Ret s
  | EvDup memory p fd newfd => '(s, _) ← do_dup memory p fd newfd s; Ret s
  | EvFcntl memory lock p fd request argx => '(s, _) ← do_fcntl memory lock p fd request argx s; Ret s
  | EvCopyfd memory p other fd how => '(s, _) ← do_copyfd memory p other fd how s; Ret s
  | EvFork shared child parent new => '(s, _) ← fs_fork true true shared child parent new s; Ret s
  | EvExit p => fs_exit p s
  | EvExec p => exec_close p s
  end.

(** A process may ask for a descriptor up to the size of its table, and its table
    may grow up to 2^30 descriptors. *)
Definition within (p : Z) (memory : bool) (start : Z) (s : fdsys) : bool :=
  match files_of p s with
  | Ret (_, f) => (start <=? max_fds f) && (negb memory || (table_size (max_fds f) <=? 2 ^ 30))
  | Crash _ => false
  end.

Definition fd_legal (e : fd_event) (s : fdsys) : bool :=
  match e with
  | EvBoot p new => bool_decide (procs s !! p = None) && bool_decide (tables s !! new = None)
  | EvOpen memory _ _ _ p _ => within p memory 0 s
  | EvClose p _ | EvExit p | EvExec p => within p false 0 s
  | EvDup memory p _ newfd => (-1 <=? newfd) && within p memory newfd s
  | EvFcntl memory _ p _ request argx =>
      within p memory (if (request =? F_DUPFD) || (request =? F_DUPFD_CLOEXEC) then argx else 0) s
  | EvCopyfd memory p other _ _ => within p memory 0 s && match other with Some d => within d memory 0 s | None => true end
  | EvFork _ child parent new =>
      bool_decide (procs s !! child = None) && bool_decide (tables s !! new = None) && within parent true 0 s
  end.

Definition no_files : fdsys := mk_fdsys (fun _ => mk_file 0 0 0 false) ∅ ∅ [].

Fixpoint fd_run (evs : list fd_event) (s : fdsys) : res fdsys :=
  match evs with
  | [] => Ret s
  | e :: evs => s ← fd_perform e s; fd_run evs s
  end.

(** Every call of a run is legal in the state in which it is made; a run that ends
    in a crash is not excluded. *)
Fixpoint legal_run (evs : list fd_event) (s : fdsys) : bool :=
  match evs with
  | [] => true
  | e :: evs => fd_legal e s && match fd_perform e s with Ret s' => legal_run evs s' | Crash _ => true end
  end.

Lemma within_spec debt p memory start s :
  fd_inv debt s -> within p memory start s = true -> is_Some (procs s !! p) /\ fd_limit p memory start s.
Proof.
  intros Hok. unfold within, files_of. destruct (procs s !! p) as [t|] eqn:Hp; [|done].
  destruct (tables s !! t) as [f|] eqn:Ht; [|done]. rewrite andb_true_iff, orb_true_iff, !Z.leb_le.
  intros [Hs Hm]. split; [done|]. intros t' f' Hp' Ht'. replace t' with t in * by congruence.
  replace f' with f by congruence. split; [done|]. intros ->. by destruct Hm.
Qed.

Lemma alloc_ok f : files_alloc true = Some f -> table_ok f /\ refcnt f = 1 /\ forall i, occ i (filp f) = 0.
Proof.
  intros [= <-]. split; [|split; [done|intros i; apply (occ_free i 32)]]. split; try done.
  - split; [|done]. apply Forall_singleton. lia.
  - intros fd _. cbn [close_on_exec]. change [0] with ([] ++ replicate 1 0). rewrite test_bit_grown.
    unfold test_bit, GET_BIT, MAP_CHUNK, chunk. by rewrite nth_overflow, Z.land_0_l by (cbn; lia).
Qed.

Lemma fd_perform_ok e s : fd_ok s -> fd_legal e s = true -> exists s', fd_perform e s = Ret s' /\ fd_ok s'.
Proof.
  intros Hok. destruct e; cbn [fd_legal fd_perform]; rewrite ?andb_true_iff, ?bool_decide_eq_true.
  - intros [Hp Hn]. eexists. split; [reflexivity|]. unfold boot_files. destruct (files_alloc true) as [f|] eqn:Hf; [|done].
    destruct (alloc_ok f Hf) as (Htab & Hr & Hocc). eapply fd_inv_ext; [by apply (add_table_inv _ p new f s Hok)|].
    intros i. cbv beta. rewrite Hocc. done.
  - intros [Hp Hlim]%(within_spec (fun _ => 0)); [|done].
    destruct (anon_inode_get_fd_spec memory locked vmnt inode p flags s Hok Hp Hlim) as (s' & r & -> & Hok' & _). by exists s'.
  - intros [Hp _]%(within_spec (fun _ => 0)); [|done]. unfold do_close.
    destruct (close_fd_spec p fd s Hok Hp) as (s' & r & -> & Hok' & _). by exists s'.
  - rewrite Z.leb_le. intros [Hn [Hp Hlim]%(within_spec (fun _ => 0))]; [|done].
    destruct (do_dup_spec memory p fd newfd s Hok Hp Hn Hlim) as (s' & r & -> & Hok' & _). by exists s'.
  - intros [Hp Hlim]%(within_spec (fun _ => 0)); [|done].
    destruct (do_fcntl_spec memory lock p fd request argx s Hok Hp) as (s' & r & -> & Hok' & _); [|by exists s'].
    intros Hreq. rewrite <- !Z.eqb_eq, <- orb_true_iff in Hreq. by rewrite Hreq in Hlim.
  - intros [[Hp Hlim]%(within_spec (fun _ => 0)) Hother]; [|done].
    destruct (do_copyfd_spec memory p other fd how s Hok Hp Hlim) as (s' & r & -> & Hok' & _); [|by exists s'].
    intros d ->. by apply (within_spec (fun _ => 0)).
  - intros [[Hc Hn] [Hp Hlim]%(within_spec (fun _ => 0))]; [|done].
    destruct (fs_fork_spec shared child parent new s Hok Hp Hc Hn Hlim) as (s' & -> & Hok' & _). by exists s'.
  - intros [Hp _]%(within_spec (fun _ => 0)); [|done].
    destruct (fs_exit_spec p s Hok Hp) as (s' & -> & Hok' & _). by exists s'.
  - intros [Hp _]%(within_spec (fun _ => 0)); [|done].
    destruct (exec_close_spec p s Hok Hp) as (s' & -> & Hok' & _). by exists s'.
Qed.

Lemma no_files_ok : fd_ok no_files.
Proof. by split. Qed.

Lemma fd_run_ok evs s : fd_ok s -> legal_run evs s = true -> exists s', fd_run evs s = Ret s' /\ fd_ok s'.
Proof.
  revert s. induction evs as [|e evs IH]; intros s Hok; cbn [legal_run fd_run]; [by exists s|].
  rewrite andb_true_iff. intros [Hl Hrest]. destruct (fd_perform_ok e s Hok Hl) as (s1 & He & Hok1). rewrite He in *.
  cbn [mbind res_mbind]. by apply IH.
Qed.

(** What dup and close do to a descriptor that refers to file [i]. *)
Definition dup_close_exact (s : fdsys) : Prop :=
  forall p fd i, get_filp p fd s = Ret (Some i) ->
  (forall newfd, 0 <= newfd -> within p true newfd s = true ->
     exists s', do_dup true p fd newfd s = Ret (s', newfd) /\ get_filp p newfd s' = Ret (Some i)) /\
  (exists s', do_close p fd s = Ret (s', 0) /\ get_filp p fd s' = Ret None /\
     released s' = released s ++ (if uses i (tables s) =? 1 then [i] else [])).

Lemma dup_close_ok s : fd_ok s -> dup_close_exact s.
Proof.
  intros Hok p fd i Hi.
  assert (is_Some (procs s !! p)) as Hp by (unfold get_filp, files_of in Hi; by destruct (procs s !! p)). split.
  - intros newfd Hn [_ Hlim]%(within_spec (fun _ => 0)); [|done].
    destruct (do_dup_spec true p fd newfd s Hok Hp ltac:(lia) Hlim) as (s' & r & Hd & _ & _ & Hr). rewrite Hi in Hr.
    destruct Hr as [[_ ?]|(Hg & _ & Heq)]; [done|]. rewrite (Heq Hn) in *. by exists s'.
  - destruct (close_fd_spec p fd s Hok Hp) as (s' & r & Hc & _ & _ & Hcase). rewrite Hi in Hcase.
    destruct Hcase as (-> & Hg & Hrel & _). exists s'. split; [done|]. split; [done|].
    rewrite (o_cnt _ _ Hok), Z.add_0_r in Hrel. done.
Qed.


(** Two processes with tables of their own; the first opens two files, one of them
    to be closed by exec, duplicates one, forks a child that shares its table and a
    child with a copy of it, and gives a descriptor to the second process; then
    files are closed, a child executes a program and the first process exits. *)
Definition sample_run : list fd_event :=
  [EvBoot 1 1; EvBoot 2 2; EvOpen true (fun _ => false) 0 0 1 2; EvOpen true (fun _ => false) 0 0 1 O_CLOEXEC;
   EvDup true 1 0 (-1); EvDup true 1 0 32; EvFcntl true (fun _ => None) 1 1 F_DUPFD 10; EvFork true 3 1 0; EvFork false 4 1 5;
   EvCopyfd true 1 (Some 2) 1 COPYFD_TO; EvClose 1 1; EvExec 4; EvFcntl true (fun _ => None) 1 0 F_SETFL O_NONBLOCK;
   EvExit 1; EvClose 4 0; EvClose 4 40].


(** ** Failures *)


(** A descriptor past the end of the table is answered by [get_fd], or there is
    no bit for it. *)
Lemma get_fd_past memory p t f start fd0 s :
  procs s !! p = Some t -> tables s !! t = Some f -> max_fds f < start < 2 ^ 32 -> 0 <= max_fds f ->
  (exists c, get_fd memory p start fd0 s = Crash c) \/ get_fd memory p start fd0 s = Ret (set_files t f s, 0, fd0).
Proof.
  intros Hp Ht Hs Hm. unfold get_fd, files_of. rewrite Hp, Ht. cbn [mbind res_mbind]. rewrite wrapu_small by lia.
  rewrite (proj2 (Z.ltb_ge _ _)), (proj2 (Z.eqb_neq _ _)) by lia. cbn [orb]. unfold check_fd.
  destruct (negb _); [left; by eexists|]. destruct (test_bit _ _); [left; by eexists|by right].
Qed.

Lemma share_filp_past p t f fd i s :
  procs s !! p = Some t -> tables s !! t = Some f -> max_fds f <= wrapu 32 fd ->
  exists c, share_filp p fd i (set_files t f s) = Crash c.
Proof.
  intros Hp Ht Hfd. exists Panic. unfold share_filp, install_filp, files_of.
  change (procs (upd_file _ _ _) !! p) with (procs s !! p). rewrite Hp.
  change (tables (upd_file _ _ _) !! t) with (<[t := f]> (tables s) !! t). rewrite lookup_insert_eq. cbn [mbind res_mbind].
  by rewrite (proj2 (Z.leb_le _ _)).
Qed.

Lemma dup_past memory p t f fd newfd i s :
  procs s !! p = Some t -> tables s !! t = Some f -> 0 <= max_fds f < newfd -> newfd < 2 ^ 31 ->
  get_filp p fd s = Ret (Some i) -> exists c, do_dup memory p fd newfd s = Crash c.
Proof.
  intros Hp Ht Hn Hb Hi. destruct (get_filp_Some s p t f Hp Ht fd i Hi) as [Hfd _]. unfold do_dup.
  rewrite (files_of_eq s p t f) by done. cbn [mbind res_mbind]. unfold dup_close.
  rewrite (proj2 (Z.ltb_ge newfd _)), andb_false_r by lia. cbn [mbind res_mbind]. rewrite Hi. cbn [mbind res_mbind].
  rewrite (proj2 (Z.eqb_neq fd newfd)), andb_false_r, (proj2 (Z.eqb_neq newfd (-1))) by lia.
  destruct (get_fd_past memory p t f newfd newfd s Hp Ht ltac:(lia) ltac:(lia)) as [[c ->]| ->]; [by exists c|].
  cbn [mbind res_mbind negb Z.eqb]. apply share_filp_past; [done..|]. rewrite wrapu_small; lia.
Qed.

Lemma fcntl_past memory lock p t f fd request argx i s :
  procs s !! p = Some t -> tables s !! t = Some f -> 0 <= max_fds f < argx -> argx < 2 ^ 31 ->
  request = F_DUPFD \/ request = F_DUPFD_CLOEXEC -> get_filp p fd s = Ret (Some i) ->
  exists c, do_fcntl memory lock p fd request argx s = Crash c.
Proof.
  intros Hp Ht Hn Hb Hreq Hi. unfold do_fcntl. rewrite Hi. cbn [mbind res_mbind].
  rewrite <- !Z.eqb_eq, <- orb_true_iff in Hreq. rewrite Hreq, (proj2 (Z.ltb_ge argx 0)) by lia.
  destruct (get_fd_past memory p t f argx (-1) s Hp Ht ltac:(lia) ltac:(lia)) as [[c ->]| ->]; [by exists c|].
  cbn [mbind res_mbind negb Z.eqb]. apply share_filp_past; [done..|]. change (wrapu 32 (-1)) with (2 ^ 32 - 1). lia.
Qed.

Definition fd_state (evs : list fd_event) : fdsys := default no_files (match fd_run evs no_files with Ret s => Some s | Crash _ => None end).
(** A process with one open file *)
Definition one_open : list fd_event := [EvBoot 1 1; EvOpen true (fun _ => false) 0 0 1 2].
Definition answer (r : res (fdsys * Z)) : option Z := match r with Ret (_, n) => Some n | Crash _ => None end.
Definition left_by (r : res (fdsys * Z)) : fdsys := match r with Ret (s, _) => s | Crash _ => no_files end.
Definition size_of (p : Z) (s : fdsys) : Z := match files_of p s with Ret (_, f) => max_fds f | Crash _ => 0 end.
Definition refs_of (p : Z) (s : fdsys) : Z := match files_of p s with Ret (_, f) => refcnt f | Crash _ => 0 end.
(** Each process forks the next one. *)
Definition generations (n : Z) : list fd_event := (fun k => EvFork false (k + 2) (k + 1) (k + 2)) <$> seqZ 0 n.

(** Dup2 to a descriptor above the size of the caller's table crashes the file
    server, and so does fcntl with F_DUPFD and such an argument. dup2 of a
    descriptor that is not open closes the descriptor asked for before it answers
    EBADF. A fork that fails for lack of memory leaves the child with the table of
    its parent, not counted; if this child exits the parent's table is gone. And
    from 128 descriptors on, a fork doubles the table: the table of the child in
    the fifth generation has 4096 descriptors while one is in use. *)
Theorem fd_error_paths :
  (forall memory p t f fd newfd i s,
     procs s !! p = Some t -> tables s !! t = Some f -> 0 <= max_fds f < newfd -> newfd < 2 ^ 31 ->
     get_filp p fd s = Ret (Some i) ->
     (exists c, do_dup memory p fd newfd s = Crash c) /\
     (forall lock, exists c, do_fcntl memory lock p fd F_DUPFD newfd s = Crash c)) /\
  (let s := fd_state one_open in
   get_filp 1 0 s = Ret (Some 0) /\ answer (do_dup true 1 5 0 s) = Some (- EBADF) /\
   get_filp 1 0 (left_by (do_dup true 1 5 0 s)) = Ret None /\ released (left_by (do_dup true 1 5 0 s)) = [0]) /\
  (let s := left_by (fs_fork false false false 2 1 2 (fd_state one_open)) in
   answer (fs_fork false false false 2 1 2 (fd_state one_open)) = Some ENOMEM /\
   procs s !! 2 = Some 1 /\ procs s !! 1 = Some 1 /\ refs_of 1 s = 1 /\
   (s' ← fs_exit 2 s; get_filp 1 0 s') = Crash BadPtr) /\
  (size_of 1 (fd_state (one_open ++ [EvDup true 1 0 32; EvClose 1 32])) = 128 /\
   size_of 6 (fd_state (one_open ++ [EvDup true 1 0 32; EvClose 1 32] ++ generations 5)) = 4096).
Proof.
  split; [|split; [|split]].
  - intros memory p t f fd newfd i s Hp Ht Hn Hb Hi. split; [by apply (dup_past memory p t f fd newfd i)|].
    intros lock. apply (fcntl_past memory lock p t f fd F_DUPFD newfd i s); auto.
  - vm_compute. repeat split.
  - vm_compute. repeat split.
  - vm_compute. split; reflexivity.
Qed.
