(* ===== verification/FileErrors.v ===== *)
(** * Paths on which the file server and the file systems go wrong

    The failures of pipes, event descriptors, the buffer cache and the tables of
    descriptors. *)

From S2P Require Import Prelude WaitQueue PageCache FsCache FsCacheProps EventFd Pipe PipeProps FdTable FdProps.

